(* ===== verification/_CoqProject ===== *)
-Q . S2P
Prelude.v
Errors.v
Binary.v
Base64.v
Hex.v
GoText.v
Utf8.v
Json.v
Codec.v
Http.v
GoIO.v
Console.v
Sha256.v
Aes.v
Cipher.v
Ghash.v
Format.v
Random.v
Aead.v
Binding.v
ChaCha.v
Cbc.v
Auto.v
PaddingOracle.v
Sign.v
Hkdf.v
KeyRing.v
Rotation.v
Kms.v
Buffers.v
SharedKms.v
Asymmetric.v
Stream.v
StreamBinding.v
TimeLock.v
Sessions.v
Services.v
Password.v
Bcrypt.v
Ed25519.v
GenVectors.v
Programs.v
TokenPrograms.v
Goroutines.v
Accounts.v
Webhook.v
AuditLog.v
Recipes.v
KeyPrograms.v
RecordPrograms.v
WebPrograms.v
