(* ===== verification/Prelude.v ===== *)
(** * A model of github.com/ubgo/crypt

    The package [crypt] seals, signs and hashes: authenticated encryption in a versioned wire
    format, a streaming form of it, key rings, envelope encryption against a key management
    service, public-key sealing, expiring tokens, AES-CBC for old data, password hashes and the
    usual helpers.  This development models the package function by function, from the Go source
    under src/, and proves what the functions promise to each other and to their callers.

    ** How Go is modelled

    A Go string and a byte slice are both a [list byte].  Integers are [Z] with the wrap-around
    of their width written out where the code computes at a width ([u32], [u64], [i64] below).
    A function that returns (value, error) is an [outcome]: [Ok], [Err] or [Panic]; a slice
    expression or an index out of bounds is a [Panic], so "never panics" is a theorem and not a
    consequence of the types.  Error values are the type [Errors.error]: the sentinels of the
    source as constructors, [fmt.Errorf] with [%w] as [Wrapf] over the wrapped error, and
    [errors.Is] as [errors_Is].  Calls that read randomness or the clock run in the state monad
    [GoIO.M] over a [world] (the random source, an [io.Reader], and the time); the two stream
    functions run over an explicit reader and writer, whose reads may be short and whose calls
    may fail at any point.

    ** The parts, and the files that model them

    Foundations.  [Prelude] (this file): bytes, lengths, automation, splitting a list in blocks.
    [Errors]: src/errors.go and the error values of the packages called.  [Format]: src/format.go.
    [Binary], [Base64], [Hex], [GoIO]: the parts of encoding/binary, encoding/base64, encoding/hex
    and io the code uses, with their round trips and what the decoders tolerate.  [GoText]: the
    used part of strings and strconv.  [Utf8], [Json], [Codec]: UTF-8 and encoding/json for structs
    of strings, integers and string lists, with the round trip of the two.  [Http]: requests,
    responses, cookies.  [Console]: the bodies of [main], with the lines they print and how they end.

    Primitives of the standard library, executable: [Sha256] (SHA-256, HMAC, the constant-time
    comparison), [Aes] (the block cipher for the three key sizes, with the proof that decryption
    inverts encryption), [Cipher] (the interface [AEAD] with its laws [AEADOk], GCM proved to
    satisfy them, and CBC), [Ghash] (GF(2^128) is a field, and a GHASH collision of two inputs is
    the root of a polynomial bounded by their length).

    Sealing.  [Aead]: src/aead.go.  [Binding]: what the additional data and the tag of an AES-GCM
    text pin down, over [Ghash].  [ChaCha]: src/aead_chacha20.go.  [Cbc]: src/cbc.go.  [Auto]:
    src/auto.go, which calls both [Aead] and [Cbc].  [PaddingOracle]: what the errors of the last two
    give away, by an attacker written as a program that counts its questions.  [Stream]: src/stream.go, its two loops
    [seal_loop] and [open_loop] over the frame format.  [StreamBinding]: what its end mark is
    bound to, over [Binding].  [TimeLock]: src/timelock.go over [Aead].

    Keys.  [KeyRing]: src/keyring.go, the ring as a [gmap] from key ids to ciphers with the order
    in which Go visits the map as an argument.  [Kms]: src/kms.go, the [KMS] interface as a record
    with the laws [KMSOk], [EnvelopeSealer] proved against these laws alone, [StaticKMS] proved to
    satisfy them.  [Buffers]: the same code over a store in which a data key is the address of a
    buffer, so that the wipe of [EnvelopeSealer] reaches whoever else holds the slice; the contract [Owns] says who
    may write where, [StaticKMS] keeps it, and its value is the one of [Kms].  [SharedKms]: [StaticKMS] with
    its [sync.RWMutex], called by goroutines: a step relation statement by statement, its executable
    form, and the specification it refines, in which [Kms.AddKey] and [Kms.lookup] are single steps.
    [Asymmetric]: src/asymmetric.go over [ChaCha].  [Hkdf]: src/hkdf.go.  [Random]: src/random.go.

    Signatures and passwords.  [Sign]: src/sign.go.  [Ed25519]: src/ed25519.go.  [Password]:
    src/password.go, with strings.Split and the used part of fmt.Sscanf.  [Bcrypt]:
    src/password_bcrypt.go.

    Programs over the package.  [GenVectors]: src/cmd/gen-vectors/main.go.  The programs under
    src/examples/ in two layers.  Their functions: [Sessions] (sessions, links, form tokens and
    cookies with JSON payloads), [Services] (tokens bound to a user, the service around a sealer,
    sealed files, the API key handler), [Rotation] (the states of a rotation), [Accounts] (the two
    logins), [Webhook], [AuditLog], [Recipes] (the multi-key reader, the migration, tenant keys).
    Their [main]: [Programs], [TokenPrograms], [KeyPrograms], [RecordPrograms], [WebPrograms]: every call in order
    and the lines printed; [Goroutines]: the three goroutines of examples/sealer as a step relation.

    ** What the theorems show

    - Round trips, without assuming anything about AES, GCM, SHA-256 or the encodings, all of
      which are computed: [Seal_Open_roundtrip], [Stream_roundtrip], [CBC_encrypt_decrypt],
      [OpenAuto_reads_both]; over the laws of a parameter: [ChaCha20_roundtrip],
      [Asymmetric_roundtrip], [Envelope_roundtrip].
    - What is accepted, exactly: each reader accepts a text if and only if it is what the writer
      of its format produces, up to the base64 decoder's tolerance
      ([Open_accepts_exactly_sealed], [OpenChaCha20_accepts_exactly_sealed],
      [OpenAsymmetric_exact], [KeyRing_Open_v3_exact], [Envelope_Open_exact], [OpenStream_exact],
      [VerifyToken_exact], [unpad_exactly_pad], [VerifyWebhook_exact]).  These are statements about
      the code and hold for every input; the cryptographic claim that an attacker cannot produce
      such a text is not one of them.
    - Streams: the format as a relation that [OpenStream] refines; nothing but authenticated
      plaintext in order reaches the writer, on any input and with any failing writer; every
      strict prefix is refused; which error a cut gives; an end mark set or cleared on the way is
      noticed under every hash key but zero; the nonce and AAD of every chunk [SealStream] writes, which
      are distinct up to 2^32 chunks and repeat after that ([Stream_nonces]); no write error is lost, and of the
      read errors only io.ErrUnexpectedEOF, which is taken for the end of the input ([SealStream_total]).
    - CBC without a key: whoever sees the padding error, or whether [OpenAuto] accepts, reads every text and forges any
      plaintext, with a bound on the questions ([padding_oracle_reads], [OpenAuto_forgeable]).
    - Key rings: the states reachable by [Add], [Remove] and [SetActive] as a relation on
      sequences of calls, an invariant on them, what survives a rotation, what a removal revokes,
      the fallback over all keys in every map order.
    - Envelopes: the interface argument, the exact condition under which the 32-bit slice bounds
      panic, and the wipe of the data key on every path.
    - Envelopes and aliasing: every text opens at any later time when the adapter gives its data keys away
      ([Envelope_history], [StaticKMS_value]); what happens when it keeps the slice ([kept_data_key]).
    - Goroutines on one [StaticKMS]: no race on the map, refinement of the atomic specification,
      no deadlock and a bound on every run ([StaticKMS_atomic], [StaticKMS_progress]); and, proved
      on the specification and carried over, data keys that any goroutine can unwrap
      ([shared_data_keys]).
    - Errors: for each reader, that it never panics (or exactly when), and the documented error
      of each branch in the documented order.
    - Passwords: what verifies against a hash, and what [VerifyPassword] answers on every stored string, by a grammar
      stated apart from the parser: a verdict, [ErrInvalidPasswordHash] or a panic.
    - The vector tables evaluate to testdata/vectors.json, which also tests the model of AES, GCM,
      CBC, SHA-256 and HMAC against known answers.
    - Binding: a text opens under other additional data only if its hash key is one of at most
      as many values as the lengths have blocks ([Open_binds_aad], [Open_forgery_bound]); nothing
      is assumed about AES.
    - The programs: the audit log's verifier, the migration loop, the login that rehashes, the
      webhook verifier, sessions, links, form tokens and cookies through their whole life, files
      sealed over a disk whose calls fail midway, the goroutines that share a sealer in every
      interleaving, and for every [main] all that it prints, on which condition on the inputs.

    ** Parameters

    Third-party packages are arguments of the definitions that use them, with what the code relies
    on as a type class: [ChaChaOk] (golang.org/x/crypto/chacha20poly1305), [X25519Ok]
    (curve25519), [HkdfOk] (hkdf), [ArgonOk] (argon2), [BcryptOk] (bcrypt).  The curve arithmetic
    behind crypto/ed25519 is treated the same way ([Ed25519Ok]).  Every class has a concrete
    instance, used by the witnesses.

    ** Bounds and fuel

    The stream loops carry fuel, one more than the bytes the reader still holds: every turn but
    the last consumes at least one byte (a chunk size is positive, a frame has a length field), so
    it is enough, and since running out is a [Panic] the theorems that exclude panics prove it.
    [chunks] uses the length of its list, one step per non-empty block; [decimal] 20 digits, which
    cover an [int64].  GCM's plaintext limit is [Cipher.gcm_max], 2^36 - 32 bytes; sealing more
    panics as in Go.

    ** What is not modelled

    Timing, memory zeroing by the garbage collector and other side channels.  The [context.Context]
    arguments, which only pass through.  The network between a client and the test server of the
    two HTTP programs: a request is a call of the handler.  The texts of error messages beyond their format strings.  Slice aliasing
    is modelled only where the code writes to a buffer that someone else can see (the data key wiped by
    [EnvelopeSealer], in [Buffers]), and there only for slices over a whole buffer.  What [Printf] makes of a format and its arguments: a printed line is the
    format and the values.  src/doc.go holds no code, and the test suites are not modelled. *)

From Stdlib Require Export ZArith Lia.
From Stdlib Require Import Strings.Byte Strings.String.
From stdpp Require Export base list gmap.
From Stdlib Require Export Init.Byte.
Export String.StringSyntax.

#[global] Open Scope Z_scope.

(** ** Bytes, strings and lengths *)

(** A Go [string] and a Go [[]byte] are both the list of their bytes. *)
Abbreviation bytes := (list byte).

(** Go's [len], an [int]. *)
Definition len {A} (l : list A) : Z := Z.of_nat (length l).

(** The bytes of a literal. *)
Definition lit (s : String.string) : bytes := String.list_byte_of_string s.

(** [int(b)] and [byte(z)]: the second wraps around. *)
Definition bval (b : byte) : Z := Z.of_N (Byte.to_N b).
Definition to_byte (z : Z) : byte :=
  match Byte.of_N (Z.to_N (z mod 256)) with Some b => b | None => x00 end.

(** Bitwise exclusive or of two bytes. *)
Definition bxor (a b : byte) : byte := to_byte (Z.lxor (bval a) (bval b)).

(** All 256 bytes: a quantifier over one byte is decided by a test over this list. *)
Definition all_bytes : list byte := map (fun n => to_byte (Z.of_nat n)) (seq 0 256).

#[global] Instance byte_eq_dec : EqDecision byte := Byte.byte_eq_dec.
#[global] Program Instance byte_countable : Countable byte :=
  inj_countable Byte.to_N Byte.of_N _.
Next Obligation. apply Byte.of_to_N. Qed.

(** The 32-bit and 64-bit unsigned conversions, and [int64(uint64)]. *)
Definition u32 (z : Z) : Z := z mod 2 ^ 32.
Definition u64 (z : Z) : Z := z mod 2 ^ 64.
Definition i64 (z : Z) : Z := (z + 2 ^ 63) mod 2 ^ 64 - 2 ^ 63.

(** ** Automation *)

Create HintDb go discriminated.
Create Rewrite HintDb go.
Create Rewrite HintDb len.

(** Rewrite every length, then decide the arithmetic. *)
Ltac len_simpl := unfold len in *; autorewrite with len in *.
Ltac len_lia := len_simpl; simpl length in *; lia.

(** Decide one boolean test of the goal. *)
Ltac case_bool :=
  match goal with
  | |- context [if ?b then _ else _] =>
      lazymatch type of b with bool => let E := fresh "E" in destruct b eqn:E end
  end.

(** The same in a hypothesis. *)
Ltac case_bool_in H :=
  match type of H with
  | context [if ?b then _ else _] =>
      lazymatch type of b with bool => let E := fresh "E" in destruct b eqn:E end
  end.

(** Turn boolean comparisons into propositions. *)
Ltac b2p :=
  repeat match goal with
  | H : (_ =? _) = true |- _ => apply Z.eqb_eq in H
  | H : (_ =? _) = false |- _ => apply Z.eqb_neq in H
  | H : (_ <? _) = true |- _ => apply Z.ltb_lt in H
  | H : (_ <? _) = false |- _ => apply Z.ltb_ge in H
  | H : (_ <=? _) = true |- _ => apply Z.leb_le in H
  | H : (_ <=? _) = false |- _ => apply Z.leb_gt in H
  | H : negb _ = true |- _ => apply negb_true_iff in H
  | H : negb _ = false |- _ => apply negb_false_iff in H
  | H : andb _ _ = true |- _ => apply andb_true_iff in H as [? ?]
  | H : orb _ _ = false |- _ => apply orb_false_iff in H as [? ?]
  end.

#[export] Hint Rewrite @length_app @length_cons @length_nil @length_take @length_drop
  @length_replicate @length_map @length_zip_with @length_imap @length_seq @length_reverse : len.

(** ** Bytes *)

Lemma bval_range b : 0 <= bval b < 256.
Proof.
  unfold bval. pose proof (Byte.to_N_bounded b). lia.
Qed.

Lemma to_byte_bval b : to_byte (bval b) = b.
Proof.
  unfold to_byte. rewrite Z.mod_small by apply bval_range.
  unfold bval. rewrite N2Z.id, Byte.of_to_N. done.
Qed.

Lemma bval_to_byte z : bval (to_byte z) = z mod 256.
Proof.
  unfold to_byte, bval. pose proof (Z.mod_pos_bound z 256 eq_refl) as Hz.
  destruct (Byte.of_N (Z.to_N (z mod 256))) as [b|] eqn:E.
  - apply Byte.to_of_N in E. rewrite E. lia.
  - apply Byte.of_N_None_iff in E. lia.
Qed.

Lemma bval_to_byte_small z : 0 <= z < 256 -> bval (to_byte z) = z.
Proof. intros H. rewrite bval_to_byte. by apply Z.mod_small. Qed.

Lemma bval_inj a b : bval a = bval b -> a = b.
Proof. intros H. by rewrite <- (to_byte_bval a), <- (to_byte_bval b), H. Qed.

Lemma to_byte_mod z : to_byte (z mod 256) = to_byte z.
Proof. apply bval_inj. rewrite !bval_to_byte. apply Z.mod_mod. lia. Qed.

Lemma all_bytes_In b : In b all_bytes.
Proof.
  unfold all_bytes. apply in_map_iff. exists (Z.to_nat (bval b)).
  pose proof (bval_range b). rewrite Z2Nat.id, to_byte_bval by lia.
  split; [done|]. apply in_seq. lia.
Qed.

(** A boolean property of one byte holds everywhere when it holds on the list. *)
Lemma byte_forall (f : byte -> bool) : forallb f all_bytes = true -> forall b, f b = true.
Proof. intros H b. eapply forallb_forall in H; [exact H|apply all_bytes_In]. Qed.

(** ** Exclusive or *)

Lemma lxor_byte_range a b : 0 <= Z.lxor (bval a) (bval b) < 256.
Proof.
  pose proof (bval_range a); pose proof (bval_range b).
  assert (0 <= Z.lxor (bval a) (bval b)) as H1 by (apply Z.lxor_nonneg; lia).
  split; [done|].
  destruct (Z.eq_dec (Z.lxor (bval a) (bval b)) 0) as [->|Hne]; [lia|].
  change 256 with (2 ^ 8). apply Z.log2_lt_pow2; [lia|].
  pose proof (Z.log2_lxor (bval a) (bval b)) as Hl.
  assert (Hb : forall c, 0 <= bval c < 256 -> Z.log2 (bval c) < 8).
  { intros c Hc. destruct (Z.eq_dec (bval c) 0) as [->|]; [done|].
    apply Z.log2_lt_pow2; lia. }
  pose proof (Hb a ltac:(lia)); pose proof (Hb b ltac:(lia)). lia.
Qed.

Lemma bval_bxor a b : bval (bxor a b) = Z.lxor (bval a) (bval b).
Proof. unfold bxor. apply bval_to_byte_small, lxor_byte_range. Qed.

Lemma bxor_comm a b : bxor a b = bxor b a.
Proof. unfold bxor. by rewrite Z.lxor_comm. Qed.

Lemma bxor_assoc a b c : bxor (bxor a b) c = bxor a (bxor b c).
Proof. apply bval_inj. rewrite !bval_bxor. apply Z.lxor_assoc. Qed.

Lemma bxor_nilpotent a : bxor a a = x00.
Proof. apply bval_inj. by rewrite bval_bxor, Z.lxor_nilpotent. Qed.

Lemma bxor_0_r a : bxor a x00 = a.
Proof. apply bval_inj. rewrite bval_bxor. apply Z.lxor_0_r. Qed.

Lemma bxor_0_l a : bxor x00 a = a.
Proof. rewrite bxor_comm. apply bxor_0_r. Qed.

(** Masking twice with the same byte is the identity. *)
Lemma bxor_cancel a k : bxor (bxor a k) k = a.
Proof. by rewrite bxor_assoc, bxor_nilpotent, bxor_0_r. Qed.

Lemma bxor_eq_0 a b : bxor a b = x00 -> a = b.
Proof.
  intros H. apply (f_equal bval) in H. rewrite bval_bxor in H.
  apply Z.lxor_eq in H. by apply bval_inj.
Qed.

#[export] Hint Rewrite bxor_0_l bxor_0_r bxor_nilpotent bxor_cancel : go.

Lemma zip_bxor_cancel (l k : bytes) :
  (length l <= length k)%nat ->
  zip_with bxor (zip_with bxor l k) k = l.
Proof.
  revert k; induction l as [|a l IH]; intros [|b k] H; simpl in *; try done; try lia.
  f_equal; [apply bxor_cancel|apply IH; lia].
Qed.

(** ** Lists *)

Lemma len_nonneg {A} (l : list A) : 0 <= len l.
Proof. unfold len; lia. Qed.

Lemma len_app {A} (l k : list A) : len (l ++ k) = len l + len k.
Proof. len_lia. Qed.

Lemma len_cons {A} (a : A) l : len (a :: l) = len l + 1.
Proof. len_lia. Qed.

Lemma len_nil {A} : len (@nil A) = 0.
Proof. done. Qed.

Lemma len_replicate {A} n (x : A) : len (replicate n x) = Z.of_nat n.
Proof. len_lia. Qed.

#[export] Hint Rewrite @len_app @len_cons @len_nil @len_replicate : go.

Lemma take_app_len {A} (l k : list A) n : n = length l -> take n (l ++ k) = l.
Proof. intros ->. apply take_app_length. Qed.

Lemma drop_app_len {A} (l k : list A) n : n = length l -> drop n (l ++ k) = k.
Proof. intros ->. apply drop_app_length. Qed.

(** A list of known length is the list of its elements. *)
Ltac destruct_list l H :=
  lazymatch type of H with
  | length _ = O => destruct l; [clear H|discriminate H]
  | length _ = S _ =>
      let x := fresh "x" in
      destruct l as [|x l]; [discriminate H|];
      cbn [length] in H; apply Nat.succ_inj in H; destruct_list l H
  end.

(** ** Splitting a list in pieces of [k] elements; the last may be shorter *)

Fixpoint chunks_go {A} (fuel k : nat) (l : list A) : list (list A) :=
  match fuel, l with
  | _, [] => []
  | O, _ => []
  | S fuel', _ => take k l :: chunks_go fuel' k (drop k l)
  end.

(** Each piece has at least one element, so the length is enough fuel. *)
Definition chunks {A} (k : nat) (l : list A) : list (list A) := chunks_go (length l) k l.

Lemma chunks_go_fuel {A} k (l : list A) f1 f2 :
  (0 < k)%nat -> (length l <= f1)%nat -> (length l <= f2)%nat ->
  chunks_go f1 k l = chunks_go f2 k l.
Proof.
  intros Hk. revert l f2; induction f1 as [|f1 IH]; intros [|a l] [|f2] H1 H2;
    simpl in *; try done; try lia.
  f_equal. apply IH; rewrite length_drop; simpl; lia.
Qed.

Lemma chunks_nil {A} k : chunks k (@nil A) = [].
Proof. done. Qed.

Lemma chunks_step {A} k (l : list A) :
  (0 < k)%nat -> l <> [] -> chunks k l = take k l :: chunks k (drop k l).
Proof.
  intros Hk Hl. unfold chunks. destruct l as [|a l]; [done|]. simpl length. cbn [chunks_go].
  f_equal. apply chunks_go_fuel; [done|rewrite length_drop; simpl; lia..].
Qed.

Lemma chunks_app {A} k (b l : list A) :
  (0 < k)%nat -> length b = k -> chunks k (b ++ l) = b :: chunks k l.
Proof.
  intros Hk Hb. rewrite chunks_step; [|done|destruct b; simpl in *; [lia|done]].
  by rewrite take_app_len, drop_app_len.
Qed.

(** Induction one piece at a time. *)
Lemma chunks_ind {A} (k : nat) (Hk : (0 < k)%nat) (P : list A -> Prop) :
  P [] -> (forall l, l <> [] -> P (drop k l) -> P l) -> forall l, P l.
Proof.
  intros H0 HS l. remember (length l) as n eqn:Hn. revert l Hn.
  induction n as [n IH] using lt_wf_ind. intros l ->.
  destruct l as [|a l]; [done|]. apply HS; [done|].
  apply IH with (length (drop k (a :: l))); [rewrite length_drop; simpl; lia|done].
Qed.

Lemma chunks_join {A} k (l : list A) : (0 < k)%nat -> mjoin (chunks k l) = l.
Proof.
  intros Hk. induction l as [|l Hl IH] using (chunks_ind k Hk); [done|].
  rewrite chunks_step by done. simpl. rewrite IH. apply take_drop.
Qed.

Lemma chunks_length {A} k (l : list A) :
  (0 < k)%nat -> Forall (fun c => (0 < length c <= k)%nat) (chunks k l).
Proof.
  intros Hk. induction l as [|l Hl IH] using (chunks_ind k Hk); [constructor|].
  rewrite chunks_step by done. constructor; [|done].
  destruct l; [done|]. rewrite length_take. simpl. lia.
Qed.

(** A list whose length is a multiple of [k] splits in pieces of exactly [k]. *)
Lemma chunks_aligned {A} k (l : list A) :
  (0 < k)%nat -> len l mod Z.of_nat k = 0 -> Forall (fun c => length c = k) (chunks k l).
Proof.
  intros Hk. induction l as [|l Hl IH] using (chunks_ind k Hk); intros Hm; [constructor|].
  assert (Z.of_nat k <= len l) as Hle.
  { destruct (Z.le_gt_cases (Z.of_nat k) (len l)); [done|].
    rewrite Z.mod_small in Hm by (unfold len in *; lia).
    destruct l; [done|]. unfold len in Hm. simpl in Hm. lia. }
  rewrite chunks_step by done. constructor.
  - rewrite length_take. unfold len in Hle. lia.
  - apply IH. unfold len in *. rewrite length_drop.
    replace (Z.of_nat (length l - k)) with (Z.of_nat (length l) + (-1) * Z.of_nat k) by lia.
    by rewrite Z.mod_add by lia.
Qed.

(** ** Replacing one element of a list *)

Section insert.
Context {A : Type} (l : list A) (i : nat) (x y : A) (Hi : l !! i = Some x).

Lemma insert_split : exists a b, length a = i /\ l = a ++ x :: b /\ <[i := y]> l = a ++ y :: b.
Proof.
  pose proof (lookup_lt_Some _ _ _ Hi). exists (take i l), (drop (S i) l).
  rewrite length_take_le, (take_drop_middle _ _ _ Hi), insert_take_drop by lia. done.
Qed.

Lemma sum_insert f : (sum_list_with f (<[i := y]> l) + f x = sum_list_with f l + f y)%nat.
Proof. destruct insert_split as (a & b & _ & -> & ->). rewrite !sum_list_with_app. cbn [sum_list_with]. lia. Qed.
End insert.

Lemma sum_lookup {A} (f : A -> nat) l i x : l !! i = Some x -> (f x <= sum_list_with f l)%nat.
Proof.
  revert i. induction l as [|y l IH]; intros [|i] H; try done; cbn [sum_list_with].
  - injection H as ->. lia.
  - specialize (IH i H). lia.
Qed.

(** Two elements at different places both count. *)
Lemma sum_lookup_two {A} (f : A -> nat) l i j x y :
  i <> j -> l !! i = Some x -> l !! j = Some y -> (f x + f y <= sum_list_with f l)%nat.
Proof.
  revert i j. induction l as [|z l IH]; intros [|i] [|j] Hne Hx Hy; try done; cbn [sum_list_with].
  - injection Hx as ->. pose proof (sum_lookup f l j y Hy). lia.
  - injection Hy as ->. pose proof (sum_lookup f l i x Hx). lia.
  - specialize (IH i j ltac:(congruence) Hx Hy). lia.
Qed.
