(* ===== verification/Errors.v ===== *)
(** * Error values and fallible computations

    The sentinels of [errors.go] (and those [stream.go], [timelock.go] and [ed25519.go]
    declare), the error values of the Go packages the library calls, [errors.Is], and the
    result of a Go function that may also panic. *)

From stdpp Require Import strings.
From S2P Require Import Prelude.

(** ** Errors *)

(** [fmt.Errorf] with a [%w] verb is [Wrapf]: it keeps the format string and the wrapped
    error; one without is [Errorf].  The formatted arguments are only message text. *)
Inductive error : Type :=
  (* errors.go *)
  | ErrInvalidKey
  | ErrCiphertextTooShort
  | ErrCiphertextNotBlockAligned
  | ErrInvalidPadding
  | ErrUnsupportedVersion
  | ErrTampered
  | ErrInvalidCiphertext
  | ErrUnknownFormat
  | ErrInvalidPasswordHash
  (* stream.go, timelock.go, ed25519.go *)
  | ErrTruncated
  | ErrExpired
  | ErrInvalidSignature
  (* package io *)
  | EOF
  | ErrUnexpectedEOF
  (* encoding/base64, encoding/hex, crypto/aes, crypto/cipher *)
  | CorruptInputError
  | InvalidByteError
  | ErrLength
  | KeySizeError
  | errOpen
  (* any error value the source does not name *)
  | ErrorString (msg : string)
  (* fmt.Errorf *)
  | Errorf (format : string)
  | Wrapf (format : string) (cause : error).

#[global] Instance error_eq_dec : EqDecision error.
Proof. solve_decision. Defined.

(** [errors.Is]: follow the wrapped errors. *)
Fixpoint errors_Is (e target : error) : bool :=
  bool_decide (e = target) ||
  match e with
  | Wrapf _ cause => errors_Is cause target
  | _ => false
  end.

(** ** Results *)

(** What a Go call does: return a value and a nil error, return an error, or panic. *)
Inductive outcome (A : Type) : Type :=
  | Ok (a : A)
  | Err (e : error)
  | Panic (msg : string).
Arguments Ok {A} a.
Arguments Err {A} e.
Arguments Panic {A} msg.

#[global] Instance outcome_eq_dec {A} `{EqDecision A} : EqDecision (outcome A).
Proof. solve_decision. Defined.

#[global] Instance outcome_ret : MRet outcome := fun A a => Ok a.
#[global] Instance outcome_bind : MBind outcome := fun A B f m =>
  match m with Ok a => f a | Err e => Err e | Panic p => Panic p end.

(** [if err != nil { return nil, f(err) }]. *)
Definition map_err {A} (f : error -> error) (m : outcome A) : outcome A :=
  match m with Ok a => Ok a | Err e => Err (f e) | Panic p => Panic p end.

Definition is_ok {A} (m : outcome A) : bool := match m with Ok _ => true | _ => false end.
Definition panics {A} (m : outcome A) : bool := match m with Panic _ => true | _ => false end.

(** The error of a failed call matches a sentinel. *)
Definition fails_with {A} (m : outcome A) (target : error) : bool :=
  match m with Err e => errors_Is e target | _ => false end.

(** ** Indexing and slicing

    [b[i]] and [b[lo:hi]], with the run-time panic outside the bounds.  Go bounds [hi] by the
    capacity; the model bounds it by the length, which is never larger. *)
Definition index (b : bytes) (i : Z) : outcome byte :=
  if (0 <=? i) && (i <? len b) then
    match b !! Z.to_nat i with Some x => Ok x | None => Panic "index out of range" end
  else Panic "index out of range".

Definition slice (b : bytes) (lo hi : Z) : outcome bytes :=
  if (0 <=? lo) && (lo <=? hi) && (hi <=? len b)
  then Ok (take (Z.to_nat (hi - lo)) (drop (Z.to_nat lo) b))
  else Panic "slice bounds out of range".

(** [b[lo:]] *)
Definition slice_from (b : bytes) (lo : Z) : outcome bytes := slice b lo (len b).

(** ** Lemmas *)

Lemma bind_Ok {A B} (a : A) (f : A -> outcome B) : Ok a ≫= f = f a.
Proof. done. Qed.

Lemma bind_Err {A B} e (f : A -> outcome B) : Err e ≫= f = Err e.
Proof. done. Qed.

Lemma bind_Ok_inv {A B} (m : outcome A) (f : A -> outcome B) b :
  m ≫= f = Ok b -> exists a, m = Ok a /\ f a = Ok b.
Proof. destruct m; simpl; intros H; try discriminate. eauto. Qed.

Lemma bind_panics {A B} (m : outcome A) (f : A -> outcome B) :
  panics m = false -> (forall a, m = Ok a -> panics (f a) = false) ->
  panics (m ≫= f) = false.
Proof. destruct m; simpl; auto. Qed.

Lemma map_err_Ok {A} f (m : outcome A) a : map_err f m = Ok a <-> m = Ok a.
Proof. destruct m; simpl; split; congruence. Qed.

Lemma map_err_panics {A} f (m : outcome A) : panics (map_err f m) = panics m.
Proof. by destruct m. Qed.

Lemma errors_Is_refl e : errors_Is e e = true.
Proof. destruct e; apply orb_true_iff; left; by apply bool_decide_eq_true. Qed.

Lemma errors_Is_Wrapf f e t : errors_Is e t = true -> errors_Is (Wrapf f e) t = true.
Proof. intros H. simpl. rewrite H. apply orb_true_r. Qed.

Lemma slice_app b1 b2 b3 lo hi :
  lo = len b1 -> hi = len b1 + len b2 -> slice (b1 ++ b2 ++ b3) lo hi = Ok b2.
Proof.
  intros -> ->. unfold slice. pose proof (len_nonneg b1); pose proof (len_nonneg b2).
  pose proof (len_nonneg b3). rewrite !len_app.
  rewrite !(proj2 (Z.leb_le _ _)) by lia. simpl. f_equal.
  rewrite drop_app_len by len_lia. apply take_app_len. len_lia.
Qed.

Lemma slice_from_app b1 b2 lo : lo = len b1 -> slice_from (b1 ++ b2) lo = Ok b2.
Proof.
  intros ->. unfold slice_from. rewrite <- (app_nil_r b2) at 1.
  apply slice_app; [done|]. by rewrite len_app.
Qed.

Lemma slice_Ok b lo hi :
  0 <= lo <= hi -> hi <= len b ->
  slice b lo hi = Ok (take (Z.to_nat (hi - lo)) (drop (Z.to_nat lo) b)).
Proof.
  intros. unfold slice. by rewrite !(proj2 (Z.leb_le _ _)) by lia.
Qed.

Lemma slice_from_Ok b lo :
  0 <= lo <= len b -> slice_from b lo = Ok (drop (Z.to_nat lo) b).
Proof.
  intros. unfold slice_from. rewrite slice_Ok by lia. f_equal.
  apply take_ge. unfold len in *. rewrite length_drop. lia.
Qed.

Lemma index_head b l i : i = 0 -> index (b :: l) i = Ok b.
Proof.
  intros ->. unfold index. rewrite len_cons. pose proof (len_nonneg l).
  rewrite (proj2 (Z.leb_le _ _)), (proj2 (Z.ltb_lt _ _)) by lia. done.
Qed.

Lemma index_Ok b i : 0 <= i < len b -> exists x, index b i = Ok x /\ b !! Z.to_nat i = Some x.
Proof.
  intros H. unfold index.
  rewrite (proj2 (Z.leb_le _ _)), (proj2 (Z.ltb_lt _ _)) by lia. simpl.
  destruct (lookup_lt_is_Some_2 b (Z.to_nat i)) as [x Hx]; [unfold len in *; lia|].
  exists x. by rewrite Hx.
Qed.

#[export] Hint Resolve errors_Is_refl errors_Is_Wrapf : go.
#[export] Hint Rewrite @map_err_panics @bind_Ok @bind_Err : go.

(** Split a computation of the hypotheses that returned a value. *)
Ltac inv_ok :=
  repeat match goal with
  | H : Ok _ = Ok _ |- _ => injection H as H; try subst
  | H : Err _ = Ok _ |- _ => discriminate H
  | H : Panic _ = Ok _ |- _ => discriminate H
  | H : (if ?b then Err _ else _) = Ok _ |- _ =>
      let E := fresh "E" in destruct b eqn:E; [discriminate H|]
  | H : (if ?b then Panic _ else _) = Ok _ |- _ =>
      let E := fresh "E" in destruct b eqn:E; [discriminate H|]
  | H : map_err _ _ = Ok _ |- _ => apply map_err_Ok in H
  | H : _ ≫= _ = Ok _ |- _ => apply bind_Ok_inv in H as (? & ? & H)
  end.
