(* ===== verification/Binary.v ===== *)
(** * Big-endian integers

    The part of Go's [encoding/binary] the library uses: [BigEndian.PutUint32],
    [BigEndian.Uint32] and their 64-bit forms, as conversions between an integer and its
    bytes, most significant first. *)

From S2P Require Import Prelude Errors.

(** The [n] low bytes of [v]. *)
Fixpoint be_put (n : nat) (v : Z) : bytes :=
  match n with
  | O => []
  | S n' => be_put n' (Z.shiftr v 8) ++ [to_byte v]
  end.

(** The unsigned integer a byte string denotes. *)
Definition be_get (l : bytes) : Z :=
  fold_left (fun acc b => Z.lor (Z.shiftl acc 8) (bval b)) l 0.

Definition PutUint32 (v : Z) : bytes := be_put 4 v.
Definition PutUint64 (v : Z) : bytes := be_put 8 v.

(** [binary.BigEndian.Uint32(b)] reads [b[:4]], and panics on a shorter slice. *)
Definition Uint32 (b : bytes) : outcome Z := w ← slice b 0 4; Ok (be_get w).
Definition Uint64 (b : bytes) : outcome Z := w ← slice b 0 8; Ok (be_get w).

(** ** Lemmas *)

Lemma length_be_put n v : length (be_put n v) = n.
Proof. revert v; induction n as [|n IH]; intros v; simpl; [done|]. rewrite length_app, IH. simpl. lia. Qed.

Lemma len_be_put n v : len (be_put n v) = Z.of_nat n.
Proof. unfold len. by rewrite length_be_put. Qed.

Lemma len_PutUint32 v : len (PutUint32 v) = 4.
Proof. apply len_be_put. Qed.

Lemma len_PutUint64 v : len (PutUint64 v) = 8.
Proof. apply len_be_put. Qed.

Lemma length_PutUint32 v : length (PutUint32 v) = 4%nat.
Proof. apply length_be_put. Qed.

Lemma length_PutUint64 v : length (PutUint64 v) = 8%nat.
Proof. apply length_be_put. Qed.

#[export] Hint Rewrite length_be_put length_PutUint32 length_PutUint64 : len.
#[export] Hint Rewrite len_be_put len_PutUint32 len_PutUint64 : go.

(** Shifting in one byte is multiplication by 256 plus the byte. *)
Lemma lor_shiftl_byte a b : Z.lor (Z.shiftl a 8) (bval b) = a * 256 + bval b.
Proof.
  rewrite <- Z.lxor_lor, <- Z.add_nocarry_lxor; rewrite ?Z.shiftl_mul_pow2 by lia; try done.
  all: apply Z.bits_inj'; intros i Hi; rewrite Z.land_spec, Z.bits_0;
    destruct (Z.ltb_spec i 8);
    [ rewrite Z.mul_pow2_bits_low by lia; done
    | pose proof (bval_range b); rewrite (Z.bits_above_log2 (bval b)); [apply andb_false_r|lia|];
      destruct (Z.eq_dec (bval b) 0) as [->|]; [simpl; lia|];
      apply Z.lt_le_trans with 8; [apply Z.log2_lt_pow2; lia|lia] ].
Qed.

Lemma be_get_snoc l b : be_get (l ++ [b]) = be_get l * 256 + bval b.
Proof. unfold be_get. rewrite fold_left_app. simpl. apply lor_shiftl_byte. Qed.

Lemma be_get_put n v : be_get (be_put n v) = v mod 2 ^ (8 * Z.of_nat n).
Proof.
  revert v; induction n as [|n IH]; intros v; simpl be_put.
  - simpl. by rewrite Z.mod_1_r.
  - rewrite be_get_snoc, IH, bval_to_byte, Z.shiftr_div_pow2 by lia.
    replace (8 * Z.of_nat (S n)) with (8 + 8 * Z.of_nat n) by lia.
    rewrite Z.pow_add_r by lia. change (2 ^ 8) with 256.
    rewrite (Z.rem_mul_r v 256) by lia. lia.
Qed.

Lemma be_get_range l : 0 <= be_get l < 2 ^ (8 * len l).
Proof.
  induction l as [|b l IH] using rev_ind; [done|].
  rewrite be_get_snoc, len_app. change (len [b]) with 1.
  pose proof (bval_range b). pose proof (len_nonneg l).
  replace (8 * (len l + 1)) with (8 * len l + 8) by lia.
  rewrite Z.pow_add_r by lia. lia.
Qed.

Lemma be_put_get l : be_put (length l) (be_get l) = l.
Proof.
  induction l as [|b l IH] using rev_ind; [done|].
  rewrite length_app, Nat.add_comm. simpl be_put. rewrite be_get_snoc.
  pose proof (bval_range b).
  rewrite Z.shiftr_div_pow2 by lia. change (2 ^ 8) with 256.
  rewrite Z.div_add_l, (Z.div_small (bval b)), Z.add_0_r, IH by lia.
  f_equal. f_equal. apply bval_inj. rewrite bval_to_byte.
  rewrite Z.add_comm, Z.mod_add, Z.mod_small by lia. done.
Qed.

(** Two integers with the same [n] low bytes are equal modulo the width. *)
Lemma be_put_inj n v w :
  be_put n v = be_put n w -> v mod 2 ^ (8 * Z.of_nat n) = w mod 2 ^ (8 * Z.of_nat n).
Proof. intros H. by rewrite <- !be_get_put, H. Qed.

Lemma be_put_mod n v : be_put n (v mod 2 ^ (8 * Z.of_nat n)) = be_put n v.
Proof.
  rewrite <- be_get_put. rewrite <- (length_be_put n v) at 1. apply be_put_get.
Qed.

Lemma Uint32_put v l : Uint32 (PutUint32 v ++ l) = Ok (u32 v).
Proof.
  unfold Uint32. rewrite (slice_app [] (PutUint32 v) l) by (by rewrite ?len_PutUint32).
  simpl mbind. f_equal. apply be_get_put.
Qed.

Lemma Uint64_put v l : Uint64 (PutUint64 v ++ l) = Ok (u64 v).
Proof.
  unfold Uint64. rewrite (slice_app [] (PutUint64 v) l) by (by rewrite ?len_PutUint64).
  simpl mbind. f_equal. apply be_get_put.
Qed.
