(* ===== verification/Base64.v ===== *)
(** * Base64

    Go's [encoding/base64] as the library uses it: [RawURLEncoding] for every ciphertext and
    token, [RawStdEncoding] inside PHC strings, and the padded [StdEncoding] of the example
    programs.  None is strict: the decoder skips carriage returns and line feeds, and drops the
    spare bits of the last character. *)

From Stdlib Require Import Strings.String.
From S2P Require Import Prelude Errors.

(** The two alphabets differ in the characters of the values 62 and 63. *)
Record encoding := { enc_62 : byte; enc_63 : byte }.

Definition RawURLEncoding : encoding := {| enc_62 := x2d; enc_63 := x5f |}.
Definition RawStdEncoding : encoding := {| enc_62 := x2b; enc_63 := x2f |}.

(** The character of a 6-bit value. *)
Definition enc_char (e : encoding) (v : Z) : byte :=
  if v <? 26 then to_byte (65 + v)
  else if v <? 52 then to_byte (97 + (v - 26))
  else if v <? 62 then to_byte (48 + (v - 52))
  else if v =? 62 then enc_62 e else enc_63 e.

(** The 6-bit value of a character, [decodeMap] without the 0xff entries. *)
Definition dec_char (e : encoding) (c : byte) : option Z :=
  let v := bval c in
  if (65 <=? v) && (v <=? 90) then Some (v - 65)
  else if (97 <=? v) && (v <=? 122) then Some (v - 97 + 26)
  else if (48 <=? v) && (v <=? 57) then Some (v - 48 + 52)
  else if bool_decide (c = enc_62 e) then Some 62
  else if bool_decide (c = enc_63 e) then Some 63
  else None.

(** [EncodeToString]: three bytes become four characters; one or two trailing bytes become
    two or three. *)
Fixpoint EncodeToString (e : encoding) (src : bytes) : bytes :=
  match src with
  | a :: b :: c :: rest =>
      let val := Z.lor (Z.lor (Z.shiftl (bval a) 16) (Z.shiftl (bval b) 8)) (bval c) in
      enc_char e (Z.land (Z.shiftr val 18) 63) :: enc_char e (Z.land (Z.shiftr val 12) 63) ::
      enc_char e (Z.land (Z.shiftr val 6) 63) :: enc_char e (Z.land val 63) ::
      EncodeToString e rest
  | [a; b] =>
      let val := Z.lor (Z.shiftl (bval a) 16) (Z.shiftl (bval b) 8) in
      [enc_char e (Z.land (Z.shiftr val 18) 63); enc_char e (Z.land (Z.shiftr val 12) 63);
       enc_char e (Z.land (Z.shiftr val 6) 63)]
  | [a] =>
      let val := Z.shiftl (bval a) 16 in
      [enc_char e (Z.land (Z.shiftr val 18) 63); enc_char e (Z.land (Z.shiftr val 12) 63)]
  | [] => []
  end.

(** The bytes of a quantum: [decodeQuantum] packs up to four values in 24 bits and keeps the
    first [dlen - 1] bytes; one lone value is an error. *)
Definition quantum (vs : list Z) : option bytes :=
  let pack v0 v1 v2 v3 :=
    Z.lor (Z.lor (Z.lor (Z.shiftl v0 18) (Z.shiftl v1 12)) (Z.shiftl v2 6)) v3 in
  match vs with
  | [] => Some []
  | [v0; v1] => let val := pack v0 v1 0 0 in Some [to_byte (Z.shiftr val 16)]
  | [v0; v1; v2] =>
      let val := pack v0 v1 v2 0 in
      Some [to_byte (Z.shiftr val 16); to_byte (Z.shiftr val 8)]
  | [v0; v1; v2; v3] =>
      let val := pack v0 v1 v2 v3 in
      Some [to_byte (Z.shiftr val 16); to_byte (Z.shiftr val 8); to_byte val]
  | _ => None
  end.

Definition is_newline (c : byte) : bool := bool_decide (c = x0a) || bool_decide (c = x0d).

(** The decoder loop: [acc] holds the values of the quantum being read. *)
Fixpoint decode_loop (e : encoding) (acc : list Z) (src : bytes) : outcome bytes :=
  match src with
  | [] =>
      match quantum acc with Some out => Ok out | None => Err CorruptInputError end
  | c :: src' =>
      match dec_char e c with
      | Some v =>
          match acc with
          | [v0; v1; v2] =>
              rest ← decode_loop e [] src';
              match quantum [v0; v1; v2; v] with
              | Some out => Ok (out ++ rest)
              | None => Err CorruptInputError
              end
          | _ => decode_loop e (acc ++ [v]) src'
          end
      | None => if is_newline c then decode_loop e acc src' else Err CorruptInputError
      end
  end.

Definition DecodeString (e : encoding) (s : bytes) : outcome bytes := decode_loop e [] s.

(** A proper alphabet: the two special characters are distinct, and neither letters, digits
    nor line breaks. *)
Class EncodingOk (e : encoding) : Prop := {
  enc_char_dec v : 0 <= v < 64 -> dec_char e (enc_char e v) = Some v;
  newline_not_char c : is_newline c = true -> dec_char e c = None;
  dec_char_range c v : dec_char e c = Some v -> 0 <= v < 64
}.

(** ** Arithmetic of the 24-bit quantum *)

Lemma lor_add a b n : 0 <= b < 2 ^ n -> 0 <= n -> Z.lor (a * 2 ^ n) b = a * 2 ^ n + b.
Proof.
  intros Hb Hn. rewrite <- Z.lxor_lor, <- Z.add_nocarry_lxor; try done.
  all: apply Z.bits_inj'; intros i Hi; rewrite Z.land_spec, Z.bits_0;
    destruct (Z.ltb_spec i n);
    [ rewrite Z.mul_pow2_bits_low by lia; done
    | destruct (Z.eq_dec b 0) as [->|]; [rewrite Z.bits_0; apply andb_false_r|];
      rewrite (Z.bits_above_log2 b); [apply andb_false_r|lia|];
      apply Z.lt_le_trans with n; [apply Z.log2_lt_pow2; lia|lia] ].
Qed.

Lemma pack3 a b c :
  0 <= a < 256 -> 0 <= b < 256 -> 0 <= c < 256 ->
  Z.lor (Z.lor (Z.shiftl a 16) (Z.shiftl b 8)) c = a * 65536 + b * 256 + c.
Proof.
  intros. rewrite !Z.shiftl_mul_pow2 by lia.
  rewrite (lor_add a (b * 2 ^ 8) 16) by lia.
  replace (a * 2 ^ 16 + b * 2 ^ 8) with ((a * 2 ^ 8 + b) * 2 ^ 8) by lia.
  rewrite lor_add by lia. lia.
Qed.

Lemma pack4 v0 v1 v2 v3 :
  0 <= v0 < 64 -> 0 <= v1 < 64 -> 0 <= v2 < 64 -> 0 <= v3 < 64 ->
  Z.lor (Z.lor (Z.lor (Z.shiftl v0 18) (Z.shiftl v1 12)) (Z.shiftl v2 6)) v3
  = v0 * 262144 + v1 * 4096 + v2 * 64 + v3.
Proof.
  intros. rewrite !Z.shiftl_mul_pow2 by lia.
  rewrite (lor_add v0 (v1 * 2 ^ 12) 18) by lia.
  replace (v0 * 2 ^ 18 + v1 * 2 ^ 12) with ((v0 * 2 ^ 6 + v1) * 2 ^ 12) by lia.
  rewrite (lor_add _ (v2 * 2 ^ 6) 12) by lia.
  replace ((v0 * 2 ^ 6 + v1) * 2 ^ 12 + v2 * 2 ^ 6)
    with (((v0 * 2 ^ 6 + v1) * 2 ^ 6 + v2) * 2 ^ 6) by lia.
  rewrite lor_add by lia. lia.
Qed.

Lemma sextet v n : 0 <= n -> Z.land (Z.shiftr v n) 63 = (v / 2 ^ n) mod 64.
Proof.
  intros. change 63 with (Z.ones 6). rewrite Z.land_ones by lia.
  by rewrite Z.shiftr_div_pow2.
Qed.

Lemma sextet0 v : Z.land v 63 = v mod 64.
Proof. change 63 with (Z.ones 6). by rewrite Z.land_ones. Qed.

(** ** The alphabets *)

Lemma sextet_forall (f : Z -> bool) :
  forallb f (map Z.of_nat (seq 0 64)) = true -> forall v, 0 <= v < 64 -> f v = true.
Proof.
  intros H v Hv. eapply forallb_forall in H; [exact H|].
  apply in_map_iff. exists (Z.to_nat v). rewrite Z2Nat.id by lia.
  split; [done|]. apply in_seq. lia.
Qed.

Lemma dec_char_bound e c v : dec_char e c = Some v -> 0 <= v < 64.
Proof.
  unfold dec_char. pose proof (bval_range c).
  repeat case_bool; intros [= <-]; b2p; lia.
Qed.

Lemma char_tests_ok e :
  forallb (fun v => bool_decide (dec_char e (enc_char e v) = Some v))
    (map Z.of_nat (seq 0 64)) = true ->
  forallb (fun c => negb (is_newline c) || bool_decide (dec_char e c = None)) all_bytes = true ->
  EncodingOk e.
Proof.
  intros H1 H2. split.
  - intros v Hv. pose proof (sextet_forall _ H1 v Hv) as H. simpl in H.
    by apply bool_decide_eq_true in H.
  - intros c Hc. pose proof (byte_forall _ H2 c) as H. simpl in H.
    rewrite Hc in H. by apply bool_decide_eq_true in H.
  - apply dec_char_bound.
Qed.

#[global] Instance RawURLEncoding_ok : EncodingOk RawURLEncoding.
Proof. apply char_tests_ok; vm_compute; reflexivity. Qed.

#[global] Instance RawStdEncoding_ok : EncodingOk RawStdEncoding.
Proof. apply char_tests_ok; vm_compute; reflexivity. Qed.

(** ** Round trip *)

(** Induction three bytes at a time. *)
Lemma bytes_ind3 (P : bytes -> Prop) :
  P [] -> (forall a, P [a]) -> (forall a b, P [a; b]) ->
  (forall a b c l, P l -> P (a :: b :: c :: l)) -> forall l, P l.
Proof.
  intros H0 H1 H2 H3. fix IH 1. intros [|a [|b [|c l]]]; [done|apply H1|apply H2|apply H3, IH].
Qed.

Section roundtrip.
Context (e : encoding) `{!EncodingOk e}.

Lemma decode_loop_char acc v s :
  0 <= v < 64 -> (length acc < 3)%nat ->
  decode_loop e acc (enc_char e v :: s) = decode_loop e (acc ++ [v]) s.
Proof.
  intros Hv Hacc. simpl. rewrite enc_char_dec by done.
  destruct acc as [|? [|? [|? [|]]]]; simpl in *; try done; lia.
Qed.

Lemma decode_loop_last v0 v1 v2 v s :
  0 <= v < 64 ->
  decode_loop e [v0; v1; v2] (enc_char e v :: s) =
    (rest ← decode_loop e [] s;
     match quantum [v0; v1; v2; v] with
     | Some out => Ok (out ++ rest) | None => Err CorruptInputError end).
Proof. intros Hv. simpl. by rewrite enc_char_dec. Qed.

Ltac to_bytes_eq :=
  repeat match goal with |- _ :: _ = _ :: _ => f_equal end;
  apply bval_inj; rewrite bval_to_byte, ?Z.shiftr_div_pow2 by lia;
  Z.to_euclidean_division_equations; lia.

Ltac sextet_lia := simpl; first [lia | apply Z.mod_pos_bound; lia].

Lemma Decode_Encode src : DecodeString e (EncodeToString e src) = Ok src.
Proof.
  unfold DecodeString. induction src as [|a|a b|a b c l IH] using bytes_ind3; [done|..].
  all: cbn [EncodeToString].
  all: pose proof (bval_range a); try pose proof (bval_range b); try pose proof (bval_range c).
  all: rewrite !sextet, ?sextet0 by lia.
  all: rewrite ?decode_loop_char by sextet_lia; cbn [app].
  - cbn [decode_loop quantum]. rewrite pack4 by sextet_lia.
    f_equal. rewrite !Z.shiftl_mul_pow2 by lia. to_bytes_eq.
  - cbn [decode_loop quantum]. rewrite pack4 by sextet_lia.
    pose proof (pack3 (bval a) (bval b) 0 ltac:(lia) ltac:(lia) ltac:(lia)) as Hp.
    rewrite Z.lor_0_r in Hp. rewrite Hp. f_equal. to_bytes_eq.
  - rewrite decode_loop_last by sextet_lia. rewrite IH, bind_Ok.
    cbn [quantum]. rewrite pack4 by sextet_lia.
    rewrite pack3 by lia. cbn [app]. f_equal. to_bytes_eq.
Qed.

(** Whole quanta at the front, whatever follows. *)
Lemma Encode_app3 src t :
  (length src mod 3 = 0)%nat -> EncodeToString e (src ++ t) = EncodeToString e src ++ EncodeToString e t.
Proof.
  induction src as [|a|a b|a b c l IH] using bytes_ind3; intros Hl; try done.
  cbn [app EncodeToString]. rewrite IH; [done|]. cbn [length] in Hl.
  replace (S (S (S (length l)))) with (length l + 1 * 3)%nat in Hl by lia. by rewrite Nat.Div0.mod_add in Hl.
Qed.

Lemma Decode_app3 src t :
  (length src mod 3 = 0)%nat ->
  DecodeString e (EncodeToString e src ++ t) = (rest ← DecodeString e t; Ok (src ++ rest)).
Proof.
  unfold DecodeString. induction src as [|a|a b|a b c l IH] using bytes_ind3; intros Hl; try done.
  { cbn [EncodeToString app]. by destruct (decode_loop e [] t). }
  assert (Hl' : (length l mod 3 = 0)%nat).
  { cbn [length] in Hl. replace (S (S (S (length l)))) with (length l + 1 * 3)%nat in Hl by lia.
    by rewrite Nat.Div0.mod_add in Hl. }
  cbn [EncodeToString app]. pose proof (bval_range a); pose proof (bval_range b); pose proof (bval_range c).
  rewrite !sextet, ?sextet0 by lia. rewrite ?decode_loop_char by sextet_lia. cbn [app].
  rewrite decode_loop_last by sextet_lia. rewrite IH by done.
  destruct (decode_loop e [] t) as [rest|err|m]; cbn [mbind outcome_bind]; [|done..].
  cbn [quantum]. rewrite pack4 by sextet_lia. rewrite pack3 by lia. cbn [app]. f_equal. to_bytes_eq.
Qed.
End roundtrip.

(** ** Sizes and characters of an encoding *)

(** Unpadded base64 of [n] bytes has [ceil(4n/3)] characters. *)
Lemma len_Encode e src : len (EncodeToString e src) = (4 * len src + 2) / 3.
Proof.
  induction src as [|a|a b|a b c l IH] using bytes_ind3; [done..|].
  cbn [EncodeToString]. rewrite !len_cons, IH.
  replace (4 * (len l + 1 + 1 + 1) + 2) with (4 * len l + 2 + 4 * 3) by lia.
  rewrite Z.div_add by lia. lia.
Qed.

(** Every character of an encoding is the character of a 6-bit value. *)
Lemma Encode_chars e src :
  Forall (fun c => exists v, 0 <= v < 64 /\ c = enc_char e v) (EncodeToString e src).
Proof.
  induction src as [|a|a b|a b c l IH] using bytes_ind3; cbn [EncodeToString];
    repeat apply Forall_cons_2; try done; try apply Forall_nil_2.
  all: eexists; split; [|reflexivity]; change 63 with (Z.ones 6);
    rewrite Z.land_ones by lia; apply Z.mod_pos_bound; lia.
Qed.

(** ** Behaviour of the decoder *)

Lemma Decode_error e s err : DecodeString e s = Err err -> err = CorruptInputError.
Proof.
  unfold DecodeString. generalize (@nil Z). induction s as [|c s IH]; intros acc; simpl.
  - destruct (quantum acc); congruence.
  - destruct (dec_char e c) as [v|].
    + destruct acc as [|v0 [|v1 [|v2 [|]]]]; try apply IH.
      pose proof (IH []). destruct (decode_loop e [] s); simpl; try congruence; auto.
    + destruct (is_newline c); [apply IH|congruence].
Qed.

Lemma Decode_panics e s : panics (DecodeString e s) = false.
Proof.
  unfold DecodeString. generalize (@nil Z). induction s as [|c s IH]; intros acc; simpl.
  - by destruct (quantum acc).
  - destruct (dec_char e c) as [v|].
    + destruct acc as [|v0 [|v1 [|v2 [|]]]]; try apply IH.
      apply bind_panics; [apply IH|done].
    + destruct (is_newline c); [apply IH|done].
Qed.

(** Decoding never lengthens a text. *)
Lemma Decode_length e s out : DecodeString e s = Ok out -> len out <= len s.
Proof.
  unfold DecodeString. assert (H : forall acc, (length acc < 4)%nat ->
    decode_loop e acc s = Ok out -> len out <= len s + len acc).
  2: { intros Ho%H; [|simpl; lia]. change (len []) with 0 in Ho. lia. }
  revert out; induction s as [|c s IH]; intros out acc Hacc; simpl.
  - destruct acc as [|? [|? [|? [|? [|]]]]]; simpl; intros [= <-] || intros [=];
      unfold len; simpl; lia.
  - destruct (dec_char e c) as [v|].
    + destruct acc as [|v0 [|v1 [|v2 [|]]]]; try (intros Ho%IH; [|simpl; lia];
        rewrite ?len_cons in *; change (len (@nil Z)) with 0 in *; simpl in Ho;
        rewrite ?len_cons in *; change (len (@nil Z)) with 0 in *; lia).
      * intros (rest & Hr%IH & Ho)%bind_Ok_inv; [|simpl; lia].
        injection Ho as <-. rewrite !len_cons in *. change (len (@nil Z)) with 0 in *. lia.
      * simpl in Hacc. lia.
    + destruct (is_newline c); [|discriminate]. intros Ho%IH; [|done].
      rewrite len_cons. lia.
Qed.

(** A text of characters of the alphabet decodes to six bits a character. *)
Definition alphabet (e : encoding) (c : byte) : Prop := is_Some (dec_char e c).

Lemma Decode_alphabet_length e s out :
  Forall (alphabet e) s -> DecodeString e s = Ok out -> len out = 3 * len s / 4.
Proof.
  unfold DecodeString. intros Hs. assert (H : forall acc, (length acc < 4)%nat ->
    decode_loop e acc s = Ok out -> len out = 3 * (len acc + len s) / 4).
  2: { intros Ho%H; [done|cbn; lia]. }
  revert out; induction Hs as [|c s [v Hc] _ IH]; intros out acc Hacc; simpl.
  - destruct acc as [|? [|? [|? [|? [|]]]]]; simpl; intros [= <-] || intros [=]; done.
  - rewrite Hc. destruct acc as [|v0 [|v1 [|v2 [|]]]]; [..|simpl in Hacc; lia];
      try (intros ->%IH; [|simpl; lia]; cbn [app]; rewrite !len_cons, len_nil; f_equal; lia).
    intros (rest & Hr%IH & Ho)%bind_Ok_inv; [|simpl; lia]. injection Ho as <-.
    rewrite !len_cons, !len_nil, Hr, len_nil. replace (3 * (0 + 1 + 1 + 1 + (len s + 1))) with (3 * (0 + len s) + 3 * 4) by lia.
    rewrite Z.div_add by done. lia.
Qed.

Lemma Encode_alphabet e `{!EncodingOk e} src : Forall (alphabet e) (EncodeToString e src).
Proof.
  eapply Forall_impl; [apply Encode_chars|]. intros c (v & Hv & ->). exists v. by apply enc_char_dec.
Qed.

(** Line breaks anywhere in the text make no difference. *)
Lemma Decode_newline e `{!EncodingOk e} s1 c s2 :
  is_newline c = true -> DecodeString e (s1 ++ c :: s2) = DecodeString e (s1 ++ s2).
Proof.
  intros Hc. unfold DecodeString. generalize (@nil Z).
  induction s1 as [|d s1 IH]; intros acc; simpl.
  - by rewrite newline_not_char, Hc.
  - destruct (dec_char e d).
    + destruct acc as [|? [|? [|? [|]]]]; by rewrite ?IH.
    + by rewrite IH.
Qed.

(** The first byte of a quantum carries the six bits of its first value. *)
Lemma quantum_first vs v0 b out :
  Forall (fun v => 0 <= v < 64) (v0 :: vs) -> quantum (v0 :: vs) = Some (b :: out) ->
  4 * v0 <= bval b.
Proof.
  intros H Hq. destruct vs as [|v1 [|v2 [|v3 [|]]]]; try discriminate; cbn [quantum] in Hq;
    repeat match goal with H : Forall _ (_ :: _) |- _ => apply Forall_cons in H as [? ?] end;
    injection Hq; intros; subst; rewrite pack4, bval_to_byte, Z.shiftr_div_pow2 by lia;
    Z.to_euclidean_division_equations; lia.
Qed.

(** Text without the characters of the values 0 to [m - 1] does not decode to a small first
    byte. *)
Lemma Decode_first_ge e m s b out :
  (forall c v, In c s -> dec_char e c = Some v -> m <= v) ->
  DecodeString e s = Ok (b :: out) -> 4 * m <= bval b.
Proof.
  unfold DecodeString. intros Hs.
  assert (Hgen : forall acc, Forall (fun v => 0 <= v < 64) acc ->
    (forall v0 vs, acc = v0 :: vs -> m <= v0) ->
    decode_loop e acc s = Ok (b :: out) -> 4 * m <= bval b).
  2: { apply Hgen; [constructor|discriminate]. }
  induction s as [|c s IH]; intros acc Hr Hm; simpl.
  - destruct (quantum acc) as [o|] eqn:Hq; [|discriminate]. intros [= ->].
    destruct acc as [|v0 vs]; [discriminate|].
    pose proof (quantum_first vs v0 b out Hr Hq). pose proof (Hm v0 vs eq_refl). lia.
  - assert (Hs' : forall d v, In d s -> dec_char e d = Some v -> m <= v)
      by (intros; eapply Hs; [right|]; eauto).
    destruct (dec_char e c) as [v|] eqn:Hd.
    2: { destruct (is_newline c); [by apply IH|discriminate]. }
    pose proof (dec_char_bound e c v Hd). pose proof (Hs c v (or_introl eq_refl) Hd).
    assert (Hcons : Forall (fun w => 0 <= w < 64) (acc ++ [v]))
      by (apply Forall_app; split; [done|by constructor]).
    assert (Hhd : forall v0 vs, acc ++ [v] = v0 :: vs -> m <= v0).
    { intros v0 vs Hv. destruct acc as [|a acc]; injection Hv as <- <-; eauto. }
    destruct acc as [|v0 [|v1 [|v2 [|]]]]; try (by apply IH).
    intros Hb. apply bind_Ok_inv in Hb as (rest & _ & Hb).
    injection Hb as <- _.
    pose proof (quantum_first [v1; v2; v] v0 _ _ Hcons eq_refl) as Hf.
    pose proof (Hhd v0 _ eq_refl). eapply Z.le_trans; [|exact Hf]. lia.
Qed.

#[export] Hint Resolve Decode_panics : go.
#[export] Hint Rewrite Decode_panics @len_Encode : go.

(** ** [StdEncoding]

    The padded encoding: [=] up to a multiple of four characters. The decoder accepts padding
    only at the end of the last quantum, and nothing but line breaks inside or after it. *)
Module Std.

Definition padChar : byte := x3d.

Definition EncodeToString (src : bytes) : bytes :=
  let s := EncodeToString RawStdEncoding src in
  s ++ replicate (Z.to_nat ((- len s) mod 4)) padChar.

Fixpoint skip_newlines (s : bytes) : bytes :=
  match s with c :: s' => if is_newline c then skip_newlines s' else s | [] => [] end.

Definition finish (acc : list Z) (rest : bytes) : outcome bytes :=
  match skip_newlines rest, quantum acc with
  | [], Some out => Ok out
  | _, _ => Err CorruptInputError
  end.

Fixpoint decode_loop (acc : list Z) (src : bytes) : outcome bytes :=
  match src with
  | [] => match acc with [] => Ok [] | _ => Err CorruptInputError end
  | c :: src' =>
      match dec_char RawStdEncoding c with
      | Some v =>
          match acc with
          | [v0; v1; v2] =>
              rest ← decode_loop [] src';
              match quantum [v0; v1; v2; v] with
              | Some out => Ok (out ++ rest)
              | None => Err CorruptInputError
              end
          | _ => decode_loop (acc ++ [v]) src'
          end
      | None =>
          if is_newline c then decode_loop acc src'
          else if bool_decide (c = padChar) then
            match acc with
            | [v0; v1] =>
                match skip_newlines src' with
                | p :: rest => if bool_decide (p = padChar) then finish acc rest else Err CorruptInputError
                | [] => Err CorruptInputError
                end
            | [v0; v1; v2] => finish acc src'
            | _ => Err CorruptInputError
            end
          else Err CorruptInputError
      end
  end.
Definition DecodeString (s : bytes) : outcome bytes := decode_loop [] s.

Example padded :
  map (fun s => String.string_of_list_byte (EncodeToString (lit s))) ["a"; "ab"; "abc"]%string =
    ["YQ=="; "YWI="; "YWJj"]%string /\
  map (fun s => is_ok (DecodeString (lit s))) ["YQ=="; "YQ="; "YQ"; "YWI=x"; "=YQ="]%string =
    [true; false; false; false; false].
Proof. vm_compute. done. Qed.

(** The first 24 characters of 18 bytes or more. *)
Lemma front b : 18 <= len b -> slice (EncodeToString b) 0 24 = Ok (take 24 (EncodeToString b)).
Proof.
  intros Hb. unfold EncodeToString. cbv zeta. pose proof (len_Encode RawStdEncoding b) as Hl.
  set (t := replicate _ _). pose proof (len_nonneg t).
  rewrite slice_Ok, drop_0; [done|lia|]. rewrite len_app, Hl. clearbody t. Z.to_euclidean_division_equations. lia.
Qed.

End Std.
