(* ===== verification/Hex.v ===== *)
(** * Hexadecimal

    Go's [encoding/hex]: [EncodeToString] writes lower case, [DecodeString] accepts both cases
    and rejects odd lengths and other characters. *)

From S2P Require Import Prelude Errors.

(** [hextable[v]] *)
Definition hex_char (v : Z) : byte :=
  if v <? 10 then to_byte (48 + v) else to_byte (97 + (v - 10)).

(** [reverseHexTable[c]] without the 0xff entries. *)
Definition hex_val (c : byte) : option Z :=
  let v := bval c in
  if (48 <=? v) && (v <=? 57) then Some (v - 48)
  else if (97 <=? v) && (v <=? 102) then Some (v - 97 + 10)
  else if (65 <=? v) && (v <=? 70) then Some (v - 65 + 10)
  else None.

Module Hex.

Fixpoint EncodeToString (src : bytes) : bytes :=
  match src with
  | [] => []
  | b :: rest =>
      hex_char (Z.shiftr (bval b) 4) :: hex_char (Z.land (bval b) 15) :: EncodeToString rest
  end.

(** The decoder reports a bad character before a bad length. *)
Fixpoint DecodeString (s : bytes) : outcome bytes :=
  match s with
  | [] => Ok []
  | [c] =>
      match hex_val c with Some _ => Err ErrLength | None => Err InvalidByteError end
  | p :: q :: rest =>
      match hex_val p, hex_val q with
      | Some a, Some b =>
          out ← DecodeString rest; Ok (to_byte (Z.lor (Z.shiftl a 4) b) :: out)
      | _, _ => Err InvalidByteError
      end
  end.

Lemma nibbles_ok :
  forallb (fun b =>
    bool_decide (hex_val (hex_char (Z.shiftr (bval b) 4)) = Some (Z.shiftr (bval b) 4)) &&
    bool_decide (hex_val (hex_char (Z.land (bval b) 15)) = Some (Z.land (bval b) 15)) &&
    bool_decide (to_byte (Z.lor (Z.shiftl (Z.shiftr (bval b) 4) 4) (Z.land (bval b) 15)) = b))
    all_bytes = true.
Proof. vm_compute. reflexivity. Qed.

Lemma hex_roundtrip src : DecodeString (EncodeToString src) = Ok src.
Proof.
  induction src as [|b src IH]; [done|]. cbn [EncodeToString DecodeString].
  pose proof (byte_forall _ nibbles_ok b) as Hb. cbv beta in Hb.
  apply andb_true_iff in Hb as [[H1 H2]%andb_true_iff H3].
  apply bool_decide_eq_true in H1, H2, H3.
  rewrite H1, H2, IH. simpl. by rewrite H3.
Qed.

Lemma hex_length src : len (EncodeToString src) = 2 * len src.
Proof. induction src as [|b src IH]; [done|]. cbn [EncodeToString]. rewrite !len_cons, IH. lia. Qed.

Lemma hex_no_panic s : panics (DecodeString s) = false.
Proof.
  assert (H : forall n s', (length s' <= n)%nat -> panics (DecodeString s') = false).
  { induction n as [|n IH]; intros [|p [|q l]] Hl; simpl in *; try done; try lia.
    - by destruct (hex_val p).
    - destruct (hex_val p), (hex_val q); try done.
      apply bind_panics; [apply IH; lia|done]. }
  eauto.
Qed.

(** Decoding never lengthens. *)
Lemma hex_decode_length s out : DecodeString s = Ok out -> len out <= len s.
Proof.
  assert (H : forall n s out, (length s <= n)%nat -> DecodeString s = Ok out -> len out <= len s).
  { induction n as [|n IH]; intros [|p [|q l]] o Hl; simpl in *; try lia; try (intros [= <-]; done).
    - by destruct (hex_val p).
    - destruct (hex_val p), (hex_val q); try done. intros (x & Hx & [= <-])%bind_Ok_inv.
      apply IH in Hx; [|lia]. rewrite !len_cons. lia. }
  eauto.
Qed.

(** The lower-case digits: what [EncodeToString] writes. *)
Definition is_lower_hex (c : byte) : bool :=
  ((48 <=? bval c) && (bval c <=? 57)) || ((97 <=? bval c) && (bval c <=? 102)).

Lemma hex_char_lower :
  forallb (fun b => is_lower_hex (hex_char (Z.shiftr (bval b) 4)) &&
                    is_lower_hex (hex_char (Z.land (bval b) 15))) all_bytes = true.
Proof. vm_compute. reflexivity. Qed.

Lemma Encode_lower src c : In c (EncodeToString src) -> is_lower_hex c = true.
Proof.
  induction src as [|b src IH]; [done|]. cbn [EncodeToString In].
  pose proof (byte_forall _ hex_char_lower b) as [H1 H2]%andb_true_iff.
  intros [<-|[<-|H]]; auto.
Qed.

End Hex.

#[export] Hint Resolve Hex.hex_no_panic : go.
#[export] Hint Rewrite Hex.hex_no_panic Hex.hex_length : go.
