(* ===== verification/GoText.v ===== *)
(** * Text: the parts of packages [strings] and [strconv] the code uses *)

From Stdlib Require Import Strings.String.
From S2P Require Import Prelude.

(** ** strings *)

(** [strings.Split(s, sep)] for a separator of one byte: never empty. *)
Fixpoint Split (sep : byte) (s : bytes) : list bytes :=
  match s with
  | [] => [[]]
  | b :: s' =>
      if bool_decide (b = sep) then [] :: Split sep s'
      else match Split sep s' with
           | part :: parts => (b :: part) :: parts
           | [] => [[b]]
           end
  end.

(** [strings.HasPrefix(s, prefix)] *)
Fixpoint HasPrefix (s prefix : bytes) {struct prefix} : bool :=
  match prefix, s with
  | [], _ => true
  | a :: prefix', b :: s' => bool_decide (a = b) && HasPrefix s' prefix'
  | _ :: _, [] => false
  end.

(** [strings.TrimPrefix(s, prefix)] *)
Definition TrimPrefix (s prefix : bytes) : bytes :=
  if HasPrefix s prefix then drop (length prefix) s else s.

(** ** strconv *)

Definition is_digit (b : byte) : bool := (48 <=? bval b) && (bval b <=? 57).

(** The digits at the front, as their value added to [acc], with their number and what follows. *)
Fixpoint scan_digits (acc : Z) (s : bytes) : Z * nat * bytes :=
  match s with
  | [] => (acc, O, [])
  | b :: s' =>
      if is_digit b then
        let '(v, n, rest) := scan_digits (10 * acc + (bval b - 48)) s' in (v, S n, rest)
      else (acc, O, s)
  end.

(** [%d] of a non-negative integer below [10^20]. *)
Fixpoint decimal (fuel : nat) (n : Z) : bytes :=
  match fuel with
  | O => []
  | S fuel' =>
      (if n <? 10 then [] else decimal fuel' (n / 10)) ++ [to_byte (48 + n mod 10)]
  end.
Definition Itoa (n : Z) : bytes := decimal 20 n.

(** [strconv.FormatInt(n, 10)] and [strconv.ParseInt(s, 10, 64)] *)
Definition FormatInt (n : Z) : bytes := if n <? 0 then x2d :: Itoa (- n) else Itoa n.

Definition ParseInt (s : bytes) : option Z :=
  let '(neg, digits) :=
    match s with
    | b :: s' =>
        if bool_decide (b = x2d) then (true, s')
        else if bool_decide (b = x2b) then (false, s') else (false, s)
    | [] => (false, [])
    end in
  let '(v, n, rest) := scan_digits 0 digits in
  if (n =? 0)%nat || negb (bool_decide (rest = [])) then None
  else
    let v := if neg : bool then - v else v in
    if (- 2 ^ 63 <=? v) && (v <? 2 ^ 63) then Some v else None.

(** ** Lemmas *)

(** A signed 64-bit integer. *)
Definition in_int64 (z : Z) : Prop := - 2 ^ 63 <= z < 2 ^ 63.

Lemma i64_id z : in_int64 z -> i64 z = z.
Proof. unfold in_int64, i64. intros H. rewrite Z.mod_small; lia. Qed.

Lemma i64_u64 z : in_int64 z -> i64 (u64 z) = z.
Proof.
  unfold in_int64, i64, u64. intros H. rewrite Zplus_mod_idemp_l, Z.mod_small; lia.
Qed.

(** *** HasPrefix *)

Lemma HasPrefix_spec s p : HasPrefix s p = true <-> exists r, s = p ++ r.
Proof.
  revert s; induction p as [|a p IH]; intros s; cbn [HasPrefix].
  - split; [intros _; by exists s|done].
  - destruct s as [|b s]; [split; [done|by intros [r ?]]|].
    rewrite andb_true_iff, bool_decide_eq_true, IH. split.
    + intros [-> [r ->]]. by exists r.
    + intros [r [= -> ->]]. eauto.
Qed.

Lemma HasPrefix_app s p q : HasPrefix s (p ++ q) = true -> HasPrefix s p = true.
Proof. rewrite !HasPrefix_spec. intros [r ->]. exists (q ++ r). by rewrite app_assoc. Qed.

(** *** Split *)

Lemma Split_not_nil sep s : Split sep s <> [].
Proof. destruct s as [|b s]; simpl; [done|]. case_bool_decide; [done|]. by destruct (Split sep s). Qed.

(** The first part ends at the first separator. *)
Lemma Split_app sep a s : sep ∉ a -> Split sep (a ++ sep :: s) = a :: Split sep s.
Proof.
  induction a as [|b a IH]; intros Ha; simpl.
  - by rewrite bool_decide_eq_true_2.
  - apply not_elem_of_cons in Ha as [Hb Ha]. rewrite bool_decide_eq_false_2 by congruence.
    by rewrite IH.
Qed.

Lemma Split_last sep a : sep ∉ a -> Split sep a = [a].
Proof.
  induction a as [|b a IH]; intros Ha; simpl; [done|].
  apply not_elem_of_cons in Ha as [Hb Ha]. rewrite bool_decide_eq_false_2 by congruence.
  by rewrite IH.
Qed.

(** Joining the parts gives the string back, and no part holds the separator. *)
Lemma Split_join sep s :
  s = match Split sep s with
      | [] => []
      | part :: parts => part ++ mjoin (map (cons sep) parts)
      end /\ Forall (fun part => sep ∉ part) (Split sep s).
Proof.
  induction s as [|b s [IH1 IH2]]; simpl.
  - split; [done|]. constructor; [by apply not_elem_of_nil|constructor].
  - pose proof (Split_not_nil sep s) as Hne.
    case_bool_decide as Hb; destruct (Split sep s) as [|part parts]; try done.
    + subst b. split; [simpl; congruence|]. constructor; [apply not_elem_of_nil|done].
    + split; [simpl; congruence|]. apply Forall_cons in IH2 as [Hp IH2].
      constructor; [|done]. apply not_elem_of_cons. split; [congruence|done].
Qed.

Lemma TrimPrefix_app p r : TrimPrefix (p ++ r) p = r.
Proof.
  unfold TrimPrefix. rewrite (proj2 (HasPrefix_spec (p ++ r) p)) by eauto. apply drop_app_length.
Qed.

Lemma Split_two sep s p1 p2 :
  Split sep s = [p1; p2] <-> s = p1 ++ (sep :: p2) /\ sep ∉ p1 /\ sep ∉ p2.
Proof.
  split.
  - intros H. destruct (Split_join sep s) as [Hs Hf]. rewrite H in Hs, Hf.
    apply Forall_cons in Hf as [H1 Hf]. apply Forall_cons in Hf as [H2 _].
    split; [|done]. rewrite Hs. cbn. by rewrite app_nil_r.
  - intros (-> & H1 & H2). by rewrite Split_app, Split_last.
Qed.

(** *** Scanning *)

(** [g] does not continue a number. *)
Definition no_digit_first (g : bytes) : Prop := match g with b :: _ => is_digit b = false | [] => True end.

Lemma scan_digits_app v l g :
  forallb is_digit l = true -> no_digit_first g ->
  scan_digits v (l ++ g) = (fold_left (fun a b => 10 * a + (bval b - 48)) l v, length l, g).
Proof.
  intros Hl Hg. revert v. induction l as [|b l IH]; intros v; simpl in *.
  - destruct g as [|b g]; simpl in *; [done|]. by rewrite Hg.
  - apply andb_true_iff in Hl as [-> Hl]. by rewrite IH.
Qed.

Lemma scan_digits_nonneg v s : 0 <= v -> 0 <= (scan_digits v s).1.1.
Proof.
  revert v; induction s as [|b s IH]; intros v Hv; simpl; [done|].
  destruct (is_digit b) eqn:Hd; [|done].
  assert (Hb : 0 <= 10 * v + (bval b - 48)) by (unfold is_digit in Hd; b2p; lia).
  specialize (IH _ Hb). by destruct (scan_digits _ s) as [[w n] rest].
Qed.

(** *** Decimal numbers *)

Lemma is_digit_to_byte d : 0 <= d < 10 -> is_digit (to_byte (48 + d)) = true.
Proof. intros H. unfold is_digit. rewrite bval_to_byte_small by lia. lia. Qed.

Lemma decimal_spec fuel n :
  0 <= n < 10 ^ Z.of_nat fuel -> (0 < fuel)%nat ->
  forallb is_digit (decimal fuel n) = true /\ decimal fuel n <> [] /\
  fold_left (fun a b => 10 * a + (bval b - 48)) (decimal fuel n) 0 = n.
Proof.
  revert n; induction fuel as [|fuel IH]; intros n Hn Hf; [lia|]. cbn [decimal].
  pose proof (Z.mod_pos_bound n 10 eq_refl) as Hm. pose proof (is_digit_to_byte _ Hm) as Hd.
  split; [|split].
  - rewrite forallb_app. cbn [forallb]. rewrite Hd. cbn [andb]. rewrite andb_true_r.
    destruct (Z.ltb_spec n 10); [done|]. apply IH; [|destruct fuel; [cbn in Hn; lia|lia]].
    rewrite Nat2Z.inj_succ, Z.pow_succ_r in Hn by lia. split; [apply Z.div_pos; lia|].
    apply Z.div_lt_upper_bound; lia.
  - by intros [_ ?]%app_eq_nil.
  - rewrite fold_left_app. cbn [fold_left]. rewrite bval_to_byte_small by lia.
    destruct (Z.ltb_spec n 10) as [Hs|Hs]; [cbn [fold_left]; rewrite Z.mod_small; lia|].
    rewrite Nat2Z.inj_succ, Z.pow_succ_r in Hn by lia.
    destruct (IH (n / 10)) as (_ & _ & ->).
    + split; [apply Z.div_pos; lia|]. apply Z.div_lt_upper_bound; lia.
    + destruct fuel; [cbn in Hn; lia|lia].
    + pose proof (Z_div_mod_eq_full n 10). lia.
Qed.

Lemma scan_Itoa n : 0 <= n < 10 ^ 20 -> exists k, scan_digits 0 (Itoa n) = (n, S k, []) /\
  exists b l, Itoa n = b :: l /\ is_digit b = true.
Proof.
  intros Hn. destruct (decimal_spec 20 n) as (Hd & Hne & Hv); [exact Hn|lia|]. fold (Itoa n) in *.
  pose proof (scan_digits_app 0 (Itoa n) [] Hd I) as Hs. rewrite app_nil_r, Hv in Hs.
  destruct (Itoa n) as [|b l]; [done|]. exists (length l). split; [exact Hs|].
  exists b, l. split; [done|]. cbn [forallb] in Hd. by apply andb_true_iff in Hd as [].
Qed.

(** Every [int64] reads back. *)
Lemma Parse_Format n : in_int64 n -> ParseInt (FormatInt n) = Some n.
Proof.
  unfold in_int64. intros Hn. unfold FormatInt. destruct (Z.ltb_spec n 0) as [H|H].
  - destruct (scan_Itoa (- n)) as (k & Hs & _); [lia|]. unfold ParseInt.
    rewrite (bool_decide_eq_true_2 (x2d = x2d)) by done. cbv beta iota. rewrite Hs. cbn [Nat.eqb orb negb]. rewrite bool_decide_eq_true_2 by done. cbn [negb].
    rewrite Z.opp_involutive. rewrite (proj2 (Z.leb_le _ _)), (proj2 (Z.ltb_lt _ _)) by lia. done.
  - destruct (scan_Itoa n) as (k & Hs & b & l & Hb & Hd); [lia|]. unfold ParseInt. rewrite Hb in *.
    rewrite !bool_decide_eq_false_2 by (intros ->; done). rewrite Hs. cbn [Nat.eqb orb negb].
    rewrite bool_decide_eq_true_2 by done. cbn [negb].
    rewrite (proj2 (Z.leb_le _ _)), (proj2 (Z.ltb_lt _ _)) by lia. done.
Qed.

Lemma digits_no_comma l : forallb is_digit l = true -> x2c ∉ l.
Proof.
  intros Hl Hin. rewrite forallb_forall in Hl. specialize (Hl x2c).
  enough (is_digit x2c = true) by done. apply Hl. by apply list_elem_of_In.
Qed.

Lemma FormatInt_no_comma n : in_int64 n -> x2c ∉ FormatInt n /\ FormatInt n <> [].
Proof.
  unfold in_int64, FormatInt. intros Hn.
  destruct (decimal_spec 20 (Z.abs n)) as (Hd & Hne & _); [lia..|]. fold (Itoa (Z.abs n)) in *.
  apply digits_no_comma in Hd. destruct (Z.ltb_spec n 0) as [H|H].
  - rewrite Z.abs_neq in Hd by lia. split; [|done]. by rewrite not_elem_of_cons.
  - rewrite Z.abs_eq in Hd, Hne by lia. done.
Qed.


Lemma length_FormatInt n : (length (FormatInt n) <= 21)%nat.
Proof.
  assert (Hd : forall fuel m, (length (decimal fuel m) <= fuel)%nat).
  { induction fuel as [|fuel IH]; intros m; [done|]. cbn [decimal]. rewrite length_app. cbn [length].
    specialize (IH (m / 10)). case_bool; cbn [length]; lia. }
  unfold FormatInt, Itoa. case_bool; cbn [length]; specialize (Hd 20%nat);
    [specialize (Hd (- n))|specialize (Hd n)]; lia.
Qed.
