(* ===== verification/Utf8.v ===== *)
(** * UTF-8 and UTF-16: packages [unicode/utf8] and [unicode/utf16]

    Decoding and encoding of one rune, with Go's treatment of invalid bytes, and the text that is
    left when every invalid byte of a string is replaced by U+FFFD. *)

From Stdlib Require Import Strings.String.
From S2P Require Import Prelude.

(** ** Runes *)

Definition RuneError : Z := 0xFFFD.

(** [utf16.IsSurrogate], and the code points [utf8.EncodeRune] writes as they are. *)
Definition IsSurrogate (r : Z) : bool := (0xD800 <=? r) && (r <? 0xE000).
Definition ValidRune (r : Z) : bool := (0 <=? r) && (r <=? 0x10FFFF) && negb (IsSurrogate r).

(** [utf16.DecodeRune] *)
Definition utf16_DecodeRune (r1 r2 : Z) : Z :=
  if (0xD800 <=? r1) && (r1 <? 0xDC00) && (0xDC00 <=? r2) && (r2 <? 0xE000)
  then (r1 - 0xD800) * 1024 + (r2 - 0xDC00) + 0x10000 else RuneError.

(** A continuation byte. *)
Definition cont (b : byte) : bool := (0x80 <=? bval b) && (bval b <=? 0xBF).

(** [utf8.EncodeRune]: what is not a valid rune is written as U+FFFD. *)
Definition EncodeRune (r : Z) : bytes :=
  let r := if ValidRune r then r else RuneError in
  if r <=? 0x7F then [to_byte r]
  else if r <=? 0x7FF then [to_byte (0xC0 + r / 64); to_byte (0x80 + r mod 64)]
  else if r <=? 0xFFFF then
    [to_byte (0xE0 + r / 4096); to_byte (0x80 + r / 64 mod 64); to_byte (0x80 + r mod 64)]
  else
    [to_byte (0xF0 + r / 262144); to_byte (0x80 + r / 4096 mod 64); to_byte (0x80 + r / 64 mod 64);
     to_byte (0x80 + r mod 64)].

(** [utf8.DecodeRune]: the rune at the front and its width; an invalid byte is U+FFFD of width 1.
    The second byte of a longer sequence is restricted after E0, ED, F0 and F4, which excludes
    overlong forms, surrogates and runes above U+10FFFF. *)
Definition DecodeRune (s : bytes) : Z * nat :=
  match s with
  | [] => (RuneError, 0%nat)
  | b0 :: s1 =>
      let x := bval b0 in
      if x <? 0x80 then (x, 1%nat)
      else if (0xC2 <=? x) && (x <=? 0xDF) then
        match s1 with
        | b1 :: _ => if cont b1 then ((x - 0xC0) * 64 + (bval b1 - 0x80), 2%nat) else (RuneError, 1%nat)
        | [] => (RuneError, 1%nat)
        end
      else if (0xE0 <=? x) && (x <=? 0xEF) then
        match s1 with
        | b1 :: b2 :: _ =>
            if ((if x =? 0xE0 then 0xA0 else 0x80) <=? bval b1) &&
               (bval b1 <=? (if x =? 0xED then 0x9F else 0xBF)) && cont b2
            then ((x - 0xE0) * 4096 + (bval b1 - 0x80) * 64 + (bval b2 - 0x80), 3%nat)
            else (RuneError, 1%nat)
        | _ => (RuneError, 1%nat)
        end
      else if (0xF0 <=? x) && (x <=? 0xF4) then
        match s1 with
        | b1 :: b2 :: b3 :: _ =>
            if ((if x =? 0xF0 then 0x90 else 0x80) <=? bval b1) &&
               (bval b1 <=? (if x =? 0xF4 then 0x8F else 0xBF)) && cont b2 && cont b3
            then ((x - 0xF0) * 262144 + (bval b1 - 0x80) * 4096 + (bval b2 - 0x80) * 64 +
                  (bval b3 - 0x80), 4%nat)
            else (RuneError, 1%nat)
        | _ => (RuneError, 1%nat)
        end
      else (RuneError, 1%nat)
  end.

(** [utf8.Valid], and the string with every invalid byte replaced: one rune per turn, so the
    length of the string is enough fuel. *)
Fixpoint Valid_go (fuel : nat) (s : bytes) : bool :=
  match fuel, s with
  | _, [] => true
  | O, _ => false
  | S fuel', _ =>
      let '(r, n) := DecodeRune s in
      negb ((r =? RuneError) && (n =? 1)%nat) && Valid_go fuel' (drop n s)
  end.
Definition Valid (s : bytes) : bool := Valid_go (length s) s.

Fixpoint ToValid_go (fuel : nat) (s : bytes) : bytes :=
  match fuel, s with
  | _, [] => []
  | O, _ => []
  | S fuel', _ => let '(r, n) := DecodeRune s in EncodeRune r ++ ToValid_go fuel' (drop n s)
  end.
Definition ToValid (s : bytes) : bytes := ToValid_go (length s) s.

Example valid_text : Valid (lit "naïve 漢字 😀") = true /\ ToValid (lit "naïve 漢字 😀") = lit "naïve 漢字 😀".
Proof. vm_compute. done. Qed.
Example invalid_text : ToValid ([xff] ++ lit "a" ++ [xe2; x82]) = [xef; xbf; xbd] ++ lit "a" ++ [xef; xbf; xbd; xef; xbf; xbd].
Proof. vm_compute. done. Qed.

(** ** Lemmas *)

Lemma cont_range b : cont b = true -> 0x80 <= bval b <= 0xBF.
Proof. unfold cont. lia. Qed.

Lemma cont_to_byte z : 0 <= z < 64 -> cont (to_byte (0x80 + z)) = true.
Proof. intros H. unfold cont. rewrite bval_to_byte_small by lia. lia. Qed.

Lemma ValidRune_spec r : ValidRune r = true <-> 0 <= r <= 0x10FFFF /\ ~ (0xD800 <= r < 0xE000).
Proof. unfold ValidRune, IsSurrogate. lia. Qed.

(** A byte from its value. *)
Lemma byte_of_val b z : bval b = z -> b = to_byte z.
Proof. intros <-. by rewrite to_byte_bval. Qed.

(** The encodings of three and four bytes. *)
Lemma rune3 b b1 b2 :
  0xE0 <= bval b <= 0xEF -> (if bval b =? 0xE0 then 0xA0 else 0x80) <= bval b1 ->
  bval b1 <= (if bval b =? 0xED then 0x9F else 0xBF) -> cont b2 = true ->
  let r := (bval b - 0xE0) * 4096 + (bval b1 - 0x80) * 64 + (bval b2 - 0x80) in
  ValidRune r = true /\ EncodeRune r = [b; b1; b2].
Proof.
  intros Hb Hlo Hhi C2%cont_range r.
  assert (Hr : 0x7FF < r <= 0xFFFF /\ ~ (0xD800 <= r < 0xE000)).
  { destruct (Z.eqb_spec (bval b) 0xE0), (Z.eqb_spec (bval b) 0xED); lia. }
  assert (Hv : ValidRune r = true) by (apply ValidRune_spec; lia). split; [done|]. unfold EncodeRune.
  rewrite Hv, (proj2 (Z.leb_gt r 0x7F)), (proj2 (Z.leb_gt r 0x7FF)), (proj2 (Z.leb_le r 0xFFFF)) by lia.
  assert (bval b1 - 0x80 = r / 64 mod 64 /\ bval b - 0xE0 = r / 4096 /\ bval b2 - 0x80 = r mod 64) as (E1 & E2 & E3).
  { destruct (Z.eqb_spec (bval b) 0xE0), (Z.eqb_spec (bval b) 0xED); unfold r; Z.to_euclidean_division_equations; lia. }
  rewrite <- E1, <- E2, <- E3. symmetry. f_equal; [|f_equal; [|f_equal]]; apply byte_of_val; lia.
Qed.

Lemma rune4 b b1 b2 b3 :
  0xF0 <= bval b <= 0xF4 -> (if bval b =? 0xF0 then 0x90 else 0x80) <= bval b1 ->
  bval b1 <= (if bval b =? 0xF4 then 0x8F else 0xBF) -> cont b2 = true -> cont b3 = true ->
  let r := (bval b - 0xF0) * 262144 + (bval b1 - 0x80) * 4096 + (bval b2 - 0x80) * 64 + (bval b3 - 0x80) in
  ValidRune r = true /\ EncodeRune r = [b; b1; b2; b3].
Proof.
  intros Hb Hlo Hhi C2%cont_range C3%cont_range r.
  assert (Hr : 0xFFFF < r <= 0x10FFFF) by (destruct (Z.eqb_spec (bval b) 0xF0), (Z.eqb_spec (bval b) 0xF4); lia).
  assert (Hv : ValidRune r = true) by (apply ValidRune_spec; lia). split; [done|]. unfold EncodeRune.
  rewrite Hv, (proj2 (Z.leb_gt r 0x7F)), (proj2 (Z.leb_gt r 0x7FF)), (proj2 (Z.leb_gt r 0xFFFF)) by lia.
  assert (bval b1 - 0x80 = r / 4096 mod 64 /\ bval b - 0xF0 = r / 262144 /\ bval b2 - 0x80 = r / 64 mod 64 /\
    bval b3 - 0x80 = r mod 64) as (E1 & E2 & E3 & E4).
  { destruct (Z.eqb_spec (bval b) 0xF0), (Z.eqb_spec (bval b) 0xF4); unfold r; Z.to_euclidean_division_equations; lia. }
  rewrite <- E1, <- E2, <- E3, <- E4. symmetry. f_equal; [|f_equal; [|f_equal; [|f_equal]]]; apply byte_of_val; lia.
Qed.

(** What is at the front of a string: a rune in its encoding, or an invalid byte. *)
Lemma DecodeRune_cases b s :
  (exists r n, DecodeRune (b :: s) = (r, n) /\ ValidRune r = true /\
     n = length (EncodeRune r) /\ b :: s = EncodeRune r ++ drop n (b :: s)) \/
  (DecodeRune (b :: s) = (RuneError, 1%nat) /\ 0x80 <= bval b).
Proof.
  pose proof (bval_range b). unfold DecodeRune. cbv zeta.
  destruct (Z.ltb_spec (bval b) 0x80) as [H0|H0].
  { left. exists (bval b), 1%nat. split; [done|]. assert (Hv : ValidRune (bval b) = true) by (apply ValidRune_spec; lia).
    split; [done|]. unfold EncodeRune. rewrite Hv, (proj2 (Z.leb_le _ _)) by lia. cbn.
    by rewrite to_byte_bval. }
  destruct ((0xC2 <=? bval b) && (bval b <=? 0xDF)) eqn:H1.
  { b2p. destruct s as [|b1 s]; [by right|]. destruct (cont b1) eqn:C1; [|by right]. left.
    apply cont_range in C1. set (r := (bval b - 0xC0) * 64 + (bval b1 - 0x80)).
    assert (Hv : ValidRune r = true) by (apply ValidRune_spec; lia).
    exists r, 2%nat. split; [done|]. split; [done|]. unfold EncodeRune.
    rewrite Hv, (proj2 (Z.leb_gt r 0x7F)), (proj2 (Z.leb_le r 0x7FF)) by lia. split; [done|]. cbn [app drop].
    rewrite drop_0. f_equal; [|f_equal]; apply byte_of_val; unfold r; Z.to_euclidean_division_equations; lia. }
  destruct ((0xE0 <=? bval b) && (bval b <=? 0xEF)) eqn:H2.
  { b2p. destruct s as [|b1 [|b2 s]]; [by right..|]. case_bool; [|by right]. left. b2p.
    destruct (rune3 b b1 b2) as [Hv He]; [tauto..|]. eexists _, 3%nat. split; [done|]. split; [done|].
    rewrite He. cbn [length app drop]. by rewrite drop_0. }
  destruct ((0xF0 <=? bval b) && (bval b <=? 0xF4)) eqn:H3; [|by right].
  b2p. destruct s as [|b1 [|b2 [|b3 s]]]; [by right..|]. case_bool; [|by right]. left. b2p.
  destruct (rune4 b b1 b2 b3) as [Hv He]; [tauto..|]. eexists _, 4%nat. split; [done|]. split; [done|].
  rewrite He. cbn [length app drop]. by rewrite drop_0.
Qed.

(** The encoding of a rune, by size. *)
Lemma EncodeRune_cases r :
  ValidRune r = true ->
  (0 <= r <= 0x7F /\ EncodeRune r = [to_byte r]) \/
  (0x7F < r <= 0x7FF /\ EncodeRune r = [to_byte (0xC0 + r / 64); to_byte (0x80 + r mod 64)]) \/
  (0x7FF < r <= 0xFFFF /\ EncodeRune r =
     [to_byte (0xE0 + r / 4096); to_byte (0x80 + r / 64 mod 64); to_byte (0x80 + r mod 64)]) \/
  (0xFFFF < r <= 0x10FFFF /\ EncodeRune r =
     [to_byte (0xF0 + r / 262144); to_byte (0x80 + r / 4096 mod 64); to_byte (0x80 + r / 64 mod 64);
      to_byte (0x80 + r mod 64)]).
Proof.
  intros Hv. unfold EncodeRune. rewrite Hv. apply ValidRune_spec in Hv.
  destruct (Z.leb_spec r 0x7F); [left; lia || (split; [lia|done])|right].
  destruct (Z.leb_spec r 0x7FF); [left; split; [lia|done]|right].
  destruct (Z.leb_spec r 0xFFFF); [left|right]; (split; [lia|done]).
Qed.

(** Decoding inverts encoding, whatever follows. *)
Lemma DecodeRune_Encode r s :
  ValidRune r = true -> DecodeRune (EncodeRune r ++ s) = (r, length (EncodeRune r)).
Proof.
  intros Hv. pose proof Hv as Hr. apply ValidRune_spec in Hr as [_ Hr].
  destruct (EncodeRune_cases r Hv) as [[H ->]|[[H ->]|[[H ->]|[H ->]]]]; cbn [app length]; unfold DecodeRune; cbv zeta;
    unfold cont; rewrite ?bval_to_byte_small by (Z.to_euclidean_division_equations; lia).
  - by rewrite (proj2 (Z.ltb_lt _ _)) by lia.
  - assert (2 <= r / 64 < 32) by (Z.to_euclidean_division_equations; lia).
    pose proof (Z.mod_pos_bound r 64 eq_refl). repeat (case_bool; try lia).
    f_equal. rewrite (Z.div_mod r 64) at 3 by done. lia.
  - assert (Hq : 0 <= r / 4096 < 16 /\ 0 <= r / 64 mod 64 < 64 /\ 0 <= r mod 64 < 64 /\
      r = r / 4096 * 4096 + r / 64 mod 64 * 64 + r mod 64) by (Z.to_euclidean_division_equations; lia).
    destruct Hq as (? & ? & ? & Hq). case_bool; [lia|]. case_bool; [lia|]. case_bool; [|lia].
    match goal with |- (if ?t then _ else _) = _ => assert (t = true) as -> end.
    { destruct (Z.eqb_spec (0xE0 + r / 4096) 0xE0), (Z.eqb_spec (0xE0 + r / 4096) 0xED); lia. }
    f_equal. lia.
  - assert (Hq : 0 <= r / 262144 < 5 /\ 0 <= r / 4096 mod 64 < 64 /\ 0 <= r / 64 mod 64 < 64 /\
      0 <= r mod 64 < 64 /\
      r = r / 262144 * 262144 + r / 4096 mod 64 * 4096 + r / 64 mod 64 * 64 + r mod 64)
      by (Z.to_euclidean_division_equations; lia).
    destruct Hq as (? & ? & ? & ? & Hq). case_bool; [lia|]. case_bool; [lia|]. case_bool; [lia|].
    case_bool; [|lia].
    match goal with |- (if ?t then _ else _) = _ => assert (t = true) as -> end.
    { destruct (Z.eqb_spec (0xF0 + r / 262144) 0xF0), (Z.eqb_spec (0xF0 + r / 262144) 0xF4); lia. }
    f_equal. lia.
Qed.

Lemma length_EncodeRune r : (1 <= length (EncodeRune r) <= 4)%nat.
Proof. unfold EncodeRune. repeat case_bool; simpl; lia. Qed.

Lemma EncodeRune_not_nil r s : EncodeRune r ++ s <> [].
Proof. intros H. pose proof (length_EncodeRune r). destruct (EncodeRune r); simpl in *; [lia|done]. Qed.

(** An invalid rune is written as U+FFFD. *)
Lemma EncodeRune_valid r : exists r', ValidRune r' = true /\ EncodeRune r = EncodeRune r'.
Proof.
  destruct (ValidRune r) eqn:Hv; [by exists r|]. exists RuneError. split; [done|].
  unfold EncodeRune at 1. by rewrite Hv.
Qed.

(** *** Going through a string rune by rune *)

Lemma DecodeRune_width b s : (1 <= (DecodeRune (b :: s)).2)%nat.
Proof.
  destruct (DecodeRune_cases b s) as [(r & n & -> & _ & -> & _)|[-> _]]; [|done]. apply length_EncodeRune.
Qed.

Lemma rune_ind (P : bytes -> Prop) :
  P [] -> (forall b s, P (drop (DecodeRune (b :: s)).2 (b :: s)) -> P (b :: s)) -> forall s, P s.
Proof.
  intros H0 HS s. remember (length s) as n eqn:Hn. revert s Hn.
  induction n as [n IH] using lt_wf_ind. intros [|b s] ->; [done|]. apply HS.
  apply IH with (length (drop (DecodeRune (b :: s)).2 (b :: s))); [|done].
  rewrite length_drop. pose proof (DecodeRune_width b s). cbn [length]. lia.
Qed.

Lemma ToValid_go_fuel f1 f2 s :
  (length s <= f1)%nat -> (length s <= f2)%nat -> ToValid_go f1 s = ToValid_go f2 s.
Proof.
  revert f1 f2. induction s as [|b s IH] using rune_ind; intros [|f1] [|f2] H1 H2; simpl in H1, H2; try done; try lia.
  cbn [ToValid_go]. pose proof (DecodeRune_width b s). destruct (DecodeRune (b :: s)) as [r n]. cbn [snd] in *.
  f_equal. apply IH; rewrite length_drop; simpl; lia.
Qed.

Lemma Valid_go_fuel f1 f2 s :
  (length s <= f1)%nat -> (length s <= f2)%nat -> Valid_go f1 s = Valid_go f2 s.
Proof.
  revert f1 f2. induction s as [|b s IH] using rune_ind; intros [|f1] [|f2] H1 H2; simpl in H1, H2; try done; try lia.
  cbn [Valid_go]. pose proof (DecodeRune_width b s). destruct (DecodeRune (b :: s)) as [r n]. cbn [snd] in *.
  f_equal. apply IH; rewrite length_drop; simpl; lia.
Qed.

Lemma ToValid_step b s :
  ToValid (b :: s) = EncodeRune (DecodeRune (b :: s)).1 ++ ToValid (drop (DecodeRune (b :: s)).2 (b :: s)).
Proof.
  unfold ToValid. cbn [length ToValid_go]. pose proof (DecodeRune_width b s).
  destruct (DecodeRune (b :: s)) as [r n]. cbn [fst snd] in *. f_equal.
  apply ToValid_go_fuel; [|done]. rewrite length_drop. simpl. lia.
Qed.

Lemma Valid_step b s :
  Valid (b :: s) = negb (((DecodeRune (b :: s)).1 =? RuneError) && ((DecodeRune (b :: s)).2 =? 1)%nat) &&
    Valid (drop (DecodeRune (b :: s)).2 (b :: s)).
Proof.
  unfold Valid. cbn [length Valid_go]. pose proof (DecodeRune_width b s).
  destruct (DecodeRune (b :: s)) as [r n]. cbn [fst snd] in *. f_equal.
  apply Valid_go_fuel; [|done]. rewrite length_drop. simpl. lia.
Qed.

Lemma ToValid_rune r s : ValidRune r = true -> ToValid (EncodeRune r ++ s) = EncodeRune r ++ ToValid s.
Proof.
  intros Hv. pose proof (DecodeRune_Encode r s Hv) as Hd. pose proof (EncodeRune_not_nil r s) as Hn.
  destruct (EncodeRune r ++ s) as [|b l] eqn:E; [done|]. rewrite ToValid_step, Hd. cbn [fst snd].
  rewrite <- E. f_equal. by rewrite drop_app_length.
Qed.

Lemma Valid_rune r s : ValidRune r = true -> Valid (EncodeRune r ++ s) = Valid s.
Proof.
  intros Hv. pose proof (DecodeRune_Encode r s Hv) as Hd. pose proof (EncodeRune_not_nil r s) as Hn.
  destruct (EncodeRune r ++ s) as [|b l] eqn:E; [done|]. rewrite Valid_step, Hd. cbn [fst snd].
  rewrite <- E, drop_app_length. destruct (Z.eqb_spec r RuneError) as [->|]; [|done]. done.
Qed.

Lemma ToValid_ascii b s : bval b < 0x80 -> ToValid (b :: s) = b :: ToValid s.
Proof.
  intros Hb. pose proof (bval_range b).
  assert (Hv : ValidRune (bval b) = true) by (apply ValidRune_spec; lia).
  assert (He : EncodeRune (bval b) = [b]).
  { unfold EncodeRune. rewrite Hv, (proj2 (Z.leb_le _ _)) by lia. by rewrite to_byte_bval. }
  pose proof (ToValid_rune (bval b) s Hv) as H1. by rewrite He in H1.
Qed.

(** Valid text is left alone, and what replacing leaves is valid. *)
Lemma ToValid_Valid s : Valid s = true -> ToValid s = s.
Proof.
  induction s as [|b s IH] using rune_ind; [done|]. rewrite Valid_step, ToValid_step.
  intros [Hn Hs]%andb_true_iff. destruct (DecodeRune_cases b s) as [(r & n & Hd & Hv & Hl & E)|[Hd _]]; rewrite Hd in *; cbn [fst snd] in *.
  - by rewrite (IH Hs), <- E.
  - done.
Qed.

Lemma Valid_ToValid s : Valid (ToValid s) = true.
Proof.
  induction s as [|b s IH] using rune_ind; [done|]. rewrite ToValid_step.
  destruct (EncodeRune_valid (DecodeRune (b :: s)).1) as (r & Hv & ->). by rewrite Valid_rune.
Qed.

Lemma Valid_iff s : Valid s = true <-> ToValid s = s.
Proof. split; [apply ToValid_Valid|]. intros <-. apply Valid_ToValid. Qed.

#[global] Arguments ToValid s : simpl never.
#[global] Arguments Valid s : simpl never.
