(* ===== verification/Json.v ===== *)
(** * JSON: package [encoding/json]

    What the programs use of it: [Marshal] of structs with string, [int64] and [[]string] fields
    (with the HTML escaping of the default encoder), [Encoder.SetIndent], and [Unmarshal] into
    such structs: the scanner's grammar, the unquoting of strings, the match of keys to fields
    and the conversion of each value. *)

From Stdlib Require Import Strings.String.
From S2P Require Import Prelude Hex GoText Utf8.

(** ** Trees

    A number keeps its text. *)

#[warnings="-register-all"] Inductive json :=
  | JNull | JBool (b : bool) | JNum (text : bytes) | JStr (s : bytes)
  | JArr (l : list json) | JObj (ms : list (bytes * json)).

(** ** Encoding *)

(** [htmlSafeSet], for bytes below 0x80. *)
Definition htmlSafe (b : byte) : bool :=
  (0x20 <=? bval b) && negb (bool_decide (b ∈ [x22; x5c; x26; x3c; x3e])).

(** A byte below 0x80 inside a string, as [appendString] writes it. *)
Definition escape_ascii (b : byte) : bytes :=
  if htmlSafe b then [b]
  else if bool_decide (b ∈ [x22; x5c]) then [x5c; b]
  else if bool_decide (b = x08) then lit "\b"
  else if bool_decide (b = x0c) then lit "\f"
  else if bool_decide (b = x0a) then lit "\n"
  else if bool_decide (b = x0d) then lit "\r"
  else if bool_decide (b = x09) then lit "\t"
  else lit "\u00" ++ [hex_char (bval b / 16); hex_char (bval b mod 16)].

(** The loop of [appendString]: at least one byte per turn. *)
Fixpoint quote_go (fuel : nat) (s : bytes) : bytes :=
  match fuel, s with
  | _, [] => []
  | O, _ => []
  | S fuel', b :: s' =>
      if bval b <? 0x80 then escape_ascii b ++ quote_go fuel' s'
      else
        let '(r, n) := DecodeRune s in
        (if (r =? RuneError) && (n =? 1)%nat then lit "\ufffd"
         else if (r =? 0x2028) || (r =? 0x2029) then lit "\u202" ++ [hex_char (r mod 16)]
         else take n s) ++ quote_go fuel' (drop n s)
  end.
Definition quote (s : bytes) : bytes := x22 :: quote_go (length s) s ++ [x22].

Fixpoint join (l : list bytes) : bytes :=
  match l with [] => [] | [x] => x | x :: l' => x ++ x2c :: join l' end.

(** [json.Marshal] *)
Fixpoint encode (j : json) : bytes :=
  match j with
  | JNull => lit "null"
  | JBool b => if b then lit "true" else lit "false"
  | JNum t => t
  | JStr s => quote s
  | JArr l => x5b :: join (map encode l) ++ [x5d]
  | JObj ms => x7b :: join (map (fun '(k, v) => quote k ++ x3a :: encode v) ms) ++ [x7d]
  end.

(** [Encoder.Encode] after [SetIndent("", "  ")], without the final line feed. *)
Definition newline (depth : nat) : bytes := x0a :: replicate (2 * depth) x20.

Fixpoint join_lines (depth : nat) (l : list bytes) : bytes :=
  match l with [] => [] | [x] => x | x :: l' => x ++ x2c :: newline depth ++ join_lines depth l' end.

Fixpoint encode_indent (depth : nat) (j : json) : bytes :=
  match j with
  | JArr ((_ :: _) as l) =>
      x5b :: newline (S depth) ++ join_lines (S depth) (map (encode_indent (S depth)) l) ++
      newline depth ++ [x5d]
  | JObj ((_ :: _) as ms) =>
      x7b :: newline (S depth) ++
      join_lines (S depth) (map (fun '(k, v) => quote k ++ lit ": " ++ encode_indent (S depth) v) ms) ++
      newline depth ++ [x7d]
  | _ => encode j
  end.

(** ** Scanning *)

Definition maxNestingDepth : Z := 10000.

Definition is_ws (b : byte) : bool := bool_decide (b ∈ [x20; x09; x0d; x0a]).

Fixpoint skip_ws (s : bytes) : bytes :=
  match s with b :: s' => if is_ws b then skip_ws s' else s | [] => [] end.

(** Four hexadecimal digits, as [getu4] reads them. *)
Definition hex4 (s : bytes) : option (Z * bytes) :=
  match s with
  | a :: b :: c :: d :: s' =>
      a ← hex_val a; b ← hex_val b; c ← hex_val c; d ← hex_val d;
      Some (((a * 16 + b) * 16 + c) * 16 + d, s')
  | _ => None
  end.

(** The rune of an escape [\uXXXX] after the [u]: a surrogate followed by the escape of its other half is
    one rune, any other surrogate is U+FFFD. *)
Definition unicode_escape (s : bytes) : option (Z * bytes) :=
  '(r, s3) ← hex4 s;
  if IsSurrogate r then
    match s3 with
    | c :: u :: s5 =>
        if bool_decide (c = x5c) && bool_decide (u = x75) then
          match hex4 s5 with
          | Some (r1, s6) =>
              let dec := utf16_DecodeRune r r1 in
              if dec =? RuneError then Some (RuneError, s3) else Some (dec, s6)
          | None => Some (RuneError, s3)
          end
        else Some (RuneError, s3)
    | _ => Some (RuneError, s3)
    end
  else Some (r, s3).

(** The other escapes. *)
Definition simple_escape (b : byte) : option byte :=
  if bool_decide (b ∈ [x22; x5c; x2f]) then Some b
  else if bool_decide (b = x62) then Some x08
  else if bool_decide (b = x66) then Some x0c
  else if bool_decide (b = x6e) then Some x0a
  else if bool_decide (b = x72) then Some x0d
  else if bool_decide (b = x74) then Some x09
  else None.

(** The rest of a string after its opening quote: the unquoted text and what follows the closing
    quote. Invalid UTF-8 becomes U+FFFD. *)
Fixpoint string_go (fuel : nat) (s : bytes) : option (bytes * bytes) :=
  match fuel with
  | O => None
  | S fuel' =>
      match s with
      | [] => None
      | b :: s1 =>
          if bool_decide (b = x22) then Some ([], s1)
          else if bool_decide (b = x5c) then
            match s1 with
            | [] => None
            | e :: s2 =>
                if bool_decide (e = x75) then
                  '(r, s3) ← unicode_escape s2;
                  '(out, rest) ← string_go fuel' s3;
                  Some (EncodeRune r ++ out, rest)
                else
                  c ← simple_escape e;
                  '(out, rest) ← string_go fuel' s2;
                  Some (c :: out, rest)
            end
          else if bval b <? 0x20 then None
          else
            let '(r, n) := DecodeRune s in
            '(out, rest) ← string_go fuel' (drop n s);
            Some (EncodeRune r ++ out, rest)
      end
  end.
Definition string_lit (s : bytes) : option (bytes * bytes) := string_go (length s) s.

(** The digits at the front. *)
Fixpoint digits (s : bytes) : bytes * bytes :=
  match s with
  | b :: s' => if is_digit b then let '(d, r) := digits s' in (b :: d, r) else ([], s)
  | [] => ([], [])
  end.

Definition digits1 (s : bytes) : option (bytes * bytes) :=
  match digits s with ([], _) => None | dr => Some dr end.

Definition sign_of (signs : list byte) (s : bytes) : bytes * bytes :=
  match s with b :: s' => if bool_decide (b ∈ signs) then ([b], s') else ([], s) | [] => ([], []) end.

(** A number literal and what follows it. *)
Definition scan_int_part (s : bytes) : option (bytes * bytes) :=
  match s with
  | b :: s' => if bool_decide (b = x30) then Some ([b], s') else digits1 s
  | [] => None
  end.
Definition scan_frac (s : bytes) : option (bytes * bytes) :=
  match s with
  | b :: s' =>
      if bool_decide (b = x2e) then '(d, r) ← digits1 s'; Some (b :: d, r) else Some ([], s)
  | [] => Some ([], [])
  end.
Definition scan_exp (s : bytes) : option (bytes * bytes) :=
  match s with
  | b :: s' =>
      if bool_decide (b ∈ [x65; x45]) then
        let '(sg, s'') := sign_of [x2b; x2d] s' in
        '(d, r) ← digits1 s''; Some (b :: sg ++ d, r)
      else Some ([], s)
  | [] => Some ([], [])
  end.
Definition scan_number (s : bytes) : option (bytes * bytes) :=
  let '(neg, s) := sign_of [x2d] s in
  '(i, s) ← scan_int_part s;
  '(f, s) ← scan_frac s;
  '(e, s) ← scan_exp s;
  Some (neg ++ i ++ f ++ e, s).

(** A literal name whose first letter has been read. *)
Definition name_rest (name : bytes) (j : json) (s : bytes) : option (json * bytes) :=
  if HasPrefix s name then Some (j, drop (length name) s) else None.

(** A value, the members of an object after its brace, the elements of an array after its
    bracket; [first] allows the closing character. *)
Fixpoint value (fuel : nat) (depth : Z) (s : bytes) {struct fuel} : option (json * bytes) :=
  match fuel with
  | O => None
  | S fuel' =>
      match skip_ws s with
      | [] => None
      | b :: s' =>
          if bool_decide (b = x7b) then
            if maxNestingDepth <? depth + 1 then None
            else '(ms, r) ← members fuel' (depth + 1) true s'; Some (JObj ms, r)
          else if bool_decide (b = x5b) then
            if maxNestingDepth <? depth + 1 then None
            else '(l, r) ← elements fuel' (depth + 1) true s'; Some (JArr l, r)
          else if bool_decide (b = x22) then '(t, r) ← string_lit s'; Some (JStr t, r)
          else if bool_decide (b = x74) then name_rest (lit "rue") (JBool true) s'
          else if bool_decide (b = x66) then name_rest (lit "alse") (JBool false) s'
          else if bool_decide (b = x6e) then name_rest (lit "ull") JNull s'
          else '(n, r) ← scan_number (b :: s'); Some (JNum n, r)
      end
  end
with members (fuel : nat) (depth : Z) (first : bool) (s : bytes) {struct fuel} :
    option (list (bytes * json) * bytes) :=
  match fuel with
  | O => None
  | S fuel' =>
      match skip_ws s with
      | [] => None
      | b :: s1 =>
          if bool_decide (b = x7d) && first then Some ([], s1)
          else if bool_decide (b = x22) then
            '(k, s2) ← string_lit s1;
            match skip_ws s2 with
            | c :: s3 =>
                if bool_decide (c = x3a) then
                  '(v, s4) ← value fuel' depth s3;
                  match skip_ws s4 with
                  | e :: s5 =>
                      if bool_decide (e = x2c) then
                        '(ms, r) ← members fuel' depth false s5; Some ((k, v) :: ms, r)
                      else if bool_decide (e = x7d) then Some ([(k, v)], s5)
                      else None
                  | [] => None
                  end
                else None
            | [] => None
            end
          else None
      end
  end
with elements (fuel : nat) (depth : Z) (first : bool) (s : bytes) {struct fuel} :
    option (list json * bytes) :=
  match fuel with
  | O => None
  | S fuel' =>
      match skip_ws s with
      | [] => None
      | b :: s1 =>
          if bool_decide (b = x5d) && first then Some ([], s1)
          else
            '(v, s2) ← value fuel' depth s;
            match skip_ws s2 with
            | e :: s3 =>
                if bool_decide (e = x2c) then
                  '(l, r) ← elements fuel' depth false s3; Some (v :: l, r)
                else if bool_decide (e = x5d) then Some ([v], s3)
                else None
            | [] => None
            end
      end
  end.

(** One value and nothing else: [checkValid], and the tree the decoder walks. Each turn of the three
    functions but the passage from [elements] to [value] reads a byte. *)
Definition parse (data : bytes) : option json :=
  '(j, rest) ← value (S (2 * length data)) 0 data;
  if bool_decide (skip_ws rest = []) then Some j else None.

(** ' stands for the double quote in the literals below. *)
Definition lit_q (s : String.string) : bytes :=
  map (fun b => if bool_decide (b = x27) then x22 else b) (lit s).

Example parse_run :
  parse (lit_q " {'u':'usr_4\u0032' ,'s': ['a','\ud83d\ude00',null],'e':-12.5e+3,'x':{}} ") =
  Some (JObj [(lit "u", JStr (lit "usr_42")); (lit "s", JArr [JStr (lit "a"); JStr (lit "😀"); JNull]);
              (lit "e", JNum (lit "-12.5e+3")); (lit "x", JObj [])]).
Proof. vm_compute. reflexivity. Qed.

Example parse_fails :
  Forall (fun s => parse (lit_q s) = None)
    ["{'u':1,}"; "[1 2]"; "01"; "'\x'"; "{'u' 1}"; "'a"; "nul"; "1 1"; "-"; ""]%string.
Proof. repeat constructor. Qed.

Example encode_run :
  encode (JObj [(lit "u", JStr (lit "a<b>" ++ [xff; x01; x0a])); (lit "s", JArr [JStr []; JNum (lit "-1")])]) =
  lit_q "{'u':'a\u003cb\u003e\ufffd\u0001\n','s':['',-1]}".
Proof. vm_compute. reflexivity. Qed.

(** ** Structs *)

(** A field's current value. A slice is its backing store and its length: decoding into a slice
    reuses the cells that are already there. *)
Inductive field := FString (s : bytes) | FInt64 (n : Z) | FStrings (cells : list bytes) (n : nat).

Definition strings_of (cells : list bytes) (n : nat) : list bytes := take n cells.

(** A field to write, with its [omitempty] flag. *)
Record tagged := { name : bytes; omitempty : bool; val : field }.

Definition field_json (v : field) : json :=
  match v with
  | FString s => JStr s
  | FInt64 n => JNum (FormatInt n)
  | FStrings cells n => JArr (map JStr (strings_of cells n))
  end.

(** [isEmptyValue], and the object [Marshal] writes. *)
Definition isEmptyValue (v : field) : bool :=
  match v with FString s => bool_decide (s = []) | FInt64 n => n =? 0 | FStrings _ n => (n =? 0)%nat end.

Definition struct_json (fs : list tagged) : json :=
  JObj (map (fun f => (name f, field_json (val f)))
            (filter (fun f => omitempty f && isEmptyValue (val f) = false) fs)).

(** [foldName], for the comparison with the name of a field in ASCII: letters go to upper case, and
    the two runes beyond ASCII whose case folding is an ASCII letter are U+017F (S) and U+212A
    (K); every other rune folds to something that is not ASCII. *)
Fixpoint foldName (s : bytes) : bytes :=
  match s with
  | [] => []
  | a :: s1 =>
      if (97 <=? bval a) && (bval a <=? 122) then to_byte (bval a - 32) :: foldName s1
      else match s1 with
           | b :: s2 =>
               if bool_decide (a = xc5) && bool_decide (b = xbf) then x53 :: foldName s2
               else match s2 with
                    | c :: s3 =>
                        if bool_decide (a = xe2) && bool_decide (b = x84) && bool_decide (c = xaa)
                        then x4b :: foldName s3 else a :: foldName s1
                    | [] => a :: foldName s1
                    end
           | [] => a :: foldName s1
           end
  end.

(** The elements of an array into the cells of a slice: [null] leaves a cell as it is. *)
Fixpoint decode_strings (cells : list bytes) (l : list json) : option (list bytes) :=
  match l with
  | [] => Some []
  | j :: l' =>
      s ← match j with JNull => Some (hd [] cells) | JStr s => Some s | _ => None end;
      ss ← decode_strings (tl cells) l';
      Some (s :: ss)
  end.

(** A value into a field; [None] is an [UnmarshalTypeError], which makes the call fail. *)
Definition decode_field (v : field) (j : json) : option field :=
  match v, j with
  | FStrings _ _, JNull => Some (FStrings [] 0)
  | _, JNull => Some v
  | FString _, JStr s => Some (FString s)
  | FInt64 _, JNum t => n ← ParseInt t; Some (FInt64 n)
  | FStrings cells _, JArr l =>
      ss ← decode_strings cells l;
      Some (if bool_decide (ss = []) then FStrings [] 0
            else FStrings (ss ++ drop (length ss) cells) (length ss))
  | _, _ => None
  end.

(** The state of the struct: its fields by name, in order. The field of a key: the same name, else
    the same folded name. *)
Definition find_field (key : bytes) (fs : list (bytes * field)) : option nat :=
  match list_find (fun f => f.1 = key) fs with
  | Some (i, _) => Some i
  | None => fst <$> list_find (fun f => foldName f.1 = foldName key) fs
  end.

Definition decode_member (fs : list (bytes * field)) (m : bytes * json) : option (list (bytes * field)) :=
  match find_field m.1 fs with
  | None => Some fs
  | Some i =>
      f ← fs !! i;
      v ← decode_field f.2 m.2;
      Some (<[i := (f.1, v)]> fs)
  end.

Fixpoint decode_members (fs : list (bytes * field)) (ms : list (bytes * json)) :
    option (list (bytes * field)) :=
  match ms with
  | [] => Some fs
  | m :: ms' => fs ← decode_member fs m; decode_members fs ms'
  end.

(** [json.Unmarshal(data, &v)] for a struct [v] with fields [fs]. *)
Definition unmarshal (data : bytes) (fs : list (bytes * field)) : option (list (bytes * field)) :=
  j ← parse data;
  match j with
  | JNull => Some fs
  | JObj ms => decode_members fs ms
  | _ => None
  end.

(** ** Lemmas *)

(** Induction on trees, with the hypothesis for every element and every member. *)
Lemma json_forall (P : json -> Prop) :
  P JNull -> (forall b, P (JBool b)) -> (forall t, P (JNum t)) -> (forall s, P (JStr s)) ->
  (forall l, Forall P l -> P (JArr l)) -> (forall ms, Forall (fun m => P m.2) ms -> P (JObj ms)) ->
  forall j, P j.
Proof.
  intros H1 H2 H3 H4 H5 H6. fix IH 1. intros [|b|t|s|l|ms].
  - exact H1.
  - apply H2.
  - apply H3.
  - apply H4.
  - apply H5. induction l as [|j l IHl]; constructor; [apply IH|exact IHl].
  - apply H6. induction ms as [|[k v] ms IHms]; constructor; [apply IH|exact IHms].
Qed.

Lemma skip_ws_length s : (length (skip_ws s) <= length s)%nat.
Proof. induction s as [|b s IH]; simpl; [done|]. case_bool; simpl; lia. Qed.

Lemma skip_ws_cons b s : is_ws b = false -> skip_ws (b :: s) = b :: s.
Proof. simpl. by intros ->. Qed.

(** *** Termination: every reader consumes, so the fuel is enough *)

Lemma hex4_length s r rest : hex4 s = Some (r, rest) -> (length rest < length s)%nat.
Proof.
  destruct s as [|a [|b [|c [|d s]]]]; try done. simpl.
  destruct (hex_val a), (hex_val b), (hex_val c), (hex_val d); try done. intros [= _ <-]. lia.
Qed.

Lemma unicode_escape_length s r rest : unicode_escape s = Some (r, rest) -> (length rest < length s)%nat.
Proof.
  unfold unicode_escape. destruct (hex4 s) as [[r1 s3]|] eqn:E; [|done]. apply hex4_length in E. simpl.
  destruct (IsSurrogate r1); [|intros [= _ <-]; done].
  destruct s3 as [|c [|u s5]]; try (intros [= _ <-]; done).
  destruct (_ && _); [|intros [= _ <-]; done].
  destruct (hex4 s5) as [[r2 s6]|] eqn:Hq2; [|intros [= _ <-]; done]. apply hex4_length in Hq2.
  cbn [length] in *. case_bool; intros [= _ <-]; cbn [length] in *; lia.
Qed.

Lemma string_go_length f s out rest : string_go f s = Some (out, rest) -> (length rest < length s)%nat.
Proof.
  revert s out rest; induction f as [|f IH]; intros s out rest; [done|]. destruct s as [|b s1]; [done|].
  cbn [string_go]. case_bool; [intros [= _ <-]; simpl; lia|]. case_bool.
  - destruct s1 as [|e s2]; [done|]. case_bool.
    + destruct (unicode_escape s2) as [[r s3]|] eqn:Hq1; [|done]. cbn.
      destruct (string_go f s3) as [[o r']|] eqn:Hq2; [|done]. intros [= _ <-].
      apply IH in Hq2. apply unicode_escape_length in Hq1. lia.
    + destruct (simple_escape e); [|done]. cbn.
      destruct (string_go f s2) as [[o r']|] eqn:Hq2; [|done]. intros [= _ <-]. apply IH in Hq2. lia.
  - case_bool; [done|]. pose proof (DecodeRune_width b s1) as Hw.
    destruct (DecodeRune (b :: s1)) as [r n]. cbn [mbind option_bind snd] in *.
    destruct (string_go f (drop n (b :: s1))) as [[o r']|] eqn:Hq2; [|done]. intros [= _ <-].
    apply IH in Hq2. rewrite length_drop in Hq2. simpl in *. lia.
Qed.

Lemma string_go_fuel f1 f2 s :
  (length s <= f1)%nat -> (length s <= f2)%nat -> string_go f1 s = string_go f2 s.
Proof.
  revert f2 s; induction f1 as [|f1 IH]; intros [|f2] [|b s1] H1 H2; simpl in H1, H2; try done; try lia.
  cbn [string_go]. case_bool; [done|]. case_bool.
  - destruct s1 as [|e s2]; [done|]. simpl in H1, H2. case_bool.
    + destruct (unicode_escape s2) as [[r s3]|] eqn:Hq1; [|done]. cbn. apply unicode_escape_length in Hq1.
      by rewrite (IH f2 s3) by lia.
    + destruct (simple_escape e); [|done]. cbn. by rewrite (IH f2 s2) by lia.
  - case_bool; [done|]. pose proof (DecodeRune_width b s1) as Hw.
    destruct (DecodeRune (b :: s1)) as [r n]. cbn [mbind option_bind snd] in *.
    rewrite (IH f2); [done|rewrite length_drop; simpl; lia..].
Qed.

Lemma string_lit_length s out rest : string_lit s = Some (out, rest) -> (length rest < length s)%nat.
Proof. apply string_go_length. Qed.

Lemma digits_app s : s = (digits s).1 ++ (digits s).2.
Proof. induction s as [|b s IH]; simpl; [done|]. case_bool; [|done]. destruct (digits s). simpl in *. by f_equal. Qed.

Lemma digits1_length s d rest : digits1 s = Some (d, rest) -> (length rest < length s)%nat.
Proof.
  unfold digits1. pose proof (digits_app s) as Ha. destruct (digits s) as [[|x d'] r] eqn:E; [done|].
  intros [= <- <-]. rewrite Ha. cbn [fst snd]. rewrite length_app. simpl. lia.
Qed.

Lemma sign_of_length l s : (length (sign_of l s).2 <= length s)%nat.
Proof. destruct s; simpl; [done|]. case_bool; simpl; lia. Qed.

Lemma scan_number_length s t rest : scan_number s = Some (t, rest) -> (length rest < length s)%nat.
Proof.
  unfold scan_number. pose proof (sign_of_length [x2d] s). destruct (sign_of [x2d] s) as [neg s1]. cbn [snd] in *.
  destruct (scan_int_part s1) as [[i s2]|] eqn:Hq1; [|done]. cbn.
  destruct (scan_frac s2) as [[f s3]|] eqn:Hq2; [|done]. cbn.
  destruct (scan_exp s3) as [[e s4]|] eqn:Hq3; [|done]. cbn. intros [= _ <-].
  assert ((length s2 < length s1)%nat).
  { destruct s1 as [|b s1]; [done|]. cbn [scan_int_part] in Hq1. case_bool_in Hq1; [injection Hq1 as _ <-; simpl; lia|].
    by apply digits1_length in Hq1. }
  assert ((length s3 <= length s2)%nat).
  { destruct s2 as [|b s2]; cbn [scan_frac] in Hq2; [by injection Hq2 as _ <-|].
    case_bool_in Hq2; [|injection Hq2 as _ <-; done].
    destruct (digits1 s2) as [[d r]|] eqn:Hd; [|done]. injection Hq2 as _ <-. apply digits1_length in Hd. simpl. lia. }
  assert ((length s4 <= length s3)%nat); [|lia].
  destruct s3 as [|b s3]; cbn [scan_exp] in Hq3; [by injection Hq3 as _ <-|].
  case_bool_in Hq3; [|injection Hq3 as _ <-; done].
  pose proof (sign_of_length [x2b; x2d] s3). destruct (sign_of [x2b; x2d] s3) as [sg s3']. cbn [snd] in *.
  destruct (digits1 s3') as [[d r]|] eqn:Hd; [|done]. injection Hq3 as _ <-. apply digits1_length in Hd. simpl. lia.
Qed.

Lemma name_rest_length n j s j' rest : name_rest n j s = Some (j', rest) -> (length rest <= length s)%nat.
Proof. unfold name_rest. case_bool; [|done]. intros [= _ <-]. rewrite length_drop. lia. Qed.

Lemma value_length f :
  (forall d s j r, value f d s = Some (j, r) -> (length r < length s)%nat) /\
  (forall d b s ms r, members f d b s = Some (ms, r) -> (length r < length s)%nat) /\
  (forall d b s l r, elements f d b s = Some (l, r) -> (length r < length s)%nat).
Proof.
  induction f as [|f (IHv & IHm & IHe)]; [done|].
  split; [|split]; intros d; [intros s|intros first s..]; cbn [value members elements];
    pose proof (skip_ws_length s) as Hw; destruct (skip_ws s) as [|b s1]; try done; cbn [length] in Hw.
  - intros j r. case_bool.
    { case_bool; [done|]. destruct (members _ _ _ _) as [[ms r1]|] eqn:Hm; [|done].
      intros [= _ <-]. apply IHm in Hm. lia. }
    case_bool.
    { case_bool; [done|]. destruct (elements _ _ _ _) as [[ms r1]|] eqn:Hm; [|done].
      intros [= _ <-]. apply IHe in Hm. lia. }
    case_bool.
    { destruct (string_lit s1) as [[t r1]|] eqn:Hm; [|done]. intros [= _ <-].
      apply string_lit_length in Hm. lia. }
    do 3 (case_bool; [intros Hn%name_rest_length; lia|]).
    destruct (scan_number (b :: s1)) as [[t r1]|] eqn:Hm; [|done]. intros [= _ <-].
    apply scan_number_length in Hm. simpl in Hm. lia.
  - intros ms r. case_bool; [intros [= _ <-]; lia|]. case_bool; [|done].
    destruct (string_lit s1) as [[k s2]|] eqn:Hk; [|done]. apply string_lit_length in Hk. cbn.
    pose proof (skip_ws_length s2). destruct (skip_ws s2) as [|c s3]; [done|]. cbn [length] in *. case_bool; [|done].
    destruct (value f d s3) as [[v s4]|] eqn:Hv; [|done]. apply IHv in Hv. cbn.
    pose proof (skip_ws_length s4). destruct (skip_ws s4) as [|e s5]; [done|]. cbn [length] in *. case_bool.
    + destruct (members f d false s5) as [[ms1 r1]|] eqn:Hm; [|done]. intros [= _ <-]. apply IHm in Hm. lia.
    + case_bool; [|done]. intros [= _ <-]. lia.
  - intros l r. case_bool; [intros [= _ <-]; lia|].
    destruct (value f d s) as [[v s4]|] eqn:Hv; [|done]. apply IHv in Hv. cbn.
    pose proof (skip_ws_length s4). destruct (skip_ws s4) as [|e s5]; [done|]. cbn [length] in *. case_bool.
    + destruct (elements f d false s5) as [[ms1 r1]|] eqn:Hm; [|done]. intros [= _ <-]. apply IHe in Hm. lia.
    + case_bool; [|done]. intros [= _ <-]. lia.
Qed.

(** The three readers do not depend on their fuel once it covers the text. *)
Lemma value_fuel n :
  (forall s f1 f2 d, (length s <= n)%nat -> (2 * length s < f1)%nat -> (2 * length s < f2)%nat ->
     value f1 d s = value f2 d s) /\
  (forall s f1 f2 d b, (length s <= n)%nat -> (2 * length s < f1)%nat -> (2 * length s < f2)%nat ->
     members f1 d b s = members f2 d b s) /\
  (forall s f1 f2 d b, (length s <= n)%nat -> (S (2 * length s) < f1)%nat -> (S (2 * length s) < f2)%nat ->
     elements f1 d b s = elements f2 d b s).
Proof.
  induction n as [|n (IHv & IHm & IHe)].
  { split; [|split]; intros [|b s] [|f1] [|f2]; simpl; intros; done || lia. }
  assert (Hval : forall s f1 f2 d, (length s <= S n)%nat -> (2 * length s < f1)%nat -> (2 * length s < f2)%nat ->
     value f1 d s = value f2 d s).
  { intros s [|f1] [|f2] d Hn H1 H2; try lia. cbn [value].
    pose proof (skip_ws_length s) as Hw; destruct (skip_ws s) as [|b s1]; [done|]; cbn [length] in Hw.
    rewrite (IHm s1 f1 f2), (IHe s1 f1 f2) by lia. done. }
  split; [exact Hval|]. split; intros s [|f1] [|f2] d first Hn H1 H2; try lia; cbn [members elements];
    pose proof (skip_ws_length s) as Hw; destruct (skip_ws s) as [|b s1]; try done; cbn [length] in Hw.
  - case_bool; [done|]. case_bool; [|done].
    destruct (string_lit s1) as [[k s2]|] eqn:Hk; [|done]. apply string_lit_length in Hk.
    cbn [mbind option_bind].
    pose proof (skip_ws_length s2). destruct (skip_ws s2) as [|c s3]; [done|]. cbn [length] in *.
    case_bool; [|done]. rewrite (IHv s3 f1 f2) by lia.
    destruct (value f2 d s3) as [[v s4]|] eqn:Hv; [|done].
    apply (proj1 (value_length f2)) in Hv. cbn [mbind option_bind].
    pose proof (skip_ws_length s4). destruct (skip_ws s4) as [|e s5]; [done|]. cbn [length] in *.
    by rewrite (IHm s5 f1 f2) by lia.
  - case_bool; [done|]. rewrite (Hval s f1 f2) by lia.
    destruct (value f2 d s) as [[v s4]|] eqn:Hv; [|done].
    apply (proj1 (value_length f2)) in Hv. cbn [mbind option_bind].
    pose proof (skip_ws_length s4). destruct (skip_ws s4) as [|e s5]; [done|]. cbn [length] in *.
    by rewrite (IHe s5 f1 f2) by lia.
Qed.

(** *** Strings: what is read is valid UTF-8, and what is written is read back *)

Lemma Valid_app_encode r s : Valid (EncodeRune r ++ s) = Valid s.
Proof. destruct (EncodeRune_valid r) as (r' & Hv & ->). by apply Valid_rune. Qed.

Lemma Valid_ascii b s : bval b < 0x80 -> Valid (b :: s) = Valid s.
Proof.
  intros Hb. pose proof (bval_range b). rewrite <- (Valid_app_encode (bval b) s).
  unfold EncodeRune. rewrite (proj2 (ValidRune_spec (bval b))), (proj2 (Z.leb_le _ _)) by lia.
  by rewrite to_byte_bval.
Qed.

Lemma simple_escape_ascii_test :
  forallb (fun e => match simple_escape e with Some c => bval c <? 0x80 | None => true end) all_bytes = true.
Proof. vm_compute. reflexivity. Qed.

Lemma simple_escape_ascii e c : simple_escape e = Some c -> bval c < 0x80.
Proof.
  intros H. pose proof (byte_forall _ simple_escape_ascii_test e) as Ht. cbv beta in Ht. rewrite H in Ht. lia.
Qed.

Lemma string_go_Valid f s out rest : string_go f s = Some (out, rest) -> Valid out = true.
Proof.
  revert s out rest; induction f as [|f IH]; intros s out rest; [done|]. destruct s as [|b s1]; [done|].
  cbn [string_go]. case_bool; [intros [= <- _]; done|]. case_bool.
  - destruct s1 as [|e s2]; [done|]. case_bool.
    + destruct (unicode_escape s2) as [[r s3]|]; [|done]. cbn.
      destruct (string_go f s3) as [[o r']|] eqn:Hg; [|done]. intros [= <- _].
      rewrite Valid_app_encode. by eapply IH.
    + destruct (simple_escape e) as [c|] eqn:He; [|done]. cbn.
      destruct (string_go f s2) as [[o r']|] eqn:Hg; [|done]. intros [= <- _].
      rewrite Valid_ascii by (by eapply simple_escape_ascii). by eapply IH.
  - case_bool; [done|]. destruct (DecodeRune (b :: s1)) as [r n]. cbn [mbind option_bind].
    destruct (string_go f (drop n (b :: s1))) as [[o r']|] eqn:Hg; [|done]. intros [= <- _].
    rewrite Valid_app_encode. by eapply IH.
Qed.

(** One escaped byte is read as that byte, in one turn. *)
Lemma string_go_escape f b s :
  bval b < 0x80 ->
  string_go (S f) (escape_ascii b ++ s) = ('(out, rest) ← string_go f s; Some (b :: out, rest)).
Proof. intros Hb. destruct b; solve [reflexivity | cbn; reflexivity | exfalso; vm_compute in Hb; discriminate Hb]. Qed.

(** The escapes of U+FFFD, U+2028 and U+2029. *)
Lemma string_go_fffd f s :
  string_go (S f) (lit "\ufffd" ++ s) = ('(out, rest) ← string_go f s; Some (EncodeRune RuneError ++ out, rest)).
Proof. reflexivity. Qed.

Lemma string_go_202 f r s :
  r = 0x2028 \/ r = 0x2029 ->
  string_go (S f) ((lit "\u202" ++ [hex_char (r mod 16)]) ++ s) =
    ('(out, rest) ← string_go f s; Some (EncodeRune r ++ out, rest)).
Proof. intros [-> | ->]; reflexivity. Qed.

(** A rune beyond ASCII, as it is. *)
Lemma string_go_rune f r b s t :
  ValidRune r = true -> EncodeRune r = b :: s -> 0x80 <= bval b ->
  string_go (S f) (EncodeRune r ++ t) = ('(out, rest) ← string_go f t; Some (EncodeRune r ++ out, rest)).
Proof.
  intros Hv He Hb. pose proof (DecodeRune_Encode r t Hv) as Hd.
  assert (Hdrop : drop (length (EncodeRune r)) (EncodeRune r ++ t) = t) by apply drop_app_length.
  rewrite He in Hd, Hdrop |- *. cbn [app] in *. cbn [string_go].
  rewrite !bool_decide_eq_false_2 by (intros ->; apply Hb; reflexivity).
  rewrite (proj2 (Z.ltb_ge _ _)) by lia. rewrite Hd, Hdrop. by rewrite He.
Qed.

(** What [quote] writes between its quotes reads back as the text with invalid bytes replaced. *)
Lemma string_go_quote f s rest :
  forall fq, (length s <= fq)%nat -> (length s < f)%nat ->
  string_go f (quote_go fq s ++ x22 :: rest) = Some (ToValid s, rest).
Proof.
  revert f. induction s as [|b s IH] using rune_ind; intros [|f] [|fq] Hq Hf; cbn [length] in *; try lia; [done..|].
  cbn [quote_go]. rewrite ToValid_step.
  destruct (Z.ltb_spec (bval b) 0x80) as [Hb|Hb].
  - assert (Hd : DecodeRune (b :: s) = (bval b, 1%nat)) by (unfold DecodeRune; by rewrite (proj2 (Z.ltb_lt _ _))).
    rewrite <- ToValid_step, ToValid_ascii by done. rewrite <- app_assoc, string_go_escape by done.
    rewrite Hd in IH. cbn [snd drop] in IH. rewrite drop_0 in IH. by rewrite IH by lia.
  - assert (Hlen : forall n, (1 <= n)%nat -> (length (drop n (b :: s)) <= length s)%nat)
      by (intros n Hn; rewrite length_drop; cbn [length]; lia).
    pose proof (DecodeRune_width b s) as Hw.
    destruct (DecodeRune_cases b s) as [(r & n & Hd & Hv & Hn & Hs)|[Hd _]]; rewrite Hd in *; cbn [fst snd] in *;
      specialize (Hlen _ Hw); rewrite <- app_assoc.
    + assert (Hr : forall w, string_go (S f) (w ++ quote_go fq (drop n (b :: s)) ++ x22 :: rest) =
        ('(out, rest0) ← string_go f (quote_go fq (drop n (b :: s)) ++ x22 :: rest); Some (EncodeRune r ++ out, rest0)) ->
        string_go (S f) (w ++ quote_go fq (drop n (b :: s)) ++ x22 :: rest) =
        Some (EncodeRune r ++ ToValid (drop n (b :: s)), rest)).
      { intros w ->. by rewrite IH by lia. }
      apply Hr. clear Hr IH. destruct ((r =? RuneError) && (n =? 1)%nat) eqn:He.
      { b2p. subst r. done. }
      destruct ((r =? 0x2028) || (r =? 0x2029)) eqn:Hs2.
      { apply string_go_202. b2p. lia. }
      assert (Ht : take n (b :: s) = EncodeRune r) by (rewrite Hs, Hn; apply take_app_length).
      rewrite Ht. destruct (EncodeRune r) as [|b' e] eqn:Hr; [pose proof (length_EncodeRune r) as Hl; rewrite Hr in Hl; simpl in Hl; lia|].
      rewrite <- Hr. eapply string_go_rune; [done|exact Hr|].
      injection Hs as -> _. lia.
    + change ((RuneError =? RuneError) && (1 =? 1)%nat) with true. cbv iota.
      rewrite string_go_fffd. by rewrite IH by lia.
Qed.

Lemma string_lit_quote s rest :
  string_lit (quote_go (length s) s ++ x22 :: rest) = Some (ToValid s, rest).
Proof.
  unfold string_lit. set (t := quote_go _ _ ++ _).
  assert (Ht : string_go (S (length s) + length t) t = Some (ToValid s, rest)) by (apply string_go_quote; lia).
  rewrite <- Ht. apply string_go_fuel; lia.
Qed.

(** *** Numbers *)

(** [rest] does not continue a number. *)
Definition ends_number (rest : bytes) : Prop :=
  match rest with b :: _ => is_digit b = false /\ b <> x2e /\ b <> x65 /\ b <> x45 | [] => True end.

Lemma digits_all l rest :
  forallb is_digit l = true -> no_digit_first rest -> digits (l ++ rest) = (l, rest).
Proof.
  intros Hl Hr. induction l as [|b l IH]; cbn [app].
  - destruct rest as [|b rest]; [done|]. cbn [digits]. by rewrite Hr.
  - cbn [forallb] in Hl. apply andb_true_iff in Hl as [Hb Hl]. cbn [digits]. by rewrite Hb, IH.
Qed.

Lemma scan_tail_end rest : ends_number rest -> scan_frac rest = Some ([], rest) /\ scan_exp rest = Some ([], rest).
Proof.
  destruct rest as [|b rest]; [done|]. intros (_ & H1 & H2 & H3). cbn [scan_frac scan_exp].
  rewrite !bool_decide_eq_false_2 by (rewrite ?elem_of_cons, ?elem_of_nil; intuition congruence). done.
Qed.

(** A positive number starts with a digit other than 0. *)
Lemma decimal_head fuel n :
  0 < n < 10 ^ Z.of_nat fuel -> exists b l, decimal fuel n = b :: l /\ bval b <> 48.
Proof.
  revert n; induction fuel as [|fuel IH]; intros n Hn; [cbn in Hn; lia|]. cbn [decimal].
  rewrite Nat2Z.inj_succ, Z.pow_succ_r in Hn by lia. destruct (Z.ltb_spec n 10) as [H|H].
  - exists (to_byte (48 + n mod 10)), []. split; [done|]. rewrite Z.mod_small, bval_to_byte_small by lia. lia.
  - destruct (IH (n / 10)) as (b & l & -> & Hb); [|by exists b, (l ++ [to_byte (48 + n mod 10)])].
    split; [apply Z.div_str_pos; lia|]. apply Z.div_lt_upper_bound; lia.
Qed.

Lemma scan_int_part_Itoa n rest :
  0 <= n < 10 ^ 20 -> no_digit_first rest -> scan_int_part (Itoa n ++ rest) = Some (Itoa n, rest).
Proof.
  intros Hn Hr. destruct (Z.eq_dec n 0) as [->|H0]; [reflexivity|].
  destruct (decimal_spec 20 n) as (Hd & _ & _); [exact Hn|lia|].
  destruct (decimal_head 20 n) as (b & l & He & Hb); [change (Z.of_nat 20) with 20; lia|]. fold (Itoa n) in *.
  pose proof (digits_all _ _ Hd Hr) as Hs. rewrite He in *. cbn [app scan_int_part].
  rewrite bool_decide_eq_false_2 by (intros ->; by apply Hb). unfold digits1. cbn [app] in Hs. by rewrite Hs.
Qed.

Lemma scan_number_FormatInt n rest :
  in_int64 n -> ends_number rest -> scan_number (FormatInt n ++ rest) = Some (FormatInt n, rest).
Proof.
  unfold in_int64, FormatInt, scan_number. intros Hn Hr. destruct (scan_tail_end rest Hr) as [Hf He].
  assert (Hd : no_digit_first rest) by (destruct rest; [done|apply Hr]).
  destruct (Z.ltb_spec n 0) as [H|H].
  - cbn [app sign_of]. rewrite bool_decide_eq_true_2 by (by apply elem_of_cons; left).
    rewrite scan_int_part_Itoa by (done || lia). cbn. rewrite Hf. cbn. rewrite He. cbn. by rewrite app_nil_r.
  - assert (Hs : sign_of [x2d] (Itoa n ++ rest) = ([], Itoa n ++ rest)).
    { destruct (scan_Itoa n) as (_ & _ & b & l & -> & Hb); [lia|]. cbn [app sign_of].
      rewrite bool_decide_eq_false_2; [done|]. rewrite list_elem_of_singleton. by intros ->. }
    rewrite Hs, scan_int_part_Itoa by (done || lia). cbn. rewrite Hf. cbn. rewrite He. cbn. by rewrite app_nil_r.
Qed.

(** *** Trees: what is written reads back

    [canon] is what the reader makes of a written tree: invalid UTF-8 is replaced. The numbers are
    the ones [Marshal] writes for an [int64], and [nesting] is bounded by the scanner's limit. *)

Fixpoint canon (j : json) : json :=
  match j with
  | JStr s => JStr (ToValid s)
  | JArr l => JArr (map canon l)
  | JObj ms => JObj (map (fun '(k, v) => (ToValid k, canon v)) ms)
  | _ => j
  end.

Fixpoint nesting (j : json) : nat :=
  match j with
  | JArr l => S (list_max (map nesting l))
  | JObj ms => S (list_max (map (fun '(_, v) => nesting v) ms))
  | _ => O
  end.

Definition int64_text (t : bytes) : bool :=
  match ParseInt t with Some n => bool_decide (t = FormatInt n) | None => false end.

Fixpoint int_numbers (j : json) : bool :=
  match j with
  | JNum t => int64_text t
  | JArr l => forallb int_numbers l
  | JObj ms => forallb (fun '(_, v) => int_numbers v) ms
  | _ => true
  end.

Lemma ParseInt_range t n : ParseInt t = Some n -> in_int64 n.
Proof.
  unfold ParseInt, in_int64. repeat case_match; try done; intros [= <-]; b2p; lia.
Qed.

Lemma int64_text_FormatInt n : in_int64 n -> int64_text (FormatInt n) = true.
Proof. intros Hn. unfold int64_text. rewrite Parse_Format by done. by apply bool_decide_eq_true_2. Qed.

Lemma int64_text_inv t : int64_text t = true -> exists n, in_int64 n /\ t = FormatInt n.
Proof.
  unfold int64_text. destruct (ParseInt t) as [n|] eqn:Hp; [|done]. intros Ht%bool_decide_eq_true.
  apply ParseInt_range in Hp. eauto.
Qed.

(** The first byte of a number, and of a written tree. *)
Lemma FormatInt_head n : in_int64 n -> exists b l, FormatInt n = b :: l /\ (b = x2d \/ is_digit b = true).
Proof.
  unfold in_int64, FormatInt. intros Hn. destruct (Z.ltb_spec n 0); [by exists x2d, (Itoa (- n)); eauto|].
  destruct (scan_Itoa n) as (_ & _ & b & l & Hb & Hd); [lia|]. exists b, l. eauto.
Qed.

Lemma encode_head j :
  int_numbers j = true -> exists b s, encode j = b :: s /\ is_ws b = false /\ b <> x5d.
Proof.
  destruct j as [|[]|t|s|l|ms]; cbn [encode int_numbers]; intros Hj; try (eexists _, _; split; [reflexivity|done]).
  apply int64_text_inv in Hj as (n & Hn & ->). destruct (FormatInt_head n Hn) as (b & l & -> & Hb).
  exists b, l. split; [done|]. destruct Hb as [->|Hb]; [done|].
  split; [|by intros ->]. unfold is_ws. apply bool_decide_eq_false. intros Hin.
  repeat (apply elem_of_cons in Hin as [->|Hin]; [done|]). by apply not_elem_of_nil in Hin.
Qed.

Lemma skip_ws_encode j rest : int_numbers j = true -> skip_ws (encode j ++ rest) = encode j ++ rest.
Proof. intros Hj. destruct (encode_head j Hj) as (b & s & -> & Hb & _). cbn [app]. by apply skip_ws_cons. Qed.

(** [value] on one written tree, [rest] following; the statement the inductions carry. *)
Definition reads_back (j : json) : Prop :=
  forall f d rest, ends_number rest -> int_numbers j = true ->
    d + Z.of_nat (nesting j) <= maxNestingDepth -> (2 * length (encode j ++ rest) < f)%nat ->
    value f d (encode j ++ rest) = Some (canon j, rest).

Lemma value_number f d n rest :
  in_int64 n -> ends_number rest ->
  value (S f) d (FormatInt n ++ rest) = Some (JNum (FormatInt n), rest).
Proof.
  intros Hn Hr. pose proof (scan_number_FormatInt n rest Hn Hr) as Hs.
  assert (Hw : skip_ws (FormatInt n ++ rest) = FormatInt n ++ rest).
  { apply (skip_ws_encode (JNum (FormatInt n))). by apply int64_text_FormatInt. }
  destruct (FormatInt_head n Hn) as (b & l & He & Hb). cbn [value]. rewrite Hw. rewrite He in *. cbn [app] in *.
  rewrite !bool_decide_eq_false_2 by (intros ->; destruct Hb; done). by rewrite Hs.
Qed.

(** The elements of a written array, from the first. *)
Lemma elements_join l f d first rest :
  Forall reads_back l -> l <> [] -> forallb int_numbers l = true ->
  d + Z.of_nat (list_max (map nesting l)) <= maxNestingDepth ->
  (S (2 * length (join (map encode l) ++ x5d :: rest)) < f)%nat ->
  elements f d first (join (map encode l) ++ x5d :: rest) = Some (map canon l, rest).
Proof.
  revert f first. induction l as [|j l IH]; [done|]. intros f first [Hj Hl]%Forall_cons _ [Hi Hil]%andb_true_iff Hd Hf.
  change (list_max (map nesting (j :: l))) with (nesting j `max` list_max (map nesting l))%nat in Hd.
  assert (Hval : forall t f, ends_number t -> (2 * length (encode j ++ t) < f)%nat ->
     value f d (encode j ++ t) = Some (canon j, t)) by (intros; apply Hj; done || lia).
  assert (He : forall t, elements f d first (encode j ++ t) =
     '(v, s2) ← value (pred f) d (encode j ++ t);
     match skip_ws s2 with
     | e :: s3 =>
         if bool_decide (e = x2c) then
           '(l, r) ← elements (pred f) d false s3; Some (v :: l, r)
         else if bool_decide (e = x5d) then Some ([v], s3)
         else None
     | [] => None
     end).
  { intros t. destruct f as [|f]; [lia|]. cbn [elements pred]. rewrite skip_ws_encode by done.
    destruct (encode_head j Hi) as (b & s & -> & _ & Hb). cbn [app].
    by rewrite (bool_decide_eq_false_2 (b = x5d)). }
  destruct l as [|j2 l].
  - cbn [map join] in *. rewrite He, Hval by (done || lia). cbn. done.
  - change (join (map encode (j :: j2 :: l))) with (encode j ++ x2c :: join (map encode (j2 :: l))) in *.
    rewrite <- app_assoc, <- app_comm_cons in *. rewrite He, Hval by (done || lia). cbn [mbind option_bind].
    rewrite skip_ws_cons by done. rewrite bool_decide_eq_true_2 by done.
    rewrite length_app in Hf. cbn [length] in Hf. by rewrite IH by (done || lia).
Qed.

(** The members of a written object, from the first. *)
Lemma members_join ms f d first rest :
  Forall (fun m => reads_back m.2) ms -> ms <> [] -> forallb (fun '(_, v) => int_numbers v) ms = true ->
  d + Z.of_nat (list_max (map (fun '(_, v) => nesting v) ms)) <= maxNestingDepth ->
  (2 * length (join (map (fun '(k, v) => quote k ++ x3a :: encode v) ms) ++ x7d :: rest) < f)%nat ->
  members f d first (join (map (fun '(k, v) => quote k ++ x3a :: encode v) ms) ++ x7d :: rest) =
    Some (map (fun '(k, v) => (ToValid k, canon v)) ms, rest).
Proof.
  revert f first. induction ms as [|[k j] ms IH]; [done|].
  intros f first [Hj Hl]%Forall_cons _ [Hi Hil]%andb_true_iff Hd Hf. cbn [snd] in *.
  change (list_max (map (fun '(_, v) => nesting v) ((k, j) :: ms)))
    with (nesting j `max` list_max (map (fun '(_, v) => nesting v) ms))%nat in Hd.
  assert (He : forall t, ends_number t -> (2 * length (quote k ++ x3a :: encode j ++ t) < f)%nat ->
     members f d first (quote k ++ x3a :: encode j ++ t) =
     match skip_ws t with
     | e :: s5 =>
         if bool_decide (e = x2c) then
           '(ms, r) ← members (pred f) d false s5; Some ((ToValid k, canon j) :: ms, r)
         else if bool_decide (e = x7d) then Some ([(ToValid k, canon j)], s5)
         else None
     | [] => None
     end).
  { intros t Ht Hlt. destruct f as [|f]; [lia|]. cbn [members pred]. unfold quote in *. cbn [app] in *.
    rewrite skip_ws_cons by done. rewrite bool_decide_eq_false_2, bool_decide_eq_true_2 by done. cbn [andb].
    rewrite <- app_assoc in *. cbn [app] in *. rewrite string_lit_quote. cbn [mbind option_bind].
    rewrite skip_ws_cons by done. rewrite bool_decide_eq_true_2 by done.
    cbn [length] in Hlt. rewrite length_app in Hlt. cbn [length] in Hlt. by rewrite Hj by (done || lia). }
  destruct ms as [|m2 ms].
  - cbn [map join] in *. rewrite <- app_assoc, <- app_comm_cons in *. by rewrite He by (done || lia).
  - set (g := fun '(k, v) => quote k ++ x3a :: encode v) in *.
    change (join (map g ((k, j) :: m2 :: ms)))
      with ((quote k ++ x3a :: encode j) ++ x2c :: join (map g (m2 :: ms))) in *.
    repeat (rewrite <- app_assoc in * || rewrite <- app_comm_cons in *).
    rewrite He by (done || lia). rewrite skip_ws_cons by done. rewrite bool_decide_eq_true_2 by done.
    rewrite length_app in Hf. cbn [length] in Hf. rewrite length_app in Hf. cbn [length] in Hf.
    by rewrite IH by (done || lia).
Qed.

Lemma value_encode j : reads_back j.
Proof.
  induction j as [|b|t|s|l IH|ms IH] using json_forall; intros [|f] d rest Hr Hi Hd Hf; try lia.
  - reflexivity.
  - by destruct b.
  - cbn [int_numbers] in Hi. apply int64_text_inv in Hi as (n & Hn & ->). by apply value_number.
  - cbn [encode canon]. unfold quote. cbn [app value]. rewrite skip_ws_cons by done. rewrite <- app_assoc.
    rewrite bool_decide_eq_false_2, bool_decide_eq_false_2, bool_decide_eq_true_2 by done.
    cbn [app]. by rewrite string_lit_quote.
  - cbn [encode] in *. rewrite <- app_comm_cons, <- app_assoc in *. cbn [value].
    rewrite skip_ws_cons by done. rewrite bool_decide_eq_false_2, bool_decide_eq_true_2 by done.
    change (nesting (JArr l)) with (S (list_max (map nesting l))) in Hd.
    rewrite (proj2 (Z.ltb_ge _ _)) by lia. cbn [length] in Hf. destruct l as [|j l].
    { by destruct f; [simpl in Hf; lia|]. }
    cbn [app] in *. by rewrite elements_join by (done || lia).
  - cbn [encode] in *. rewrite <- app_comm_cons, <- app_assoc in *. cbn [value].
    rewrite skip_ws_cons by done. rewrite bool_decide_eq_true_2 by done.
    change (nesting (JObj ms)) with (S (list_max (map (fun '(_, v) => nesting v) ms))) in Hd.
    rewrite (proj2 (Z.ltb_ge _ _)) by lia. cbn [length] in Hf. destruct ms as [|m ms].
    { by destruct f; [simpl in Hf; lia|]. }
    cbn [app] in *. by rewrite members_join by (done || lia).
Qed.

Lemma parse_encode j :
  int_numbers j = true -> Z.of_nat (nesting j) <= maxNestingDepth -> parse (encode j) = Some (canon j).
Proof.
  intros Hi Hd. unfold parse. pose proof (value_encode j (S (2 * length (encode j))) 0 [] I Hi) as Hv.
  rewrite app_nil_r in Hv. by rewrite Hv by lia.
Qed.
