(* ===== verification/Codec.v ===== *)
(** * Structs as JSON: [json.Marshal] and [json.Unmarshal] of the programs' payload types

    The interface between a struct type and package [encoding/json], the laws an instance proves,
    and what follows from them for every instance: what is unmarshalled is well typed, and what is
    marshalled is unmarshalled to the same value with invalid UTF-8 replaced. *)

From Stdlib Require Import Strings.String.
From S2P Require Import Prelude GoText Utf8 Json.

(** ** The interface *)

(** The kind of a field, and the zero value of a kind. *)
Inductive kind := KString | KInt64 | KStrings.
#[export] Instance kind_eq_dec : EqDecision kind.
Proof. solve_decision. Defined.

Definition kind_of (v : field) : kind :=
  match v with FString _ => KString | FInt64 _ => KInt64 | FStrings _ _ => KStrings end.
Definition zero_field (k : kind) : field :=
  match k with KString => FString [] | KInt64 => FInt64 0 | KStrings => FStrings [] 0 end.

(** A field as the decoder sees it, and its name and kind. *)
Definition slot (f : tagged) : bytes * field := (name f, val f).
Definition shape_of (f : bytes * field) : bytes * kind := (f.1, kind_of f.2).

(** A struct type: its fields in order with their tags, the value with given fields, and the
    value [var x T] declares. *)
Class Struct (A : Type) := {
  to_fields : A -> list tagged;
  of_fields : list (bytes * field) -> option A;
  zero : A
}.

Definition Marshal `{Struct A} (a : A) : bytes := encode (struct_json (to_fields a)).

(** [json.Unmarshal(data, &x)] for [x] of value [a]; [None] is an error. *)
Definition Unmarshal `{Struct A} (data : bytes) (a : A) : option A :=
  fs ← unmarshal data (map slot (to_fields a)); of_fields fs.

(** A field of the Go type holds any bytes and any [int64]; a decoded one holds valid UTF-8. *)
Definition field_fits (v : field) : Prop :=
  match v with
  | FString _ => True
  | FInt64 n => in_int64 n
  | FStrings cells n => (n <= length cells)%nat
  end.
Definition field_valid (v : field) : Prop :=
  match v with
  | FString s => Valid s = true
  | FInt64 n => in_int64 n
  | FStrings cells n => (n <= length cells)%nat /\ Forall (fun s => Valid s = true) cells
  end.

(** What the reader makes of a written field. *)
Definition canon_field (v : field) : field :=
  match v with
  | FString s => FString (ToValid s)
  | FInt64 n => FInt64 n
  | FStrings cells n => FStrings (map ToValid (strings_of cells n)) n
  end.

(** What an instance proves: the shape does not depend on the value and the names differ, the
    value is a function of the fields, [clean] and [valid] are what decoding a written value and
    any text gives. *)
Class StructOk (A : Type) `{Struct A} := {
  clean : A -> A;
  valid : A -> Prop;
  shape_zero a : map (fun f => (name f, omitempty f, kind_of (val f))) (to_fields a) =
                 map (fun f => (name f, omitempty f, kind_of (val f))) (to_fields zero);
  zero_zero : Forall (fun f => val f = zero_field (kind_of (val f))) (to_fields zero);
  names_differ : NoDup (map name (to_fields zero));
  names_valid : Forall (fun n => Valid n = true) (map name (to_fields zero));
  of_total fs : map shape_of fs = map (fun f => shape_of (slot f)) (to_fields zero) ->
                Forall (fun f => field_valid f.2) fs -> exists a, of_fields fs = Some a /\ valid a;
  of_canon a : Forall (fun f => field_fits (val f)) (to_fields a) ->
               of_fields (map (fun f => (name f, canon_field (val f))) (to_fields a)) = Some (clean a)
}.

(** A value of the Go type. *)
Definition fits `{Struct A} (a : A) : Prop := Forall (fun f => field_fits (val f)) (to_fields a).

(** ** Decoding is well typed *)

(** Every string of a tree is valid UTF-8. *)
Fixpoint valid_strings (j : json) : bool :=
  match j with
  | JStr s => Valid s
  | JArr l => forallb valid_strings l
  | JObj ms => forallb (fun '(k, v) => Valid k && valid_strings v) ms
  | _ => true
  end.

Lemma name_rest_valid n j s j' r :
  name_rest n j s = Some (j', r) -> valid_strings j = true -> valid_strings j' = true.
Proof. unfold name_rest. case_bool; [|done]. by intros [= <- _]. Qed.

Lemma value_valid f :
  (forall d s j r, value f d s = Some (j, r) -> valid_strings j = true) /\
  (forall d b s ms r, members f d b s = Some (ms, r) ->
     forallb (fun '(k, v) => Valid k && valid_strings v) ms = true) /\
  (forall d b s l r, elements f d b s = Some (l, r) -> forallb valid_strings l = true).
Proof.
  induction f as [|f (IHv & IHm & IHe)]; [done|].
  split; [|split]; intros d; [intros s|intros first s..]; cbn [value members elements];
    destruct (skip_ws s) as [|b s1]; try done.
  - intros j r. case_bool.
    { case_bool; [done|]. destruct (members _ _ _ _) as [[ms r1]|] eqn:Hm; [|done].
      intros [= <- _]. cbn. by eapply IHm. }
    case_bool.
    { case_bool; [done|]. destruct (elements _ _ _ _) as [[ms r1]|] eqn:Hm; [|done].
      intros [= <- _]. cbn. by eapply IHe. }
    case_bool.
    { destruct (string_lit s1) as [[t r1]|] eqn:Hm; [|done]. intros [= <- _].
      by eapply string_go_Valid. }
    do 3 (case_bool; [intros Hn; by apply name_rest_valid in Hn|]).
    destruct (scan_number (b :: s1)) as [[t r1]|] eqn:Hm; [|done]. by intros [= <- _].
  - intros ms r. case_bool; [by intros [= <- _]|]. case_bool; [|done].
    destruct (string_lit s1) as [[k s2]|] eqn:Hk; [|done]. apply string_go_Valid in Hk. cbn.
    destruct (skip_ws s2) as [|c s3]; [done|]. case_bool; [|done].
    destruct (value f d s3) as [[v s4]|] eqn:Hv; [|done]. apply IHv in Hv. cbn.
    destruct (skip_ws s4) as [|e s5]; [done|]. case_bool.
    + destruct (members f d false s5) as [[ms1 r1]|] eqn:Hm; [|done]. intros [= <- _]. apply IHm in Hm.
      cbn. by rewrite Hk, Hv.
    + case_bool; [|done]. intros [= <- _]. cbn. by rewrite Hk, Hv.
  - intros l r. case_bool; [by intros [= <- _]|].
    destruct (value f d s) as [[v s4]|] eqn:Hv; [|done]. apply IHv in Hv. cbn.
    destruct (skip_ws s4) as [|e s5]; [done|]. case_bool.
    + destruct (elements f d false s5) as [[ms1 r1]|] eqn:Hm; [|done]. intros [= <- _]. apply IHe in Hm.
      cbn. by rewrite Hv.
    + case_bool; [|done]. intros [= <- _]. cbn. by rewrite Hv.
Qed.

Lemma parse_valid data j : parse data = Some j -> valid_strings j = true.
Proof.
  unfold parse. destruct (value _ 0 data) as [[j' r]|] eqn:Hv; [|done]. cbn. case_bool; [|done].
  intros [= ->]. by eapply value_valid.
Qed.

Lemma decode_strings_valid cells l ss :
  decode_strings cells l = Some ss -> forallb valid_strings l = true ->
  Forall (fun s => Valid s = true) cells -> Forall (fun s => Valid s = true) ss.
Proof.
  revert cells ss; induction l as [|j l IH]; intros cells ss; cbn [decode_strings forallb];
    [intros [= <-]; constructor|].
  destruct (match j with JNull => _ | JStr s => _ | _ => _ end) as [s|] eqn:Hs; [|done]. cbn.
  destruct (decode_strings (tl cells) l) as [ss'|] eqn:Hd; [|done]. intros [= <-] [Hj Hl]%andb_true_iff Hc.
  constructor.
  - destruct j; try done; injection Hs as <-; [|done]. by destruct Hc.
  - eapply IH; [exact Hd|done|]. by destruct Hc.
Qed.

Lemma decode_field_valid v j v' :
  decode_field v j = Some v' -> valid_strings j = true -> field_valid v ->
  field_valid v' /\ kind_of v' = kind_of v.
Proof.
  destruct v as [s|n|cells n], j as [|b|t|s'|l|ms]; cbn [decode_field]; try done; try (intros [= <-]; done).
  - destruct (ParseInt t) as [m|] eqn:Hp; [|done]. cbn. intros [= <-] _ _. split; [|done]. by eapply ParseInt_range.
  - destruct (decode_strings cells l) as [ss|] eqn:Hd; [|done]. cbn. intros [= <-] Hl [Hn Hc].
    apply decode_strings_valid in Hd; [|done..]. case_bool; (split; [|done]).
    + split; [done|constructor].
    + split; [rewrite length_app; lia|]. apply Forall_app. split; [done|]. by apply Forall_drop.
Qed.

Lemma decode_member_valid fs m fs' :
  decode_member fs m = Some fs' -> valid_strings m.2 = true -> Forall (fun f => field_valid f.2) fs ->
  Forall (fun f => field_valid f.2) fs' /\ map shape_of fs' = map shape_of fs.
Proof.
  unfold decode_member. destruct (find_field m.1 fs) as [i|]; [|by intros [= <-]].
  destruct (fs !! i) as [[k v]|] eqn:Hi; [|done]. cbn.
  destruct (decode_field v m.2) as [v'|] eqn:Hd; [|done]. intros [= <-] Hm Hf.
  pose proof (Forall_lookup_1 _ _ _ _ Hf Hi) as Hv. destruct (decode_field_valid _ _ _ Hd Hm Hv) as [Hv' Hk].
  split; [by apply Forall_insert|]. change (shape_of <$> <[i:=(k, v')]> fs = shape_of <$> fs). rewrite list_fmap_insert.
  apply list_insert_id. rewrite list_lookup_fmap, Hi. cbn. unfold shape_of. cbn. by rewrite Hk.
Qed.

(** Decoding keeps the names and the kinds and leaves valid values. *)
Lemma unmarshal_valid data fs fs' :
  unmarshal data fs = Some fs' -> Forall (fun f => field_valid f.2) fs ->
  Forall (fun f => field_valid f.2) fs' /\ map shape_of fs' = map shape_of fs.
Proof.
  unfold unmarshal. destruct (parse data) as [j|] eqn:Hp; [|done]. apply parse_valid in Hp. cbn.
  destruct j as [| | | | |ms]; try done; [by intros [= <-]|]. cbn [valid_strings] in Hp. revert fs.
  induction ms as [|[k v] ms IH]; intros fs; cbn [decode_members]; [by intros [= <-]|].
  cbn [forallb] in Hp. apply andb_true_iff in Hp as [[_ Hv]%andb_true_iff Hms].
  destruct (decode_member fs (k, v)) as [fs1|] eqn:Hd; [|done]. cbn. intros H Hf.
  destruct (decode_member_valid _ _ _ Hd Hv Hf) as [Hf1 <-]. by apply IH.
Qed.

Section Struct.
Context `{StructOk A}.

Lemma zero_valid : Forall (fun f => field_valid f.2) (map slot (to_fields zero)).
Proof.
  pose proof zero_zero as Hz. apply (Forall_fmap slot).
  eapply Forall_impl; [exact Hz|]. intros f Hf. cbn. rewrite Hf.
  destruct (kind_of (val f)); cbn; [done|by unfold in_int64; lia|]. split; [done|constructor].
Qed.

(** [json.Unmarshal] into a fresh variable: an error is a text the decoder rejects, and what it accepts
    is a valid value. *)
Lemma Unmarshal_total data :
  match unmarshal data (map slot (to_fields zero)) with
  | None => Unmarshal data zero = None
  | Some _ => exists a, Unmarshal data zero = Some a /\ valid a
  end.
Proof.
  unfold Unmarshal. destruct (unmarshal _ _) as [fs|] eqn:Hu; [|done].
  destruct (unmarshal_valid _ _ _ Hu zero_valid) as [Hf Hs]. cbn. apply of_total; [|done].
  rewrite Hs. by rewrite map_map.
Qed.

Lemma Unmarshal_valid data a : Unmarshal data zero = Some a -> valid a.
Proof.
  pose proof (Unmarshal_total data) as Ht. destruct (unmarshal _ _); [|congruence].
  destruct Ht as (a' & -> & Hv). by intros [= <-].
Qed.
End Struct.

(** ** What is written reads back *)

Lemma int_numbers_field v : field_fits v -> int_numbers (field_json v) = true.
Proof.
  destruct v as [s|n|cells n]; cbn; [done|apply int64_text_FormatInt|]. intros _.
  rewrite forallb_forall. intros j (s & <- & _)%in_map_iff. done.
Qed.

Lemma nesting_field v : (nesting (field_json v) <= 1)%nat.
Proof.
  destruct v as [s|n|cells n]; cbn [field_json nesting]; [lia..|].
  assert (list_max (map nesting (map JStr (strings_of cells n))) <= 0)%nat; [|lia].
  apply list_max_le, List.Forall_forall. intros x. rewrite map_map. by intros (s & <- & _)%in_map_iff.
Qed.

Lemma canon_field_json v : field_fits v -> decode_field (zero_field (kind_of v)) (canon (field_json v)) = Some (canon_field v).
Proof.
  destruct v as [s|n|cells n]; cbn; [done|..].
  - intros Hn. by rewrite Parse_Format.
  - intros Hn. unfold strings_of.
    assert (Hd : forall l, decode_strings [] (map canon (map JStr l)) = Some (map ToValid l)).
    { induction l as [|x l IH]; [done|]. cbn. by rewrite IH. }
    rewrite Hd. cbn. f_equal.
    assert (Hl : length (map ToValid (take n cells)) = n) by (rewrite length_map, length_take; lia).
    case_bool.
    + destruct n; [done|]. destruct cells; [simpl in Hn; lia|done].
    + by rewrite drop_nil, app_nil_r, Hl.
Qed.

Lemma canon_empty v : field_fits v -> isEmptyValue v = true -> canon_field v = zero_field (kind_of v).
Proof.
  destruct v as [s|n|cells n]; cbn; intros Hf He.
  - by apply bool_decide_eq_true in He as ->.
  - by apply Z.eqb_eq in He as ->.
  - apply Nat.eqb_eq in He as ->. done.
Qed.

(** The decoder on the members of a written struct: the fields before [post] are done, the ones of
    [post] are zero. *)
Lemma decode_members_written pre post :
  NoDup (map fst pre ++ map name post) -> Forall (fun f => field_fits (val f)) post ->
  decode_members (pre ++ map (fun f => (name f, zero_field (kind_of (val f)))) post)
    (map (fun f => (name f, canon (field_json (val f))))
       (filter (fun f => omitempty f && isEmptyValue (val f) = false) post)) =
  Some (pre ++ map (fun f => (name f, canon_field (val f))) post).
Proof.
  revert pre. induction post as [|f post IH]; intros pre Hn Hf; [done|].
  apply Forall_cons in Hf as [Hf Hpost]. cbn [map] in Hn |- *.
  assert (Hnext : NoDup (map fst (pre ++ [(name f, canon_field (val f))]) ++ map name post)).
  { rewrite map_app, <- app_assoc. exact Hn. }
  specialize (IH _ Hnext Hpost). rewrite <- !app_assoc in IH. cbn [app] in IH.
  rewrite filter_cons. case_decide as Hd.
  - cbn [map decode_members]. unfold decode_member at 1.
    assert (Hfind : find_field (name f) (pre ++ (name f, zero_field (kind_of (val f))) ::
       map (fun f => (name f, zero_field (kind_of (val f)))) post) = Some (length pre)).
    { unfold find_field. rewrite list_find_app_r.
      - cbn. rewrite decide_True by done. cbn. f_equal; lia.
      - apply list_find_None, Forall_forall. intros g Hg Hnm. apply NoDup_app in Hn as (_ & Hn & _).
        apply (Hn (name f)); [|by left]. rewrite <- Hnm. by apply list_elem_of_fmap_2. }
    cbn [fst snd]. rewrite Hfind. rewrite list_lookup_middle by done. cbn [mbind option_bind fst snd].
    rewrite canon_field_json by done. cbn [mbind option_bind].
    rewrite <- (Nat.add_0_r (length pre)), insert_app_r. exact IH.
  - apply not_false_iff_true, andb_true_iff in Hd as [_ He]. by rewrite <- canon_empty.
Qed.

Lemma Forall_filter_weaken {T} (P Q : T -> Prop) `{!forall x, Decision (Q x)} l :
  Forall P l -> Forall P (filter Q l).
Proof. rewrite !Forall_forall. intros Hl x [_ Hx]%list_elem_of_filter. by apply Hl. Qed.

Section roundtrip.
Context `{StructOk A}.

Lemma shape_name (a : A) : map name (to_fields a) = map name (to_fields zero).
Proof. pose proof (f_equal (map (fun x => x.1.1)) (shape_zero a)) as Hs. by rewrite !map_map in Hs. Qed.

(** The fields of [var x T], from those of any value. *)
Lemma zero_slots (a : A) :
  map slot (to_fields zero) = map (fun f => (name f, zero_field (kind_of (val f)))) (to_fields a).
Proof.
  pose proof (f_equal (map (fun x => (x.1.1, zero_field x.2))) (shape_zero a)) as Hs. rewrite !map_map in Hs.
  cbn in Hs. rewrite Hs. apply map_ext_Forall. eapply Forall_impl; [exact zero_zero|].
  intros f Hf. unfold slot. by rewrite <- Hf.
Qed.

(** [Unmarshal] inverts [Marshal] up to [clean]. *)
Lemma Unmarshal_Marshal (a : A) : fits a -> Unmarshal (Marshal a) zero = Some (clean a).
Proof.
  intros Ha. unfold Unmarshal, Marshal, unmarshal, struct_json.
  set (l := filter _ (to_fields a)).
  assert (Hl : Forall (fun f => field_fits (val f)) l) by (by apply Forall_filter_weaken).
  assert (Hnames : Forall (fun f => Valid (name f) = true) l).
  { apply Forall_filter_weaken. apply (Forall_fmap name (fun n => Valid n = true)).
    change (name <$> to_fields a) with (map name (to_fields a)). rewrite shape_name. apply names_valid. }
  rewrite parse_encode.
  - cbn [canon mbind option_bind].
    assert (Hc : map (fun '(k, v) => (ToValid k, canon v)) (map (fun f => (name f, field_json (val f))) l) =
      map (fun f => (name f, canon (field_json (val f)))) l).
    { rewrite map_map. apply map_ext_Forall. eapply Forall_impl; [exact Hnames|].
      intros f Hf. by rewrite ToValid_Valid. }
    rewrite Hc, (zero_slots a).
    pose proof (decode_members_written [] (to_fields a)) as Hd. cbn [app map] in Hd. fold l in Hd.
    rewrite Hd; [|rewrite shape_name; apply names_differ|exact Ha]. by apply of_canon.
  - cbn [int_numbers]. apply forallb_forall. intros [k v] (f & [= _ <-] & Hf)%in_map_iff.
    apply int_numbers_field. rewrite List.Forall_forall in Hl. by apply Hl.
  - assert (nesting (JObj (map (fun f => (name f, field_json (val f))) l)) <= 2)%nat; [|unfold maxNestingDepth; lia].
    cbn [nesting]. apply le_n_S, list_max_le, List.Forall_forall. rewrite map_map.
    intros x (f & <- & _)%in_map_iff. apply nesting_field.
Qed.
End roundtrip.
