(* ===== verification/Http.v ===== *)
(** * Requests and responses: the part of package [net/http] the programs use *)

From Stdlib Require Import Strings.String.
From S2P Require Import Prelude Errors GoText.

(** ** Cookies and headers *)

(** What the programs set of [http.Cookie]. *)
Inductive SameSite := SameSiteLaxMode.
Record Cookie := { Name : bytes; Value : bytes; HttpOnly : bool; Same : SameSite; Path : bytes; Expires : Z }.

(** [textproto.CanonicalMIMEHeaderKey] of a name made of token characters: the first letter and
    the letters after a hyphen in upper case, the others in lower case. *)
Fixpoint canonical (upper : bool) (s : bytes) : bytes :=
  match s with
  | [] => []
  | b :: s' =>
      (if upper && (97 <=? bval b) && (bval b <=? 122) then to_byte (bval b - 32)
       else if negb upper && (65 <=? bval b) && (bval b <=? 90) then to_byte (bval b + 32)
       else b) :: canonical (bool_decide (b = x2d)) s'
  end.
Definition CanonicalHeaderKey (s : bytes) : bytes := canonical true s.

Example canonical_key : CanonicalHeaderKey (lit "X-API-Key") = lit "X-Api-Key".
Proof. vm_compute. reflexivity. Qed.

(** ** Requests *)

(** The headers by canonical name, and the cookies in order. *)
Record request := { r_headers : gmap bytes (list bytes); r_cookies : list (bytes * bytes) }.

(** [r.Header.Get(name)]: the first value, the empty string when there is none. *)
Definition Header_Get (r : request) (name : bytes) : bytes :=
  match r_headers r !! CanonicalHeaderKey name with Some (v :: _) => v | _ => [] end.

(** [r.Cookie(name)] *)
Definition request_Cookie (r : request) (name : bytes) : outcome bytes :=
  match list_find (fun c => c.1 = name) (r_cookies r) with
  | Some (_, c) => Ok c.2
  | None => Err (ErrorString "http: named cookie not present")
  end.

(** ** Responses *)

(** The status, the cookies set so far and the body, in which an error stands for its text. *)
Inductive content := Text (s : bytes) | ErrorText (e : error).
Record response := { status : Z; cookies : list Cookie; body : list content }.
Definition new_response : response := {| status := 200; cookies := []; body := [] |}.

Definition StatusOK : Z := 200.
Definition StatusUnauthorized : Z := 401.
Definition StatusInternalServerError : Z := 500.

Definition SetCookie (w : response) (c : Cookie) : response :=
  {| status := status w; cookies := cookies w ++ [c]; body := body w |}.
Definition Fprint (w : response) (s : bytes) : response :=
  {| status := status w; cookies := cookies w; body := body w ++ [Text s] |}.
Definition http_Error (w : response) (text : content) (code : Z) : response :=
  {| status := code; cookies := cookies w; body := body w ++ [text; Text [x0a]] |}.

(** What a client that keeps its cookies sends back. *)
Definition sent_back (w : response) : request :=
  {| r_headers := ∅; r_cookies := map (fun c => (Name c, Value c)) (cookies w) |}.

(** [req.Header.Set(name, value)] *)
Definition Header_Set (r : request) (name value : bytes) : request :=
  {| r_headers := <[CanonicalHeaderKey name := [value]]> (r_headers r); r_cookies := r_cookies r |}.
Definition new_request : request := {| r_headers := ∅; r_cookies := [] |}.

(** ** Routing

    [http.ServeMux] for patterns that are exact paths. *)
Definition ServeMux {H} (not_found : H) (routes : list (bytes * H)) (path : bytes) : H :=
  match list_find (fun r => r.1 = path) routes with Some (_, r) => r.2 | None => not_found end.
Definition NotFound (w : response) : response := http_Error w (Text (lit "404 page not found")) 404.

(** ** A client's cookies

    [cookiejar.Jar] for one host: a value by name, with the time it expires at. [Expires] travels
    as an HTTP date, in whole seconds of the years 1601 to 9999; a date outside is dropped and the
    cookie has no expiry. *)
Definition wire_Expires (t : Z) : option Z :=
  let s := t / 10 ^ 9 in
  if (-11644473600 <=? s) && (s <? 253402300800) then Some (s * 10 ^ 9) else None.

Abbreviation jar := (gmap bytes (bytes * option Z)).
Definition alive (now : Z) (expires : option Z) : bool :=
  match expires with Some t => now <? t | None => true end.

Definition jar_SetCookies (j : jar) (cs : list Cookie) (now : Z) : jar :=
  foldl (fun j c => if alive now (wire_Expires (Expires c)) then <[Name c := (Value c, wire_Expires (Expires c))]> j
                    else delete (Name c) j) j cs.
Definition jar_Cookies (j : jar) (now : Z) : list (bytes * bytes) :=
  map (fun '(n, (v, _)) => (n, v)) (List.filter (fun '(_, (_, e)) => alive now e) (map_to_list j)).
