(* ===== verification/GoIO.v ===== *)
(** * Readers, writers and the environment of a call

    [io.Reader] with [io.ReadFull], [io.Writer], and the two pieces of outside state the
    library reads: the random source [randReader] of [random.go] and the clock. *)

From S2P Require Import Prelude Errors.

(** ** Readers *)

(** A reader is the data its successive [Read] calls deliver, piece by piece, and the error
    that follows.  Each call returns at most one piece, so a piece is also how short a read
    can be. *)
Record reader := { rd_data : list bytes; rd_err : error }.

Definition rd_bytes (r : reader) : bytes := mjoin (rd_data r).

(** One call [r.Read(p)] with [len(p) = n]. *)
Definition Read (n : nat) (r : reader) : bytes * option error * reader :=
  match rd_data r with
  | [] => ([], Some (rd_err r), r)
  | c :: cs =>
      if (n <? length c)%nat
      then (take n c, None, {| rd_data := drop n c :: cs; rd_err := rd_err r |})
      else (c, None, {| rd_data := cs; rd_err := rd_err r |})
  end.

(** The loop of [io.ReadAtLeast]: read until [n] bytes have come or the reader fails. *)
Fixpoint read_loop (n : nat) (cs : list bytes) : bytes * list bytes :=
  match n, cs with
  | O, _ => ([], cs)
  | _, [] => ([], [])
  | _, c :: cs' =>
      if (n <? length c)%nat then (take n c, drop n c :: cs')
      else let '(b, rest) := read_loop (n - length c) cs' in (c ++ b, rest)
  end.

(** [io.ReadFull(r, buf)] with [len(buf) = n]: the bytes read, the error, the reader left.
    [io.EOF] after some bytes becomes [io.ErrUnexpectedEOF]. *)
Definition ReadFull (n : nat) (r : reader) : bytes * option error * reader :=
  let '(b, cs) := read_loop n (rd_data r) in
  let r' := {| rd_data := cs; rd_err := rd_err r |} in
  if (length b =? n)%nat then (b, None, r')
  else if bool_decide (rd_err r = EOF) && negb (bool_decide (b = []))
  then (b, Some ErrUnexpectedEOF, r')
  else (b, Some (rd_err r), r').

(** Two readers are equivalent when they deliver the same bytes and the same error, however
    the bytes are split between calls. *)
Definition reader_equiv (r1 r2 : reader) : Prop :=
  rd_bytes r1 = rd_bytes r2 /\ rd_err r1 = rd_err r2.

#[global] Instance reader_equivalence : Equivalence reader_equiv.
Proof.
  unfold reader_equiv. split; [by intros ?|by intros ?? [? ?]|].
  intros ??? [? ?] [? ?]; split; congruence.
Qed.

(** ** Writers *)

(** A writer holds what it has accepted, and the outcome of its next calls: [None] takes the
    whole buffer, [Some (k, e)] takes [k] bytes and fails with [e].  Past the plan every
    write succeeds. *)
Record writer := { wr_out : bytes; wr_plan : list (option (nat * error)) }.

Definition Write (b : bytes) (w : writer) : option error * writer :=
  match wr_plan w with
  | [] => (None, {| wr_out := wr_out w ++ b; wr_plan := [] |})
  | None :: plan => (None, {| wr_out := wr_out w ++ b; wr_plan := plan |})
  | Some (k, e) :: plan => (Some e, {| wr_out := wr_out w ++ take k b; wr_plan := plan |})
  end.

(** A writer that never fails, such as a [bytes.Buffer]. *)
Definition buffer (b : bytes) : writer := {| wr_out := b; wr_plan := [] |}.

(** ** The environment *)

(** The random source and the time, in nanoseconds since the Unix epoch. *)
Record world := { w_rand : reader; w_now : Z }.

Definition M (A : Type) : Type := world -> outcome A * world.

#[global] Instance M_ret : MRet M := fun A a w => (Ok a, w).
#[global] Instance M_bind : MBind M := fun A B f m w =>
  match m w with
  | (Ok a, w') => f a w'
  | (Err e, w') => (Err e, w')
  | (Panic p, w') => (Panic p, w')
  end.

(** A call that does not touch the environment. *)
Definition lift {A} (o : outcome A) : M A := fun w => (o, w).

Definition fail {A} (e : error) : M A := lift (Err e).

Definition map_errM {A} (f : error -> error) (m : M A) : M A :=
  fun w => let '(o, w') := m w in (map_err f o, w').

(** [io.ReadFull(randReader, buf)] on a fresh buffer of [n] bytes. *)
Definition ReadRand (n : Z) : M bytes := fun w =>
  let '(b, e, r) := ReadFull (Z.to_nat n) (w_rand w) in
  let w' := {| w_rand := r; w_now := w_now w |} in
  match e with None => (Ok b, w') | Some e => (Err e, w') end.

(** [time.Now()] *)
Definition time_Now : M Z := fun w => (Ok (w_now w), w).

(** The random source still has [n] bytes. *)
Definition has_random (n : Z) (w : world) : Prop := n <= len (rd_bytes (w_rand w)).

(** The bytes the next [n]-byte read returns. *)
Definition next_random (n : Z) (w : world) : bytes := take (Z.to_nat n) (rd_bytes (w_rand w)).

(** The environment after that read, up to the split of the bytes between calls. *)
Definition after_random (n : Z) (w w' : world) : Prop :=
  rd_bytes (w_rand w') = drop (Z.to_nat n) (rd_bytes (w_rand w)) /\
  rd_err (w_rand w') = rd_err (w_rand w) /\ w_now w' = w_now w.

(** A concrete environment for the witnesses: 64 bytes in two pieces. *)
Definition demo_world : world :=
  {| w_rand := {| rd_data := [map (fun n => to_byte (Z.of_nat n)) (seq 0 5); replicate 59 xa7];
                  rd_err := EOF |};
     w_now := 1700000000 * 10 ^ 9 |}.

(** ** Lemmas *)

Lemma read_loop_spec n cs :
  (read_loop n cs).1 = take n (mjoin cs) /\ mjoin (read_loop n cs).2 = drop n (mjoin cs).
Proof.
  revert n; induction cs as [|c cs IH]; intros [|n]; cbn [read_loop]; try done.
  destruct (Nat.ltb_spec (S n) (length c)).
  - simpl mjoin. rewrite take_app_le, drop_app_le by lia. done.
  - destruct (IH (S n - length c)%nat) as [H1 H2].
    destruct (read_loop (S n - length c) cs) as [b rest].
    change (mjoin (c :: cs)) with (c ++ mjoin cs).
    rewrite take_app_ge, drop_app_ge by lia. simpl in *. by subst.
Qed.

(** [io.ReadFull] sees only the concatenation of the pieces. *)
Lemma ReadFull_spec n r :
  exists r', reader_equiv r' {| rd_data := [drop n (rd_bytes r)]; rd_err := rd_err r |} /\
  ReadFull n r =
    (take n (rd_bytes r),
     if (n <=? length (rd_bytes r))%nat then None
     else if bool_decide (rd_err r = EOF) && negb (bool_decide (rd_bytes r = []))
     then Some ErrUnexpectedEOF else Some (rd_err r), r').
Proof.
  unfold ReadFull. destruct (read_loop_spec n (rd_data r)) as [H1 H2].
  fold (rd_bytes r) in *. destruct (read_loop n (rd_data r)) as [b cs]; simpl in *.
  exists {| rd_data := cs; rd_err := rd_err r |}. split.
  { split; [|done]. simpl. unfold rd_bytes at 1 2. simpl. by rewrite H2, app_nil_r. }
  subst b. rewrite length_take.
  destruct (Nat.leb_spec n (length (rd_bytes r))).
  - by rewrite (proj2 (Nat.eqb_eq _ _)) by lia.
  - rewrite (proj2 (Nat.eqb_neq _ _)) by lia. rewrite take_ge by lia.
    by destruct (bool_decide _ && _).
Qed.

(** Equivalent readers give the same read and stay equivalent. *)
Lemma ReadFull_proper n r1 r2 :
  reader_equiv r1 r2 ->
  (ReadFull n r1).1 = (ReadFull n r2).1 /\ reader_equiv (ReadFull n r1).2 (ReadFull n r2).2.
Proof.
  intros [Hb He].
  destruct (ReadFull_spec n r1) as (r1' & Hr1 & ->), (ReadFull_spec n r2) as (r2' & Hr2 & ->).
  simpl. rewrite Hr1, Hr2, Hb, He. done.
Qed.

Lemma ReadRand_Ok n w :
  0 <= n -> has_random n w ->
  exists w', ReadRand n w = (Ok (next_random n w), w') /\ after_random n w w'.
Proof.
  intros Hn Hw. unfold has_random, len in Hw. unfold ReadRand.
  destruct (ReadFull_spec (Z.to_nat n) (w_rand w)) as (r' & [Hr1 Hr2] & ->).
  rewrite (proj2 (Nat.leb_le _ _)) by lia.
  eexists. split; [done|]. split; [|split]; simpl; [|done..].
  rewrite Hr1. unfold rd_bytes at 1. simpl. apply app_nil_r.
Qed.

Lemma ReadRand_Err n w :
  0 <= n -> ~ has_random n w -> exists e w', ReadRand n w = (Err e, w').
Proof.
  intros Hn Hw. unfold has_random, len in Hw. unfold ReadRand.
  destruct (ReadFull_spec (Z.to_nat n) (w_rand w)) as (r' & _ & ->).
  rewrite (proj2 (Nat.leb_gt _ _)) by lia. destruct (bool_decide _ && _); eauto.
Qed.

(** The two cases of a random read. *)
Lemma ReadRand_cases n w :
  0 <= n ->
  (exists w', ReadRand n w = (Ok (next_random n w), w') /\ has_random n w /\ after_random n w w')
  \/ (exists e w', ReadRand n w = (Err e, w') /\ ~ has_random n w).
Proof.
  intros Hn. destruct (Z_le_dec n (len (rd_bytes (w_rand w)))) as [H|H].
  - left. destruct (ReadRand_Ok n w Hn H) as (w' & ? & ?). eauto.
  - right. destruct (ReadRand_Err n w Hn H) as (e & w' & ?). eauto.
Qed.

Lemma len_next_random n w : 0 <= n -> has_random n w -> len (next_random n w) = n.
Proof. unfold has_random, next_random, len. intros. rewrite length_take. lia. Qed.

Lemma M_bind_Ok {A B} (m : M A) (f : A -> M B) w a w' :
  m w = (Ok a, w') -> (m ≫= f) w = f a w'.
Proof. unfold mbind, M_bind. by intros ->. Qed.

Lemma M_bind_Err {A B} (m : M A) (f : A -> M B) w e w' :
  m w = (Err e, w') -> (m ≫= f) w = (Err e, w').
Proof. unfold mbind, M_bind. by intros ->. Qed.

Lemma M_bind_Ok_inv {A B} (m : M A) (f : A -> M B) w b w' :
  (m ≫= f) w = (Ok b, w') -> exists a w1, m w = (Ok a, w1) /\ f a w1 = (Ok b, w').
Proof. unfold mbind, M_bind. destruct (m w) as [[a|e|p] w1]; intros H; try discriminate; eauto. Qed.

Lemma M_lift_bind {A B} (o : outcome A) a (f : A -> M B) w :
  o = Ok a -> (lift o ≫= f) w = f a w.
Proof. by intros ->. Qed.

Lemma M_lift_bind_inv {A B} (o : outcome A) (f : A -> M B) w b w' :
  (lift o ≫= f) w = (Ok b, w') -> exists a, o = Ok a /\ f a w = (Ok b, w').
Proof. unfold mbind, M_bind, lift. destruct o; intros H; try discriminate; eauto. Qed.

Lemma map_errM_Ok {A} f (m : M A) w a w' : m w = (Ok a, w') -> map_errM f m w = (Ok a, w').
Proof. unfold map_errM. by intros ->. Qed.

Lemma map_errM_Err {A} f (m : M A) w e w' :
  m w = (Err e, w') -> map_errM f m w = (Err (f e), w').
Proof. unfold map_errM. by intros ->. Qed.

Lemma map_errM_Ok_inv {A} f (m : M A) w a w' :
  map_errM f m w = (Ok a, w') -> m w = (Ok a, w').
Proof.
  unfold map_errM. destruct (m w) as [[x|e|p] w1]; simpl; congruence.
Qed.

Lemma ReadRand_Ok_inv n w b w' :
  0 <= n -> ReadRand n w = (Ok b, w') ->
  b = next_random n w /\ has_random n w /\ after_random n w w'.
Proof.
  intros Hn H. destruct (ReadRand_cases n w Hn) as [(w1 & H1 & ? & ?)|(e & w1 & H1 & _)];
    rewrite H1 in H; [|discriminate]. injection H as <- <-. done.
Qed.

Lemma ReadRand_panics n w : panics (ReadRand n w).1 = false.
Proof.
  unfold ReadRand. destruct (ReadFull _ _) as [[b [e|]] r]; done.
Qed.

(** Reads in sequence. *)
Lemma after_random_trans n m w w1 w2 :
  0 <= n -> 0 <= m -> after_random n w w1 -> after_random m w1 w2 -> after_random (n + m) w w2.
Proof.
  intros Hn Hm (Ha & Hb & Hc) (Ha' & Hb' & Hc'). split; [|split; congruence].
  rewrite Ha', Ha, drop_drop. f_equal. lia.
Qed.

Lemma has_random_after n m w w' : 0 <= n -> 0 <= m -> after_random n w w' -> has_random (n + m) w -> has_random m w'.
Proof.
  intros Hn Hm (Ha & _) Hr. unfold has_random, len in *. rewrite Ha, length_drop. lia.
Qed.

Lemma has_random_le n m w : n <= m -> has_random m w -> has_random n w.
Proof. unfold has_random. lia. Qed.
