(* ===== verification/Console.v ===== *)
(** * Programs: what a [main] prints and how it ends

    A small monad for the bodies of [main]: the environment of a call, the lines printed so far
    and the way the program ends. A line is the format of its [Printf] with the arguments, which
    are not rendered. *)

From Stdlib Require Import Strings.String.
From S2P Require Import Prelude Errors GoIO.
From S2P Require Http.

(** ** The monad *)

(** [VRatio a b] is [float64(a)/float64(b)], [VTime t] the formatted time of the Unix second [t],
    [VNil] a nil error and [VBody l] the body of a response. *)
Inductive value :=
  VText (s : bytes) | VTexts (l : list bytes) | VInt (z : Z) | VBool (b : bool) | VErr (e : error) | VRatio (a b : Z)
| VTime (t : Z) | VNil | VBody (l : list Http.content).
Inductive line := Printf (format : bytes) (args : list value).

(** [main] returns, [log.Fatal] exits with status 1, or the program panics. *)
Inductive ending (A : Type) := Done (a : A) | Fatal (e : error) | Crash (msg : string).
Arguments Done {A} a.
Arguments Fatal {A} e.
Arguments Crash {A} msg.

Definition program (A : Type) : Type := world -> ending A * list line * world.

#[global] Instance program_ret : MRet program := fun A a w => (Done a, [], w).
#[global] Instance program_bind : MBind program := fun A B f m w =>
  match m w with
  | (Done a, l, w') => let '(r, l', w'') := f a w' in (r, l ++ l', w'')
  | (Fatal e, l, w') => (Fatal e, l, w')
  | (Crash p, l, w') => (Crash p, l, w')
  end.

(** A format as the source writes it: the two characters [\n] are a line feed. *)
Fixpoint unescape (s : bytes) : bytes :=
  match s with
  | a :: (b :: s') as t =>
      if bool_decide (a = x5c) && bool_decide (b = x6e) then x0a :: unescape s' else a :: unescape t
  | _ => s
  end.
Definition fmt (s : string) : bytes := unescape (lit s).

Definition print (format : bytes) (args : list value) : program unit :=
  fun w => (Done tt, [Printf format args], w).

(** Time passes between two calls. *)
Definition later (d : Z) (w : world) : world := {| w_rand := w_rand w; w_now := w_now w + d |}.
Definition pass (d : Z) : program unit := fun w => (Done tt, [], later d w).

(** [x, err := f()]: the result and the error as a sum. *)
Definition call {A} (m : M A) : program (A + error) := fun w =>
  match m w with
  | (Ok a, w') => (Done (inl a), [], w')
  | (Err e, w') => (Done (inr e), [], w')
  | (Panic p, w') => (Crash p, [], w')
  end.

(** [x, err := f(); if err != nil { log.Fatal(err) }] *)
Definition must {A} (m : M A) : program A :=
  r ← call m; match r with inl a => mret a | inr e => fun w => (Fatal e, [], w) end.

(** [x, _ := f()], where a failed call returns [zero]. *)
Definition ignore {A} (zero : A) (m : M A) : program A :=
  r ← call m; match r with inl a => mret a | inr _ => mret zero end.

(** [log.Fatal(err)] *)
Definition fatal {A} (e : error) : program A := fun w => (Fatal e, [], w).

(** [if err := f(); err != nil { log.Fatal(err) }] on the result of the call. *)
Definition check (r : unit + error) : program unit :=
  match r with inl _ => mret tt | inr e => fatal e end.

(** An expression that may panic. *)
Definition expr {A} (o : outcome A) : program A := must (lift o).

(** [x, _ := f()] for a pointer the program then dereferences: nil when the call failed. *)
Definition deref {A} (o : outcome A) : program A :=
  match o with Ok a => mret a | _ => fun w => (Crash "nil pointer dereference", [], w) end.

(** [if _, err := f(); err != nil { fmt.Printf(format, err) }] *)
Definition print_error {A} (format : bytes) (m : M A) : program unit :=
  r ← call m; match r with inl _ => mret tt | inr e => print format [VErr e] end.

(** [for _, a := range l { f(a) }] *)
Fixpoint each {A} (l : list A) (f : A -> program unit) : program unit :=
  match l with [] => mret tt | a :: l' => _ ← f a; each l' f end.

(** ** Lemmas *)

Section lemmas.
Context {A B : Type}.

Lemma program_bind_Done (m : program A) (f : A -> program B) w a l w' :
  m w = (Done a, l, w') -> (m ≫= f) w = let '(r, l', w'') := f a w' in (r, l ++ l', w'').
Proof. unfold mbind, program_bind. by intros ->. Qed.

Lemma ret_bind (a : A) (f : A -> program B) w : (mret a ≫= f) w = f a w.
Proof. unfold mbind, program_bind, mret, program_ret. by destruct (f a w) as [[? ?] ?]. Qed.

Lemma call_Ok (m : M A) (f : A + error -> program B) w a w' :
  m w = (Ok a, w') -> (call m ≫= f) w = f (inl a) w'.
Proof. unfold mbind, program_bind, call. intros ->. by destruct (f (inl a) w') as [[? ?] ?]. Qed.

Lemma call_Err (m : M A) (f : A + error -> program B) w e w' :
  m w = (Err e, w') -> (call m ≫= f) w = f (inr e) w'.
Proof. unfold mbind, program_bind, call. intros ->. by destruct (f (inr e) w') as [[? ?] ?]. Qed.

Lemma must_Ok (m : M A) (f : A -> program B) w a w' :
  m w = (Ok a, w') -> (must m ≫= f) w = f a w'.
Proof.
  unfold must, mbind, program_bind, call, mret, program_ret. intros ->.
  by destruct (f a w') as [[? ?] ?].
Qed.

Lemma ignore_Ok (z : A) (m : M A) (f : A -> program B) w a w' :
  m w = (Ok a, w') -> (ignore z m ≫= f) w = f a w'.
Proof.
  unfold ignore, mbind, program_bind, call, mret, program_ret. intros ->.
  by destruct (f a w') as [[? ?] ?].
Qed.

Lemma expr_Ok (o : outcome A) (f : A -> program B) w a : o = Ok a -> (expr o ≫= f) w = f a w.
Proof. intros ->. by apply must_Ok. Qed.

Lemma deref_Ok (o : outcome A) (f : A -> program B) w a : o = Ok a -> (deref o ≫= f) w = f a w.
Proof. intros ->. apply ret_bind. Qed.

Lemma print_bind format args (f : unit -> program B) w :
  (print format args ≫= f) w = let '(r, l, w') := f tt w in (r, Printf format args :: l, w').
Proof. unfold mbind, program_bind, print. by destruct (f tt w) as [[? ?] ?]. Qed.

Lemma pass_bind d (f : unit -> program B) w : (pass d ≫= f) w = f tt (later d w).
Proof. unfold mbind, program_bind, pass. by destruct (f tt (later d w)) as [[? ?] ?]. Qed.

Lemma must_Err (m : M A) (f : A -> program B) w e w' : m w = (Err e, w') -> (must m ≫= f) w = (Fatal e, [], w').
Proof. unfold must, mbind, program_bind, call. by intros ->. Qed.

Lemma print_error_last format (m : M A) w o w' :
  m w = (o, w') -> panics o = false ->
  print_error format m w = (Done tt, match o with Err e => [Printf format [VErr e]] | _ => [] end, w').
Proof. intros Hm Hp. unfold print_error, mbind, program_bind, call, mret, program_ret, print. rewrite Hm. by destruct o. Qed.

(** A call whose error is printed. *)
Lemma print_error_bind format (m : M A) (f : unit -> program B) w o w' :
  m w = (o, w') -> panics o = false ->
  (print_error format m ≫= f) w =
    let '(r, l, w'') := f tt w' in
    (r, (match o with Err e => [Printf format [VErr e]] | _ => [] end) ++ l, w'').
Proof.
  intros Hm Hp. unfold print_error, mbind, program_bind, call, mret, program_ret, print. rewrite Hm.
  destruct o as [a|e|p]; [..|done]; by destruct (f tt w') as [[? ?] ?].
Qed.
End lemmas.
