(* ===== verification/Sha256.v ===== *)
(** * SHA-256, HMAC and constant-time comparison

    [crypto/sha256] (FIPS 180-4), [crypto/hmac] (RFC 2104) and [crypto/subtle], executable.
    The round constants are computed from their definition: the fractional parts of the cube
    and square roots of the first primes. *)

From S2P Require Import Prelude Errors Binary.

(** ** Constants *)

(** Integer cube root by bisection: [n] halvings of an interval of width [2^n]. *)
Fixpoint icbrt_go (n : nat) (lo z : Z) : Z :=
  match n with
  | O => lo
  | S n' =>
      let m := lo + 2 ^ Z.of_nat n' in
      icbrt_go n' (if m * m * m <=? z then m else lo) z
  end.

Definition frac_cbrt (p : Z) : Z := icbrt_go 36 0 (p * 2 ^ 96) mod 2 ^ 32.
Definition frac_sqrt (p : Z) : Z := Z.sqrt (p * 2 ^ 64) mod 2 ^ 32.

Definition is_prime (n : nat) : bool :=
  forallb (fun d => negb (n mod d =? 0)%nat) (seq 2 (n - 2)).

(** The 64 primes below 312. *)
Definition primes : list Z :=
  map Z.of_nat (List.filter is_prime (seq 2 310)).

Definition sha_K : list Z := Eval vm_compute in map frac_cbrt primes.

(** ** Words *)

Definition add32 (x y : Z) : Z := (x + y) mod 2 ^ 32.
Definition rotr (n x : Z) : Z :=
  Z.lor (Z.shiftr x n) (Z.shiftl x (32 - n) mod 2 ^ 32).
Definition big_sigma0 x := Z.lxor (Z.lxor (rotr 2 x) (rotr 13 x)) (rotr 22 x).
Definition big_sigma1 x := Z.lxor (Z.lxor (rotr 6 x) (rotr 11 x)) (rotr 25 x).
Definition small_sigma0 x := Z.lxor (Z.lxor (rotr 7 x) (rotr 18 x)) (Z.shiftr x 3).
Definition small_sigma1 x := Z.lxor (Z.lxor (rotr 17 x) (rotr 19 x)) (Z.shiftr x 10).
Definition choose x y z := Z.lxor (Z.land x y) (Z.land (2 ^ 32 - 1 - x) z).
Definition majority x y z := Z.lxor (Z.lxor (Z.land x y) (Z.land x z)) (Z.land y z).

(** ** The compression function *)

Record digest := { ha : Z; hb : Z; hc : Z; hd : Z; he : Z; hf : Z; hg : Z; hh : Z }.

Definition sha_init : digest := Eval vm_compute in
  {| ha := frac_sqrt 2; hb := frac_sqrt 3; hc := frac_sqrt 5; hd := frac_sqrt 7;
     he := frac_sqrt 11; hf := frac_sqrt 13; hg := frac_sqrt 17; hh := frac_sqrt 19 |}.

(** The message schedule, newest word first. *)
Fixpoint schedule (n : nat) (ws : list Z) : list Z :=
  match n with
  | O => ws
  | S n' =>
      let w := add32 (add32 (small_sigma1 (nth 1 ws 0)) (nth 6 ws 0))
                     (add32 (small_sigma0 (nth 14 ws 0)) (nth 15 ws 0)) in
      schedule n' (w :: ws)
  end.

Definition sha_round (s : digest) (kw : Z * Z) : digest :=
  let t1 := add32 (add32 (add32 (hh s) (big_sigma1 (he s)))
                         (add32 (choose (he s) (hf s) (hg s)) kw.1)) kw.2 in
  let t2 := add32 (big_sigma0 (ha s)) (majority (ha s) (hb s) (hc s)) in
  {| ha := add32 t1 t2; hb := ha s; hc := hb s; hd := hc s;
     he := add32 (hd s) t1; hf := he s; hg := hf s; hh := hg s |}.

Definition sha_block (s : digest) (block : bytes) : digest :=
  let ws := rev (schedule 48 (rev (map be_get (chunks 4 block)))) in
  let r := fold_left sha_round (combine sha_K ws) s in
  {| ha := add32 (ha s) (ha r); hb := add32 (hb s) (hb r);
     hc := add32 (hc s) (hc r); hd := add32 (hd s) (hd r);
     he := add32 (he s) (he r); hf := add32 (hf s) (hf r);
     hg := add32 (hg s) (hg r); hh := add32 (hh s) (hh r) |}.

(** The message, a one bit, zeros, and the length in bits: a multiple of 64 bytes. *)
Definition sha_pad (msg : bytes) : bytes :=
  msg ++ [x80] ++ replicate (Z.to_nat ((55 - len msg) mod 64)) x00 ++ PutUint64 (8 * len msg).

Definition sha256_Size : Z := 32.
Definition sha256_BlockSize : Z := 64.

Definition Sum256 (msg : bytes) : bytes :=
  let s := fold_left sha_block (chunks 64 (sha_pad msg)) sha_init in
  PutUint32 (ha s) ++ PutUint32 (hb s) ++ PutUint32 (hc s) ++ PutUint32 (hd s) ++
  PutUint32 (he s) ++ PutUint32 (hf s) ++ PutUint32 (hg s) ++ PutUint32 (hh s).

(** ** HMAC *)

(** The key as one block: hashed when longer, padded with zeros. *)
Definition hmac_key (key : bytes) : bytes :=
  let k := if sha256_BlockSize <? len key then Sum256 key else key in
  k ++ replicate (64 - length k) x00.

(** [h := hmac.New(sha256.New, key); h.Write(data); h.Sum(nil)] *)
Definition hmac_sha256 (key data : bytes) : bytes :=
  let k := hmac_key key in
  Sum256 (map (bxor x5c) k ++ Sum256 (map (bxor x36) k ++ data)).

(** ** crypto/subtle *)

(** [subtle.ConstantTimeCompare]: one pass that accumulates the differing bits, and 1 or 0. *)
Definition ct_accumulate (x y : bytes) : byte :=
  fold_left (fun v p => to_byte (Z.lor (bval v) (bval (bxor p.1 p.2)))) (combine x y) x00.

Definition ConstantTimeByteEq (x y : byte) : Z :=
  Z.shiftr (u32 (Z.lxor (bval x) (bval y) - 1)) 31.

Definition ConstantTimeCompare (x y : bytes) : Z :=
  if negb (len x =? len y) then 0 else ConstantTimeByteEq (ct_accumulate x y) x00.

(** [hmac.Equal] *)
Definition hmac_Equal (x y : bytes) : bool := ConstantTimeCompare x y =? 1.

(** ** Lemmas *)

Lemma len_Sum256 msg : len (Sum256 msg) = 32.
Proof. unfold Sum256. by rewrite !len_app, !len_PutUint32. Qed.

Lemma len_hmac key data : len (hmac_sha256 key data) = 32.
Proof. apply len_Sum256. Qed.

#[export] Hint Rewrite len_Sum256 len_hmac : go.

(** The padded message is a whole number of blocks. *)
Lemma sha_pad_aligned msg : len (sha_pad msg) mod 64 = 0.
Proof.
  unfold sha_pad. rewrite !len_app, len_PutUint64, len_replicate.
  pose proof (Z.mod_pos_bound (55 - len msg) 64 eq_refl).
  change (len [x80]) with 1. rewrite Z2Nat.id by lia.
  Z.to_euclidean_division_equations; lia.
Qed.

Lemma byte_eq_test :
  forallb (fun v => ConstantTimeByteEq v x00 =? if bool_decide (v = x00) then 1 else 0)
    all_bytes = true.
Proof. vm_compute. reflexivity. Qed.

Lemma lor_bytes_0 a b :
  to_byte (Z.lor (bval a) (bval b)) = x00 <-> a = x00 /\ b = x00.
Proof.
  pose proof (bval_range a); pose proof (bval_range b). split.
  - intros Hz. apply (f_equal bval) in Hz. rewrite bval_to_byte in Hz.
    change (bval x00) with 0 in Hz.
    assert (0 <= Z.lor (bval a) (bval b) < 256) as Hr.
    { split; [apply Z.lor_nonneg; lia|].
      destruct (Z.eq_dec (Z.lor (bval a) (bval b)) 0) as [->|Hne]; [lia|].
      change 256 with (2 ^ 8). apply Z.log2_lt_pow2.
      { assert (0 <= Z.lor (bval a) (bval b)) by (apply Z.lor_nonneg; lia). lia. }
      rewrite Z.log2_lor by lia.
      assert (Hl : forall c, 0 <= c < 256 -> Z.log2 c < 8).
      { intros c Hc. destruct (Z.eq_dec c 0) as [->|]; [done|]. apply Z.log2_lt_pow2; lia. }
      pose proof (Hl (bval a)); pose proof (Hl (bval b)). lia. }
    rewrite Z.mod_small in Hz by done. apply Z.lor_eq_0_iff in Hz as [Ha Hb].
    split; by apply bval_inj.
  - intros [-> ->]. done.
Qed.

Lemma ct_accumulate_0 x y v :
  length x = length y ->
  fold_left (fun v p => to_byte (Z.lor (bval v) (bval (bxor p.1 p.2)))) (combine x y) v = x00
  <-> v = x00 /\ x = y.
Proof.
  revert y v; induction x as [|a x IH]; intros [|b y] v H; simpl in *; try lia.
  - naive_solver.
  - rewrite IH by lia. rewrite lor_bytes_0. split.
    + intros [[-> Hab] ->]. apply bxor_eq_0 in Hab. by subst.
    + intros [-> [= -> ->]]. by rewrite bxor_nilpotent.
Qed.

(** The comparison returns 1 exactly on equal strings. *)
Lemma ConstantTimeCompare_spec x y :
  ConstantTimeCompare x y = if bool_decide (x = y) then 1 else 0.
Proof.
  unfold ConstantTimeCompare. destruct (Z.eqb_spec (len x) (len y)) as [Hl|Hl]; simpl.
  - pose proof (byte_forall _ byte_eq_test (ct_accumulate x y)) as H.
    apply Z.eqb_eq in H. rewrite H.
    pose proof (ct_accumulate_0 x y x00 ltac:(unfold len in Hl; lia)) as H0.
    fold (ct_accumulate x y) in H0.
    replace (bool_decide (x = y)) with (bool_decide (ct_accumulate x y = x00)); [done|].
    apply bool_decide_ext. naive_solver.
  - rewrite bool_decide_eq_false_2; [done|congruence].
Qed.

Lemma hmac_Equal_spec x y : hmac_Equal x y = bool_decide (x = y).
Proof.
  unfold hmac_Equal. rewrite ConstantTimeCompare_spec. by destruct (bool_decide (x = y)).
Qed.
