(* ===== verification/Aes.v ===== *)
(** * The AES block cipher

    [crypto/aes] (FIPS 197) for 16, 24 and 32-byte keys, executable, with the proof that
    decryption inverts encryption.  The S-box is computed from its definition: inversion in
    GF(2^8) followed by an affine map. *)

From Stdlib Require Import Btauto.
From S2P Require Import Prelude Errors.

(** ** Arithmetic in GF(2^8), modulo x^8 + x^4 + x^3 + x + 1 *)

Definition xtime (b : byte) : byte :=
  to_byte (Z.lxor (Z.shiftl (bval b) 1) (if Z.testbit (bval b) 7 then 283 else 0)).

(** Shift and add over the eight bits of [b]. *)
Definition gmul (a b : byte) : byte :=
  (fold_left (fun (s : byte * byte) i =>
     (if Z.testbit (bval b) (Z.of_nat i) then bxor s.1 s.2 else s.1, xtime s.2))
    (seq 0 8) (x00, a)).1.

(** The inverse, the 254th power, with [0] sent to itself. *)
Definition ginv (b : byte) : byte :=
  let b2 := gmul b b in let b4 := gmul b2 b2 in let b8 := gmul b4 b4 in
  let b16 := gmul b8 b8 in let b32 := gmul b16 b16 in let b64 := gmul b32 b32 in
  let b128 := gmul b64 b64 in
  gmul b128 (gmul b64 (gmul b32 (gmul b16 (gmul b8 (gmul b4 b2))))).

Definition rotl8 (v n : Z) : Z := (Z.lor (Z.shiftl v n) (Z.shiftr v (8 - n))) mod 256.

Definition affine (b : byte) : byte :=
  let v := bval b in
  to_byte (Z.lxor (Z.lxor (Z.lxor (Z.lxor (Z.lxor v (rotl8 v 1)) (rotl8 v 2)) (rotl8 v 3))
                          (rotl8 v 4)) 99).

Definition sbox_table : list byte := Eval vm_compute in map (fun b => affine (ginv b)) all_bytes.

(** The position of a byte in the S-box. *)
Fixpoint position (b : byte) (l : list byte) (i : Z) : byte :=
  match l with
  | [] => x00
  | c :: l' => if bool_decide (c = b) then to_byte i else position b l' (i + 1)
  end.

Definition inv_sbox_table : list byte :=
  Eval vm_compute in map (fun b => position b sbox_table 0) all_bytes.

Definition sbox (b : byte) : byte := nth (Z.to_nat (bval b)) sbox_table x00.
Definition inv_sbox (b : byte) : byte := nth (Z.to_nat (bval b)) inv_sbox_table x00.

(** ** The round steps, on the 16 bytes of the state in column order *)

Definition sub_bytes (s : bytes) : bytes := map sbox s.
Definition inv_sub_bytes (s : bytes) : bytes := map inv_sbox s.

(** Row [r] of the state rotates by [r] columns. *)
Definition permute (idx : list nat) (s : bytes) : bytes := map (fun i => nth i s x00) idx.
Definition shift_index : list nat :=
  map (fun i => (i mod 4 + 4 * ((i / 4 + i mod 4) mod 4))%nat) (seq 0 16).
Definition inv_shift_index : list nat :=
  map (fun i => (i mod 4 + 4 * ((i / 4 + 4 - i mod 4) mod 4))%nat) (seq 0 16).
Definition shift_rows (s : bytes) : bytes := permute shift_index s.
Definition inv_shift_rows (s : bytes) : bytes := permute inv_shift_index s.

Definition mul3 b := bxor (xtime b) b.
Definition mul9 b := bxor (xtime (xtime (xtime b))) b.
Definition mul11 b := bxor (mul9 b) (xtime b).
Definition mul13 b := bxor (mul9 b) (xtime (xtime b)).
Definition mul14 b := bxor (bxor (xtime (xtime (xtime b))) (xtime (xtime b))) (xtime b).

Definition bxor4 a b c d := bxor (bxor a b) (bxor c d).

Fixpoint mix_columns (s : bytes) : bytes :=
  match s with
  | a :: b :: c :: d :: rest =>
      bxor4 (xtime a) (mul3 b) c d :: bxor4 a (xtime b) (mul3 c) d ::
      bxor4 a b (xtime c) (mul3 d) :: bxor4 (mul3 a) b c (xtime d) :: mix_columns rest
  | _ => s
  end.

Fixpoint inv_mix_columns (s : bytes) : bytes :=
  match s with
  | a :: b :: c :: d :: rest =>
      bxor4 (mul14 a) (mul11 b) (mul13 c) (mul9 d) ::
      bxor4 (mul9 a) (mul14 b) (mul11 c) (mul13 d) ::
      bxor4 (mul13 a) (mul9 b) (mul14 c) (mul11 d) ::
      bxor4 (mul11 a) (mul13 b) (mul9 c) (mul14 d) :: inv_mix_columns rest
  | _ => s
  end.

Definition add_round_key (rk s : bytes) : bytes :=
  imap (fun i b => bxor b (nth i rk x00)) s.

(** ** Key expansion *)

Definition xor_word (a b : bytes) : bytes := zip_with bxor a b.

(** [n] more words, newest first; [i] is the index of the next word and [rc] the next round
    constant. *)
Fixpoint expand_words (n i nk : nat) (rc : byte) (ws : list bytes) : list bytes :=
  match n with
  | O => ws
  | S n' =>
      let temp := nth 0 ws [] in
      let old := nth (nk - 1) ws [] in
      if (i mod nk =? 0)%nat then
        let t := xor_word (map sbox (drop 1 temp ++ take 1 temp)) [rc; x00; x00; x00] in
        expand_words n' (S i) nk (xtime rc) (xor_word old t :: ws)
      else if (6 <? nk)%nat && (i mod nk =? 4)%nat then
        expand_words n' (S i) nk rc (xor_word old (map sbox temp) :: ws)
      else expand_words n' (S i) nk rc (xor_word old temp :: ws)
  end.

(** The round keys: one more than the [nk + 6] rounds. *)
Definition expand_key (key : bytes) : list bytes :=
  let nk := (length key / 4)%nat in
  chunks 16 (mjoin (rev (expand_words (4 * (nk + 7) - nk) nk nk x01 (rev (chunks 4 key))))).

(** ** The cipher *)

Definition aes_round (s rk : bytes) : bytes :=
  add_round_key rk (mix_columns (shift_rows (sub_bytes s))).

Definition inv_aes_round (s rk : bytes) : bytes :=
  inv_sub_bytes (inv_shift_rows (inv_mix_columns (add_round_key rk s))).

Definition encrypt_block (rks : list bytes) (s : bytes) : bytes :=
  match rks with
  | [] => s
  | first :: rest =>
      let mid := removelast rest in
      let final := List.last rest [] in
      add_round_key final
        (shift_rows (sub_bytes (fold_left aes_round mid (add_round_key first s))))
  end.

Definition decrypt_block (rks : list bytes) (s : bytes) : bytes :=
  match rks with
  | [] => s
  | first :: rest =>
      let mid := removelast rest in
      let final := List.last rest [] in
      add_round_key first
        (fold_left inv_aes_round (rev mid)
          (inv_sub_bytes (inv_shift_rows (add_round_key final s))))
  end.

(** [cipher.Block]: the two directions on one 16-byte block. *)
Record Block := { blk_Encrypt : bytes -> bytes; blk_Decrypt : bytes -> bytes }.

Definition aes_BlockSize : Z := 16.

(** [aes.NewCipher] *)
Definition NewCipher (key : bytes) : outcome Block :=
  if (len key =? 16) || (len key =? 24) || (len key =? 32) then
    let rks := expand_key key in
    Ok {| blk_Encrypt := encrypt_block rks; blk_Decrypt := decrypt_block rks |}
  else Err KeySizeError.

(** What the modes of operation need of a block cipher. *)
Class BlockOk (b : Block) : Prop := {
  blk_Encrypt_length s : length s = 16%nat -> length (blk_Encrypt b s) = 16%nat;
  blk_Decrypt_length s : length s = 16%nat -> length (blk_Decrypt b s) = 16%nat;
  blk_Decrypt_Encrypt s : length s = 16%nat -> blk_Decrypt b (blk_Encrypt b s) = s
}.

(** ** Lemmas *)

(** *** The S-box is a permutation *)

Lemma sbox_inverse_test : forallb (fun b => bool_decide (inv_sbox (sbox b) = b)) all_bytes = true.
Proof. vm_compute. reflexivity. Qed.

Lemma inv_sbox_sbox b : inv_sbox (sbox b) = b.
Proof. pose proof (byte_forall _ sbox_inverse_test b) as H. by apply bool_decide_eq_true in H. Qed.

Lemma inv_sub_sub s : inv_sub_bytes (sub_bytes s) = s.
Proof.
  unfold inv_sub_bytes, sub_bytes. rewrite map_map. rewrite <- (map_id s) at 2.
  apply map_ext, inv_sbox_sbox.
Qed.

(** *** Row shifts *)

Lemma inv_shift_shift s : length s = 16%nat -> inv_shift_rows (shift_rows s) = s.
Proof. intros H. destruct_list s H. reflexivity. Qed.

Lemma length_shift s : length (shift_rows s) = 16%nat.
Proof. done. Qed.

Lemma length_inv_shift s : length (inv_shift_rows s) = 16%nat.
Proof. done. Qed.

(** *** Column mixing: doubling is linear over exclusive or *)

Definition bit (i : Z) (b : byte) : bool := Z.testbit (bval b) i.

Lemma byte_bits a b : (forall i, 0 <= i -> bit i a = bit i b) -> a = b.
Proof. intros H. apply bval_inj, Z.bits_inj'. exact H. Qed.

Lemma bit_bxor i a b : bit i (bxor a b) = xorb (bit i a) (bit i b).
Proof. unfold bit. rewrite bval_bxor. apply Z.lxor_spec. Qed.

Lemma lxor_mod256 x y : Z.lxor x y mod 256 = Z.lxor (x mod 256) (y mod 256).
Proof.
  change 256 with (2 ^ 8). apply Z.bits_inj'. intros i Hi.
  rewrite Z.lxor_spec. destruct (Z.ltb_spec i 8).
  - by rewrite !Z.mod_pow2_bits_low, Z.lxor_spec by lia.
  - by rewrite !Z.mod_pow2_bits_high by lia.
Qed.

Lemma xtime_bxor a b : xtime (bxor a b) = bxor (xtime a) (xtime b).
Proof.
  apply bval_inj. rewrite bval_bxor. unfold xtime. rewrite !bval_to_byte, <- lxor_mod256.
  rewrite bval_bxor, Z.shiftl_lxor, Z.lxor_spec. f_equal.
  set (p := Z.shiftl (bval a) 1). set (q := Z.shiftl (bval b) 1).
  destruct (Z.testbit (bval a) 7), (Z.testbit (bval b) 7); simpl xorb; cbv iota;
    apply Z.bits_inj'; intros i Hi; rewrite ?Z.lxor_spec, ?Z.bits_0; btauto.
Qed.

(** Equality of exclusive ors of doublings, bit by bit. *)
Ltac xor_solve :=
  unfold mul14, mul13, mul11, mul9, mul3, bxor4;
  rewrite ?xtime_bxor; apply byte_bits; intros i _; rewrite ?bit_bxor; btauto.

Lemma inv_mix_mix_column a b c d :
  inv_mix_columns (mix_columns [a; b; c; d]) = [a; b; c; d].
Proof. cbn [mix_columns inv_mix_columns]. repeat f_equal; xor_solve. Qed.

Lemma inv_mix_mix_cons a b c d s :
  inv_mix_columns (mix_columns (a :: b :: c :: d :: s)) =
  a :: b :: c :: d :: inv_mix_columns (mix_columns s).
Proof.
  pose proof (inv_mix_mix_column a b c d) as H.
  cbn [mix_columns inv_mix_columns] in *. injection H as H1 H2 H3 H4.
  by rewrite H1, H2, H3, H4.
Qed.

Lemma inv_mix_mix s : length s = 16%nat -> inv_mix_columns (mix_columns s) = s.
Proof. intros H. destruct_list s H. by rewrite !inv_mix_mix_cons. Qed.

Lemma length_mix s : length s = 16%nat -> length (mix_columns s) = 16%nat.
Proof. intros H. destruct_list s H. reflexivity. Qed.

Lemma length_inv_mix s : length s = 16%nat -> length (inv_mix_columns s) = 16%nat.
Proof. intros H. destruct_list s H. reflexivity. Qed.

(** *** Round keys *)

Lemma length_ark rk s : length (add_round_key rk s) = length s.
Proof. apply length_imap. Qed.

Lemma ark_ark rk s : add_round_key rk (add_round_key rk s) = s.
Proof.
  apply list_eq. intros i. unfold add_round_key. rewrite !list_lookup_imap.
  destruct (s !! i) as [b|]; simpl; [by rewrite bxor_cancel|done].
Qed.

(** *** The cipher *)

Lemma length_sub s : length (sub_bytes s) = length s.
Proof. apply length_map. Qed.

Lemma length_inv_sub s : length (inv_sub_bytes s) = length s.
Proof. apply length_map. Qed.

Lemma length_round s rk : length (aes_round s rk) = 16%nat.
Proof. unfold aes_round. by rewrite length_ark, length_mix. Qed.

Lemma length_inv_round s rk : length s = 16%nat -> length (inv_aes_round s rk) = 16%nat.
Proof. done. Qed.

Lemma inv_round_round s rk : length s = 16%nat -> inv_aes_round (aes_round s rk) rk = s.
Proof.
  intros H. unfold inv_aes_round, aes_round.
  rewrite ark_ark, inv_mix_mix, inv_shift_shift, inv_sub_sub by (by rewrite ?length_sub). done.
Qed.

Lemma length_rounds rks s : length s = 16%nat -> length (fold_left aes_round rks s) = 16%nat.
Proof. revert s; induction rks as [|rk rks IH]; intros s H; [done|]. simpl. apply IH, length_round. Qed.

Lemma length_inv_rounds rks s :
  length s = 16%nat -> length (fold_left inv_aes_round rks s) = 16%nat.
Proof. revert s; induction rks as [|rk rks IH]; intros s H; [done|]. simpl. by apply IH. Qed.

Lemma inv_rounds_rounds rks s :
  length s = 16%nat ->
  fold_left inv_aes_round (rev rks) (fold_left aes_round rks s) = s.
Proof.
  revert s; induction rks as [|rk rks IH]; intros s H; [done|]. simpl.
  rewrite fold_left_app. simpl. rewrite IH by apply length_round. by apply inv_round_round.
Qed.

Lemma decrypt_encrypt_block rks s :
  length s = 16%nat -> decrypt_block rks (encrypt_block rks s) = s.
Proof.
  intros H. destruct rks as [|first rest]; [done|].
  unfold decrypt_block, encrypt_block.
  rewrite ark_ark, inv_shift_shift by
    (rewrite length_sub; apply length_rounds; by rewrite length_ark).
  rewrite inv_sub_sub, inv_rounds_rounds by (by rewrite length_ark).
  apply ark_ark.
Qed.

Lemma length_encrypt_block rks s : length s = 16%nat -> length (encrypt_block rks s) = 16%nat.
Proof. intros H. destruct rks as [|first rest]; [done|].
  unfold decrypt_block, encrypt_block. by rewrite length_ark. Qed.

Lemma length_decrypt_block rks s : length s = 16%nat -> length (decrypt_block rks s) = 16%nat.
Proof.
  intros H. destruct rks as [|first rest]; [done|].
  unfold decrypt_block, encrypt_block. rewrite length_ark.
  by apply length_inv_rounds.
Qed.

(** Every key of an accepted size gives a block cipher whose directions are inverse. *)
Lemma NewCipher_Ok key :
  len key = 16 \/ len key = 24 \/ len key = 32 -> exists b, NewCipher key = Ok b /\ BlockOk b.
Proof.
  intros H. unfold NewCipher.
  assert ((len key =? 16) || (len key =? 24) || (len key =? 32) = true) as -> by
    (destruct H as [->|[->| ->]]; done).
  eexists. split; [done|]. split; simpl.
  - apply length_encrypt_block.
  - apply length_decrypt_block.
  - apply decrypt_encrypt_block.
Qed.

Lemma NewCipher_BlockOk key b : NewCipher key = Ok b -> BlockOk b.
Proof.
  intros H. destruct (NewCipher_Ok key) as (b' & H' & Hb).
  - unfold NewCipher in H. destruct (Z.eqb_spec (len key) 16), (Z.eqb_spec (len key) 24),
      (Z.eqb_spec (len key) 32); simpl in H; try discriminate; auto.
  - congruence.
Qed.
