(* ===== verification/Cipher.v ===== *)
(** * Modes of operation

    The interface [cipher.AEAD] with the laws its clients rely on, and two modes of
    [crypto/cipher] over a block cipher: Galois/Counter Mode (SP 800-38D), proved to satisfy
    those laws, and cipher block chaining. *)

From S2P Require Import Prelude Errors Binary Sha256 Aes.

(** ** cipher.AEAD *)

(** [Seal(dst, nonce, plaintext, additionalData)] appends to [dst]; [Open] is always called
    with a nil [dst]. *)
Record AEAD := {
  aead_Seal : bytes -> bytes -> bytes -> bytes -> outcome bytes;
  aead_Open : bytes -> bytes -> bytes -> outcome bytes
}.

(** The laws of an AEAD with 12-byte nonces and 16-byte tags, for plaintexts of at most
    [maxp] bytes: sealing succeeds and opening inverts it, opening accepts nothing that is not
    sealed, and an in-range call does not panic.  They are equations on the functions; they
    say nothing of how hard a sealed text is to guess. *)
Class AEADOk (c : AEAD) (maxp : Z) : Prop := {
  seal_open nonce p aad :
    len nonce = 12 -> len p <= maxp ->
    exists ct, len ct = len p + 16 /\
      (forall dst, aead_Seal c dst nonce p aad = Ok (dst ++ ct)) /\
      aead_Open c nonce ct aad = Ok p;
  open_seal nonce ct aad p :
    aead_Open c nonce ct aad = Ok p ->
    len nonce = 12 /\ len p <= maxp /\ forall dst, aead_Seal c dst nonce p aad = Ok (dst ++ ct);
  seal_bound dst nonce p aad out :
    aead_Seal c dst nonce p aad = Ok out -> len nonce = 12 /\ len p <= maxp;
  open_no_panic nonce ct aad :
    len nonce = 12 -> len ct <= maxp + 16 -> panics (aead_Open c nonce ct aad) = false
}.

(** ** Galois/Counter Mode *)

(** Multiplication in GF(2^128); the first bit of a block is its most significant. *)
Fixpoint gf_mul_go (i : nat) (x v z : Z) : Z :=
  match i with
  | O => z
  | S i' =>
      gf_mul_go i' x
        (Z.lxor (Z.shiftr v 1) (if Z.testbit v 0 then Z.shiftl 225 120 else 0))
        (if Z.testbit x (Z.of_nat i') then Z.lxor z v else z)
  end.

Definition gf_mul (x y : Z) : Z := gf_mul_go 128 x y 0.

(** Zeros up to the next multiple of 16. *)
Definition zero_pad (l : bytes) : bytes := l ++ replicate (Z.to_nat ((- len l) mod 16)) x00.

Definition ghash (h : Z) (l : bytes) : Z :=
  fold_left (fun y block => gf_mul (Z.lxor y (be_get block)) h) (chunks 16 l) 0.

(** The encrypted counter blocks, from counter [c]. *)
Definition keystream (b : Block) (nonce : bytes) (c : Z) (n : nat) : bytes :=
  mjoin (map (fun i => blk_Encrypt b (nonce ++ PutUint32 (c + Z.of_nat i))) (seq 0 n)).

Definition gctr (b : Block) (nonce : bytes) (p : bytes) : bytes :=
  zip_with bxor p (keystream b nonce 2 ((length p + 15) / 16)).

Definition gcm_tag (b : Block) (nonce ct aad : bytes) : bytes :=
  let h := be_get (blk_Encrypt b (replicate 16 x00)) in
  let s := ghash h (zero_pad aad ++ zero_pad ct ++
                    PutUint64 (8 * len aad) ++ PutUint64 (8 * len ct)) in
  zip_with bxor (be_put 16 s) (keystream b nonce 1 1).

Definition gcm_max : Z := (2 ^ 32 - 2) * 16.

Definition gcm_Seal (b : Block) (dst nonce p aad : bytes) : outcome bytes :=
  if negb (len nonce =? 12) then Panic "incorrect nonce length given to GCM"
  else if gcm_max <? len p then Panic "message too large for GCM"
  else
    let ct := gctr b nonce p in
    Ok (dst ++ ct ++ gcm_tag b nonce ct aad).

Definition gcm_Open (b : Block) (nonce ciphertext aad : bytes) : outcome bytes :=
  if negb (len nonce =? 12) then Panic "incorrect nonce length given to GCM"
  else if len ciphertext <? 16 then Err errOpen
  else if gcm_max + 16 <? len ciphertext then Err errOpen
  else
    let n := (length ciphertext - 16)%nat in
    let ct := take n ciphertext in
    let tag := drop n ciphertext in
    if negb (ConstantTimeCompare (gcm_tag b nonce ct aad) tag =? 1) then Err errOpen
    else Ok (gctr b nonce ct).

(** [cipher.NewGCM] on an AES block; the block size is always right. *)
Definition NewGCM (b : Block) : outcome AEAD :=
  Ok {| aead_Seal := gcm_Seal b; aead_Open := gcm_Open b |}.

(** ** Cipher block chaining *)

Fixpoint cbc_encrypt_blocks (b : Block) (prev : bytes) (ps : list bytes) : list bytes :=
  match ps with
  | [] => []
  | p :: ps' =>
      let c := blk_Encrypt b (zip_with bxor p prev) in
      c :: cbc_encrypt_blocks b c ps'
  end.

Fixpoint cbc_decrypt_blocks (b : Block) (prev : bytes) (cs : list bytes) : list bytes :=
  match cs with
  | [] => []
  | c :: cs' => zip_with bxor (blk_Decrypt b c) prev :: cbc_decrypt_blocks b c cs'
  end.

(** [cipher.NewCBCEncrypter(block, iv).CryptBlocks(dst, src)], returning what [dst] holds;
    [CryptBlocks] panics on a partial block. *)
Definition CBCEncrypt (b : Block) (iv src : bytes) : outcome bytes :=
  if negb (len iv =? 16) then Panic "IV length must equal block size"
  else if negb (len src mod 16 =? 0) then Panic "input not full blocks"
  else Ok (mjoin (cbc_encrypt_blocks b iv (chunks 16 src))).

Definition CBCDecrypt (b : Block) (iv src : bytes) : outcome bytes :=
  if negb (len iv =? 16) then Panic "IV length must equal block size"
  else if negb (len src mod 16 =? 0) then Panic "input not full blocks"
  else Ok (mjoin (cbc_decrypt_blocks b iv (chunks 16 src))).

(** ** Lemmas *)

Lemma join_length {A} (ls : list (list A)) k :
  Forall (fun l => length l = k) ls -> length (mjoin ls) = (length ls * k)%nat.
Proof. induction 1 as [|l ls H _ IH]; [done|]. simpl. rewrite length_app, IH, H. lia. Qed.

Lemma keystream_length b `{!BlockOk b} nonce c n :
  len nonce = 12 -> length (keystream b nonce c n) = (n * 16)%nat.
Proof.
  intros Hn. unfold keystream. rewrite (join_length _ 16), length_map, length_seq; [done|].
  apply Forall_map, Forall_forall. intros i _. apply blk_Encrypt_length.
  unfold len in Hn. rewrite length_app, length_PutUint32. lia.
Qed.

Lemma blocks_enough n : (n <= (n + 15) / 16 * 16)%nat.
Proof. pose proof (Nat.div_mod_eq (n + 15) 16). pose proof (Nat.mod_upper_bound (n + 15) 16). lia. Qed.

Lemma length_gctr b `{!BlockOk b} nonce p :
  len nonce = 12 -> length (gctr b nonce p) = length p.
Proof.
  intros Hn. unfold gctr. rewrite length_zip_with, keystream_length by done.
  pose proof (blocks_enough (length p)). lia.
Qed.

(** Encrypting the counter stream twice is the identity. *)
Lemma gctr_gctr b `{!BlockOk b} nonce p :
  len nonce = 12 -> gctr b nonce (gctr b nonce p) = p.
Proof.
  intros Hn. unfold gctr at 1. rewrite length_gctr by done. unfold gctr.
  apply zip_bxor_cancel. rewrite keystream_length by done. apply blocks_enough.
Qed.

Lemma length_gcm_tag b `{!BlockOk b} nonce ct aad :
  len nonce = 12 -> length (gcm_tag b nonce ct aad) = 16%nat.
Proof.
  intros Hn. unfold gcm_tag. by rewrite length_zip_with, length_be_put, keystream_length.
Qed.

Lemma ct_compare_true x y : (ConstantTimeCompare x y =? 1) = true <-> x = y.
Proof.
  rewrite ConstantTimeCompare_spec. destruct (decide (x = y)) as [H|H].
  - rewrite bool_decide_eq_true_2; done.
  - rewrite bool_decide_eq_false_2; done.
Qed.

(** What sealing appends, and when. *)
Lemma gcm_Seal_Ok b dst nonce p aad out :
  gcm_Seal b dst nonce p aad = Ok out <->
  len nonce = 12 /\ len p <= gcm_max /\
  out = dst ++ gctr b nonce p ++ gcm_tag b nonce (gctr b nonce p) aad.
Proof.
  unfold gcm_Seal. destruct (Z.eqb_spec (len nonce) 12) as [Hn|Hn]; simpl.
  2: { split; [discriminate|naive_solver]. }
  destruct (Z.ltb_spec gcm_max (len p)) as [Hp|Hp].
  { split; [discriminate|lia]. }
  split; [intros [= <-]; auto|]. by intros (_ & _ & ->).
Qed.

(** Opening accepts exactly the sealed texts. *)
Lemma gcm_Open_Ok b `{!BlockOk b} nonce ct aad p :
  gcm_Open b nonce ct aad = Ok p <->
  len nonce = 12 /\ len p <= gcm_max /\
  ct = gctr b nonce p ++ gcm_tag b nonce (gctr b nonce p) aad.
Proof.
  unfold gcm_Open. destruct (Z.eqb_spec (len nonce) 12) as [Hn|Hn]; simpl.
  2: { split; [discriminate|naive_solver]. }
  destruct (Z.ltb_spec (len ct) 16) as [H1|H1].
  { split; [discriminate|]. intros (_ & _ & ->). unfold len in H1.
    rewrite length_app, length_gcm_tag in H1 by done. lia. }
  destruct (Z.ltb_spec (gcm_max + 16) (len ct)) as [H2|H2].
  { split; [discriminate|]. intros (_ & Hp & ->). unfold len in *.
    rewrite length_app, length_gcm_tag, length_gctr in H2 by done. lia. }
  set (n := (length ct - 16)%nat).
  assert (Hln : length (take n ct) = n) by (unfold len in *; rewrite length_take; lia).
  destruct (ConstantTimeCompare (gcm_tag b nonce (take n ct) aad) (drop n ct) =? 1) eqn:Ht; simpl.
  - apply ct_compare_true in Ht. split.
    + intros [= <-]. rewrite gctr_gctr, Ht, take_drop by done. split; [done|].
      split; [|done]. unfold len in *. rewrite length_gctr, Hln by done. lia.
    + intros (_ & _ & Hct). f_equal.
      replace (take n ct) with (gctr b nonce p); [by apply gctr_gctr|].
      rewrite Hct. symmetry. apply take_app_len. unfold n.
      rewrite Hct, length_app, length_gcm_tag by done. lia.
  - split; [discriminate|]. intros (_ & _ & Hct).
    enough ((ConstantTimeCompare (gcm_tag b nonce (take n ct) aad) (drop n ct) =? 1) = true)
      by congruence.
    assert (Hn' : n = length (gctr b nonce p)).
    { unfold n. rewrite Hct, length_app, length_gcm_tag by done. lia. }
    apply ct_compare_true. rewrite Hct at 1 2.
    by rewrite take_app_len, drop_app_len.
Qed.

(** A text that opens no longer opens once its tag is changed. *)
Lemma gcm_Open_other_tag b `{!BlockOk b} nonce ct tag tag' aad p :
  len tag = 16 -> len tag' = 16 -> tag' <> tag ->
  gcm_Open b nonce (ct ++ tag) aad = Ok p -> gcm_Open b nonce (ct ++ tag') aad = Err errOpen.
Proof.
  intros Ht Ht' Hne H. assert (Hn : len nonce = 12) by (by apply gcm_Open_Ok in H as [? _]).
  unfold gcm_Open in *. rewrite Hn in *. cbn [negb Z.eqb Pos.eqb] in *.
  rewrite !len_app, Ht, Ht' in *. case_bool; [done|]. case_bool; [done|].
  rewrite !length_app in *.
  replace (length ct + length tag - 16)%nat with (length ct) in H by (unfold len in *; lia).
  replace (length ct + length tag' - 16)%nat with (length ct) by (unfold len in *; lia).
  rewrite take_app_length, drop_app_length in *.
  destruct (ConstantTimeCompare (gcm_tag b nonce ct aad) tag =? 1) eqn:Hc; [|discriminate].
  apply ct_compare_true in Hc.
  destruct (ConstantTimeCompare (gcm_tag b nonce ct aad) tag' =? 1) eqn:Hc'; [|done].
  apply ct_compare_true in Hc'. congruence.
Qed.

(** GCM never panics on a 12-byte nonce: an oversized text is an ordinary error. *)
Lemma gcm_Open_no_panic b nonce ct aad :
  len nonce = 12 -> panics (gcm_Open b nonce ct aad) = false.
Proof.
  intros Hn. unfold gcm_Open. rewrite Hn. simpl. repeat (case_bool; [done|]). done.
Qed.

(** GCM over any block cipher satisfies the interface. *)
Lemma NewGCM_ok b c `{!BlockOk b} : NewGCM b = Ok c -> AEADOk c gcm_max.
Proof.
  intros [= <-]. split; simpl.
  - intros nonce p aad Hn Hp.
    exists (gctr b nonce p ++ gcm_tag b nonce (gctr b nonce p) aad).
    split; [|split].
    + unfold len. rewrite length_app, length_gcm_tag, length_gctr by done. lia.
    + intros dst. by apply gcm_Seal_Ok.
    + by apply gcm_Open_Ok.
  - intros nonce ct aad p H. apply gcm_Open_Ok in H as (Hn & Hp & ->); [|done].
    split; [done|]. split; [done|]. intros dst. by apply gcm_Seal_Ok.
  - intros dst nonce p aad out (? & ? & _)%gcm_Seal_Ok. done.
  - intros nonce ct aad Hn _. by apply gcm_Open_no_panic.
Qed.

(** The AEAD of a key of an AES size. *)
Definition gcm_of_key (key : bytes) : outcome AEAD := b ← NewCipher key; NewGCM b.

Lemma gcm_of_key_Ok key :
  len key = 32 -> exists c, gcm_of_key key = Ok c /\ AEADOk c gcm_max.
Proof.
  intros H. unfold gcm_of_key. destruct (NewCipher_Ok key) as (b & -> & Hok); [auto|].
  eexists. split; [done|]. by eapply NewGCM_ok.
Qed.

(** What one nonce used for two plaintexts gives away. *)
Lemma gctr_xor b `{!BlockOk b} nonce p q :
  len nonce = 12 -> length p = length q ->
  zip_with bxor (gctr b nonce p) (gctr b nonce q) = zip_with bxor p q.
Proof.
  intros Hn Hl. unfold gctr. rewrite <- Hl.
  assert (Hk : (length p <= length (keystream b nonce 2 ((length p + 15) / 16)))%nat)
    by (rewrite keystream_length by done; apply blocks_enough).
  revert Hk. generalize (keystream b nonce 2 ((length p + 15) / 16)). clear Hn. revert q Hl.
  induction p as [|x p IH]; intros [|y q] Hl [|z ks] Hk; cbn [length] in *; try done; try lia. cbn [zip_with].
  f_equal; [|apply IH; lia].
  by rewrite <- (bxor_comm z y), <- bxor_assoc, bxor_cancel.
Qed.

Lemma gcm_Seal_xor key c nonce p q aad aad' x y :
  gcm_of_key key = Ok c -> length p = length q ->
  aead_Seal c [] nonce p aad = Ok x -> aead_Seal c [] nonce q aad' = Ok y ->
  zip_with bxor (take (length p) x) (take (length q) y) = zip_with bxor p q.
Proof.
  intros (b & Hb & [= <-])%bind_Ok_inv Hl. pose proof (NewCipher_BlockOk _ _ Hb) as Hok.
  intros (Hn & _ & ->)%gcm_Seal_Ok (_ & _ & ->)%gcm_Seal_Ok. cbn [app].
  rewrite !take_app_len by (by rewrite length_gctr). by apply gctr_xor.
Qed.

Lemma gcm_of_key_ok key c : gcm_of_key key = Ok c -> AEADOk c gcm_max.
Proof.
  intros (b & Hb%NewCipher_BlockOk & Hc)%bind_Ok_inv. by eapply NewGCM_ok.
Qed.

Lemma gcm_of_key_no_panic key c nonce ct aad :
  gcm_of_key key = Ok c -> len nonce = 12 -> panics (aead_Open c nonce ct aad) = false.
Proof.
  intros (b & _ & [= <-])%bind_Ok_inv. apply gcm_Open_no_panic.
Qed.

Lemma cbc_roundtrip_blocks b `{!BlockOk b} prev ps :
  length prev = 16%nat -> Forall (fun p => length p = 16%nat) ps ->
  cbc_decrypt_blocks b prev (cbc_encrypt_blocks b prev ps) = ps.
Proof.
  intros Hprev Hps. revert prev Hprev.
  induction Hps as [|p ps Hp _ IH]; intros prev Hprev; [done|]. simpl.
  assert (Hx : length (zip_with bxor p prev) = 16%nat) by (rewrite length_zip_with; lia).
  rewrite blk_Decrypt_Encrypt, IH by (done || by apply blk_Encrypt_length).
  rewrite zip_bxor_cancel by lia. done.
Qed.

Lemma cbc_encrypt_blocks_length b `{!BlockOk b} prev ps :
  length prev = 16%nat -> Forall (fun p => length p = 16%nat) ps ->
  Forall (fun c => length c = 16%nat) (cbc_encrypt_blocks b prev ps) /\
  length (cbc_encrypt_blocks b prev ps) = length ps.
Proof.
  intros Hprev Hps. revert prev Hprev.
  induction Hps as [|p ps Hp _ IH]; intros prev Hprev; [done|]. simpl.
  assert (Hc : length (blk_Encrypt b (zip_with bxor p prev)) = 16%nat).
  { apply blk_Encrypt_length. rewrite length_zip_with; lia. }
  destruct (IH _ Hc) as [H1 H2]. split; [by constructor|by rewrite H2].
Qed.

Lemma chunks_of_join (ls : list bytes) :
  Forall (fun l => length l = 16%nat) ls -> chunks 16 (mjoin ls) = ls.
Proof.
  induction 1 as [|l ls Hl _ IH]; [done|]. simpl.
  rewrite chunks_app by (done || lia). by rewrite IH.
Qed.

(** Encrypting whole blocks succeeds, keeps the length, and is inverted by decryption. *)
Lemma CBC_roundtrip b `{!BlockOk b} iv p :
  len iv = 16 -> len p mod 16 = 0 ->
  exists c, CBCEncrypt b iv p = Ok c /\ len c = len p /\ CBCDecrypt b iv c = Ok p.
Proof.
  intros Hiv Hp.
  assert (Hc := chunks_aligned 16 p ltac:(lia) Hp).
  assert (Hiv' : length iv = 16%nat) by (unfold len in Hiv; lia).
  destruct (cbc_encrypt_blocks_length b iv _ Hiv' Hc) as [Hl Hn].
  exists (mjoin (cbc_encrypt_blocks b iv (chunks 16 p))).
  assert (Hlen : len (mjoin (cbc_encrypt_blocks b iv (chunks 16 p))) = len p).
  { unfold len. rewrite (join_length _ 16) by done. rewrite Hn.
    rewrite <- (join_length (chunks 16 p) 16), chunks_join by (done || lia). done. }
  unfold CBCEncrypt, CBCDecrypt. rewrite Hiv, Hlen, Hp. simpl.
  split; [done|]. split; [done|].
  rewrite chunks_of_join, cbc_roundtrip_blocks, chunks_join by (done || lia). done.
Qed.

Lemma CBCDecrypt_total b iv c :
  len iv = 16 -> len c mod 16 = 0 -> exists p, CBCDecrypt b iv c = Ok p.
Proof. intros H1 H2. unfold CBCDecrypt. rewrite H1, H2. simpl. eauto. Qed.
