(* ===== verification/Ghash.v ===== *)
(** * GHASH: the hash inside Galois/Counter Mode

    The multiplication [gf_mul] of [Cipher] makes the 16-byte blocks a field, and [ghash] is a
    polynomial over it evaluated at the hash key. The field laws follow from the bilinearity of
    the multiplication and computations over the 128 powers of the generator; that every block but
    zero has an inverse follows from two more: squaring 128 times is the identity, and squaring
    fixes only 0 and 1. Two different inputs then give a chosen difference of hashes for at most as many
    hash keys as the longer one has blocks. *)

From Stdlib Require Import Btauto.
From S2P Require Import Prelude Errors Binary Sha256 Aes Cipher.

(** ** Blocks *)

Definition blk (a : Z) : Prop := 0 <= a < 2 ^ 128.

(** Multiplication by the generator, and its powers; [gf_one] is the bit of the constant term. *)
Definition gf_shift (v : Z) : Z := Z.lxor (Z.shiftr v 1) (if Z.testbit v 0 then Z.shiftl 225 120 else 0).
Definition gf_one : Z := 2 ^ 127.
Definition gf_pow (j : nat) : Z := 2 ^ (127 - Z.of_nat j).

Lemma blk_0 : blk 0.
Proof. done. Qed.

Lemma blk_bits a : blk a -> forall i, 128 <= i -> Z.testbit a i = false.
Proof.
  intros [H0 H1] i Hi. destruct (Z.eq_dec a 0) as [->|]; [apply Z.bits_0|].
  apply Z.bits_above_log2; [done|]. apply Z.lt_le_trans with 128; [|done]. apply Z.log2_lt_pow2; lia.
Qed.

Lemma bits_blk a : 0 <= a -> (forall i, 128 <= i -> Z.testbit a i = false) -> blk a.
Proof.
  intros H0 H. split; [done|]. apply Z.nle_gt. intros Hle.
  assert (Hl : 128 <= Z.log2 a) by (apply Z.log2_le_pow2; lia).
  specialize (H _ Hl). rewrite Z.bit_log2 in H; [done|lia].
Qed.

Lemma blk_lxor a b : blk a -> blk b -> blk (Z.lxor a b).
Proof.
  intros Ha Hb. apply bits_blk.
  - apply Z.lxor_nonneg. destruct Ha, Hb. lia.
  - intros i Hi. by rewrite Z.lxor_spec, !blk_bits.
Qed.

Lemma blk_shift v : blk v -> blk (gf_shift v).
Proof.
  intros Hv. apply blk_lxor.
  - destruct Hv. rewrite Z.shiftr_div_pow2 by done. split; [by apply Z.div_pos|].
    apply Z.div_lt_upper_bound; lia.
  - destruct (Z.testbit v 0); [done|apply blk_0].
Qed.

Create HintDb blk.
#[export] Hint Resolve blk_0 blk_lxor blk_shift : blk.

(** ** Functions that respect exclusive or *)

Definition linear (f : Z -> Z) : Prop := forall a b, blk a -> blk b -> f (Z.lxor a b) = Z.lxor (f a) (f b).

Lemma linear_0 f : linear f -> f 0 = 0.
Proof.
  intros Hf. specialize (Hf 0 0 blk_0 blk_0). rewrite Z.lxor_0_r, Z.lxor_nilpotent in Hf. done.
Qed.

Lemma linear_iter n f : linear f -> (forall a, blk a -> blk (f a)) -> linear (Nat.iter n f).
Proof.
  intros Hf Hb. assert (Hn : forall k a, blk a -> blk (Nat.iter k f a)).
  { intros k a Ha. induction k as [|k IH]; [done|]. rewrite Nat.iter_succ. auto. }
  intros a b Ha Hb'. induction n as [|n IH]; [done|]. rewrite !Nat.iter_succ, IH. apply Hf; auto.
Qed.

Lemma split_bit n a :
  0 <= n -> 0 <= a < 2 ^ (n + 1) -> a = Z.lxor (a mod 2 ^ n) (if Z.testbit a n then 2 ^ n else 0).
Proof.
  intros Hn Ha. apply Z.bits_inj'. intros i Hi. rewrite Z.lxor_spec.
  destruct (Z.lt_trichotomy i n) as [Hl|[->|Hg]].
  - rewrite Z.mod_pow2_bits_low by done. destruct (Z.testbit a n).
    + rewrite Z.pow2_bits_false by lia. by rewrite xorb_false_r.
    + by rewrite Z.bits_0, xorb_false_r.
  - rewrite Z.mod_pow2_bits_high by lia. destruct (Z.testbit a n); [by rewrite Z.pow2_bits_true|by rewrite Z.bits_0].
  - rewrite Z.mod_pow2_bits_high by lia.
    assert (Z.testbit a i = false) as ->.
    { destruct (Z.eq_dec a 0) as [->|]; [apply Z.bits_0|]. apply Z.bits_above_log2; [lia|].
      apply Z.lt_le_trans with (n + 1); [apply Z.log2_lt_pow2; lia|lia]. }
    destruct (Z.testbit a n); [by rewrite Z.pow2_bits_false by lia|by rewrite Z.bits_0].
Qed.

(** Two linear functions that agree on the powers of the generator agree on all blocks. *)
Lemma linear_ext f g :
  linear f -> linear g -> (forall j, (j < 128)%nat -> f (gf_pow j) = g (gf_pow j)) -> forall a, blk a -> f a = g a.
Proof.
  intros Hf Hg Hb.
  assert (H : forall n, (n <= 128)%nat -> forall a, 0 <= a < 2 ^ Z.of_nat n -> f a = g a).
  { induction n as [|n IH]; intros Hn a Ha.
    - assert (a = 0) as -> by (cbn in Ha; lia). by rewrite !linear_0.
    - rewrite (split_bit (Z.of_nat n) a) by (rewrite ?Z.add_1_r, <- ?Nat2Z.inj_succ; lia).
      assert (Hm : 0 <= a mod 2 ^ Z.of_nat n < 2 ^ Z.of_nat n) by (apply Z.mod_pos_bound; lia).
      assert (Hp : 2 ^ Z.of_nat n <= 2 ^ 127) by (apply Z.pow_le_mono_r; lia).
      assert (Hm' : blk (a mod 2 ^ Z.of_nat n)) by (unfold blk; lia).
      assert (Hb' : blk (if Z.testbit a (Z.of_nat n) then 2 ^ Z.of_nat n else 0)) by (case_bool; unfold blk; lia).
      rewrite Hf, Hg, IH by (done || lia). f_equal. destruct (Z.testbit a (Z.of_nat n)); [|by rewrite !linear_0].
      specialize (Hb (127 - n)%nat ltac:(lia)). unfold gf_pow in Hb.
      by replace (127 - Z.of_nat (127 - n)) with (Z.of_nat n) in Hb by lia. }
  intros a Ha. apply (H 128%nat); [lia|exact Ha].
Qed.

(** A check over all powers. *)
Lemma forall_pow (P : nat -> bool) : forallb P (seq 0 128) = true -> forall j, (j < 128)%nat -> P j = true.
Proof. intros H j Hj. rewrite forallb_forall in H. apply H. apply in_seq. lia. Qed.

(** ** The multiplication *)

Lemma shift_lxor a b : gf_shift (Z.lxor a b) = Z.lxor (gf_shift a) (gf_shift b).
Proof.
  unfold gf_shift. rewrite Z.shiftr_lxor, Z.lxor_spec.
  destruct (Z.testbit a 0), (Z.testbit b 0); cbn [xorb]; apply Z.bits_inj'; intros i Hi; rewrite !Z.lxor_spec, ?Z.bits_0; btauto.
Qed.

Lemma mul_go_lxor_l i : forall x x' v z z',
  gf_mul_go i (Z.lxor x x') v (Z.lxor z z') = Z.lxor (gf_mul_go i x v z) (gf_mul_go i x' v z').
Proof.
  induction i as [|i IH]; intros x x' v z z'; [done|]. cbn [gf_mul_go]. rewrite <- IH. f_equal. rewrite Z.lxor_spec.
  destruct (Z.testbit x (Z.of_nat i)), (Z.testbit x' (Z.of_nat i)); cbn [xorb];
    apply Z.bits_inj'; intros k Hk; rewrite !Z.lxor_spec; btauto.
Qed.

Lemma mul_go_lxor_r i : forall x v v' z z',
  gf_mul_go i x (Z.lxor v v') (Z.lxor z z') = Z.lxor (gf_mul_go i x v z) (gf_mul_go i x v' z').
Proof.
  induction i as [|i IH]; intros x v v' z z'; [done|]. cbn [gf_mul_go]. fold (gf_shift (Z.lxor v v')) (gf_shift v) (gf_shift v').
  rewrite shift_lxor, <- IH. f_equal. destruct (Z.testbit x (Z.of_nat i)); [|done].
  apply Z.bits_inj'; intros k Hk; rewrite !Z.lxor_spec; btauto.
Qed.

Lemma mul_go_shift i : forall x v z, gf_mul_go i x (gf_shift v) (gf_shift z) = gf_shift (gf_mul_go i x v z).
Proof.
  induction i as [|i IH]; intros x v z; [done|]. cbn [gf_mul_go]. fold (gf_shift v) (gf_shift (gf_shift v)).
  rewrite <- IH. f_equal. destruct (Z.testbit x (Z.of_nat i)); [|done]. by rewrite shift_lxor.
Qed.

Lemma mul_go_bit i k : forall v z,
  (k < i)%nat -> gf_mul_go i (2 ^ Z.of_nat k) v z = Z.lxor z (Nat.iter (i - 1 - k) gf_shift v).
Proof.
  assert (H0 : forall n m v z, (n <= m)%nat -> gf_mul_go n (2 ^ Z.of_nat m) v z = z).
  { induction n as [|n IH]; intros m v z Hm; [done|]. cbn [gf_mul_go]. rewrite Z.pow2_bits_false by lia. apply IH. lia. }
  induction i as [|i IH]; intros v z Hk; [lia|]. cbn [gf_mul_go]. fold (gf_shift v).
  destruct (decide (k = i)) as [->|Hne].
  - rewrite Z.pow2_bits_true, H0 by lia. by replace (S i - 1 - i)%nat with 0%nat by lia.
  - rewrite Z.pow2_bits_false by lia. rewrite IH by lia. f_equal.
    replace (S i - 1 - k)%nat with (S (i - 1 - k)) by lia. by rewrite Nat.iter_succ_r.
Qed.

Lemma mul_lxor_l a b y : gf_mul (Z.lxor a b) y = Z.lxor (gf_mul a y) (gf_mul b y).
Proof. exact (mul_go_lxor_l 128 a b y 0 0). Qed.

Lemma mul_lxor_r x a b : gf_mul x (Z.lxor a b) = Z.lxor (gf_mul x a) (gf_mul x b).
Proof. exact (mul_go_lxor_r 128 x a b 0 0). Qed.

Lemma mul_linear_l y : linear (fun x => gf_mul x y).
Proof. intros a b _ _. apply mul_lxor_l. Qed.

Lemma mul_linear_r x : linear (gf_mul x).
Proof. intros a b _ _. apply mul_lxor_r. Qed.

Lemma mul_shift_r x y : gf_mul x (gf_shift y) = gf_shift (gf_mul x y).
Proof. exact (mul_go_shift 128 x y 0). Qed.

Lemma mul_pow_l j y : (j < 128)%nat -> gf_mul (gf_pow j) y = Nat.iter j gf_shift y.
Proof.
  intros Hj. unfold gf_mul, gf_pow. replace (127 - Z.of_nat j) with (Z.of_nat (127 - j)) by lia.
  rewrite mul_go_bit, Z.lxor_0_l by lia. f_equal. lia.
Qed.

Lemma pow_shift_check : forallb (fun j => Nat.iter j gf_shift gf_one =? gf_pow j) (seq 0 128) = true.
Proof. vm_compute. reflexivity. Qed.

Lemma pow_shift j : (j < 128)%nat -> Nat.iter j gf_shift gf_one = gf_pow j.
Proof. intros Hj. pose proof (forall_pow _ pow_shift_check j Hj) as H. cbv beta in H. by apply Z.eqb_eq. Qed.

Lemma blk_mul x y : blk y -> blk (gf_mul x y).
Proof.
  unfold gf_mul. assert (H : forall i v z, blk v -> blk z -> blk (gf_mul_go i x v z)).
  { induction i as [|i IH]; intros v z Hv Hz; [done|]. cbn [gf_mul_go]. fold (gf_shift v).
    apply IH; [auto with blk|]. case_bool; auto with blk. }
  intros Hy. auto with blk.
Qed.
#[export] Hint Resolve blk_mul : blk.

#[local] Opaque gf_mul.

Lemma mul_iter_r n x y : gf_mul x (Nat.iter n gf_shift y) = Nat.iter n gf_shift (gf_mul x y).
Proof. induction n as [|n IH]; [done|]. by rewrite !Nat.iter_succ, mul_shift_r, IH. Qed.

(** ** The field laws *)

Lemma mul_1_r x : blk x -> gf_mul x gf_one = x.
Proof.
  revert x. apply (linear_ext (fun x => gf_mul x gf_one) (fun x => x)); [apply mul_linear_l|done|].
  intros j Hj. by rewrite mul_pow_l, pow_shift.
Qed.

Lemma mul_comm x y : blk x -> blk y -> gf_mul x y = gf_mul y x.
Proof.
  intros Hx Hy. revert x Hx. apply (linear_ext (fun x => gf_mul x y) (gf_mul y)); [apply mul_linear_l|apply mul_linear_r|].
  intros j Hj. rewrite mul_pow_l by done. by rewrite <- (pow_shift j), mul_iter_r, mul_1_r.
Qed.

Lemma mul_shift_l x y : blk x -> blk y -> gf_mul (gf_shift x) y = gf_shift (gf_mul x y).
Proof. intros Hx Hy. by rewrite mul_comm, mul_shift_r, mul_comm by auto with blk. Qed.

Lemma mul_assoc x y z : blk x -> blk y -> blk z -> gf_mul (gf_mul x y) z = gf_mul x (gf_mul y z).
Proof.
  intros Hx Hy Hz. revert x Hx.
  apply (linear_ext (fun x => gf_mul (gf_mul x y) z) (fun x => gf_mul x (gf_mul y z))).
  - intros a b _ _. by rewrite !mul_lxor_l.
  - apply mul_linear_l.
  - intros j Hj. rewrite !mul_pow_l by done. clear Hj.
    assert (Hb : forall n, blk (Nat.iter n gf_shift y)) by (induction n; rewrite ?Nat.iter_succ; auto with blk).
    induction j as [|j IH]; [done|]. rewrite !Nat.iter_succ. by rewrite mul_shift_l, IH by done.
Qed.

Lemma mul_0_r x : gf_mul x 0 = 0.
Proof. apply (linear_0 (gf_mul x)), mul_linear_r. Qed.

Lemma mul_0_l y : gf_mul 0 y = 0.
Proof. apply (linear_0 (fun x => gf_mul x y)), mul_linear_l. Qed.

(** ** Every block but zero has an inverse *)

Definition gf_sq (a : Z) : Z := gf_mul a a.

Lemma blk_sq a : blk a -> blk (gf_sq a).
Proof. unfold gf_sq. auto with blk. Qed.
#[export] Hint Resolve blk_sq : blk.

Lemma sq_lxor a b : blk a -> blk b -> gf_sq (Z.lxor a b) = Z.lxor (gf_sq a) (gf_sq b).
Proof.
  intros Ha Hb. unfold gf_sq. rewrite mul_lxor_l, !mul_lxor_r, (mul_comm b a) by done.
  apply Z.bits_inj'. intros i Hi. rewrite !Z.lxor_spec. btauto.
Qed.

Lemma sq_mul a b : blk a -> blk b -> gf_sq (gf_mul a b) = gf_mul (gf_sq a) (gf_sq b).
Proof.
  intros Ha Hb. unfold gf_sq. rewrite !mul_assoc by auto with blk. f_equal.
  rewrite <- (mul_assoc b a b), (mul_comm b a), mul_assoc by auto with blk. done.
Qed.

Lemma frobenius_check : Nat.iter 128 gf_sq (gf_pow 1) = gf_pow 1.
Proof. vm_compute. reflexivity. Qed.

Lemma blk_iter_sq n a : blk a -> blk (Nat.iter n gf_sq a).
Proof. intros Ha. induction n as [|n IH]; [done|]. rewrite Nat.iter_succ. auto with blk. Qed.

Lemma iter_sq_mul n a b : blk a -> blk b -> Nat.iter n gf_sq (gf_mul a b) = gf_mul (Nat.iter n gf_sq a) (Nat.iter n gf_sq b).
Proof.
  intros Ha Hb. induction n as [|n IH]; [done|]. rewrite !Nat.iter_succ, IH. by apply sq_mul; apply blk_iter_sq.
Qed.

Lemma iter_sq_linear n : linear (Nat.iter n gf_sq).
Proof. apply linear_iter; [intros a b; apply sq_lxor|apply blk_sq]. Qed.

Lemma blk_pow j : (j < 128)%nat -> blk (gf_pow j).
Proof.
  intros Hj. unfold gf_pow, blk. assert (0 < 2 ^ (127 - Z.of_nat j)) by (apply Z.pow_pos_nonneg; lia).
  assert (2 ^ (127 - Z.of_nat j) <= 2 ^ 127) by (apply Z.pow_le_mono_r; lia). lia.
Qed.

Lemma pow_succ j : (S j < 128)%nat -> gf_pow (S j) = gf_mul (gf_pow 1) (gf_pow j).
Proof. intros Hj. by rewrite mul_pow_l, <- !pow_shift by lia. Qed.

(** Squaring 128 times is the identity: so it is on the generator, and squaring respects sums and
    products. *)
Lemma frobenius a : blk a -> Nat.iter 128 gf_sq a = a.
Proof.
  revert a. apply (linear_ext (Nat.iter 128 gf_sq) (fun a => a)); [apply iter_sq_linear|done|].
  induction j as [|j IH]; intros Hj.
  - assert (H1 : gf_sq (gf_pow 0) = gf_pow 0) by (vm_compute; reflexivity).
    generalize 128%nat. induction n as [|n IH]; [done|]. by rewrite Nat.iter_succ, IH.
  - rewrite pow_succ, iter_sq_mul, IH, frobenius_check by (lia || apply blk_pow; lia). done.
Qed.

(** The blocks that squaring fixes: elimination on the images of the powers under [a + a^2] gives a
    linear left inverse up to the constant term. *)
Definition sq_diff (a : Z) : Z := Z.lxor (gf_sq a) a.

(** Rows: a pivot bit, an image that has it, and where the image comes from. *)
Definition row : Type := Z * Z * Z.

Definition reduce (rows : list row) (img src : Z) : Z * Z :=
  fold_left (fun '(i, s) '(p, i', s') => if Z.testbit i p then (Z.lxor i i', Z.lxor s s') else (i, s)) rows (img, src).

Definition insert_row (rows : list row) (img src : Z) : list row :=
  let '(i, s) := reduce rows img src in
  if i =? 0 then rows
  else
    let p := Z.log2 i in
    (p, i, s) :: map (fun '(p', i', s') => if Z.testbit i' p then (p', Z.lxor i' i, Z.lxor s' s) else (p', i', s')) rows.

Definition sq_rows : list row :=
  fold_left (fun rows j => insert_row rows (sq_diff (gf_pow j)) (gf_pow j)) (seq 1 127) [].

(** Each pivot bit stands for its source. *)
Fixpoint from_pivots (rows : list row) (b : Z) : Z :=
  match rows with
  | [] => 0
  | (p, _, s) :: rows' => Z.lxor (if Z.testbit b p then s else 0) (from_pivots rows' b)
  end.

Lemma sq_rows_check :
  (let rows := sq_rows in
   forallb (fun j => from_pivots rows (sq_diff (gf_pow j)) =? (if (j =? 0)%nat then 0 else gf_pow j)) (seq 0 128)) = true.
Proof. vm_compute. reflexivity. Qed.

Lemma from_pivots_lxor rows a b :
  from_pivots rows (Z.lxor a b) = Z.lxor (from_pivots rows a) (from_pivots rows b).
Proof.
  induction rows as [|[[p i] s] rows IH]; [done|]. cbn [from_pivots].
  rewrite IH, Z.lxor_spec. destruct (Z.testbit a p), (Z.testbit b p); cbn [xorb];
    apply Z.bits_inj'; intros k Hk; rewrite !Z.lxor_spec, ?Z.bits_0; btauto.
Qed.

Lemma from_pivots_0 rows : from_pivots rows 0 = 0.
Proof. induction rows as [|[[p i] s] rows IH]; [done|]. cbn [from_pivots]. by rewrite IH, Z.bits_0. Qed.

#[local] Opaque sq_rows.

Lemma blk_mod_lxor a b : Z.lxor a b mod 2 ^ 127 = Z.lxor (a mod 2 ^ 127) (b mod 2 ^ 127).
Proof.
  apply Z.bits_inj'. intros i Hi. rewrite Z.lxor_spec. destruct (Z.lt_decidable i 127).
  - by rewrite !Z.mod_pow2_bits_low, Z.lxor_spec.
  - by rewrite !Z.mod_pow2_bits_high by lia.
Qed.

Lemma fixed_points e : blk e -> gf_sq e = e -> e = 0 \/ e = gf_one.
Proof.
  intros He Hf. assert (Hm : e mod 2 ^ 127 = 0).
  { rewrite <- (linear_ext (fun a => from_pivots sq_rows (sq_diff a)) (fun a => a mod 2 ^ 127)); [..|done].
    - unfold sq_diff. rewrite Hf, Z.lxor_nilpotent. apply from_pivots_0.
    - intros a b Ha Hb. rewrite <- from_pivots_lxor. apply (f_equal (from_pivots sq_rows)). unfold sq_diff. rewrite sq_lxor by done.
      apply Z.bits_inj'. intros i Hi. rewrite !Z.lxor_spec. btauto.
    - intros a b _ _. apply blk_mod_lxor.
    - intros j Hj. pose proof (forall_pow _ sq_rows_check j Hj) as H. cbv beta zeta in H. apply Z.eqb_eq in H. rewrite H. clear H.
      destruct j as [|j]; [reflexivity|]. unfold gf_pow. cbn [Nat.eqb]. rewrite Z.mod_small; [reflexivity|].
      split; [apply Z.pow_nonneg; lia|apply Z.pow_lt_mono_r; lia]. }
  unfold blk, gf_one in *. change (2 ^ 128) with (2 * 2 ^ 127) in He.
  pose proof (Z.div_mod e (2 ^ 127) ltac:(lia)) as Hd. rewrite Hm, Z.add_0_r in Hd.
  assert (e / 2 ^ 127 < 2) by (apply Z.div_lt_upper_bound; lia).
  assert (0 <= e / 2 ^ 127) by (apply Z.div_pos; lia).
  assert (e / 2 ^ 127 = 0 \/ e / 2 ^ 127 = 1) as [Hq|Hq] by lia; rewrite Hq in Hd; lia.
Qed.

(** [a ^ (2 ^ n - 1)] *)
Fixpoint norm (n : nat) (a : Z) : Z :=
  match n with O => gf_one | S n' => gf_mul a (norm n' (gf_sq a)) end.

Lemma blk_norm n a : blk a -> blk (norm n a).
Proof. revert a; induction n as [|n IH]; intros a Ha; [done|]. cbn [norm]. auto with blk. Qed.
#[export] Hint Resolve blk_norm : blk.

Lemma mul_1_l x : blk x -> gf_mul gf_one x = x.
Proof. intros Hx. by rewrite mul_comm, mul_1_r. Qed.

Lemma norm_mul n a : blk a -> gf_mul (norm n a) a = Nat.iter n gf_sq a.
Proof.
  revert a; induction n as [|n IH]; intros a Ha; [by apply mul_1_l|]. cbn [norm].
  rewrite (mul_comm a), mul_assoc, Nat.iter_succ_r by auto with blk. apply IH. auto with blk.
Qed.

(** The inverse of [a]. *)
Definition gf_inv (a : Z) : Z := norm 127 (gf_sq a).

Lemma norm_128 a : norm 128 a = gf_mul a (gf_inv a).
Proof. reflexivity. Qed.

Lemma blk_inv a : blk a -> blk (gf_inv a).
Proof. intros Ha. apply (blk_norm 127), blk_sq, Ha. Qed.
#[export] Hint Resolve blk_inv : blk.

#[local] Opaque norm gf_inv.

Lemma mul_inv a : blk a -> a <> 0 -> gf_mul a (gf_inv a) = gf_one.
Proof.
  intros Ha Hne. assert (Hea : gf_mul (gf_mul a (gf_inv a)) a = a).
  { rewrite <- norm_128, norm_mul by done. by apply frobenius. }
  destruct (fixed_points (gf_mul a (gf_inv a))) as [He|He]; [auto with blk| |exfalso|done].
  - unfold gf_sq. rewrite <- mul_assoc by auto with blk. by rewrite Hea.
  - rewrite He, mul_0_l in Hea. apply Hne. symmetry. exact Hea.
Qed.

Lemma mul_eq_0 a b : blk a -> blk b -> gf_mul a b = 0 -> a = 0 \/ b = 0.
Proof.
  intros Ha Hb H. destruct (decide (a = 0)) as [|Hne]; [by left|right].
  rewrite <- (mul_1_l b), <- (mul_inv a), (mul_comm a), mul_assoc, H by auto with blk. apply mul_0_r.
Qed.

(** ** Polynomials *)

(** A polynomial by its coefficients, the constant one first, and its value. *)
Fixpoint eval (h : Z) (cs : list Z) : Z :=
  match cs with [] => 0 | c :: cs' => Z.lxor c (gf_mul h (eval h cs')) end.

(** The quotient by [x + r]. *)
Fixpoint quotient (r : Z) (cs : list Z) : list Z :=
  match cs with
  | _ :: (_ :: _) as cs' => eval r cs' :: quotient r cs'
  | _ => []
  end.

(** The sum, as if both were continued with zeros. *)
Fixpoint padd (p q : list Z) : list Z :=
  match p, q with
  | a :: p', b :: q' => Z.lxor a b :: padd p' q'
  | [], _ => q
  | _, [] => p
  end.

Lemma blk_eval h cs : blk h -> Forall blk cs -> blk (eval h cs).
Proof. intros Hh. induction 1; cbn [eval]; auto with blk. Qed.
#[export] Hint Resolve blk_eval : blk.

Lemma length_quotient r c cs : length (quotient r (c :: cs)) = length cs.
Proof. revert c; induction cs as [|c' cs IH]; intros c; [done|]. cbn [quotient length]. by rewrite <- (IH c'). Qed.

Lemma quotient_step r c c' cs : quotient r (c :: c' :: cs) = eval r (c' :: cs) :: quotient r (c' :: cs).
Proof. reflexivity. Qed.

Lemma blk_quotient r cs : blk r -> Forall blk cs -> Forall blk (quotient r cs).
Proof.
  intros Hr. induction 1 as [|c cs Hc Hcs IH]; [by constructor|]. destruct cs as [|c' cs]; [by constructor|].
  constructor; [auto with blk|exact IH].
Qed.

(** Division with remainder. *)
Lemma quotient_spec h r cs :
  blk h -> blk r -> Forall blk cs ->
  eval h cs = Z.lxor (gf_mul (Z.lxor h r) (eval h (quotient r cs))) (eval r cs).
Proof.
  intros Hh Hr. induction 1 as [|c cs Hc Hcs IH]; [by rewrite mul_0_r|].
  destruct cs as [|c' cs]; [by cbn [eval quotient]; rewrite !mul_0_r, Z.lxor_0_l|].
  rewrite quotient_step. remember (c' :: cs) as q eqn:Hq. cbn [eval]. rewrite IH.
  pose proof (blk_quotient r q Hr Hcs) as Hb. assert (HQ : blk (eval h (quotient r q))) by auto with blk.
  assert (HE : blk (eval r q)) by auto with blk. revert HQ HE.
  generalize (eval h (quotient r q)) (eval r q). intros Q E HQ HE.
  assert (Hx : gf_mul h (gf_mul r Q) = gf_mul r (gf_mul h Q)).
  { rewrite <- (mul_assoc h r Q Hh Hr HQ), <- (mul_assoc r h Q Hr Hh HQ). by rewrite (mul_comm h r Hh Hr). }
  rewrite (mul_lxor_l h r Q), (mul_lxor_r h _ E), (mul_lxor_r h (gf_mul h Q)), Hx.
  rewrite (mul_lxor_l h r (Z.lxor E _)), (mul_lxor_r h E), (mul_lxor_r r E).
  apply Z.bits_inj'. intros i Hi. rewrite !Z.lxor_spec. btauto.
Qed.

(** A polynomial whose quotient and remainder are zero is zero. *)
Lemma quotient_zero r cs : eval r cs = 0 -> Forall (eq 0) (quotient r cs) -> Forall (eq 0) cs.
Proof.
  induction cs as [|c cs IH]; intros He Hq; [done|]. destruct cs as [|c' cs].
  - cbn [eval] in He. rewrite mul_0_r, Z.lxor_0_r in He. by constructor.
  - rewrite quotient_step in Hq. apply Forall_cons in Hq as [H0 Hq]. specialize (IH (eq_sym H0) Hq).
    constructor; [|done]. remember (c' :: cs) as q. cbn [eval] in He. by rewrite <- H0, mul_0_r, Z.lxor_0_r in He.
Qed.

(** A polynomial that is not zero has fewer roots than coefficients. *)
Lemma few_roots cs hs :
  Forall blk cs -> ~ Forall (eq 0) cs -> NoDup hs -> Forall (fun h => blk h /\ eval h cs = 0) hs ->
  (length hs < length cs)%nat.
Proof.
  remember (length cs) as n eqn:Hn. revert cs Hn hs. induction n as [|n IH]; intros cs Hn hs Hc Hne Hd Hr.
  { destruct cs; [|done]. by destruct Hne. }
  destruct hs as [|r hs]; [cbn; lia|]. apply NoDup_cons in Hd as [Hnin Hd]. apply Forall_cons in Hr as [[Hr He] Hrs].
  destruct cs as [|c cs]; [done|]. cbn [length] in Hn |- *. apply -> Nat.succ_lt_mono.
  apply (IH (quotient r (c :: cs))); [rewrite length_quotient; lia|by apply blk_quotient| |done|].
  - intros Hq. by apply Hne, (quotient_zero r).
  - rewrite Forall_forall in Hrs |- *. intros h Hh. destruct (Hrs h Hh) as [Hb Hz]. split; [done|].
    rewrite (quotient_spec h r), He, Z.lxor_0_r in Hz by done.
    apply mul_eq_0 in Hz as [Hz|]; [|done|auto with blk|apply blk_eval; [done|by apply blk_quotient]].
    apply Z.lxor_eq in Hz. congruence.
Qed.

(** ** The hash of a text and its additional data *)

(** What [gcm_tag] hashes, and its number of blocks. *)
Definition tag_input (aad ct : bytes) : bytes :=
  zero_pad aad ++ zero_pad ct ++ PutUint64 (8 * len aad) ++ PutUint64 (8 * len ct).
Definition blocks (aad ct : bytes) : Z := (len aad + 15) / 16 + (len ct + 15) / 16 + 1.

Definition tag_blocks (aad ct : bytes) : list Z := map be_get (chunks 16 (tag_input aad ct)).

Lemma chunks_app_aligned {A} k (a b : list A) :
  (0 < k)%nat -> len a mod Z.of_nat k = 0 -> chunks k (a ++ b) = chunks k a ++ chunks k b.
Proof.
  intros Hk Ha. rewrite <- (chunks_join k a) at 1 by done. pose proof (chunks_aligned k a Hk Ha) as Hall.
  induction Hall as [|c cs Hc _ IH]; [done|]. change (mjoin (c :: cs)) with (c ++ mjoin cs).
  rewrite <- app_assoc, chunks_app by done. by rewrite IH.
Qed.

Lemma len_zero_pad l : len (zero_pad l) = 16 * ((len l + 15) / 16).
Proof.
  unfold zero_pad. rewrite len_app, len_replicate, Z2Nat.id by (apply Z.mod_pos_bound; lia).
  pose proof (len_nonneg l). Z.to_euclidean_division_equations. lia.
Qed.

Lemma zero_pad_aligned l : len (zero_pad l) mod 16 = 0.
Proof. rewrite len_zero_pad, Z.mul_comm. by apply Z.mod_mul. Qed.

Lemma zero_pad_inj a b : len a = len b -> zero_pad a = zero_pad b -> a = b.
Proof.
  unfold zero_pad. intros Hl He. apply app_inj_1 in He as [He _]; [done|]. unfold len in Hl. lia.
Qed.

Lemma tag_blocks_eq aad ct :
  tag_blocks aad ct = map be_get (chunks 16 (zero_pad aad ++ zero_pad ct)) ++
                      [be_get (PutUint64 (8 * len aad) ++ PutUint64 (8 * len ct))].
Proof.
  unfold tag_blocks, tag_input. rewrite app_assoc, chunks_app_aligned, map_app; [done|lia|].
  rewrite len_app, Z.add_mod, !zero_pad_aligned by done. done.
Qed.

Lemma length_chunks16 (l : bytes) : len l mod 16 = 0 -> len (chunks 16 l) * 16 = len l.
Proof.
  intros Hl. rewrite <- (chunks_join 16 l) at 2 by lia. unfold len.
  rewrite (join_length _ 16) by (by apply chunks_aligned; [lia|]). lia.
Qed.

Lemma len_tag_blocks aad ct : len (tag_blocks aad ct) = blocks aad ct.
Proof.
  rewrite tag_blocks_eq, len_app. unfold blocks. change (len [_]) with 1. f_equal.
  assert (H : len (zero_pad aad ++ zero_pad ct) mod 16 = 0) by (rewrite len_app, Z.add_mod, !zero_pad_aligned by done; done).
  apply length_chunks16 in H. rewrite len_app, !len_zero_pad in H. unfold len in *. rewrite length_map. lia.
Qed.

Lemma be_get_inj a b : length a = length b -> be_get a = be_get b -> a = b.
Proof. intros Hl He. by rewrite <- (be_put_get a), <- (be_put_get b), Hl, He. Qed.

Lemma blk_be_get l : (length l <= 16)%nat -> blk (be_get l).
Proof.
  intros Hl. pose proof (be_get_range l). unfold blk. assert (2 ^ (8 * len l) <= 2 ^ 128); [|lia].
  apply Z.pow_le_mono_r; [lia|]. unfold len. lia.
Qed.

Lemma blk_tag_blocks aad ct : Forall blk (tag_blocks aad ct).
Proof.
  unfold tag_blocks. apply Forall_map. eapply Forall_impl; [apply chunks_length; lia|].
  intros c [_ Hc]. by apply blk_be_get.
Qed.

(** Different inputs have different blocks, even when zero blocks are put in front of the shorter. *)
Lemma padd_zero p q : length p = length q -> Forall (eq 0) (padd p q) -> p = q.
Proof.
  revert q; induction p as [|a p IH]; intros [|b q]; try done. intros [= Hl] [H0 Hz]%Forall_cons.
  apply eq_sym, Z.lxor_eq in H0 as ->. by rewrite (IH q).
Qed.

Lemma map_be_get_inj (a b : list bytes) :
  Forall (fun c => length c = 16%nat) a -> Forall (fun c => length c = 16%nat) b ->
  map be_get a = map be_get b -> a = b.
Proof.
  intros Ha. revert b; induction Ha as [|c a Hc _ IH]; intros [|d b] Hb; try done.
  apply Forall_cons in Hb as [Hd Hb]. intros [= He Hm]. rewrite (IH b Hb Hm). f_equal. apply be_get_inj; congruence.
Qed.

Lemma PutUint64_len_inj (a b : bytes) :
  len a < 2 ^ 61 -> len b < 2 ^ 61 -> PutUint64 (8 * len a) = PutUint64 (8 * len b) -> len a = len b.
Proof.
  intros Ha Hb H%be_put_inj. pose proof (len_nonneg a). pose proof (len_nonneg b).
  change (2 ^ (8 * Z.of_nat 8)) with (2 ^ 64) in H. rewrite !Z.mod_small in H by lia. lia.
Qed.

Lemma padd_tag_blocks aad ct aad' ct' :
  len aad < 2 ^ 61 -> len ct < 2 ^ 61 -> len aad' < 2 ^ 61 -> len ct' < 2 ^ 61 ->
  Forall (eq 0) (padd (rev (tag_blocks aad ct)) (rev (tag_blocks aad' ct'))) -> aad = aad' /\ ct = ct'.
Proof.
  intros H1 H2 H3 H4. rewrite !tag_blocks_eq, !rev_app_distr. cbn [rev app padd].
  intros [Hl Hz]%Forall_cons. apply eq_sym, Z.lxor_eq, be_get_inj in Hl; [|by rewrite !length_app, !length_PutUint64].
  apply app_inj_1 in Hl as [Hla Hlc]; [|by rewrite !length_PutUint64].
  apply PutUint64_len_inj in Hla, Hlc; [|done..].
  set (z := zero_pad aad ++ zero_pad ct) in *. set (z' := zero_pad aad' ++ zero_pad ct') in *.
  assert (Hz1 : len z mod 16 = 0) by (unfold z; rewrite len_app, Z.add_mod, !zero_pad_aligned by done; done).
  assert (Hlen : len z' = len z) by (unfold z, z'; by rewrite !len_app, !len_zero_pad, Hla, Hlc).
  assert (Hz2 : len z' mod 16 = 0) by (by rewrite Hlen).
  apply padd_zero in Hz.
  - apply (f_equal (@rev Z)) in Hz. rewrite !rev_involutive in Hz.
    apply map_be_get_inj in Hz; [|by apply chunks_aligned; [lia|]..].
    apply (f_equal mjoin) in Hz. rewrite !chunks_join in Hz by lia. unfold z, z' in Hz.
    assert (Hp : length (zero_pad aad) = length (zero_pad aad')).
    { pose proof (len_zero_pad aad). pose proof (len_zero_pad aad'). rewrite Hla in *. unfold len in *. lia. }
    apply app_inj_1 in Hz as [Ha Hc]; [|done]. split; by apply zero_pad_inj.
  - rewrite !length_rev, !length_map. apply length_chunks16 in Hz1, Hz2. unfold len in *. lia.
Qed.

(** [ghash] is the polynomial with the blocks as coefficients. *)
Lemma ghash_eval h l : blk h -> Forall blk (map be_get (chunks 16 l)) -> ghash h l = eval h (0 :: rev (map be_get (chunks 16 l))).
Proof.
  intros Hh. unfold ghash. generalize (chunks 16 l). intros cs.
  induction cs as [|c cs IH] using rev_ind; intros Hb; [cbn [rev map eval fold_left]; by rewrite mul_0_r|].
  rewrite map_app in Hb |- *. apply Forall_app in Hb as [Hb Hc]. rewrite fold_left_app, rev_app_distr. cbn [fold_left map rev app].
  rewrite (IH Hb). cbn [eval]. rewrite !Z.lxor_0_l. apply Forall_cons in Hc as [Hc _].
  assert (He : blk (eval h (rev (map be_get cs)))) by (apply blk_eval; [done|by apply Forall_rev]).
  rewrite mul_comm by auto with blk. by rewrite Z.lxor_comm.
Qed.

Lemma eval_padd h p q : eval h (padd p q) = Z.lxor (eval h p) (eval h q).
Proof.
  revert q; induction p as [|a p IH]; intros [|b q]; cbn [padd eval]; rewrite ?Z.lxor_0_l, ?Z.lxor_0_r; try done.
  rewrite IH, mul_lxor_r. apply Z.bits_inj'. intros i Hi. rewrite !Z.lxor_spec. btauto.
Qed.

Lemma blk_padd p q : Forall blk p -> Forall blk q -> Forall blk (padd p q).
Proof.
  intros Hp. revert q; induction Hp as [|a p Ha Hp IH]; intros [|b q] Hq; cbn [padd]; [done..|by constructor|].
  apply Forall_cons in Hq as [Hb Hq]. constructor; auto with blk.
Qed.

Lemma length_padd p q : length (padd p q) = Nat.max (length p) (length q).
Proof. revert q; induction p as [|a p IH]; intros [|b q]; cbn [padd length]; rewrite ?IH; lia. Qed.

Lemma fold_left_ind {A B} (P : A -> Prop) (f : A -> B -> A) l a :
  (forall a b, P a -> P (f a b)) -> P a -> P (fold_left f l a).
Proof. intros Hf. revert a; induction l as [|b l IH]; intros a Ha; [exact Ha|]. cbn [fold_left]. apply IH, Hf, Ha. Qed.

Lemma blk_ghash h l : blk h -> blk (ghash h l).
Proof.
  intros Hh. apply (fold_left_ind blk); [|exact blk_0]. intros a b _. apply blk_mul, Hh.
Qed.

(** Which hash keys give two inputs hashes that differ by [d]. *)
Definition hash_gap (aad ct aad' ct' : bytes) (d h : Z) : Prop :=
  Z.lxor (ghash h (tag_input aad ct)) (ghash h (tag_input aad' ct')) = d.

#[export] Instance hash_gap_dec aad ct aad' ct' d h : Decision (hash_gap aad ct aad' ct' d h).
Proof. unfold hash_gap. apply _. Defined.

(** GHASH is almost universal. Of the [2^128] hash keys, two different inputs hash to values with a
    given difference under at most as many as the longer input has blocks. *)
Lemma ghash_universal aad ct aad' ct' d hs :
  (aad, ct) <> (aad', ct') ->
  len aad < 2 ^ 61 -> len ct < 2 ^ 61 -> len aad' < 2 ^ 61 -> len ct' < 2 ^ 61 ->
  NoDup hs -> Forall (fun h => blk h /\ hash_gap aad ct aad' ct' d h) hs ->
  len hs <= Z.max (blocks aad ct) (blocks aad' ct').
Proof.
  intros Hne H1 H2 H3 H4 Hd Hhs. destruct (decide (hs = [])) as [->|Hnil].
  { pose proof (len_nonneg aad). pose proof (len_nonneg ct). change (len []) with 0. unfold blocks. Z.to_euclidean_division_equations; lia. }
  assert (Hbd : blk d).
  { destruct hs as [|h0 hs']; [done|]. apply Forall_cons in Hhs as [[Hb <-] _]. auto using blk_lxor, blk_ghash. }
  set (cs := d :: padd (rev (tag_blocks aad ct)) (rev (tag_blocks aad' ct'))).
  assert (Hb : forall a c, Forall blk (rev (tag_blocks a c))) by (intros; apply Forall_rev, blk_tag_blocks).
  assert (Hr : (length hs < length cs)%nat).
  { apply few_roots; [constructor; [done|by apply blk_padd]| |done|].
    - intros [_ Hz]%Forall_cons. apply padd_tag_blocks in Hz as [-> ->]; done.
    - eapply Forall_impl; [exact Hhs|]. intros h [Hh Hg]. split; [done|]. unfold hash_gap in Hg.
      rewrite !(ghash_eval h _ Hh (blk_tag_blocks _ _)) in Hg. unfold cs. cbn [eval] in *.
      rewrite !Z.lxor_0_l in Hg. fold (tag_blocks aad ct) (tag_blocks aad' ct') in Hg.
      by rewrite eval_padd, mul_lxor_r, Hg, Z.lxor_nilpotent. }
  unfold cs in Hr. cbn [length] in Hr. rewrite length_padd, !length_rev in Hr.
  pose proof (len_tag_blocks aad ct). pose proof (len_tag_blocks aad' ct'). unfold len in *. lia.
Qed.

(** ** GCM *)

Definition hash_key (b : Block) : Z := be_get (blk_Encrypt b (replicate 16 x00)).

Lemma lor_shiftl_lxor a b : Z.lor (Z.shiftl a 8) (bval b) = Z.lxor (Z.shiftl a 8) (bval b).
Proof.
  apply Z.bits_inj'. intros i Hi. rewrite Z.lor_spec, Z.lxor_spec, Z.shiftl_spec by done.
  destruct (Z.lt_decidable i 8).
  - rewrite (Z.testbit_neg_r a) by lia. by destruct (Z.testbit (bval b) i).
  - assert (Z.testbit (bval b) i = false) as ->; [|by destruct (Z.testbit a (i - 8))].
    pose proof (bval_range b). destruct (Z.eq_dec (bval b) 0) as [->|]; [apply Z.bits_0|].
    apply Z.bits_above_log2; [lia|]. apply Z.lt_le_trans with 8; [apply Z.log2_lt_pow2; lia|lia].
Qed.

Lemma be_get_zip_bxor a b : length a = length b -> be_get (zip_with bxor a b) = Z.lxor (be_get a) (be_get b).
Proof.
  revert b. induction a as [|x a IH] using rev_ind; intros b Hl; [by destruct b|].
  destruct b as [|y b _] using rev_ind; [rewrite length_app in Hl; cbn in Hl; lia|].
  rewrite !length_app in Hl. cbn [length] in Hl. assert (Hab : length a = length b) by lia.
  rewrite zip_with_app by done. cbn [zip_with]. unfold be_get in *. rewrite !fold_left_app. cbn [fold_left].
  rewrite IH, !lor_shiftl_lxor, bval_bxor, Z.shiftl_lxor by done.
  apply Z.bits_inj'. intros i Hi. rewrite !Z.lxor_spec. btauto.
Qed.

(** The tag is the hash masked with an encrypted counter that depends on the nonce alone. *)
Lemma gcm_tag_hash b `{!BlockOk b} nonce ct aad :
  len nonce = 12 ->
  be_get (gcm_tag b nonce ct aad) = Z.lxor (ghash (hash_key b) (tag_input aad ct)) (be_get (keystream b nonce 1 1)).
Proof.
  intros Hn. change (gcm_tag b nonce ct aad) with
    (zip_with bxor (be_put 16 (ghash (hash_key b) (tag_input aad ct))) (keystream b nonce 1 1)).
  rewrite be_get_zip_bxor by (by rewrite length_be_put, keystream_length).
  rewrite be_get_put. f_equal. apply Z.mod_small. apply (blk_ghash (hash_key b)), blk_be_get.
  rewrite blk_Encrypt_length; [lia|]. by rewrite length_replicate.
Qed.

(** Opening looks at the tag of what it is given. *)
Lemma gcm_Open_tag b `{!BlockOk b} nonce ct tag aad :
  len nonce = 12 -> len ct <= gcm_max -> len tag = 16 ->
  gcm_Open b nonce (ct ++ tag) aad =
    (if bool_decide (be_get (gcm_tag b nonce ct aad) = be_get tag) then Ok (gctr b nonce ct) else Err errOpen).
Proof.
  intros Hn Hc Ht. unfold gcm_Open. rewrite Hn, len_app, Ht. cbn [negb Z.eqb Pos.eqb]. pose proof (len_nonneg ct).
  rewrite (proj2 (Z.ltb_ge _ _)), (proj2 (Z.ltb_ge _ _)) by lia. rewrite length_app.
  replace (length ct + length tag - 16)%nat with (length ct) by (unfold len in Ht; lia).
  rewrite take_app_length, drop_app_length, ConstantTimeCompare_spec.
  assert (Hl : length (gcm_tag b nonce ct aad) = length tag) by (rewrite length_gcm_tag by done; unfold len in Ht; lia).
  rewrite (bool_decide_ext (gcm_tag b nonce ct aad = tag) (be_get (gcm_tag b nonce ct aad) = be_get tag)).
  - by case_bool_decide.
  - split; [by intros ->|by apply be_get_inj].
Qed.

(** Once one text opens under a nonce, another one opens under the same nonce exactly when the two hashes differ
    as the two tags do. *)
Lemma gcm_Open_gap b `{!BlockOk b} nonce ct tag aad p ct' tag' aad' :
  len tag = 16 -> gcm_Open b nonce (ct ++ tag) aad = Ok p -> len tag' = 16 -> len ct' <= gcm_max ->
  gcm_Open b nonce (ct' ++ tag') aad' =
    (if bool_decide (hash_gap aad ct aad' ct' (Z.lxor (be_get tag) (be_get tag')) (hash_key b)) then Ok (gctr b nonce ct')
     else Err errOpen).
Proof.
  intros Ht Ho Ht' Hc'. pose proof Ho as (Hn & Hp & Heq)%gcm_Open_Ok; [|done].
  apply app_inj_2 in Heq as [-> ->]; [|rewrite length_gcm_tag by done; unfold len in Ht; lia].
  rewrite gcm_Open_tag by done. rewrite !gcm_tag_hash by done. unfold hash_gap.
  set (H' := ghash _ _). set (H := ghash _ _). set (K := be_get _). set (T := be_get tag').
  assert (Hi : Z.lxor H' K = T <-> Z.lxor H H' = Z.lxor (Z.lxor H K) T).
  { rewrite (Z.lxor_comm H H'). split.
    - intros <-. apply Z.bits_inj'. intros i Hi. rewrite !Z.lxor_spec. btauto.
    - intros He. apply (f_equal (Z.lxor (Z.lxor H K))) in He. apply (Z.bits_inj_iff' _ _). intros i Hi.
      apply (f_equal (fun z => Z.testbit z i)) in He. revert He. rewrite !Z.lxor_spec.
      by destruct (Z.testbit H i), (Z.testbit H' i), (Z.testbit K i), (Z.testbit T i). }
  repeat case_bool_decide; tauto.
Qed.
