(* ===== verification/Format.v ===== *)
(** * Wire format constants, from [format.go], [asymmetric.go], [kms.go] and [stream.go] *)

From S2P Require Import Prelude.

Definition VersionAEADv1 : byte := x01.
Definition VersionAEADv2 : byte := x02.
Definition VersionAEADv3 : byte := x03.
Definition versionAsymmetricV1 : byte := x05.
Definition versionEnvelopeV1 : byte := x06.

Definition AEADKeySize : Z := 32.
Definition aeadNonceSize : Z := 12.
Definition aeadTagSize : Z := 16.
Definition aeadHeaderSize : Z := 1 + aeadNonceSize.
Definition aeadMinSize : Z := aeadHeaderSize + aeadTagSize.
Definition keyRingMaxKidLen : Z := 64.

(** The versions of the single-string formats. *)
Definition wire_versions : list byte :=
  [VersionAEADv1; VersionAEADv2; VersionAEADv3; versionAsymmetricV1; versionEnvelopeV1].

(** No version byte is used twice: a decoder that tests it accepts one format. *)
Lemma wire_versions_NoDup : NoDup wire_versions.
Proof. apply (bool_decide_unpack _). vm_compute. exact I. Qed.
