(* ===== verification/Random.v ===== *)
(** * Secure random helpers: [random.go] *)

From S2P Require Import Prelude Errors Base64 Hex GoIO.

(** [randReader] is the [w_rand] of the environment; a short read is an error. *)
Definition RandomBytes (n : Z) : M bytes :=
  if n <=? 0 then fail (Errorf "crypt: RandomBytes n must be positive; got %d")
  else map_errM (Wrapf "crypt: random read: %w") (ReadRand n).

Definition RandomToken (n : Z) : M bytes :=
  buf ← RandomBytes n; mret (EncodeToString RawURLEncoding buf).

Definition RandomHex (n : Z) : M bytes :=
  buf ← RandomBytes n; mret (Hex.EncodeToString buf).

(** ** Lemmas *)

Lemma RandomBytes_run n w :
  0 < n -> has_random n w ->
  exists w', RandomBytes n w = (Ok (next_random n w), w') /\ after_random n w w'.
Proof.
  intros Hn Hw. unfold RandomBytes. rewrite (proj2 (Z.leb_gt _ _)) by lia.
  destruct (ReadRand_Ok n w) as (w' & H & Ha); [lia|done|].
  exists w'. split; [|done]. by apply map_errM_Ok.
Qed.

Lemma RandomBytes_inv n w b w' :
  RandomBytes n w = (Ok b, w') ->
  0 < n /\ b = next_random n w /\ has_random n w /\ after_random n w w'.
Proof.
  unfold RandomBytes. destruct (Z.leb_spec n 0); [discriminate|].
  intros Hr%map_errM_Ok_inv%ReadRand_Ok_inv; [|lia]. done.
Qed.

Lemma RandomBytes_no_panic n w : panics (RandomBytes n w).1 = false.
Proof.
  unfold RandomBytes, map_errM. destruct (n <=? 0); [done|]. pose proof (ReadRand_panics n w) as Hp.
  by destruct (ReadRand n w) as [[b|e|m] w'].
Qed.

(** The URL-safe characters of a token. *)
Definition url_safe (c : byte) : bool :=
  ((65 <=? bval c) && (bval c <=? 90)) || ((97 <=? bval c) && (bval c <=? 122)) ||
  ((48 <=? bval c) && (bval c <=? 57)) || bool_decide (c = x2d) || bool_decide (c = x5f).

Lemma url_safe_encode src : Forall (fun c => url_safe c = true) (EncodeToString RawURLEncoding src).
Proof.
  eapply Forall_impl; [apply Encode_chars|]. intros c (v & Hv & ->). simpl.
  revert v Hv. apply sextet_forall. vm_compute. reflexivity.
Qed.

(** ** Properties *)

(** [RandomToken(n)] takes exactly [n] fresh bytes of the random source, and its result is
    [ceil(4n/3)] URL-safe characters without padding that decode back to those bytes; it fails,
    with no token, when the source cannot supply them. *)
Theorem RandomToken_correct n w s w' :
  RandomToken n w = (Ok s, w') ->
  len s = (4 * n + 2) / 3 /\ Forall (fun c => url_safe c = true) s /\
  DecodeString RawURLEncoding s = Ok (next_random n w) /\ has_random n w /\
  after_random n w w'.
Proof.
  intros (b & w1 & Hb & Hs)%M_bind_Ok_inv.
  apply RandomBytes_inv in Hb as (Hn & -> & Hr & Ha). injection Hs as <- <-.
  rewrite len_Encode, len_next_random by (done || lia).
  split; [done|]. split; [apply url_safe_encode|].
  split; [apply Decode_Encode, _|]. done.
Qed.

Lemma RandomToken_correct_witness :
  exists s w', RandomToken 16 demo_world = (Ok s, w') /\ len s = 22.
Proof.
  do 2 eexists. split; [vm_compute; reflexivity|].
  refine (proj1 (RandomToken_correct 16 demo_world _ _ _)). vm_compute. reflexivity.
Defined.

(** [RandomHex(n)] is [2n] lower-case hexadecimal digits that decode to the [n] bytes read,
    and none of the three helpers returns a value for [n <= 0]. *)
Theorem RandomHex_correct n w :
  (n <= 0 -> is_ok (RandomBytes n w).1 = false /\ is_ok (RandomToken n w).1 = false /\
             is_ok (RandomHex n w).1 = false) /\
  (0 < n -> has_random n w ->
   exists s w', RandomHex n w = (Ok s, w') /\ len s = 2 * n /\
     (forall c, In c s -> Hex.is_lower_hex c = true) /\
     Hex.DecodeString s = Ok (next_random n w)).
Proof.
  split.
  - intros Hn. unfold RandomToken, RandomHex, mbind, M_bind, RandomBytes.
    by rewrite (proj2 (Z.leb_le _ _)) by lia.
  - intros Hn Hr. destruct (RandomBytes_run n w Hn Hr) as (w' & H & _).
    eexists _, w'. unfold RandomHex. rewrite (M_bind_Ok _ _ _ _ _ H). split; [done|].
    rewrite Hex.hex_length, len_next_random by (done || lia).
    split; [done|]. split; [apply Hex.Encode_lower|]. apply Hex.hex_roundtrip.
Qed.

Lemma RandomHex_correct_witness :
  exists s w', RandomHex 8 demo_world = (Ok s, w') /\ len s = 16.
Proof.
  destruct (RandomHex_correct 8 demo_world) as [_ H].
  destruct H as (s & w' & H1 & H2 & _); [lia|vm_compute; discriminate|]. eauto.
Defined.
