(* ===== verification/Aead.v ===== *)
(** * AES-256-GCM sealing: [aead.go]

    [Seal], [Open], [sealWithNonce] and the [Sealer] type, over GCM of the file Cipher. *)

From S2P Require Import Prelude Errors Base64 GoIO Aes Cipher Format.

(** ** Operations *)

(** [sealWithNonce]; a nil nonce is [None]. *)
Definition sealWithNonce (key plaintext aad : bytes) (nonce : option bytes) : M bytes :=
  if negb (len key =? AEADKeySize) then
    fail (Wrapf "%w: AEAD requires %d bytes; got %d" ErrInvalidKey)
  else
    block ← lift (map_err (Wrapf "crypt: aes.NewCipher: %w") (NewCipher key));
    gcm ← lift (map_err (Wrapf "crypt: cipher.NewGCM: %w") (NewGCM block));
    nonce ← match nonce with
            | None => map_errM (Wrapf "crypt: random nonce: %w") (ReadRand aeadNonceSize)
            | Some n =>
                if negb (len n =? aeadNonceSize)
                then fail (Errorf "crypt: nonce must be %d bytes; got %d") else mret n
            end;
    let out := [] ++ [VersionAEADv1] in
    let out := out ++ nonce in
    out ← lift (aead_Seal gcm out nonce plaintext aad);
    mret (EncodeToString RawURLEncoding out).

Definition Seal (key plaintext aad : bytes) : M bytes := sealWithNonce key plaintext aad None.

Definition Open (key ciphertext aad : bytes) : outcome bytes :=
  if negb (len key =? AEADKeySize) then
    Err (Wrapf "%w: AEAD requires %d bytes; got %d" ErrInvalidKey)
  else
    raw ← map_err (fun _ => Wrapf "%w: %v" ErrInvalidCiphertext)
            (DecodeString RawURLEncoding ciphertext);
    if len raw <? aeadMinSize then Err ErrCiphertextTooShort
    else
      version ← index raw 0;
      if negb (bool_decide (version = VersionAEADv1)) then
        Err (Wrapf "%w: 0x%02x" ErrUnsupportedVersion)
      else
        block ← map_err (Wrapf "crypt: aes.NewCipher: %w") (NewCipher key);
        gcm ← map_err (Wrapf "crypt: cipher.NewGCM: %w") (NewGCM block);
        nonce ← slice raw 1 aeadHeaderSize;
        body ← slice_from raw aeadHeaderSize;
        map_err (fun _ => Wrapf "%w: %v" ErrTampered) (aead_Open gcm nonce body aad).

Module Sealer.

(** The bound cipher. *)
Record Sealer := { gcm : AEAD }.

Definition NewSealer (key : bytes) : outcome Sealer :=
  if negb (len key =? AEADKeySize) then
    Err (Wrapf "%w: AEAD requires %d bytes; got %d" ErrInvalidKey)
  else
    block ← map_err (Wrapf "crypt: aes.NewCipher: %w") (NewCipher key);
    gcm ← map_err (Wrapf "crypt: cipher.NewGCM: %w") (NewGCM block);
    Ok {| gcm := gcm |}.

Definition Seal (s : Sealer) (plaintext aad : bytes) : M bytes :=
  nonce ← map_errM (Wrapf "crypt: random nonce: %w") (ReadRand aeadNonceSize);
  let out := [] ++ [VersionAEADv1] in
  let out := out ++ nonce in
  out ← lift (aead_Seal (gcm s) out nonce plaintext aad);
  mret (EncodeToString RawURLEncoding out).

Definition Open (s : Sealer) (ciphertext aad : bytes) : outcome bytes :=
  raw ← map_err (fun _ => Wrapf "%w: %v" ErrInvalidCiphertext)
          (DecodeString RawURLEncoding ciphertext);
  if len raw <? aeadMinSize then Err ErrCiphertextTooShort
  else
    version ← index raw 0;
    if negb (bool_decide (version = VersionAEADv1)) then
      Err (Wrapf "%w: 0x%02x" ErrUnsupportedVersion)
    else
      nonce ← slice raw 1 aeadHeaderSize;
      body ← slice_from raw aeadHeaderSize;
      map_err (fun _ => Wrapf "%w: %v" ErrTampered) (aead_Open (gcm s) nonce body aad).

End Sealer.

(** ** The format both AEAD files share

    [version, nonce, body] in base64url: what a reader of such texts does after its key checks,
    and when it accepts. *)

Section frame.
Context (version : byte) (c : AEAD).

Definition frame_open (text aad : bytes) : outcome bytes :=
  raw ← map_err (fun _ => Wrapf "%w: %v" ErrInvalidCiphertext)
          (DecodeString RawURLEncoding text);
  if len raw <? aeadMinSize then Err ErrCiphertextTooShort
  else
    v ← index raw 0;
    if negb (bool_decide (v = version)) then Err (Wrapf "%w: 0x%02x" ErrUnsupportedVersion)
    else
      nonce ← slice raw 1 aeadHeaderSize;
      body ← slice_from raw aeadHeaderSize;
      map_err (fun _ => Wrapf "%w: %v" ErrTampered) (aead_Open c nonce body aad).

(** The abstract contract: [text] is the encoding of a sealing of [p]. *)
Definition frame_accepts (text aad p : bytes) : Prop :=
  exists nonce body, len nonce = aeadNonceSize /\
    DecodeString RawURLEncoding text = Ok (version :: nonce ++ body) /\
    aead_Seal c [] nonce p aad = Ok body.

(** The result of every branch of the reader, in the order of the tests. *)
Definition frame_result (text aad : bytes) (r : outcome bytes) : Prop :=
  match DecodeString RawURLEncoding text with
  | Ok raw =>
      if len raw <? 29 then r = Err ErrCiphertextTooShort
      else if bool_decide (head raw = Some version) then
        match aead_Open c (take 12 (drop 1 raw)) (drop 13 raw) aad with
        | Ok p => r = Ok p
        | Err _ => exists f, r = Err (Wrapf f ErrTampered)
        | Panic _ => panics r = true
        end
      else exists f, r = Err (Wrapf f ErrUnsupportedVersion)
  | _ => exists f, r = Err (Wrapf f ErrInvalidCiphertext)
  end.

(** A decoded text of at least 29 bytes splits in version, nonce and body. *)
Lemma frame_split raw :
  29 <= len raw ->
  exists v nonce body, raw = v :: nonce ++ body /\ len nonce = 12 /\ 16 <= len body /\
    index raw 0 = Ok v /\ slice raw 1 13 = Ok nonce /\ slice_from raw 13 = Ok body.
Proof.
  intros H. destruct raw as [|v raw]; [done|]. rewrite len_cons in H.
  exists v, (take 12 raw), (drop 12 raw). rewrite take_drop.
  assert (Hn : len (take 12 raw) = 12) by (unfold len in *; rewrite length_take; lia).
  split; [done|]. split; [done|].
  split; [unfold len in *; rewrite length_drop; lia|].
  split; [by apply index_head|].
  split.
  - rewrite slice_Ok by (rewrite ?len_cons; lia). done.
  - rewrite slice_from_Ok by (rewrite len_cons; lia). done.
Qed.

Lemma frame_open_cons text v nonce body aad :
  DecodeString RawURLEncoding text = Ok (v :: nonce ++ body) -> len nonce = 12 ->
  16 <= len body ->
  frame_open text aad =
    if bool_decide (v = version)
    then map_err (fun _ => Wrapf "%w: %v" ErrTampered) (aead_Open c nonce body aad)
    else Err (Wrapf "%w: 0x%02x" ErrUnsupportedVersion).
Proof.
  intros Hd Hn Hb. unfold frame_open. rewrite Hd. cbn [map_err mbind outcome_bind].
  assert (Hl : 29 <= len (v :: nonce ++ body)) by (rewrite len_cons, len_app; lia).
  change aeadMinSize with 29. rewrite (proj2 (Z.ltb_ge _ _)) by lia.
  rewrite index_head by done. cbn [mbind outcome_bind].
  change aeadHeaderSize with 13.
  rewrite (slice_app [v] nonce body) by (done || (rewrite Hn; done)).
  rewrite (slice_from_app (v :: nonce) body) by (rewrite len_cons, Hn; done).
  by destruct (bool_decide (v = version)).
Qed.

Lemma frame_open_result text aad : frame_result text aad (frame_open text aad).
Proof.
  unfold frame_result. destruct (DecodeString RawURLEncoding text) as [raw|e|p] eqn:Hd.
  - destruct (Z.ltb_spec (len raw) 29) as [Hl|Hl].
    + unfold frame_open. rewrite Hd. simpl. by rewrite (proj2 (Z.ltb_lt _ _)) by done.
    + destruct (frame_split raw Hl) as (v & nonce & body & -> & Hn & Hb & _).
      rewrite (frame_open_cons _ _ _ _ _ Hd Hn Hb). cbn [head].
      change (drop 1 (v :: nonce ++ body)) with (nonce ++ body).
      rewrite take_app_len by (unfold len in Hn; lia).
      change (drop 13 (v :: nonce ++ body)) with (drop 12 (nonce ++ body)).
      rewrite drop_app_len by (unfold len in Hn; lia).
      destruct (decide (v = version)) as [->|Hv].
      * rewrite !bool_decide_eq_true_2 by done.
        destruct (aead_Open c nonce body aad); simpl; eauto.
      * rewrite !bool_decide_eq_false_2 by congruence. eauto.
  - unfold frame_open. rewrite Hd. simpl. eauto.
  - pose proof (Decode_panics RawURLEncoding text) as Hp. by rewrite Hd in Hp.
Qed.

Lemma frame_open_accepts maxp `{!AEADOk c maxp} text aad p :
  frame_open text aad = Ok p <-> frame_accepts text aad p.
Proof.
  split.
  - intros H. pose proof (frame_open_result text aad) as Hr. unfold frame_result in Hr.
    rewrite H in Hr.
    destruct (DecodeString RawURLEncoding text) as [raw|e|m] eqn:Hd; [|naive_solver..].
    destruct (Z.ltb_spec (len raw) 29) as [Hl|Hl]; [naive_solver|].
    destruct (frame_split raw Hl) as (v & nonce & body & -> & Hn & Hb & _).
    rewrite (frame_open_cons _ _ _ _ _ Hd Hn Hb) in H.
    destruct (decide (v = version)) as [->|Hv];
      [rewrite bool_decide_eq_true_2 in H by done|rewrite bool_decide_eq_false_2 in H by done].
    2: discriminate.
    apply map_err_Ok, open_seal in H as (_ & _ & Hs).
    exists nonce, body. split; [done|]. split; [done|]. apply Hs.
  - intros (nonce & body & Hn & Hd & Hs).
    destruct (seal_bound [] nonce p aad body Hs) as [_ Hp].
    destruct (seal_open nonce p aad Hn Hp) as (ct & Hct & Hseal & Hopen).
    rewrite Hseal in Hs. injection Hs as <-. pose proof (len_nonneg p).
    rewrite (frame_open_cons _ _ _ _ _ Hd Hn) by lia.
    rewrite bool_decide_eq_true_2 by done. by rewrite Hopen.
Qed.

(** Sealing under a 12-byte nonce succeeds, and the reader returns the plaintext. *)
Lemma frame_roundtrip maxp `{!AEADOk c maxp} nonce p aad :
  len nonce = 12 -> len p <= maxp ->
  exists body, (forall dst, aead_Seal c dst nonce p aad = Ok (dst ++ body)) /\
    len body = len p + 16 /\
    frame_open (EncodeToString RawURLEncoding (version :: nonce ++ body)) aad = Ok p.
Proof.
  intros Hn Hp. destruct (seal_open nonce p aad Hn Hp) as (body & Hl & Hs & Ho).
  exists body. split; [done|]. split; [done|]. pose proof (len_nonneg p).
  rewrite (frame_open_cons _ version nonce body) by
    (done || lia || apply Decode_Encode, _).
  rewrite bool_decide_eq_true_2 by done. by rewrite Ho.
Qed.

(** The reader does not panic when its cipher does not. *)
Lemma frame_open_no_panic text aad :
  (forall nonce body, len nonce = 12 -> len body <= len text ->
     panics (aead_Open c nonce body aad) = false) ->
  panics (frame_open text aad) = false.
Proof.
  intros Hc. pose proof (frame_open_result text aad) as H. unfold frame_result in H.
  destruct (DecodeString RawURLEncoding text) as [raw|e|m] eqn:Hd; [|destruct H as [? ->]; done..].
  destruct (len raw <? 29) eqn:Hl; [by rewrite H|]. b2p.
  destruct (bool_decide (head raw = Some version)); [|destruct H as [? ->]; done].
  assert (Hn : len (take 12 (drop 1 raw)) = 12)
    by (unfold len in *; rewrite length_take, length_drop; lia).
  specialize (Hc (take 12 (drop 1 raw)) (drop 13 raw) Hn).
  destruct (aead_Open c _ _ _); [by rewrite H|destruct H as [? ->]; done|].
  rewrite H. apply Hc. pose proof (Decode_length RawURLEncoding text raw Hd).
  unfold len in *. rewrite length_drop. lia.
Qed.
End frame.

(** ** The operations in terms of the format *)

(** [Open] is a key check and the version 0x01 reader under the key's cipher. *)
Lemma Open_frame key c text aad :
  len key = 32 -> gcm_of_key key = Ok c -> Open key text aad = frame_open VersionAEADv1 c text aad.
Proof.
  intros Hk (b & Hb & Hc)%bind_Ok_inv. unfold Open, frame_open.
  change AEADKeySize with 32. rewrite Hk.
  rewrite Z.eqb_refl. cbn [negb]. rewrite Hb.
  cbn [map_err mbind outcome_bind]. rewrite Hc. done.
Qed.

Lemma Sealer_Open_frame s text aad :
  Sealer.Open s text aad = frame_open VersionAEADv1 (Sealer.gcm s) text aad.
Proof. done. Qed.

Lemma Open_short_key key text aad :
  len key <> 32 -> exists f, Open key text aad = Err (Wrapf f ErrInvalidKey).
Proof.
  intros H. unfold Open. rewrite (proj2 (Z.eqb_neq _ _)) by done. eauto.
Qed.

(** What [sealWithNonce] writes. *)
Lemma sealWithNonce_run key p aad nonce w w1 n c body :
  len key = 32 -> gcm_of_key key = Ok c ->
  match nonce with
  | Some n' => n' = n /\ w1 = w /\ len n = 12
  | None => ReadRand aeadNonceSize w = (Ok n, w1)
  end ->
  (forall dst, aead_Seal c dst n p aad = Ok (dst ++ body)) ->
  sealWithNonce key p aad nonce w =
    (Ok (EncodeToString RawURLEncoding (VersionAEADv1 :: n ++ body)), w1).
Proof.
  intros Hk (b & Hb & Hc)%bind_Ok_inv Hn Hs. unfold sealWithNonce.
  change AEADKeySize with 32. rewrite Hk, Z.eqb_refl. cbn [negb].
  rewrite (M_lift_bind _ b) by (by rewrite Hb). rewrite (M_lift_bind _ c) by (by rewrite Hc).
  erewrite M_bind_Ok; [rewrite (M_lift_bind _ _ _ _ (Hs _)); reflexivity|].
  destruct nonce as [n'|].
  - destruct Hn as (-> & -> & Hn). change aeadNonceSize with 12. by rewrite Hn.
  - by apply map_errM_Ok.
Qed.

Lemma Sealer_Seal_run s p aad w w1 n body :
  ReadRand aeadNonceSize w = (Ok n, w1) ->
  (forall dst, aead_Seal (Sealer.gcm s) dst n p aad = Ok (dst ++ body)) ->
  Sealer.Seal s p aad w =
    (Ok (EncodeToString RawURLEncoding (VersionAEADv1 :: n ++ body)), w1).
Proof.
  intros Hn Hs. unfold Sealer.Seal, mbind, M_bind, lift.
  rewrite (map_errM_Ok _ _ _ _ _ Hn). by rewrite Hs.
Qed.

(** [Seal] with a good key and enough randomness. *)
Lemma Seal_run key p aad w :
  len key = 32 -> len p <= gcm_max -> has_random 12 w ->
  exists c body w', gcm_of_key key = Ok c /\ after_random 12 w w' /\
    len body = len p + 16 /\
    (forall dst, aead_Seal c dst (next_random 12 w) p aad = Ok (dst ++ body)) /\
    Seal key p aad w =
      (Ok (EncodeToString RawURLEncoding (VersionAEADv1 :: next_random 12 w ++ body)), w') /\
    frame_open VersionAEADv1 c
      (EncodeToString RawURLEncoding (VersionAEADv1 :: next_random 12 w ++ body)) aad = Ok p.
Proof.
  intros Hk Hp Hw. destruct (gcm_of_key_Ok key Hk) as (c & Hc & Hok).
  destruct (ReadRand_Ok 12 w ltac:(lia) Hw) as (w' & Hr & Ha).
  destruct (frame_roundtrip VersionAEADv1 c gcm_max (next_random 12 w) p aad) as (body & Hs & Hl & Ho);
    [by apply len_next_random|done|].
  exists c, body, w'. do 4 (split; [done|]). split; [|done].
  eapply (sealWithNonce_run key p aad None); eauto.
Qed.

(** What a successful [sealWithNonce] did. *)
Lemma sealWithNonce_inv key p aad nonce w s w' :
  sealWithNonce key p aad nonce w = (Ok s, w') ->
  len key = 32 /\
  exists c n body, gcm_of_key key = Ok c /\ len n = 12 /\ len p <= gcm_max /\
    match nonce with
    | Some n' => n' = n /\ w' = w
    | None => n = next_random 12 w /\ has_random 12 w /\ after_random 12 w w'
    end /\
    (forall dst, aead_Seal c dst n p aad = Ok (dst ++ body)) /\
    s = EncodeToString RawURLEncoding (VersionAEADv1 :: n ++ body).
Proof.
  unfold sealWithNonce. change AEADKeySize with 32.
  destruct (Z.eqb_spec (len key) 32) as [Hk|Hk]; [|discriminate]. cbn [negb].
  intros (b & Hb%map_err_Ok & H)%M_lift_bind_inv.
  apply M_lift_bind_inv in H as (c & Hc%map_err_Ok & H).
  apply M_bind_Ok_inv in H as (n & w3 & Hn & H).
  apply M_lift_bind_inv in H as (out & Ho & [= <- <-]).
  assert (Hcc : gcm_of_key key = Ok c) by (unfold gcm_of_key; by rewrite Hb).
  pose proof (gcm_of_key_ok _ _ Hcc) as Hok.
  pose proof (seal_bound _ _ _ _ _ Ho) as [Hn12 Hp].
  destruct (seal_open n p aad Hn12 Hp) as (body & _ & Hs & _).
  rewrite Hs in Ho. injection Ho as <-.
  split; [done|]. exists c, n, body. do 3 (split; [done|]). split; [|done].
  destruct nonce as [n'|].
  - change aeadNonceSize with 12 in Hn. destruct (negb (len n' =? 12)); [discriminate|].
    by injection Hn as -> ->.
  - by apply map_errM_Ok_inv, ReadRand_Ok_inv in Hn.
Qed.

(** A sealed text opens under the key that sealed it: shared by the components that call
    [Seal] and [Open]. *)
Lemma sealWithNonce_then_Open key p aad nonce w s w' :
  sealWithNonce key p aad nonce w = (Ok s, w') -> Open key s aad = Ok p.
Proof.
  intros (Hk & c & n & body & Hc & Hn & Hp & _ & Hs & ->)%sealWithNonce_inv.
  rewrite (Open_frame key c) by done. pose proof (gcm_of_key_ok _ _ Hc) as Hok.
  apply (frame_open_accepts VersionAEADv1 c gcm_max).
  exists n, body. split; [done|]. split; [apply Decode_Encode, _|]. apply Hs.
Qed.

Lemma Seal_then_Open key p aad w s w' : Seal key p aad w = (Ok s, w') -> Open key s aad = Ok p.
Proof. exact (sealWithNonce_then_Open key p aad None w s w'). Qed.

(** [Open] sees a text only through the bytes it decodes to. *)
Lemma Open_decoded key t1 t2 aad :
  DecodeString RawURLEncoding t1 = DecodeString RawURLEncoding t2 ->
  Open key t1 aad = Open key t2 aad.
Proof. intros H. unfold Open. by rewrite H. Qed.

Lemma Open_no_panic key text aad : panics (Open key text aad) = false.
Proof.
  destruct (decide (len key = 32)) as [Hk|Hk].
  - destruct (gcm_of_key_Ok key Hk) as (c & Hc & Hok). rewrite (Open_frame key c) by done.
    apply frame_open_no_panic. intros. by eapply gcm_of_key_no_panic.
  - by destruct (Open_short_key key text aad Hk) as [f ->].
Qed.

(** Sealing with 12 random bytes, and opening what was sealed. *)
Lemma Seal_Open_run key p aad w :
  len key = 32 -> len p <= gcm_max -> has_random 12 w ->
  exists ct w', Seal key p aad w = (Ok ct, w') /\ after_random 12 w w' /\ Open key ct aad = Ok p.
Proof.
  intros Hk Hp Hw. destruct (Seal_run key p aad w Hk Hp Hw) as (c & b & w' & _ & Ha & _ & _ & Hs & _).
  eexists _, w'. split; [exact Hs|]. split; [done|]. by eapply Seal_then_Open.
Qed.

(** An accepted plaintext is within GCM's limit. *)
Lemma Open_bound key text aad p : Open key text aad = Ok p -> len p <= gcm_max.
Proof.
  intros H. destruct (decide (len key = 32)) as [Hk|Hk].
  2: { destruct (Open_short_key key text aad Hk) as [f Hf]. congruence. }
  destruct (gcm_of_key_Ok key Hk) as (c & Hc & Hok).
  rewrite (Open_frame key c), (frame_open_accepts _ c gcm_max) in H by done.
  destruct H as (nonce & body & _ & _ & Hs). by apply seal_bound in Hs as [_ Hp].
Qed.

(** [Seal] panics only past GCM's limit. *)
Lemma Seal_no_panic key p aad w : len p <= gcm_max -> panics (Seal key p aad w).1 = false.
Proof.
  intros Hp. destruct (decide (len key = 32)) as [Hk|Hk].
  2: { unfold Seal, sealWithNonce. by rewrite (proj2 (Z.eqb_neq _ _)). }
  destruct (ReadRand_cases 12 w ltac:(lia)) as [(w1 & _ & Hr & _)|(e & w1 & Hr & _)].
  - destruct (Seal_run key p aad w Hk Hp Hr) as (c & b & w2 & _ & _ & _ & _ & -> & _). done.
  - destruct (gcm_of_key_Ok key Hk) as (c & (b & Hb & Hc)%bind_Ok_inv & _).
    unfold Seal, sealWithNonce. change AEADKeySize with 32. rewrite Hk, Z.eqb_refl. cbn [negb].
    rewrite (M_lift_bind _ b) by (by rewrite Hb). rewrite (M_lift_bind _ c) by (by rewrite Hc).
    by erewrite M_bind_Err by (apply map_errM_Err, Hr).
Qed.

(** ** Properties *)

(** C1: with a 32-byte key, a plaintext within GCM's limit and 12 random bytes available,
    [Seal] returns a text of [ceil(4(29+N)/3)] characters, consumes exactly the nonce, and
    [Open] under the same key and AAD returns the plaintext. *)
Theorem Seal_Open_roundtrip key p aad w :
  len key = AEADKeySize -> len p <= gcm_max -> has_random 12 w ->
  exists s w', Seal key p aad w = (Ok s, w') /\ after_random 12 w w' /\
    len s = (4 * (29 + len p) + 2) / 3 /\ Open key s aad = Ok p.
Proof.
  intros Hk Hp Hw.
  destruct (Seal_run key p aad w Hk Hp Hw) as (c & body & w' & _ & Ha & Hl & _ & Hs & _).
  eexists _, w'. split; [exact Hs|]. split; [done|].
  split; [|by eapply Seal_then_Open].
  rewrite len_Encode, len_cons, len_app, Hl, len_next_random by (done || lia).
  do 2 f_equal. lia.
Qed.

Definition demo_key : bytes := replicate 32 x00.

Lemma Seal_Open_roundtrip_witness :
  exists s w', Seal demo_key (lit "hello, world") (lit "user:42") demo_world = (Ok s, w') /\
    Open demo_key s (lit "user:42") = Ok (lit "hello, world").
Proof.
  destruct (Seal_Open_roundtrip demo_key (lit "hello, world") (lit "user:42") demo_world)
    as (s & w' & H1 & _ & _ & H2); [done|vm_compute; discriminate..|]. eauto.
Defined.

(** C6: [Open] accepts a text with plaintext [p] exactly when the text decodes to the same
    bytes as the output of [sealWithNonce] on [p], this key and this AAD, for some nonce: nothing
    that was not sealed under the key and the AAD is ever accepted. *)
Theorem Open_accepts_exactly_sealed key text aad p w :
  Open key text aad = Ok p <->
  exists nonce s, sealWithNonce key p aad (Some nonce) w = (Ok s, w) /\
    DecodeString RawURLEncoding text = DecodeString RawURLEncoding s.
Proof.
  split.
  - intros H. destruct (decide (len key = 32)) as [Hk|Hk].
    2: { destruct (Open_short_key key text aad Hk) as [f Hf]. congruence. }
    destruct (gcm_of_key_Ok key Hk) as (c & Hc & Hok).
    rewrite (Open_frame key c), (frame_open_accepts _ c gcm_max) in H by done.
    destruct H as (nonce & body & Hn & Hd & Hs).
    destruct (seal_bound _ _ _ _ _ Hs) as [Hn' Hp].
    destruct (seal_open nonce p aad Hn' Hp) as (body' & _ & Hs' & _).
    rewrite Hs' in Hs. injection Hs as <-.
    exists nonce. eexists. split; [by eapply (sealWithNonce_run key p aad (Some nonce))|].
    rewrite Hd. symmetry. apply Decode_Encode, _.
  - intros (nonce & s & Hs & Hd). apply sealWithNonce_then_Open in Hs.
    unfold Open in *. by rewrite Hd.
Qed.

(** C39: on every key, text and AAD, [Open] ends without a run-time panic, and when it fails the
    error is the documented one: [ErrInvalidKey] exactly for a wrong key size, then by
    [frame_result], in order, [ErrInvalidCiphertext], [ErrCiphertextTooShort] below 29 bytes,
    [ErrUnsupportedVersion], [ErrTampered]. *)
Theorem Open_total key text aad :
  panics (Open key text aad) = false /\
  (len key <> AEADKeySize -> exists f, Open key text aad = Err (Wrapf f ErrInvalidKey)) /\
  (len key = AEADKeySize ->
   exists c, gcm_of_key key = Ok c /\ frame_result VersionAEADv1 c text aad (Open key text aad)).
Proof.
  split; [apply Open_no_panic|]. split; [apply Open_short_key|].
  intros Hk. destruct (gcm_of_key_Ok key Hk) as (c & Hc & Hok). exists c.
  split; [done|]. rewrite (Open_frame key c) by done. apply frame_open_result.
Qed.

Lemma Open_total_witness :
  exists f, Open (lit "short") (lit "AQ") [] = Err (Wrapf f ErrInvalidKey).
Proof. apply (Open_total (lit "short") (lit "AQ") []). vm_compute. discriminate. Defined.

(** [NewSealer] succeeds exactly on 32-byte keys, and the [Sealer] it returns seals and opens
    exactly as the package-level functions do with that key. *)
Theorem Sealer_equivalent key :
  (len key <> AEADKeySize -> exists f, Sealer.NewSealer key = Err (Wrapf f ErrInvalidKey)) /\
  (len key = AEADKeySize -> exists s, Sealer.NewSealer key = Ok s /\
     (forall p aad w, Sealer.Seal s p aad w = Seal key p aad w) /\
     (forall text aad, Sealer.Open s text aad = Open key text aad)).
Proof.
  split; intros Hk; unfold Sealer.NewSealer.
  - rewrite (proj2 (Z.eqb_neq _ _)) by done. eauto.
  - destruct (gcm_of_key_Ok key Hk) as (c & Hc & Hok).
    pose proof Hc as (b & Hb & Hg)%bind_Ok_inv.
    rewrite Hk, Z.eqb_refl. cbn [negb]. rewrite Hb. cbn [map_err mbind outcome_bind].
    rewrite Hg. cbn [map_err mbind outcome_bind]. eexists. split; [done|]. split.
    + intros p aad w. unfold Seal, sealWithNonce. rewrite Hk, Z.eqb_refl. cbn [negb].
      rewrite (M_lift_bind _ b) by (by rewrite Hb). rewrite (M_lift_bind _ c) by (by rewrite Hg).
      done.
    + intros text aad. by rewrite (Open_frame key c) by done.
Qed.

Lemma Sealer_equivalent_witness :
  exists s, Sealer.NewSealer demo_key = Ok s /\
    forall p aad w, Sealer.Seal s p aad w = Seal demo_key p aad w.
Proof.
  destruct (proj2 (Sealer_equivalent demo_key)) as (s & H1 & H2 & _); [done|]. eauto.
Defined.

(** A sealer seals and opens like [Seal] and [Open] under its key. *)
Lemma NewSealer_inv key sl :
  Sealer.NewSealer key = Ok sl ->
  (forall p aad w, Sealer.Seal sl p aad w = Seal key p aad w) /\
  (forall text aad, Sealer.Open sl text aad = Open key text aad) /\ len key = 32.
Proof.
  intros Hs. destruct (Sealer_equivalent key) as [Hbad Hgood]. destruct (decide (len key = AEADKeySize)) as [Hk|Hk].
  - destruct (Hgood Hk) as (s & Hn & H1 & H2). assert (s = sl) as -> by congruence. done.
  - destruct (Hbad Hk) as [f Hf]. congruence.
Qed.

(** Sealing succeeds with 12 random bytes. *)
Lemma Sealer_Seal_ok key sl p aad w :
  Sealer.NewSealer key = Ok sl -> len p <= gcm_max -> has_random 12 w ->
  exists tok w', Sealer.Seal sl p aad w = (Ok tok, w') /\ after_random 12 w w'.
Proof.
  intros (Hs & _ & Hk)%NewSealer_inv Hp Hw.
  destruct (Seal_run key p aad w Hk Hp Hw) as (c & body & w' & _ & Ha & _ & _ & Hrun & _).
  rewrite Hs. eauto.
Qed.

Lemma Sealer_Open_no_panic key sl text aad : Sealer.NewSealer key = Ok sl -> panics (Sealer.Open sl text aad) = false.
Proof. intros (_ & Ho & _)%NewSealer_inv. rewrite Ho. apply Open_no_panic. Qed.

(** A sealer for the witnesses of the programs that use one. *)
Definition demo_sealer : Sealer.Sealer :=
  match Sealer.NewSealer demo_key with
  | Ok s => s
  | _ => {| Sealer.gcm := {| aead_Seal := fun _ _ _ _ => Err errOpen; aead_Open := fun _ _ _ => Err errOpen |} |}
  end.

Lemma demo_sealer_new : Sealer.NewSealer demo_key = Ok demo_sealer.
Proof.
  unfold demo_sealer. destruct (proj2 (Sealer_equivalent demo_key) eq_refl) as (s & -> & _). reflexivity.
Qed.

(** A change confined to the 16-byte tag is always rejected with [ErrTampered]: no second
    tag opens the same nonce and ciphertext. *)
Theorem Open_rejects_other_tag key aad p text text' head tag tag' :
  Open key text aad = Ok p ->
  DecodeString RawURLEncoding text = Ok (head ++ tag) ->
  DecodeString RawURLEncoding text' = Ok (head ++ tag') ->
  13 <= len head -> len tag = aeadTagSize -> len tag' = aeadTagSize -> tag' <> tag ->
  fails_with (Open key text' aad) ErrTampered = true.
Proof.
  intros H Hd Hd' Hh Ht Ht' Hne.
  destruct (decide (len key = 32)) as [Hk|Hk].
  2: { destruct (Open_short_key key text aad Hk) as [f Hf]. congruence. }
  destruct (gcm_of_key_Ok key Hk) as (c & Hc & Hok). rewrite (Open_frame key c) in * by done.
  pose proof Hc as (b & Hb%NewCipher_BlockOk & [= <-])%bind_Ok_inv.
  destruct head as [|v head]; [done|]. rewrite len_cons in Hh.
  rewrite <- (take_drop 12 head) in Hd, Hd'.
  change aeadTagSize with 16 in *.
  assert (Hn : len (take 12 head) = 12) by (unfold len in *; rewrite length_take; lia).
  cbn [app] in Hd, Hd'. rewrite <- !app_assoc in Hd, Hd'. pose proof (len_nonneg (drop 12 head)).
  rewrite (frame_open_cons _ _ _ _ _ _ _ Hd' Hn) by (rewrite len_app; lia).
  rewrite (frame_open_cons _ _ _ _ _ _ _ Hd Hn) in H by (rewrite len_app; lia).
  destruct (bool_decide (v = VersionAEADv1)); [|discriminate].
  apply map_err_Ok in H. simpl in H |- *.
  by rewrite (gcm_Open_other_tag b _ _ _ _ _ _ Ht Ht' Hne H).
Qed.

Definition vector0_head : bytes := [x01] ++ replicate 12 x00.
Definition vector0_tag : bytes :=
  map to_byte [83; 15; 138; 251; 199; 69; 54; 185; 169; 99; 180; 241; 196; 203; 115; 139].

Lemma Open_rejects_other_tag_witness :
  fails_with (Open demo_key
    (EncodeToString RawURLEncoding (vector0_head ++ replicate 16 x00)) []) ErrTampered = true.
Proof.
  apply (Open_rejects_other_tag demo_key [] [] (lit "AQAAAAAAAAAAAAAAAFMPivvHRTa5qWO08cTLc4s")
    _ vector0_head vector0_tag (replicate 16 x00));
    solve [vm_compute; reflexivity | vm_compute; discriminate].
Defined.

(** [Open] does not see line breaks: a carriage return or line feed inserted anywhere in a
    text leaves the result unchanged, so the text of a sealing is not unique. *)
Theorem Open_ignores_newlines key s1 c s2 aad :
  c = x0a \/ c = x0d -> Open key (s1 ++ c :: s2) aad = Open key (s1 ++ s2) aad.
Proof.
  intros Hc. unfold Open. rewrite Decode_newline; [done|apply _|].
  by destruct Hc as [-> | ->].
Qed.

Lemma Open_ignores_newlines_witness :
  Open demo_key (lit "AQAA" ++ x0a :: lit "AAAA") [] = Open demo_key (lit "AQAA" ++ lit "AAAA") [].
Proof. apply Open_ignores_newlines. by left. Defined.
