(* ===== verification/Binding.v ===== *)
(** * What a sealed text is bound to

    How far [Open] of [aead.go] keeps its promise that a text opens only under the additional data it was
    sealed with and only unchanged. Given the texts, the only thing the answer can depend on is
    the hash key, the encryption of the zero block; a forgery works for a set of hash keys
    that [Ghash] bounds, and for a given key it is decided by computing. *)

From Stdlib Require Import Btauto Strings.String.
From S2P Require Import Prelude Errors Binary Base64 GoIO Aes Cipher Ghash Format Aead.

#[local] Opaque gf_mul.

(** The hash key of a key. *)
Definition key_hash (key : bytes) : Z := match NewCipher key with Ok b => hash_key b | _ => 0 end.

(** ** Lemmas *)

Lemma Open_gcm key b text nonce ct tag aad :
  len key = 32 -> NewCipher key = Ok b -> DecodeString RawURLEncoding text = Ok (VersionAEADv1 :: nonce ++ ct ++ tag) ->
  len nonce = 12 -> len tag = 16 ->
  Open key text aad = map_err (fun _ => Wrapf "%w: %v" ErrTampered) (gcm_Open b nonce (ct ++ tag) aad).
Proof.
  intros Hk Hb Hd Hn Ht. rewrite (Open_frame key {| aead_Seal := gcm_Seal b; aead_Open := gcm_Open b |}) by
    (done || (unfold gcm_of_key; by rewrite Hb)).
  pose proof (len_nonneg ct). rewrite (frame_open_cons _ _ _ _ _ _ _ Hd Hn) by (rewrite len_app; lia).
  by rewrite bool_decide_eq_true_2.
Qed.

(** The parts of a text that opens. *)
Lemma Open_split key text aad p :
  Open key text aad = Ok p ->
  len key = 32 /\ exists b nonce ct tag, NewCipher key = Ok b /\ BlockOk b /\
    DecodeString RawURLEncoding text = Ok (VersionAEADv1 :: nonce ++ ct ++ tag) /\
    len nonce = 12 /\ len tag = 16 /\ gcm_Open b nonce (ct ++ tag) aad = Ok p /\
    len ct = len p /\ len p <= gcm_max /\ p = gctr b nonce ct.
Proof.
  intros Ho. destruct (decide (len key = 32)) as [Hk|Hk].
  2: { destruct (Open_short_key key text aad Hk) as [f Hf]. congruence. }
  split; [done|]. destruct (gcm_of_key_Ok key Hk) as (c & Hc & Hok).
  rewrite (Open_frame key c) in Ho by done. apply (frame_open_accepts VersionAEADv1 c gcm_max) in Ho.
  destruct Ho as (nonce & body & Hn & Hd & Hs). pose proof Hc as (b & Hb & [= <-])%bind_Ok_inv.
  pose proof (NewCipher_BlockOk _ _ Hb) as HB. apply gcm_Seal_Ok in Hs as (Hn' & Hp & ->). cbn [app] in Hd.
  exists b, nonce, (gctr b nonce p), (gcm_tag b nonce (gctr b nonce p) aad).
  assert (Hl : len (gctr b nonce p) = len p) by (unfold len; by rewrite length_gctr).
  split; [done|]. split; [done|]. split; [done|]. split; [done|].
  split; [unfold len; by rewrite length_gcm_tag|]. split; [by apply gcm_Open_Ok|].
  split; [done|]. split; [done|]. symmetry. by apply gctr_gctr.
Qed.

(** Hashing from a state is hashing from zero, and what the state grows to over as many zero blocks. *)
Definition hash_from (h y : Z) (cs : list bytes) : Z :=
  fold_left (fun y block => gf_mul (Z.lxor y (be_get block)) h) cs y.

(** As many zero blocks. *)
Definition zeros_like (cs : list bytes) : list bytes := map (fun _ => []) cs.

Lemma hash_from_split h y cs :
  hash_from h y cs = Z.lxor (hash_from h 0 cs) (hash_from h y (zeros_like cs)).
Proof.
  revert y. induction cs as [|c cs IH] using rev_ind; intros y; [done|]. unfold hash_from, zeros_like in *.
  rewrite map_app, !fold_left_app. cbn [fold_left map]. change (be_get []) with 0. rewrite IH, Z.lxor_0_r.
  rewrite <- mul_lxor_l. f_equal. apply Z.bits_inj'. intros i Hi. rewrite !Z.lxor_spec. btauto.
Qed.

Lemma hash_from_zero h y y' cs :
  hash_from h (Z.lxor y y') (zeros_like cs) =
    Z.lxor (hash_from h y (zeros_like cs)) (hash_from h y' (zeros_like cs)).
Proof.
  induction cs as [|c cs IH] using rev_ind; [done|]. unfold hash_from, zeros_like in *. rewrite map_app, !fold_left_app.
  cbn [fold_left map]. change (be_get []) with 0. by rewrite IH, !Z.lxor_0_r, mul_lxor_l.
Qed.

Lemma ghash_parts h aad ct :
  ghash h (tag_input aad ct) =
    hash_from h (hash_from h (hash_from h 0 (chunks 16 (zero_pad aad))) (chunks 16 (zero_pad ct)))
      [PutUint64 (8 * len aad) ++ PutUint64 (8 * len ct)].
Proof.
  unfold ghash, tag_input, hash_from.
  rewrite chunks_app_aligned, chunks_app_aligned by (lia || apply zero_pad_aligned). by rewrite !fold_left_app.
Qed.

Lemma zeros_like_length l k : length l = length k -> zeros_like l = zeros_like k.
Proof. revert k; induction l as [|a l IH]; intros [|c k]; try done. intros [= H]. apply (f_equal (cons [])), IH, H. Qed.

(** Two states followed by the same blocks. *)
Lemma hash_from_states h y y' cs :
  Z.lxor (hash_from h y cs) (hash_from h y' cs) = hash_from h (Z.lxor y y') (zeros_like cs).
Proof.
  rewrite (hash_from_split h y), (hash_from_split h y'), hash_from_zero.
  apply Z.bits_inj'. intros i Hi. rewrite !Z.lxor_spec. btauto.
Qed.

(** How the hashes of one ciphertext under two values of the additional data differ: it does not depend on the
    ciphertext but on its length. *)
Definition aad_gap (aad aad' : bytes) (n : nat) (h : Z) : Z :=
  Z.lxor (ghash h (tag_input aad (replicate n x00))) (ghash h (tag_input aad' (replicate n x00))).

Lemma aad_gap_any h aad aad' ct :
  Z.lxor (ghash h (tag_input aad ct)) (ghash h (tag_input aad' ct)) = aad_gap aad aad' (length ct) h.
Proof.
  unfold aad_gap. set (ct0 := replicate (length ct) x00).
  assert (Hl : len ct0 = len ct) by (unfold ct0; by rewrite len_replicate).
  assert (Hm : zeros_like (chunks 16 (zero_pad ct)) = zeros_like (chunks 16 (zero_pad ct0))).
  { apply zeros_like_length. pose proof (length_chunks16 _ (zero_pad_aligned ct)) as H1.
    pose proof (length_chunks16 _ (zero_pad_aligned ct0)) as H2. rewrite len_zero_pad in *. rewrite Hl in H2.
    unfold len in *. lia. }
  assert (Hg : forall y y' L L' c, Z.lxor (hash_from h (hash_from h y c) [L]) (hash_from h (hash_from h y' c) [L']) =
    Z.lxor (Z.lxor (hash_from h 0 [L]) (hash_from h 0 [L'])) (hash_from h (hash_from h (Z.lxor y y') (zeros_like c)) [[]])).
  { intros y y' L L' c. rewrite (hash_from_split h _ [L]), (hash_from_split h _ [L']), <- hash_from_states.
    change (zeros_like [L']) with (zeros_like [L]). change [[]] with (zeros_like [L]). rewrite !hash_from_zero.
    apply Z.bits_inj'. intros i Hi. rewrite !Z.lxor_spec. btauto. }
  rewrite !ghash_parts, !Hg, Hm, Hl. reflexivity.
Qed.

Lemma hash_from_zeros h y cs :
  blk h -> blk y -> hash_from h y (zeros_like cs) = 0 <-> y = 0 \/ h = 0 /\ cs <> [].
Proof.
  intros Hh. revert y. induction cs as [|c cs IH]; intros y Hy; [cbn; tauto|].
  change (hash_from h y (zeros_like (c :: cs))) with (hash_from h (gf_mul (Z.lxor y 0) h) (zeros_like cs)).
  rewrite Z.lxor_0_r, IH by (by apply blk_mul). split.
  - intros [Hm|[Hz _]]; [|by right]. destruct (mul_eq_0 y h Hy Hh Hm); auto.
  - intros [->|[-> _]]; left; [apply mul_0_l|apply mul_0_r].
Qed.

(** One block of additional data is one block of hash input. *)
Lemma chunks_one aad : 0 < len aad <= 16 -> chunks 16 (zero_pad aad) = [zero_pad aad].
Proof.
  intros Ha. pose proof (len_zero_pad aad) as Hl.
  assert ((len aad + 15) / 16 = 1) as Hd by (Z.to_euclidean_division_equations; lia).
  rewrite Hd in Hl. rewrite <- (app_nil_r (zero_pad aad)) at 1.
  rewrite chunks_app by (unfold len in Hl; lia). done.
Qed.

(** Two values of one block and the same length are told apart by every hash key but zero. *)
Lemma aad_gap_one aad aad' n h :
  blk h -> len aad = len aad' -> 0 < len aad <= 16 -> aad <> aad' -> aad_gap aad aad' n h = 0 <-> h = 0.
Proof.
  intros Hh Hl Ha Hne. unfold aad_gap. rewrite !ghash_parts, (chunks_one aad), (chunks_one aad'), <- Hl by lia.
  set (cs := chunks 16 (zero_pad _)). set (L := PutUint64 _ ++ _).
  assert (Hblk : forall l, len l = len aad -> blk (be_get (zero_pad l))).
  { intros l Hlen. apply blk_be_get. pose proof (len_zero_pad l) as Hp. rewrite Hlen in Hp. unfold len in *.
    Z.to_euclidean_division_equations. lia. }
  change (hash_from h 0 [zero_pad aad]) with (gf_mul (be_get (zero_pad aad)) h).
  change (hash_from h 0 [zero_pad aad']) with (gf_mul (be_get (zero_pad aad')) h).
  assert (Hdiff : Z.lxor (be_get (zero_pad aad)) (be_get (zero_pad aad')) <> 0).
  { intros He%Z.lxor_eq%be_get_inj; [by apply Hne, zero_pad_inj|].
    pose proof (len_zero_pad aad); pose proof (len_zero_pad aad'). rewrite <- Hl in *. unfold len in *. lia. }
  assert (Happ : forall y, hash_from h (hash_from h y cs) [L] = hash_from h y (cs ++ [L]))
    by (intros y; unfold hash_from; by rewrite fold_left_app).
  rewrite !Happ. rewrite hash_from_states, <- mul_lxor_l. rewrite hash_from_zeros; [|done|by apply blk_mul].
  split.
  - intros [Hm|[Hz _]]; [|done]. apply mul_eq_0 in Hm as [Hm|Hm]; [done|done|by apply blk_lxor; apply Hblk|done].
  - intros ->. left. apply mul_0_r.
Qed.

Lemma key_hash_eq key b : NewCipher key = Ok b -> key_hash key = hash_key b.
Proof. unfold key_hash. by intros ->. Qed.

Lemma blk_hash_key b `{!BlockOk b} : blk (hash_key b).
Proof. apply blk_be_get. rewrite blk_Encrypt_length; [lia|]. by rewrite length_replicate. Qed.

Lemma blk_key_hash key : blk (key_hash key).
Proof.
  unfold key_hash. destruct (NewCipher key) as [b|e|m] eqn:Hb; [|exact blk_0..].
  pose proof (NewCipher_BlockOk _ _ Hb). by apply blk_hash_key.
Qed.

Lemma gap_tags aad ct aad' tag h : hash_gap aad ct aad' ct (Z.lxor (be_get tag) (be_get tag)) h <-> aad_gap aad aad' (length ct) h = 0.
Proof. unfold hash_gap. by rewrite aad_gap_any, Z.lxor_nilpotent. Qed.

(** The answer under other additional data. *)
Lemma Open_other_aad key text aad p aad' :
  Open key text aad = Ok p ->
  Open key text aad' =
    (if bool_decide (aad_gap aad aad' (length p) (key_hash key) = 0) then Ok p
     else Err (Wrapf "%w: %v" ErrTampered)).
Proof.
  intros (Hk & b & nonce & ct & tag & Hb & HB & Hd & Hn & Ht & Ho & Hl & Hp & Heq)%Open_split.
  rewrite (Open_gcm key b text nonce ct tag aad' Hk Hb Hd Hn Ht).
  rewrite (gcm_Open_gap b nonce ct tag aad p ct tag aad' Ht Ho Ht) by lia.
  rewrite (key_hash_eq _ _ Hb). pose proof (gap_tags aad ct aad' tag (hash_key b)) as Hg.
  replace (length ct) with (length p) in Hg by (unfold len in Hl; lia).
  repeat case_bool_decide; try tauto. by rewrite Heq.
Qed.

Lemma Open_apart key text aad p aad' :
  Open key text aad = Ok p -> aad_gap aad aad' (length p) (key_hash key) <> 0 ->
  Open key text aad' = Err (Wrapf "%w: %v" ErrTampered).
Proof. intros Ho Hg. rewrite (Open_other_aad _ _ _ _ aad' Ho). by case_bool_decide. Qed.

(** Up to 18 characters at the end of a text lie in its tag. *)
Lemma tag_tail raw front tail :
  29 <= len raw -> EncodeToString RawURLEncoding raw = front ++ tail -> (length tail <= 18)%nat ->
  exists r1 r2 f2, raw = r1 ++ r2 /\ (length r1 mod 3 = 0)%nat /\ (length r2 <= 16)%nat /\
    front = EncodeToString RawURLEncoding r1 ++ f2 /\ EncodeToString RawURLEncoding r2 = f2 ++ tail.
Proof.
  intros Hr He Ht. set (k := ((length raw - 14) / 3)%nat). set (r1 := take (3 * k) raw). set (r2 := drop (3 * k) raw).
  assert (Hk : (3 * k <= length raw - 14 < 3 * k + 3)%nat).
  { unfold k. pose proof (Nat.div_mod_eq (length raw - 14) 3). pose proof (Nat.mod_upper_bound (length raw - 14) 3). lia. }
  assert (H1 : length r1 = (3 * k)%nat) by (unfold r1; rewrite length_take; lia).
  assert (H2 : (14 <= length r2 <= 16)%nat) by (unfold r2, len in *; rewrite length_drop; lia).
  assert (Hm : (length r1 mod 3 = 0)%nat) by (rewrite H1, Nat.mul_comm; apply Nat.Div0.mod_mul).
  rewrite <- (take_drop (3 * k) raw) in He. fold r1 r2 in He. rewrite Encode_app3 in He by done.
  pose proof (len_Encode RawURLEncoding r2) as Hl.
  assert (Hge : (length tail <= length (EncodeToString RawURLEncoding r2))%nat).
  { unfold len in Hl. assert (19 <= (4 * Z.of_nat (length r2) + 2) / 3) by (apply Z.div_le_lower_bound; lia). lia. }
  exists r1, r2, (take (length (EncodeToString RawURLEncoding r2) - length tail) (EncodeToString RawURLEncoding r2)).
  set (e2 := EncodeToString RawURLEncoding r2) in *. set (m := (length e2 - length tail)%nat).
  assert (Hs : EncodeToString RawURLEncoding r1 ++ take m e2 ++ drop m e2 = front ++ tail) by (by rewrite take_drop).
  rewrite app_assoc in Hs. apply app_inj_2 in Hs as [Hf Hd]; [|unfold m; rewrite length_drop; lia].
  split; [symmetry; apply take_drop|]. split; [done|]. split; [lia|]. split; [done|]. by rewrite <- Hd, take_drop.
Qed.

(** Other characters there are noticed, unless they decode to the same bytes. *)
Lemma Open_other_tail key raw front tail tail' aad p :
  EncodeToString RawURLEncoding raw = front ++ tail -> Open key (front ++ tail) aad = Ok p ->
  length tail' = length tail -> (length tail <= 18)%nat -> Forall (alphabet RawURLEncoding) tail' ->
  if bool_decide (DecodeString RawURLEncoding (front ++ tail') = Ok raw) then Open key (front ++ tail') aad = Ok p
  else exists e, Open key (front ++ tail') aad = Err e.
Proof.
  intros He Ho Hl H18 Ha. assert (Hraw : DecodeString RawURLEncoding (front ++ tail) = Ok raw) by (rewrite <- He; apply Decode_Encode, _).
  case_bool_decide as Hsame.
  { rewrite <- Ho. apply Open_decoded. by rewrite Hsame, Hraw. }
  pose proof Ho as (Hk & b & nonce & ct & tag & Hb & HB & Hd & Hn & Ht & Hg & _)%Open_split.
  rewrite Hraw in Hd. injection Hd as Hd.
  destruct (tag_tail raw front tail) as (r1 & r2 & f2 & Hr & Hm & H2 & -> & He2); [|done..|].
  { rewrite Hd, len_cons, !len_app, Hn, Ht. pose proof (len_nonneg ct). lia. }
  pose proof (Open_no_panic key ((EncodeToString RawURLEncoding r1 ++ f2) ++ tail') aad) as Hp.
  destruct (DecodeString RawURLEncoding (f2 ++ tail')) as [r2'|e|m] eqn:Hd2;
    [| |pose proof (Decode_panics RawURLEncoding (f2 ++ tail')) as Hx; by rewrite Hd2 in Hx].
  - assert (Hlen : len r2' = len r2).
    { pose proof (Encode_alphabet RawURLEncoding r2) as Hal. rewrite He2 in Hal. apply Forall_app in Hal as [Hf2 Hta].
      rewrite (Decode_alphabet_length RawURLEncoding (f2 ++ tail') r2'); [|by apply Forall_app|done].
      rewrite (Decode_alphabet_length RawURLEncoding (f2 ++ tail) r2);
        [|by apply Forall_app|rewrite <- He2; apply Decode_Encode, _].
      unfold len. by rewrite !length_app, Hl. }
    assert (Hdec : DecodeString RawURLEncoding ((EncodeToString RawURLEncoding r1 ++ f2) ++ tail') = Ok (r1 ++ r2')).
    { rewrite <- app_assoc, Decode_app3 by (apply _ || done). by rewrite Hd2. }
    exists (Wrapf "%w: %v" ErrTampered). set (t1 := take (16 - length r2) tag).
    assert (Hsp : r1 = (VersionAEADv1 :: nonce ++ ct) ++ t1 /\ r2 = drop (16 - length r2) tag).
    { apply app_inj_2; [rewrite length_drop; unfold len in Ht; lia|]. unfold t1.
      rewrite <- app_assoc, take_drop, <- Hr, Hd. cbn [app]. by rewrite <- app_assoc. }
    destruct Hsp as [Hr1 Hr2].
    assert (Hr' : r1 ++ r2' = VersionAEADv1 :: nonce ++ ct ++ (t1 ++ r2')) by (rewrite Hr1; cbn [app]; by rewrite <- !app_assoc).
    rewrite Hr' in Hdec.
    assert (Ht' : len (t1 ++ r2') = 16).
    { rewrite len_app, Hlen. unfold t1, len in *. rewrite length_take. lia. }
    rewrite (Open_gcm key b _ nonce ct (t1 ++ r2') aad Hk Hb Hdec Hn Ht').
    rewrite (gcm_Open_other_tag b nonce ct tag (t1 ++ r2') aad p Ht Ht'); [done| |done].
    intros Heq. apply Hsame. rewrite <- app_assoc, Decode_app3, Hd2 by (apply _ || done). cbn [mbind outcome_bind].
    f_equal. rewrite Hr. f_equal. rewrite Hr2. rewrite <- (take_drop (16 - length r2) tag) in Heq. fold t1 in Heq.
    by apply app_inv_head in Heq.
  - exists (Wrapf "%w: %v" ErrInvalidCiphertext).
    assert (Hdec : DecodeString RawURLEncoding ((EncodeToString RawURLEncoding r1 ++ f2) ++ tail') = Err e).
    { rewrite <- app_assoc, Decode_app3 by (apply _ || done). by rewrite Hd2. }
    destruct (gcm_of_key_Ok key Hk) as (c & Hc & _). rewrite (Open_frame key c) by done. unfold frame_open. by rewrite Hdec.
Qed.

(** ** Properties *)

(** C7: the additional data a text is bound to. A text that opens under [aad] opens under other additional
    data [aad'] to the same plaintext or not at all; which of the two depends on the key's hash key,
    the two values and the length of the plaintext, and not on the plaintext, the nonce or the rest of the key.
    It is [ErrTampered] unless the hash key is one of at most
    max(blocks of [aad], blocks of [aad']) + blocks of the plaintext + 1 of the [2^128] values, which
    the two values and the length determine; two values of one length up to 16 bytes are told apart by
    every hash key but zero. *)
Theorem Open_binds_aad key text aad p aad' :
  Open key text aad = Ok p ->
  Open key text aad' =
    (if bool_decide (aad_gap aad aad' (length p) (key_hash key) = 0) then Ok p
     else Err (Wrapf "%w: %v" ErrTampered)) /\
  (aad' <> aad -> len aad < 2 ^ 61 -> len aad' < 2 ^ 61 ->
   forall hs, NoDup hs -> Forall (fun h => blk h /\ aad_gap aad aad' (length p) h = 0) hs ->
     len hs <= Z.max ((len aad + 15) / 16) ((len aad' + 15) / 16) + (len p + 15) / 16 + 1) /\
  (aad' <> aad -> len aad' = len aad -> 0 < len aad <= 16 ->
   Open key text aad' = if bool_decide (key_hash key = 0) then Ok p else Err (Wrapf "%w: %v" ErrTampered)).
Proof.
  intros Ho. split; [by apply Open_other_aad|]. split.
  2: { intros Hne Hl Ha. rewrite (Open_other_aad _ _ _ _ aad' Ho).
       pose proof (aad_gap_one aad aad' (length p) (key_hash key) (blk_key_hash key)) as Hg.
       rewrite (bool_decide_ext _ (key_hash key = 0)); [done|]. apply Hg; congruence || done. }
  intros Hne Ha Ha' hs Hd Hhs.
  pose proof (Open_bound _ _ _ _ Ho) as Hp. unfold gcm_max in Hp.
  assert (Hl : len (replicate (length p) x00) = len p) by (by rewrite len_replicate).
  pose proof (ghash_universal aad (replicate (length p) x00) aad' (replicate (length p) x00) 0 hs) as H.
  unfold blocks in H. rewrite Hl in H. enough (len hs <= Z.max ((len aad + 15) / 16 + (len p + 15) / 16 + 1)
    ((len aad' + 15) / 16 + (len p + 15) / 16 + 1)) by lia.
  apply H; try done; try lia. congruence.
Qed.

(** C4: forging from a sealed text. Take any text that opens, and any other that keeps its nonce, with ciphertext
    and tag of one's own choice and any additional data. It opens exactly when the hash key satisfies a
    condition on the two texts, and is [ErrTampered] otherwise. If ciphertext or
    additional data differ, at most as many of the [2^128] hash keys satisfy it as the longer input has
    16-byte blocks, counting one for the lengths; if only the tag differs, none does. *)
Theorem Open_forgery_bound key text aad p nonce ct tag :
  Open key text aad = Ok p ->
  DecodeString RawURLEncoding text = Ok (VersionAEADv1 :: nonce ++ ct ++ tag) -> len nonce = 12 -> len tag = 16 ->
  forall text' aad' ct' tag',
  DecodeString RawURLEncoding text' = Ok (VersionAEADv1 :: nonce ++ ct' ++ tag') -> len tag' = 16 -> len ct' <= gcm_max ->
  let forged h := hash_gap aad ct aad' ct' (Z.lxor (be_get tag) (be_get tag')) h in
  (if bool_decide (forged (key_hash key)) then exists p', Open key text' aad' = Ok p' /\ len p' = len ct'
   else Open key text' aad' = Err (Wrapf "%w: %v" ErrTampered)) /\
  ((aad, ct) <> (aad', ct') -> len aad < 2 ^ 61 -> len aad' < 2 ^ 61 ->
   forall hs, NoDup hs -> Forall (fun h => blk h /\ forged h) hs -> len hs <= Z.max (blocks aad ct) (blocks aad' ct')) /\
  ((aad, ct) = (aad', ct') -> tag <> tag' -> forall h, ~ forged h).
Proof.
  intros (Hk & b & n & c & t & Hb & HB & Hd & Hn & Ht & Ho & Hl & Hp & _)%Open_split Hd' Hnonce Htag.
  rewrite Hd in Hd'. injection Hd' as Heq. apply app_inj_1 in Heq as [-> Heq]; [|unfold len in *; lia].
  apply app_inj_2 in Heq as [-> ->]; [|unfold len in *; lia].
  intros text' aad' ct' tag' Hd' Htag' Hct' forged. split; [|split].
  - rewrite (Open_gcm key b text' nonce ct' tag' aad' Hk Hb Hd' Hn Htag').
    rewrite (gcm_Open_gap b nonce ct tag aad p ct' tag' aad' Ht Ho Htag' Hct'), (key_hash_eq _ _ Hb). fold (forged (hash_key b)).
    case_bool_decide; [|done]. eexists. split; [done|]. unfold len. by rewrite length_gctr.
  - intros Hne H1 H2 hs Hnd Hhs. unfold gcm_max in *. by eapply (ghash_universal aad ct aad' ct'); [..|exact Hhs]; try lia.
  - intros [= -> ->] Hne h. unfold forged, hash_gap. rewrite Z.lxor_nilpotent. intros Hx. apply eq_sym, Z.lxor_eq in Hx.
    apply Hne. apply be_get_inj; [unfold len in *; lia|done].
Qed.

(** The empty text sealed under the zero key and the zero nonce. *)
Definition zero_text : bytes := lit "AQAAAAAAAAAAAAAAAFMPivvHRTa5qWO08cTLc4s".

Lemma zero_text_opens : Open demo_key zero_text [] = Ok [].
Proof. vm_compute. reflexivity. Qed.

Lemma Open_binds_aad_witness :
  Open demo_key zero_text (lit "user:42") = Err (Wrapf "%w: %v" ErrTampered) /\
  forall h, NoDup h -> Forall (fun h => blk h /\ aad_gap [] (lit "user:42") 0 h = 0) h -> len h <= 2.
Proof.
  destruct (Open_binds_aad demo_key zero_text [] [] (lit "user:42") zero_text_opens) as (Ho & Hb & _). split.
  - rewrite Ho. vm_compute. reflexivity.
  - apply Hb; vm_compute; congruence.
Defined.

Lemma Open_forgery_bound_witness :
  Open demo_key (EncodeToString RawURLEncoding (VersionAEADv1 :: replicate 12 x00 ++ [x2a] ++ vector0_tag)) [] =
    Err (Wrapf "%w: %v" ErrTampered).
Proof.
  destruct (Open_forgery_bound demo_key zero_text [] [] (replicate 12 x00) [] vector0_tag zero_text_opens)
    with (text' := EncodeToString RawURLEncoding (VersionAEADv1 :: replicate 12 x00 ++ [x2a] ++ vector0_tag))
         (aad' := @nil byte) (ct' := [x2a]) (tag' := vector0_tag) as [Ho _];
    [vm_compute; congruence..|].
  rewrite bool_decide_eq_false_2 in Ho; [exact Ho|]. vm_compute. discriminate.
Defined.
