(* ===== verification/ChaCha.v ===== *)
(** * ChaCha20-Poly1305 sealing: [aead_chacha20.go]

    The cipher is a third-party package, so [chacha20poly1305.New] is a parameter; what the
    library relies on is the class [ChaChaOk]. *)

From S2P Require Import Prelude Errors Base64 GoIO Sha256 Aes Cipher Format Aead.

(** [chacha20poly1305.New] and its documented behaviour: a 32-byte key gives an AEAD with
    12-byte nonces and 16-byte tags, for plaintexts of at most [2^38 - 64] bytes; any other
    size is an error. *)
Definition chacha_max : Z := 2 ^ 38 - 64.

Class ChaChaOk (New : bytes -> outcome AEAD) : Prop := {
  chacha_New_Ok key : len key = 32 -> exists c, New key = Ok c /\ AEADOk c chacha_max;
  chacha_New_Err key : len key <> 32 -> exists e, New key = Err e
}.

(** ** Operations *)

Section ops.
Context (New : bytes -> outcome AEAD).

Definition sealChaCha20WithNonce (key plaintext aad : bytes) (nonce : option bytes) : M bytes :=
  if negb (len key =? AEADKeySize) then
    fail (Wrapf "%w: ChaCha20 requires %d bytes; got %d" ErrInvalidKey)
  else
    c ← lift (map_err (Wrapf "crypt: chacha20poly1305.New: %w") (New key));
    nonce ← match nonce with
            | None => map_errM (Wrapf "crypt: random nonce: %w") (ReadRand aeadNonceSize)
            | Some n =>
                if negb (len n =? aeadNonceSize)
                then fail (Errorf "crypt: nonce must be %d bytes; got %d") else mret n
            end;
    let out := [] ++ [VersionAEADv2] in
    let out := out ++ nonce in
    out ← lift (aead_Seal c out nonce plaintext aad);
    mret (EncodeToString RawURLEncoding out).

Definition SealChaCha20 (key plaintext aad : bytes) : M bytes :=
  sealChaCha20WithNonce key plaintext aad None.

Definition OpenChaCha20 (key ciphertext aad : bytes) : outcome bytes :=
  if negb (len key =? AEADKeySize) then
    Err (Wrapf "%w: ChaCha20 requires %d bytes; got %d" ErrInvalidKey)
  else
    raw ← map_err (fun _ => Wrapf "%w: %v" ErrInvalidCiphertext)
            (DecodeString RawURLEncoding ciphertext);
    if len raw <? aeadMinSize then Err ErrCiphertextTooShort
    else
      version ← index raw 0;
      if negb (bool_decide (version = VersionAEADv2)) then
        Err (Wrapf "%w: 0x%02x" ErrUnsupportedVersion)
      else
        c ← map_err (Wrapf "crypt: chacha20poly1305.New: %w") (New key);
        nonce ← slice raw 1 aeadHeaderSize;
        body ← slice_from raw aeadHeaderSize;
        map_err (fun _ => Wrapf "%w: %v" ErrTampered) (aead_Open c nonce body aad).
End ops.

(** ** A concrete cipher for the witnesses

    An AEAD that does not hide the plaintext and whose tag is a checksum of its inputs: it has
    the laws of the interface and nothing else in common with the package. *)

Definition mac_tag (key nonce p aad : bytes) : bytes :=
  replicate 16 (fold_left bxor (key ++ nonce ++ p ++ aad) x00).

Definition mac_AEAD (maxp : Z) (key : bytes) : AEAD := {|
  aead_Seal := fun dst nonce p aad =>
    if (len nonce =? 12) && (len p <=? maxp)
    then Ok (dst ++ p ++ mac_tag key nonce p aad) else Panic "bad call";
  aead_Open := fun nonce ct aad =>
    let p := take (length ct - 16) ct in
    if (len nonce =? 12) && (16 <=? len ct) && (len p <=? maxp) &&
       bool_decide (ct = p ++ mac_tag key nonce p aad)
    then Ok p else Err errOpen
|}.

Definition mac_New (key : bytes) : outcome AEAD :=
  if len key =? 32 then Ok (mac_AEAD chacha_max key) else Err (ErrorString "bad key length").

Lemma length_mac_tag key nonce p aad : length (mac_tag key nonce p aad) = 16%nat.
Proof. apply length_replicate. Qed.

Lemma mac_AEAD_ok maxp key : AEADOk (mac_AEAD maxp key) maxp.
Proof.
  split; simpl.
  - intros nonce p aad Hn Hp. exists (p ++ mac_tag key nonce p aad).
    unfold len in *. rewrite !length_app, length_mac_tag.
    replace (length p + 16 - 16)%nat with (length p) by lia.
    rewrite take_app_length, Hn. unfold len.
    rewrite !(proj2 (Z.leb_le _ _)) by lia. rewrite bool_decide_eq_true_2 by done.
    split; [lia|done].
  - intros nonce ct aad p. case_bool; [|discriminate]. intros [= <-]. b2p.
    repeat match goal with H : _ /\ _ |- _ => destruct H end.
    split; [done|]. split; [done|]. intros dst.
    match goal with H : bool_decide _ = true |- _ => apply bool_decide_eq_true in H as Hct end.
    rewrite (proj2 (Z.eqb_eq _ _)), (proj2 (Z.leb_le _ _)) by done. simpl. by rewrite <- Hct.
  - intros dst nonce p aad out. case_bool; [|discriminate]. b2p. done.
  - intros nonce ct aad _ _. by case_bool.
Qed.

#[global] Instance mac_New_ok : ChaChaOk mac_New.
Proof.
  split; intros key H; unfold mac_New.
  - rewrite H. simpl. eexists. split; [done|]. apply mac_AEAD_ok.
  - rewrite (proj2 (Z.eqb_neq _ _)) by done. eauto.
Qed.

(** ** Lemmas *)

Section lemmas.
Context (New : bytes -> outcome AEAD) `{!ChaChaOk New}.

Lemma chacha_key key c : New key = Ok c -> len key = 32 /\ AEADOk c chacha_max.
Proof.
  intros H. destruct (decide (len key = 32)) as [Hk|Hk].
  - destruct (chacha_New_Ok key Hk) as (c' & H' & Hok). split; [done|]. congruence.
  - destruct (chacha_New_Err key Hk) as [e He]. congruence.
Qed.

Lemma OpenChaCha20_frame key c text aad :
  len key = 32 -> New key = Ok c ->
  OpenChaCha20 New key text aad = frame_open VersionAEADv2 c text aad.
Proof.
  intros Hk Hc. unfold OpenChaCha20, frame_open.
  change AEADKeySize with 32. rewrite Hk, Z.eqb_refl. cbn [negb]. by rewrite Hc.
Qed.

Lemma OpenChaCha20_short_key key text aad :
  len key <> 32 -> exists f, OpenChaCha20 New key text aad = Err (Wrapf f ErrInvalidKey).
Proof. intros H. unfold OpenChaCha20. rewrite (proj2 (Z.eqb_neq _ _)) by done. eauto. Qed.

Lemma sealChaCha20_run key p aad nonce w w1 n c body :
  len key = 32 -> New key = Ok c ->
  match nonce with
  | Some n' => n' = n /\ w1 = w /\ len n = 12
  | None => ReadRand aeadNonceSize w = (Ok n, w1)
  end ->
  (forall dst, aead_Seal c dst n p aad = Ok (dst ++ body)) ->
  sealChaCha20WithNonce New key p aad nonce w =
    (Ok (EncodeToString RawURLEncoding (VersionAEADv2 :: n ++ body)), w1).
Proof.
  intros Hk Hc Hn Hs. unfold sealChaCha20WithNonce.
  change AEADKeySize with 32. rewrite Hk, Z.eqb_refl. cbn [negb].
  rewrite (M_lift_bind _ c) by (by rewrite Hc).
  erewrite M_bind_Ok; [rewrite (M_lift_bind _ _ _ _ (Hs _)); reflexivity|].
  destruct nonce as [n'|].
  - destruct Hn as (-> & -> & Hn). change aeadNonceSize with 12. by rewrite Hn.
  - by apply map_errM_Ok.
Qed.

(** A sealed text: what [OpenChaCha20] and [Open] make of it. *)
Lemma SealChaCha20_run key p aad w :
  len key = 32 -> len p <= chacha_max -> has_random 12 w ->
  exists s w', SealChaCha20 New key p aad w = (Ok s, w') /\ after_random 12 w w' /\
    2 <= len s <= 4 * (len p + 30) /\ OpenChaCha20 New key s aad = Ok p /\
    Open key s aad = Err (Wrapf "%w: 0x%02x" ErrUnsupportedVersion).
Proof.
  intros Hk Hp Hw. destruct (chacha_New_Ok key Hk) as (c & Hc & Hok).
  destruct (ReadRand_Ok 12 w ltac:(lia) Hw) as (w' & Hr & Ha).
  pose proof (len_next_random 12 w ltac:(lia) Hw) as Hn. pose proof (len_nonneg p) as Hp0.
  destruct (frame_roundtrip VersionAEADv2 c chacha_max (next_random 12 w) p aad)
    as (body & Hs & Hl & Ho); [done..|].
  destruct (gcm_of_key_Ok key Hk) as (g & Hg & _).
  do 2 eexists. split; [eapply (sealChaCha20_run key p aad None); eauto|].
  split; [done|]. split; [|split].
  - rewrite len_Encode, len_cons, len_app, Hn, Hl. Z.to_euclidean_division_equations. lia.
  - by rewrite (OpenChaCha20_frame key c).
  - by rewrite (Open_frame key g), (frame_open_cons _ _ _ VersionAEADv2 (next_random 12 w) body) by
      (done || lia || apply Decode_Encode, _).
Qed.

Lemma OpenChaCha20_no_panic key text aad :
  len text <= chacha_max -> panics (OpenChaCha20 New key text aad) = false.
Proof.
  intros Ht. destruct (decide (len key = 32)) as [Hk|Hk].
  - destruct (chacha_New_Ok key Hk) as (c & Hc & Hok). rewrite (OpenChaCha20_frame key c) by done.
    apply frame_open_no_panic. intros. apply (open_no_panic (maxp:=chacha_max)); [done|lia].
  - by destruct (OpenChaCha20_short_key key text aad Hk) as [f ->].
Qed.
End lemmas.

(** ** Properties *)

(** C36: [SealChaCha20] then [OpenChaCha20] returns the plaintext, and a text sealed by either
    AEAD is refused by the other reader with [ErrUnsupportedVersion]: the version byte keeps the
    two formats apart even under one key. *)
Theorem ChaCha20_roundtrip New `{!ChaChaOk New} key p aad w :
  len key = AEADKeySize -> len p <= gcm_max -> has_random 12 w ->
  exists s w', SealChaCha20 New key p aad w = (Ok s, w') /\ after_random 12 w w' /\
    OpenChaCha20 New key s aad = Ok p /\
    fails_with (Open key s aad) ErrUnsupportedVersion = true /\
    exists s1 w1, Seal key p aad w = (Ok s1, w1) /\
      fails_with (OpenChaCha20 New key s1 aad) ErrUnsupportedVersion = true.
Proof.
  intros Hk Hp Hw. destruct (chacha_New_Ok key Hk) as (c & Hc & Hok). pose proof (len_nonneg p) as Hp0.
  destruct (SealChaCha20_run New key p aad w) as (s & w' & Hs & Ha & _ & Ho & He);
    [done|unfold gcm_max, chacha_max in *; lia|done|].
  destruct (Seal_run key p aad w Hk Hp Hw) as (g & body & w1 & _ & _ & Hl & _ & Hgs & _).
  pose proof (len_next_random 12 w ltac:(lia) Hw) as Hn.
  exists s, w'. split; [done|]. split; [done|]. split; [done|]. split; [by rewrite He|].
  do 2 eexists. split; [exact Hgs|]. rewrite (OpenChaCha20_frame New key c) by done.
  rewrite (frame_open_cons _ _ _ VersionAEADv1 (next_random 12 w) body) by
    (done || lia || apply Decode_Encode, _). done.
Qed.

Lemma ChaCha20_roundtrip_witness :
  exists s w', SealChaCha20 mac_New demo_key (lit "attack at dawn") [] demo_world = (Ok s, w') /\
    OpenChaCha20 mac_New demo_key s [] = Ok (lit "attack at dawn").
Proof.
  destruct (ChaCha20_roundtrip mac_New demo_key (lit "attack at dawn") [] demo_world)
    as (s & w' & H1 & _ & H2 & _); [done|vm_compute; discriminate..|]. eauto.
Defined.

(** [OpenChaCha20] accepts exactly the texts that decode as [sealChaCha20WithNonce] outputs for
    this key, plaintext and AAD. *)
Theorem OpenChaCha20_accepts_exactly_sealed New `{!ChaChaOk New} key text aad p w :
  OpenChaCha20 New key text aad = Ok p <->
  exists nonce s, sealChaCha20WithNonce New key p aad (Some nonce) w = (Ok s, w) /\
    DecodeString RawURLEncoding text = DecodeString RawURLEncoding s.
Proof.
  split.
  - intros H. destruct (decide (len key = 32)) as [Hk|Hk].
    2: { destruct (OpenChaCha20_short_key New key text aad Hk) as [f Hf]. congruence. }
    destruct (chacha_New_Ok key Hk) as (c & Hc & Hok).
    rewrite (OpenChaCha20_frame New key c), (frame_open_accepts _ c chacha_max) in H by done.
    destruct H as (nonce & body & Hn & Hd & Hs).
    destruct (seal_bound _ _ _ _ _ Hs) as [Hn' Hp].
    destruct (seal_open nonce p aad Hn' Hp) as (body' & _ & Hs' & _).
    rewrite Hs' in Hs. injection Hs as <-.
    exists nonce. eexists. split; [by eapply (sealChaCha20_run New key p aad (Some nonce))|].
    rewrite Hd. symmetry. apply Decode_Encode, _.
  - intros (nonce & s & Hs & Hd). revert Hs. unfold sealChaCha20WithNonce.
    change AEADKeySize with 32. destruct (Z.eqb_spec (len key) 32) as [Hk|Hk]; [|discriminate].
    cbn [negb]. intros (c & Hc%map_err_Ok & H)%M_lift_bind_inv.
    change aeadNonceSize with 12 in H.
    apply M_bind_Ok_inv in H as (n & w3 & Hn & H).
    destruct (negb (len nonce =? 12)); [discriminate|]. injection Hn as <- <-.
    apply M_lift_bind_inv in H as (out & Ho & [= <-]).
    destruct (chacha_key New key c Hc) as [_ Hok].
    destruct (seal_bound _ _ _ _ _ Ho) as [Hn12 Hp].
    destruct (seal_open nonce p aad Hn12 Hp) as (body & _ & Hsl & _).
    rewrite Hsl in Ho. injection Ho as <-.
    rewrite (OpenChaCha20_frame New key c) by done.
    apply (frame_open_accepts _ c chacha_max).
    exists nonce, body. split; [done|]. split; [|apply Hsl]. rewrite Hd. apply Decode_Encode, _.
Qed.

Definition demo_chacha_text : bytes :=
  EncodeToString RawURLEncoding ([x02] ++ replicate 12 x07 ++ lit "x" ++ replicate 16 x78).

Lemma OpenChaCha20_accepts_exactly_sealed_witness :
  exists nonce s,
    sealChaCha20WithNonce mac_New demo_key (lit "x") [] (Some nonce) demo_world = (Ok s, demo_world)
    /\ DecodeString RawURLEncoding demo_chacha_text = DecodeString RawURLEncoding s.
Proof.
  apply (OpenChaCha20_accepts_exactly_sealed mac_New demo_key demo_chacha_text [] (lit "x") demo_world).
  vm_compute. reflexivity.
Defined.
