(* ===== verification/Cbc.v ===== *)
(** * AES-CBC with PKCS#7 padding: [cbc.go]

    [EncryptCBC], [DecryptCBC], the padding helpers and the deprecated string wrappers. *)

From S2P Require Import Prelude Errors Hex GoIO Aes Cipher.

(** ** Operations *)

Definition validCBCKeyLen (n : Z) : bool := (n =? 16) || (n =? 24) || (n =? 32).

Definition pad (buf : bytes) (size : Z) : outcome bytes :=
  let bufLen := len buf in
  let padLen := size - bufLen mod size in
  Ok (buf ++ replicate (Z.to_nat padLen) (to_byte padLen)).

Definition unpad (buf : bytes) (size : Z) : outcome bytes :=
  if (len buf =? 0) || negb (len buf mod size =? 0) then Err ErrInvalidPadding
  else
    last ← index buf (len buf - 1);
    let pad := bval last in
    if (pad =? 0) || (size <? pad) || (len buf <? pad) then Err ErrInvalidPadding
    else
      tail ← slice_from buf (len buf - pad);
      if negb (forallb (fun b => bval b =? pad) tail) then Err ErrInvalidPadding
      else slice buf 0 (len buf - pad).

Definition EncryptCBC (key plaintext : bytes) : M bytes :=
  if negb (validCBCKeyLen (len key)) then
    fail (Wrapf "%w: CBC requires 16, 24, or 32 bytes; got %d" ErrInvalidKey)
  else
    plain ← lift (pad plaintext aes_BlockSize);
    block ← lift (map_err (Wrapf "crypt: aes.NewCipher: %w") (NewCipher key));
    iv ← map_errM (Wrapf "crypt: random IV: %w") (ReadRand aes_BlockSize);
    body ← lift (CBCEncrypt block iv plain);
    mret (Hex.EncodeToString (iv ++ body)).

Definition DecryptCBC (key ciphertext : bytes) : outcome bytes :=
  if negb (validCBCKeyLen (len key)) then
    Err (Wrapf "%w: CBC requires 16, 24, or 32 bytes; got %d" ErrInvalidKey)
  else
    raw ← map_err (fun _ => Wrapf "%w: %v" ErrInvalidCiphertext) (Hex.DecodeString ciphertext);
    if len raw <? aes_BlockSize then Err ErrCiphertextTooShort
    else
      block ← map_err (Wrapf "crypt: aes.NewCipher: %w") (NewCipher key);
      iv ← slice raw 0 aes_BlockSize;
      body ← slice_from raw aes_BlockSize;
      if negb (len body mod aes_BlockSize =? 0) then Err ErrCiphertextNotBlockAligned
      else
        body ← CBCDecrypt block iv body;
        unpad body aes_BlockSize.

(** The deprecated wrappers; Go strings and byte slices are the same lists here. *)
Module Cipher.

Record Cipher := { key : bytes }.

Definition New (key : bytes) : outcome Cipher :=
  if negb (validCBCKeyLen (len key)) then
    Err (Wrapf "%w: CBC requires 16, 24, or 32 bytes; got %d" ErrInvalidKey)
  else Ok {| key := key |}.

Definition Encrypt (c : Cipher) (plaintext : bytes) : M bytes := EncryptCBC (key c) plaintext.

Definition Decrypt (c : Cipher) (ciphertext : bytes) : outcome bytes :=
  out ← DecryptCBC (key c) ciphertext; Ok out.

End Cipher.

Definition EncryptWithKey (key plaintext : bytes) : M bytes := EncryptCBC key plaintext.

Definition DecryptWithKey (key ciphertext : bytes) : outcome bytes :=
  out ← DecryptCBC key ciphertext; Ok out.

(** ** Padding *)

Lemma validCBCKeyLen_spec n : validCBCKeyLen n = true <-> n = 16 \/ n = 24 \/ n = 32.
Proof. unfold validCBCKeyLen. rewrite !orb_true_iff, !Z.eqb_eq. tauto. Qed.

Definition pad_len (p : bytes) : Z := 16 - len p mod 16.

Lemma pad_len_range p : 1 <= pad_len p <= 16.
Proof. unfold pad_len. pose proof (Z.mod_pos_bound (len p) 16 eq_refl). lia. Qed.

Definition padding (p : bytes) : bytes := replicate (Z.to_nat (pad_len p)) (to_byte (pad_len p)).

Lemma pad_16 p : pad p aes_BlockSize = Ok (p ++ padding p).
Proof. done. Qed.

Lemma len_padding p : len (padding p) = pad_len p.
Proof. unfold padding. rewrite len_replicate. pose proof (pad_len_range p). lia. Qed.

Lemma len_padded p : len (p ++ padding p) = 16 * (len p / 16 + 1).
Proof. rewrite len_app, len_padding. unfold pad_len. pose proof (Z.div_mod (len p) 16). lia. Qed.

Lemma padded_aligned p : len (p ++ padding p) mod 16 = 0.
Proof. rewrite len_padded, Z.mul_comm. by apply Z.mod_mul. Qed.

(** [unpad] inverts [pad], and accepts nothing else. *)
Lemma unpad_pad p : unpad (p ++ padding p) 16 = Ok p.
Proof.
  pose proof (pad_len_range p) as Hr. pose proof (len_nonneg p) as H0.
  pose proof (len_padding p) as Hl. unfold unpad.
  assert (Hlen := len_padded p).
  rewrite (proj2 (Z.eqb_neq _ 0)) by (rewrite len_app; lia).
  rewrite padded_aligned.
  cbn [orb negb Z.eqb].
  assert (Hix : index (p ++ padding p) (len (p ++ padding p) - 1) = Ok (to_byte (pad_len p))).
  { destruct (index_Ok (p ++ padding p) (len (p ++ padding p) - 1)) as (x & -> & Hx);
      [rewrite len_app in *; lia|].
    rewrite lookup_app_r in Hx by (unfold len in *; rewrite length_app in *; lia).
    apply lookup_replicate in Hx as [-> _]. done. }
  rewrite Hix. cbn [mbind outcome_bind]. rewrite bval_to_byte_small by lia.
  rewrite (proj2 (Z.eqb_neq _ _)), !(proj2 (Z.ltb_ge _ _)) by (rewrite ?len_app; lia).
  cbn [orb]. rewrite (slice_from_app p) by (rewrite len_app; lia).
  cbn [mbind outcome_bind].
  assert (forallb (fun b => bval b =? pad_len p) (padding p) = true) as ->.
  { apply forallb_forall. intros b Hb. apply list_elem_of_In, elem_of_replicate in Hb as [-> _].
    rewrite bval_to_byte_small by lia. apply Z.eqb_refl. }
  cbn [negb]. apply (slice_app [] p (padding p)); [done|]. rewrite len_app. change (len []) with 0. lia.
Qed.

Lemma unpad_inv buf p : unpad buf 16 = Ok p -> buf = p ++ padding p.
Proof.
  unfold unpad. destruct ((len buf =? 0) || negb (len buf mod 16 =? 0)) eqn:E; [discriminate|].
  b2p. intros (b & _ & Hu)%bind_Ok_inv.
  destruct ((bval b =? 0) || (16 <? bval b) || (len buf <? bval b)) eqn:E2; [discriminate|].
  b2p. pose proof (bval_range b).
  rewrite slice_from_Ok in Hu by lia. cbn [mbind outcome_bind] in Hu.
  set (n := Z.to_nat (len buf - bval b)) in *.
  destruct (forallb (fun b0 => bval b0 =? bval b) (drop n buf)) eqn:Hall; [|discriminate].
  cbn [negb] in Hu. rewrite slice_Ok in Hu by lia. injection Hu as Hp.
  rewrite Z.sub_0_r in Hp. fold n in Hp. change (Z.to_nat 0) with 0%nat in Hp.
  rewrite drop_0 in Hp. subst p.
  assert (Hlen : len (take n buf) = len buf - bval b)
    by (unfold len in *; rewrite length_take; lia).
  rewrite <- (take_drop n buf) at 1. f_equal. unfold padding, pad_len.
  rewrite Hlen. replace ((len buf - bval b) mod 16) with (16 - bval b).
  2: { Z.to_euclidean_division_equations. lia. }
  replace (16 - (16 - bval b)) with (bval b) by lia. rewrite to_byte_bval.
  apply list_eq_Forall2, Forall2_same_length_lookup_2.
  { unfold len in *. rewrite length_drop, length_replicate. lia. }
  intros i x y Hx Hy. apply lookup_replicate in Hy as [-> _].
  rewrite forallb_forall in Hall. apply bval_inj, Z.eqb_eq, Hall.
  apply list_elem_of_In, list_elem_of_lookup. eauto.
Qed.

(** ** Encryption and decryption of raw bytes *)

Lemma DecryptCBC_raw key b iv c :
  NewCipher key = Ok b -> len iv = 16 ->
  DecryptCBC key (Hex.EncodeToString (iv ++ c)) =
    (if negb (len c mod 16 =? 0) then Err ErrCiphertextNotBlockAligned
     else m ← CBCDecrypt b iv c; unpad m 16).
Proof.
  intros Hb Hiv. unfold DecryptCBC.
  assert (validCBCKeyLen (len key) = true) as ->.
  { unfold NewCipher in Hb. unfold validCBCKeyLen. destruct (_ || _); [done|discriminate]. }
  cbn [negb]. rewrite Hex.hex_roundtrip. cbn [map_err mbind outcome_bind].
  pose proof (len_nonneg c). change aes_BlockSize with 16.
  rewrite (proj2 (Z.ltb_ge _ _)) by (rewrite len_app; lia).
  rewrite Hb. cbn [map_err mbind outcome_bind].
  rewrite (slice_app [] iv c) by (done || by rewrite Hiv). cbn [mbind outcome_bind].
  rewrite (slice_from_app iv c) by done. done.
Qed.

Lemma EncryptCBC_inv key p w s w' :
  EncryptCBC key p w = (Ok s, w') ->
  validCBCKeyLen (len key) = true /\
  exists b c, NewCipher key = Ok b /\ BlockOk b /\ has_random 16 w /\ after_random 16 w w' /\
    CBCEncrypt b (next_random 16 w) (p ++ padding p) = Ok c /\
    s = Hex.EncodeToString (next_random 16 w ++ c).
Proof.
  unfold EncryptCBC. destruct (validCBCKeyLen (len key)) eqn:Hk; [|discriminate]. cbn [negb].
  rewrite pad_16. intros (plain & [= <-] & H)%M_lift_bind_inv.
  apply M_lift_bind_inv in H as (b & Hb%map_err_Ok & H).
  apply M_bind_Ok_inv in H as (iv & w1 & Hiv%map_errM_Ok_inv & H).
  apply ReadRand_Ok_inv in Hiv as (-> & Hr & Ha); [|done].
  apply M_lift_bind_inv in H as (c & Hc & [= <- <-]).
  split; [done|]. exists b, c. split; [done|]. split; [by eapply NewCipher_BlockOk|]. done.
Qed.

(** A CBC text decrypts under its key: shared by the components that call both. *)
Lemma EncryptCBC_then_Decrypt key p w s w' :
  EncryptCBC key p w = (Ok s, w') -> DecryptCBC key s = Ok p.
Proof.
  intros (_ & b & c & Hb & Hok & Hr & _ & Hc & ->)%EncryptCBC_inv.
  pose proof (len_next_random 16 w ltac:(lia) Hr) as Hiv.
  pose proof (padded_aligned p) as Ha.
  destruct (CBC_roundtrip b (next_random 16 w) _ Hiv Ha) as (c' & Hc' & Hl & Hd).
  assert (c' = c) as -> by congruence.
  rewrite (DecryptCBC_raw key b) by done. rewrite Hl, Ha. cbn [negb Z.eqb].
  rewrite Hd. apply unpad_pad.
Qed.

Lemma EncryptCBC_run key p w :
  validCBCKeyLen (len key) = true -> has_random 16 w ->
  exists s w', EncryptCBC key p w = (Ok s, w') /\ after_random 16 w w' /\
    len s = 32 * (len p / 16 + 2).
Proof.
  intros Hk Hr. destruct (NewCipher_Ok key) as (b & Hb & Hok); [by apply validCBCKeyLen_spec|].
  destruct (ReadRand_Ok 16 w ltac:(lia) Hr) as (w' & Hw & Ha).
  pose proof (len_next_random 16 w ltac:(lia) Hr) as Hiv.
  destruct (CBC_roundtrip b (next_random 16 w) (p ++ padding p) Hiv) as (c & Hc & Hl & _).
  { apply padded_aligned. }
  exists (Hex.EncodeToString (next_random 16 w ++ c)), w'. split; [|split; [done|]].
  - unfold EncryptCBC. rewrite Hk. cbn [negb]. rewrite pad_16.
    rewrite (M_lift_bind _ (p ++ padding p)) by done.
    rewrite (M_lift_bind _ b) by (by rewrite Hb).
    erewrite M_bind_Ok by (by apply map_errM_Ok).
    by rewrite (M_lift_bind _ c) by done.
  - rewrite Hex.hex_length, len_app, Hiv, Hl, len_padded. lia.
Qed.

(** ** Totality of the decryptor *)

Lemma unpad_result buf :
  (exists p, unpad buf 16 = Ok p) \/ unpad buf 16 = Err ErrInvalidPadding.
Proof.
  unfold unpad. case_bool; [auto|]. b2p. pose proof (len_nonneg buf).
  destruct (index_Ok buf (len buf - 1)) as (b & -> & _); [lia|]. cbn [mbind outcome_bind].
  pose proof (bval_range b). case_bool; [auto|]. b2p.
  rewrite slice_from_Ok by lia. cbn [mbind outcome_bind]. case_bool; [auto|].
  rewrite slice_Ok by lia. eauto.
Qed.

Lemma CBCDecrypt_len b `{!BlockOk b} iv c :
  len iv = 16 -> len c mod 16 = 0 -> exists m, CBCDecrypt b iv c = Ok m /\ len m = len c.
Proof.
  intros Hiv Hc. unfold CBCDecrypt. rewrite Hiv, Hc. cbn [negb Z.eqb Pos.eqb].
  eexists. split; [done|]. rewrite <- (chunks_join 16 c) at 2 by lia.
  pose proof (chunks_aligned 16 c ltac:(lia) Hc) as Hall. clear Hc.
  assert (Hl : length iv = 16%nat) by (unfold len in Hiv; lia). clear Hiv.
  revert iv Hl. induction Hall as [|x xs Hx _ IH]; intros iv Hl; [done|].
  simpl. rewrite !len_app, (IH x) by done. f_equal.
  unfold len. rewrite length_zip_with, blk_Decrypt_length by done. lia.
Qed.

(** Masking the IV masks the first block of the decryption and nothing else. *)
Lemma CBCDecrypt_iv b `{!BlockOk b} iv d c m :
  len iv = 16 -> len d = 16 -> len c mod 16 = 0 -> 0 < len c ->
  CBCDecrypt b iv c = Ok m ->
  CBCDecrypt b (zip_with bxor iv d) c = Ok (zip_with bxor (take 16 m) d ++ drop 16 m).
Proof.
  intros Hiv Hd Hc Hpos. pose proof (chunks_aligned 16 c ltac:(lia) Hc) as Hall.
  unfold CBCDecrypt.
  assert (len (zip_with bxor iv d) = 16) as ->
    by (unfold len in *; rewrite length_zip_with; lia).
  rewrite Hiv, Hc. cbn [negb Z.eqb Pos.eqb]. intros [= <-]. f_equal.
  destruct (chunks 16 c) as [|x xs] eqn:Hx.
  { exfalso. rewrite <- (chunks_join 16 c), Hx in Hpos by lia. done. }
  apply Forall_cons in Hall as [Hxl _]. cbn [cbc_decrypt_blocks mjoin list_join].
  assert (Hz : length (zip_with bxor (blk_Decrypt b x) iv) = 16%nat).
  { unfold len in *. rewrite length_zip_with, blk_Decrypt_length by done. lia. }
  change (mjoin (?h :: ?t)) with (h ++ mjoin t).
  rewrite take_app_len, drop_app_len by done. f_equal.
  unfold len in *. generalize (blk_Decrypt_length x Hxl). generalize (blk_Decrypt b x). intros y Hy.
  apply list_eq. intros i. rewrite !lookup_zip_with.
  destruct (y !! i), (iv !! i), (d !! i); simpl; try done. by rewrite bxor_assoc.
Qed.

(** ** Properties *)

(** C35: for every AES key size and every plaintext, [EncryptCBC] with 16 random bytes returns
    the hexadecimal form of IV and whole padded blocks ([16(N/16+1)] bytes of ciphertext) and
    [DecryptCBC] returns the plaintext; the deprecated wrappers compute the same functions. *)
Theorem CBC_encrypt_decrypt key p w :
  validCBCKeyLen (len key) = true -> has_random 16 w ->
  exists s w', EncryptCBC key p w = (Ok s, w') /\ after_random 16 w w' /\
    len s = 2 * (16 + 16 * (len p / 16 + 1)) /\ DecryptCBC key s = Ok p /\
    EncryptWithKey key p w = (Ok s, w') /\ DecryptWithKey key s = Ok p /\
    exists c, Cipher.New key = Ok c /\ Cipher.Encrypt c p w = (Ok s, w') /\
      Cipher.Decrypt c s = Ok p.
Proof.
  intros Hk Hr. destruct (EncryptCBC_run key p w Hk Hr) as (s & w' & Hs & Ha & Hl).
  pose proof (EncryptCBC_then_Decrypt _ _ _ _ _ Hs) as Hd.
  exists s, w'. split; [done|]. split; [done|]. split; [lia|]. split; [done|].
  split; [done|]. unfold DecryptWithKey, Cipher.New. rewrite Hd, Hk. split; [done|].
  eexists. split; [done|]. split; [done|]. unfold Cipher.Decrypt. simpl. by rewrite Hd.
Qed.

Lemma CBC_encrypt_decrypt_witness :
  exists s w', EncryptCBC (replicate 24 x2a) (lit "sk_live_aaaa1111") demo_world = (Ok s, w') /\
    DecryptCBC (replicate 24 x2a) s = Ok (lit "sk_live_aaaa1111").
Proof.
  destruct (CBC_encrypt_decrypt (replicate 24 x2a) (lit "sk_live_aaaa1111") demo_world)
    as (s & w' & H1 & _ & _ & H2 & _); [done|vm_compute; discriminate|]. eauto.
Defined.

(** [unpad] accepts a buffer exactly when it is the padding of its result: full blocks, a
    last byte between 1 and 16, and that many equal bytes; everything else is
    [ErrInvalidPadding]. *)
Theorem unpad_exactly_pad buf p :
  (unpad buf aes_BlockSize = Ok p <-> pad p aes_BlockSize = Ok buf) /\
  (unpad buf aes_BlockSize = Err ErrInvalidPadding <->
   forall q, pad q aes_BlockSize <> Ok buf).
Proof.
  assert (Hiff : forall q, unpad buf aes_BlockSize = Ok q <-> pad q aes_BlockSize = Ok buf).
  { intros q. rewrite pad_16. split.
    - intros H. by rewrite <- (unpad_inv buf q H).
    - intros [= <-]. apply unpad_pad. }
  split; [apply Hiff|]. split.
  - intros H q Hq. apply Hiff in Hq. congruence.
  - intros H. destruct (unpad_result buf) as [[q Hq]|Hq]; [|done].
    exfalso. by apply (H q), Hiff.
Qed.

(** [DecryptCBC] never panics; its errors are, in order, [ErrInvalidKey],
    [ErrInvalidCiphertext], [ErrCiphertextTooShort] below one block, [ErrCiphertextNotBlockAligned],
    and otherwise the result is the unpadding of as many bytes as follow the IV, so
    [ErrInvalidPadding] is the only other error. *)
Theorem DecryptCBC_total key text :
  panics (DecryptCBC key text) = false /\
  if negb (validCBCKeyLen (len key)) then fails_with (DecryptCBC key text) ErrInvalidKey = true
  else match Hex.DecodeString text with
  | Ok raw =>
      if len raw <? 16 then DecryptCBC key text = Err ErrCiphertextTooShort
      else if negb (len raw mod 16 =? 0) then DecryptCBC key text = Err ErrCiphertextNotBlockAligned
      else exists m, len m = len raw - 16 /\ DecryptCBC key text = unpad m 16
  | _ => fails_with (DecryptCBC key text) ErrInvalidCiphertext = true
  end.
Proof.
  unfold DecryptCBC. destruct (validCBCKeyLen (len key)) eqn:Hk; [|done]. cbn [negb].
  destruct (NewCipher_Ok key) as (b & Hb & Hok); [by apply validCBCKeyLen_spec|].
  pose proof (Hex.hex_no_panic text) as Hp.
  destruct (Hex.DecodeString text) as [raw|e|m]; [|done..].
  cbn [map_err mbind outcome_bind]. change aes_BlockSize with 16.
  destruct (Z.ltb_spec (len raw) 16) as [Hl|Hl]; [done|].
  rewrite Hb. cbn [map_err mbind outcome_bind].
  rewrite slice_Ok, slice_from_Ok by lia. cbn [mbind outcome_bind].
  change (Z.to_nat (16 - 0)) with 16%nat. change (Z.to_nat 0) with 0%nat.
  change (Z.to_nat 16) with 16%nat. rewrite drop_0.
  assert (Hb1 : len (take 16 raw) = 16) by (unfold len in *; rewrite length_take; lia).
  assert (Hb2 : len (drop 16 raw) = len raw - 16)
    by (unfold len in *; rewrite length_drop; lia).
  replace (len (drop 16 raw) mod 16) with (len raw mod 16).
  2: { rewrite Hb2. replace (len raw - 16) with (len raw + (-1) * 16) by lia. by rewrite Z.mod_add. }
  destruct (Z.eqb_spec (len raw mod 16) 0) as [Ha|Ha]; [|done]. cbn [negb].
  destruct (CBCDecrypt_len b (take 16 raw) (drop 16 raw) Hb1) as (m & Hm & Hml).
  { rewrite Hb2. replace (len raw - 16) with (len raw + (-1) * 16) by lia. by rewrite Z.mod_add. }
  rewrite Hm. cbn [mbind outcome_bind]. split.
  - by destruct (unpad_result m) as [[p ->]| ->].
  - exists m. split; [lia|done].
Qed.

(** [unpad] returns a prefix of its input. *)
Lemma unpad_length buf p : unpad buf 16 = Ok p -> len p <= len buf.
Proof. intros ->%unpad_inv. rewrite len_app. pose proof (len_nonneg (padding p)). lia. Qed.

Lemma DecryptCBC_length key text p : DecryptCBC key text = Ok p -> len p <= len text.
Proof.
  intros H. destruct (DecryptCBC_total key text) as [_ Ht].
  destruct (negb _); [by rewrite H in Ht|].
  destruct (Hex.DecodeString text) as [raw|e|m] eqn:Hd; [|by rewrite H in Ht..].
  apply Hex.hex_decode_length in Hd. case_bool_in Ht; [congruence|]. case_bool_in Ht; [congruence|].
  destruct Ht as (m & Hm & Hu). rewrite H in Hu. symmetry in Hu. apply unpad_length in Hu. lia.
Qed.

(** CBC has no authentication: whoever changes the IV of a text changes the first block of
    the plaintext by the same exclusive or, and [DecryptCBC] accepts the result. *)
Theorem DecryptCBC_malleable key iv c p d :
  DecryptCBC key (Hex.EncodeToString (iv ++ c)) = Ok p ->
  len iv = 16 -> len d = 16 -> 16 <= len p ->
  DecryptCBC key (Hex.EncodeToString (zip_with bxor iv d ++ c)) =
    Ok (zip_with bxor (take 16 p) d ++ drop 16 p).
Proof.
  intros H Hiv Hd Hp.
  destruct (validCBCKeyLen (len key)) eqn:Hk; [|unfold DecryptCBC in H; rewrite Hk in H; discriminate].
  destruct (NewCipher_Ok key) as (b & Hb & Hok); [by apply validCBCKeyLen_spec|].
  rewrite (DecryptCBC_raw key b) in H by done.
  rewrite (DecryptCBC_raw key b) by (done || (unfold len in *; rewrite length_zip_with; lia)).
  destruct (Z.eqb_spec (len c mod 16) 0) as [Ha|Ha]; [|discriminate]. cbn [negb] in *.
  apply bind_Ok_inv in H as (m & Hm & ->%unpad_inv).
  assert (Hc : 0 < len c).
  { destruct (CBCDecrypt_len b iv c Hiv Ha) as (m' & Hm' & Hl).
    rewrite Hm in Hm'. injection Hm' as <-. rewrite len_app in Hl.
    pose proof (len_nonneg (padding p)). lia. }
  rewrite (CBCDecrypt_iv b iv d c _ Hiv Hd Ha Hc Hm). cbn [mbind outcome_bind].
  rewrite take_app_le, drop_app_le, app_assoc by (unfold len in Hp; lia).
  set (q := zip_with bxor (take 16 p) d ++ drop 16 p).
  replace (padding p) with (padding q); [apply unpad_pad|].
  unfold padding, pad_len, q. rewrite len_app.
  replace (len (zip_with bxor (take 16 p) d) + len (drop 16 p)) with (len p); [done|].
  unfold len in *. rewrite length_zip_with, length_take, length_drop. lia.
Qed.

Definition demo_block_key : bytes := replicate 16 x11.

Definition demo_cbc_text : bytes := Eval vm_compute in
  match EncryptCBC demo_block_key (lit "amount=00100;id=7") demo_world with (Ok s, _) => s | _ => [] end.

(** The IV and the body of [demo_cbc_text], and the mask that turns [00100] into [99100]. *)
Definition demo_iv : bytes := next_random 16 demo_world.
Definition demo_body : bytes := Eval vm_compute in
  match Hex.DecodeString demo_cbc_text with Ok raw => drop 16 raw | _ => [] end.
Definition demo_mask : bytes := replicate 7 x00 ++ [x09; x09] ++ replicate 7 x00.

Lemma DecryptCBC_malleable_witness :
  DecryptCBC demo_block_key (Hex.EncodeToString (zip_with bxor demo_iv demo_mask ++ demo_body)) =
    Ok (lit "amount=99100;id=7").
Proof.
  apply (DecryptCBC_malleable demo_block_key demo_iv demo_body (lit "amount=00100;id=7") demo_mask);
    solve [vm_compute; reflexivity | vm_compute; discriminate].
Defined.
