(* ===== verification/Auto.v ===== *)
(** * Format detection: [auto.go] *)

From S2P Require Import Prelude Errors Base64 Hex GoIO Aes Cipher Format Aead Cbc.

(** ** Operations *)

Definition isLikelyAEAD (ciphertext : bytes) : bool :=
  match DecodeString RawURLEncoding ciphertext with
  | Ok raw =>
      if len raw <? aeadMinSize then false
      else match raw with v :: _ => bool_decide (v = VersionAEADv1) | [] => false end
  | _ => false
  end.

Definition isLikelyCBC (ciphertext : bytes) : bool :=
  match Hex.DecodeString ciphertext with
  | Ok raw =>
      let blockSize := 16 in
      if len raw <? blockSize then false
      else
        let body := drop (Z.to_nat blockSize) raw in
        (len body mod blockSize =? 0) && (0 <? len body)
  | _ => false
  end.

Definition OpenAuto (key ciphertext aad : bytes) : outcome bytes :=
  let try_cbc :=
    if isLikelyCBC ciphertext then
      match DecryptCBC key ciphertext with
      | Ok pt => Ok pt
      | Panic p => Panic p
      | Err _ => Err ErrUnknownFormat
      end
    else Err ErrUnknownFormat in
  if isLikelyAEAD ciphertext then
    match Open key ciphertext aad with
    | Ok pt => Ok pt
    | Panic p => Panic p
    | Err _ => try_cbc
    end
  else try_cbc.

(** ** Lemmas *)

(** The digits and letters of lower-case hexadecimal are values above 25 in base64. *)
Lemma hex_in_base64_test :
  forallb (fun c => negb (Hex.is_lower_hex c) ||
    match dec_char RawURLEncoding c with Some v => 26 <=? v | None => true end) all_bytes = true.
Proof. vm_compute. reflexivity. Qed.

(** No output of the hexadecimal encoder is mistaken for an AEAD text. *)
Lemma hex_not_AEAD src : isLikelyAEAD (Hex.EncodeToString src) = false.
Proof.
  unfold isLikelyAEAD.
  destruct (DecodeString RawURLEncoding (Hex.EncodeToString src)) as [[|v raw]|e|m] eqn:Hd;
    try done.
  case_bool; [done|]. apply bool_decide_eq_false_2. intros ->.
  apply (Decode_first_ge RawURLEncoding 26) in Hd; [by vm_compute in Hd|].
  intros c v Hc Hv. pose proof (Hex.Encode_lower _ _ Hc) as Hlow.
  pose proof (byte_forall _ hex_in_base64_test c) as H. cbv beta in H.
  rewrite Hlow, Hv in H. simpl in H. lia.
Qed.

Lemma Open_likely key text aad p : Open key text aad = Ok p -> isLikelyAEAD text = true.
Proof.
  intros H. destruct (decide (len key = 32)) as [Hk|Hk].
  2: { destruct (Open_short_key key text aad Hk) as [f Hf]. congruence. }
  destruct (gcm_of_key_Ok key Hk) as (c & Hc & Hok).
  rewrite (Open_frame key c), (frame_open_accepts _ c gcm_max) in H by done.
  destruct H as (nonce & body & Hn & Hd & Hs).
  destruct (seal_bound _ _ _ _ _ Hs) as [Hn' Hp].
  destruct (seal_open nonce p aad Hn' Hp) as (body' & Hl & Hs' & _).
  rewrite Hs' in Hs. injection Hs as <-. unfold isLikelyAEAD. rewrite Hd.
  pose proof (len_nonneg p). change aeadMinSize with 29.
  rewrite (proj2 (Z.ltb_ge _ _)); [done|]. rewrite len_cons. simpl app. rewrite len_app. lia.
Qed.

(** The answer is that of one of the two readers. *)
Lemma OpenAuto_result key text aad :
  (exists p, OpenAuto key text aad = Ok p /\
     (Open key text aad = Ok p \/ (isLikelyCBC text = true /\ DecryptCBC key text = Ok p))) \/
  OpenAuto key text aad = Err ErrUnknownFormat.
Proof.
  unfold OpenAuto. pose proof (Open_no_panic key text aad) as Ho.
  destruct (DecryptCBC_total key text) as [Hd _].
  destruct (isLikelyAEAD text), (Open key text aad) as [p|e|m], (isLikelyCBC text),
    (DecryptCBC key text) as [q|e'|m']; try discriminate; eauto 6.
Qed.

(** A plaintext is within GCM's limit, or no longer than its text. *)
Lemma OpenAuto_length key text aad p : OpenAuto key text aad = Ok p -> len p <= gcm_max \/ len p <= len text.
Proof.
  destruct (OpenAuto_result key text aad) as [(q & -> & Hq)| ->]; [intros [= ->]|done].
  destruct Hq as [H|[_ H]]; [left; exact (Open_bound key text aad p H)|right; exact (DecryptCBC_length _ _ _ H)].
Qed.

(** Whatever [Open] accepts, [OpenAuto] reads as the same plaintext. *)
Lemma OpenAuto_of_Open key text aad p : Open key text aad = Ok p -> OpenAuto key text aad = Ok p.
Proof. intros H. unfold OpenAuto. by rewrite (Open_likely _ _ _ _ H), H. Qed.

(** What [EncryptCBC] writes is taken for CBC. *)
Lemma CBC_likely key p w s w' : EncryptCBC key p w = (Ok s, w') -> isLikelyAEAD s = false /\ isLikelyCBC s = true.
Proof.
  intros H. apply EncryptCBC_inv in H as (_ & b & c & Hb & Hok & Hr & _ & Hc & ->).
  pose proof (len_next_random 16 w ltac:(lia) Hr) as Hiv.
  assert (Hcbc : isLikelyCBC (Hex.EncodeToString (next_random 16 w ++ c)) = true).
  { destruct (CBC_roundtrip b (next_random 16 w) (p ++ padding p) Hiv) as (c' & Hc' & Hl & _).
    { apply padded_aligned. }
    assert (c' = c) as -> by congruence.
    unfold isLikelyCBC. rewrite Hex.hex_roundtrip. cbv zeta.
    rewrite drop_app_len by (unfold len in Hiv; lia).
    rewrite len_app, Hiv, Hl, len_padded. pose proof (len_nonneg p).
    rewrite (proj2 (Z.ltb_ge _ _)) by (pose proof (Z.div_pos (len p) 16); lia).
    rewrite Z.mul_comm, Z.mod_mul by done. cbn [Z.eqb andb].
    apply Z.ltb_lt. pose proof (Z.div_pos (len p) 16). lia. }
  by split; [apply hex_not_AEAD|].
Qed.

Lemma OpenAuto_of_CBC key p w s w' aad : EncryptCBC key p w = (Ok s, w') -> OpenAuto key s aad = Ok p.
Proof.
  intros H. destruct (CBC_likely _ _ _ _ _ H) as [Ha Hc]. unfold OpenAuto.
  by rewrite Ha, Hc, (EncryptCBC_then_Decrypt _ _ _ _ _ H).
Qed.

(** ** Properties *)

(** C34: every text the library writes in either format is read back by [OpenAuto]: a [Seal]
    output opens as AEAD, an [EncryptCBC] output is never mistaken for an AEAD text and
    decrypts as CBC (under any AES key size, whatever the AAD). *)
Theorem OpenAuto_reads_both key p aad w s w' :
  (Seal key p aad w = (Ok s, w') -> OpenAuto key s aad = Ok p) /\
  (EncryptCBC key p w = (Ok s, w') ->
   isLikelyAEAD s = false /\ isLikelyCBC s = true /\ OpenAuto key s aad = Ok p).
Proof.
  split.
  - intros Hs%Seal_then_Open. by apply OpenAuto_of_Open.
  - intros H. destruct (CBC_likely _ _ _ _ _ H). repeat split; [done..|]. by eapply OpenAuto_of_CBC.
Qed.

Definition demo_cbc_row : bytes := Eval vm_compute in
  match EncryptCBC demo_key (lit "sk_live_bbbb2222") demo_world with (Ok s, _) => s | _ => [] end.

Lemma OpenAuto_reads_both_witness :
  OpenAuto demo_key demo_cbc_row [] = Ok (lit "sk_live_bbbb2222").
Proof.
  apply (OpenAuto_reads_both demo_key (lit "sk_live_bbbb2222") [] demo_world demo_cbc_row
    (EncryptCBC demo_key (lit "sk_live_bbbb2222") demo_world).2).
  vm_compute. reflexivity.
Defined.

(** Whatever the input, [OpenAuto] does not panic, answers only what [Open] or [DecryptCBC]
    would answer, and reports every failure, a tampered AEAD text included, as exactly
    [ErrUnknownFormat]. *)
Theorem OpenAuto_total key text aad :
  (exists p, OpenAuto key text aad = Ok p /\
     (Open key text aad = Ok p \/ (isLikelyCBC text = true /\ DecryptCBC key text = Ok p))) \/
  OpenAuto key text aad = Err ErrUnknownFormat.
Proof. exact (OpenAuto_result key text aad). Qed.

(** A tampered or wrong-key AEAD text gives [ErrUnknownFormat], not [ErrTampered], although its
    format was recognised. *)
Theorem OpenAuto_hides_tampering key text aad :
  isLikelyAEAD text = true -> fails_with (Open key text aad) ErrTampered = true ->
  Hex.DecodeString text = Err InvalidByteError ->
  OpenAuto key text aad = Err ErrUnknownFormat /\
  fails_with (OpenAuto key text aad) ErrTampered = false.
Proof.
  intros Ha Ho Hh.
  assert (H : OpenAuto key text aad = Err ErrUnknownFormat).
  { unfold OpenAuto, isLikelyCBC. rewrite Ha, Hh.
    by destruct (Open key text aad). }
  by rewrite H.
Qed.

Lemma OpenAuto_hides_tampering_witness :
  OpenAuto demo_key (lit "AQAAAAAAAAAAAAAAAFMPivvHRTa5qWO08cTLc5s") [] = Err ErrUnknownFormat.
Proof.
  apply (OpenAuto_hides_tampering demo_key (lit "AQAAAAAAAAAAAAAAAFMPivvHRTa5qWO08cTLc5s") []);
    vm_compute; reflexivity.
Defined.
