(* ===== verification/PaddingOracle.v ===== *)
(** * What the errors of AES-CBC give away: [cbc.go] and [auto.go]

    [DecryptCBC] reports bad padding by an error of its own, and [OpenAuto] tells texts with good padding from others by
    accepting them. Either answer, and nothing else of the key, decrypts every CBC text and forges a text
    of any plaintext. The attacker is a program over a question, is the padding of this text good?, that counts its
    questions. *)

From S2P Require Import Prelude Errors Hex GoIO Aes Cipher Aead Cbc Auto.

(** ** The attacker *)

(** A computation that asks, with the number of questions. *)
Definition asking (A : Type) : Type := A * nat.

#[global] Instance asking_ret : MRet asking := fun A a => (a, 0%nat).
#[global] Instance asking_bind : MBind asking := fun A A' f m =>
  let '(a, n) := m in let '(a', n') := f a in (a', (n + n')%nat).

(** The first byte that passes a test. *)
Fixpoint search (test : byte -> asking bool) (l : list byte) : asking (option byte) :=
  match l with
  | [] => mret None
  | g :: l' => b ← test g; if b : bool then mret (Some g) else search test l'
  end.

Section attacker.
Context (good_padding : bytes -> bool).

(** A text of two blocks. *)
Definition ask (iv c : bytes) : asking bool := (good_padding (Hex.EncodeToString (iv ++ c)), 1%nat).

(** The IV that makes the known end of the block decrypt to the padding byte [v] and tries [g] before it. *)
Definition probe (v g : byte) (known : bytes) : bytes :=
  replicate (15 - length known) x00 ++ g :: map (bxor v) known.

(** At the last byte there may be a longer padding by chance: then the byte before it matters. *)
Definition probe_last (g : byte) : bytes := replicate 14 x00 ++ [x01; g].

Definition test_byte (known c : bytes) (g : byte) : asking bool :=
  let v := to_byte (len known + 1) in
  b ← ask (probe v g known) c;
  if negb b then mret false
  else match known with [] => ask (probe_last g) c | _ => mret true end.

(** The byte of the block cipher's output before the known ones. *)
Definition next_byte (known c : bytes) : asking byte :=
  r ← search (test_byte known c) all_bytes;
  mret (bxor (to_byte (len known + 1)) (default x00 r)).

Fixpoint recover (n : nat) (known c : bytes) : asking bytes :=
  match n with
  | O => mret known
  | S n' => b ← next_byte known c; recover n' (b :: known) c
  end.

(** Decryption without the key. *)
Fixpoint decrypt_blocks (prev : bytes) (cs : list bytes) : asking (list bytes) :=
  match cs with
  | [] => mret []
  | c :: cs' =>
      d ← recover 16 [] c;
      ps ← decrypt_blocks c cs';
      mret (zip_with bxor d prev :: ps)
  end.

Definition decrypt (text : bytes) : asking (outcome bytes) :=
  match Hex.DecodeString text with
  | Ok raw =>
      ps ← decrypt_blocks (take 16 raw) (chunks 16 (drop 16 raw));
      mret (unpad (mjoin ps) 16)
  | Err e => mret (Err e)
  | Panic m => mret (Panic m)
  end.

(** Encryption without the key: the blocks from the last, which is free, to the IV. *)
Fixpoint craft (ps : list bytes) : asking (list bytes) :=
  match ps with
  | [] => mret [replicate 16 x00]
  | p :: ps' =>
      cs ← craft ps';
      d ← recover 16 [] (default [] (head cs));
      mret (zip_with bxor d p :: cs)
  end.

Definition forge (p : bytes) : asking bytes :=
  cs ← craft (chunks 16 (p ++ padding p));
  mret (Hex.EncodeToString (mjoin cs)).
End attacker.

(** ** Lemmas *)

(** *** Good padding *)

Definition padded (m : bytes) : bool := is_ok (unpad m 16).

Lemma padded_iff m :
  length m = 16%nat ->
  padded m = true <->
  exists w, (1 <= w <= 16)%nat /\ forall i, (16 - w <= i < 16)%nat -> m !! i = Some (to_byte (Z.of_nat w)).
Proof.
  intros Hm. unfold padded. split.
  - destruct (unpad m 16) as [p|e|x] eqn:Hu; [|done..]. intros _. apply unpad_inv in Hu.
    pose proof (pad_len_range p) as Hr. pose proof (len_padding p) as Hl. exists (Z.to_nat (pad_len p)).
    assert (Hp : length p = (16 - Z.to_nat (pad_len p))%nat).
    { rewrite Hu, length_app in Hm. unfold len in Hl. lia. }
    split; [lia|]. intros i Hi. rewrite Hu, lookup_app_r by lia. unfold padding. rewrite Z2Nat.id by lia.
    apply lookup_replicate. split; [done|]. lia.
  - intros (w & Hw & Hi). set (p := take (16 - w) m).
    assert (Hp : len p = 16 - Z.of_nat w) by (unfold p, len; rewrite length_take; lia).
    assert (Hpl : pad_len p = Z.of_nat w).
    { unfold pad_len. rewrite Hp. destruct (decide (w = 16%nat)) as [->|]; [done|]. rewrite Z.mod_small; lia. }
    assert (Heq : m = p ++ padding p); [|by rewrite Heq, unpad_pad].
    rewrite <- (take_drop (16 - w) m) at 1. fold p. f_equal. unfold padding. rewrite Hpl, Nat2Z.id.
    apply list_eq. intros i. rewrite lookup_drop. destruct (decide (i < w)%nat) as [Hlt|Hge].
    + rewrite Hi by lia. symmetry. by apply lookup_replicate.
    + rewrite lookup_ge_None_2 by lia. symmetry. apply lookup_ge_None_2. rewrite length_replicate. lia.
Qed.

Lemma to_byte_small_inj a b : 0 <= a < 256 -> 0 <= b < 256 -> to_byte a = to_byte b -> a = b.
Proof. intros Ha Hb H%(f_equal bval). by rewrite !bval_to_byte_small in H. Qed.

(** Two blocks that differ in the last byte but one have both good padding when they end in the byte 1. *)
Lemma padded_last front a a' z :
  length front = 14%nat -> a <> a' -> padded (front ++ [a; z]) && padded (front ++ [a'; z]) = bool_decide (z = x01).
Proof.
  intros Hf Ha.
  assert (Hl : forall y, length (front ++ [y; z]) = 16%nat) by (intros y; rewrite length_app, Hf; done).
  assert (H14 : forall y, (front ++ [y; z]) !! 14%nat = Some y)
    by (intros y; rewrite lookup_app_r by lia; by rewrite Hf).
  assert (H15 : forall y, (front ++ [y; z]) !! 15%nat = Some z)
    by (intros y; rewrite lookup_app_r by lia; by rewrite Hf).
  apply eq_bool_prop_intro. rewrite bool_decide_spec. split.
  - intros [H1 H2]%Is_true_true%andb_true_iff.
    apply padded_iff in H1 as (w & Hw & Hi); [|done]. apply padded_iff in H2 as (w' & Hw' & Hi'); [|done].
    pose proof (Hi 15%nat ltac:(lia)) as Hz. rewrite H15 in Hz. injection Hz as Hz.
    pose proof (Hi' 15%nat ltac:(lia)) as Hz'. rewrite H15 in Hz'. injection Hz' as Hz'.
    assert (w = w') as <- by (rewrite Hz in Hz'; apply to_byte_small_inj in Hz'; lia).
    destruct (decide (w = 1%nat)) as [->|Hn]; [exact Hz|]. exfalso. apply Ha.
    pose proof (Hi 14%nat ltac:(lia)) as He. pose proof (Hi' 14%nat ltac:(lia)) as He'.
    rewrite H14 in He, He'. congruence.
  - intros ->. apply Is_true_true, andb_true_iff.
    split; apply padded_iff; try done; exists 1%nat; (split; [lia|]); intros i Hi;
      replace i with 15%nat by lia; rewrite H15; done.
Qed.

Lemma zip_bxor_zeros (l : bytes) : zip_with bxor l (replicate (length l) x00) = l.
Proof. induction l as [|a l IH]; [done|]. cbn [length replicate zip_with]. by rewrite bxor_0_r, IH. Qed.

(** *** Searching *)

Lemma asking_bind_eq {A A'} (m : asking A) (f : A -> asking A') : m ≫= f = ((f m.1).1, (m.2 + (f m.1).2)%nat).
Proof. unfold mbind, asking_bind. destruct m as [a n]. cbn. by destruct (f a). Qed.

(** A test that only one byte passes, and how long the search takes. *)
Lemma search_unique test g0 k :
  (forall g, (test g).1 = bool_decide (g = g0)) -> (forall g, ((test g).2 <= k)%nat) ->
  (search test all_bytes).1 = Some g0 /\ ((search test all_bytes).2 <= 256 * k)%nat.
Proof.
  intros Ht Hk.
  assert (H : forall l, g0 ∈ l -> (search test l).1 = Some g0 /\ ((search test l).2 <= length l * k)%nat).
  { induction l as [|g l IH]; [by intros ?%not_elem_of_nil|]. intros Hin. cbn [search]. rewrite asking_bind_eq, Ht.
    cbn [fst snd length]. specialize (Hk g). destruct (bool_decide_reflect (g = g0)) as [->|Hne].
    - cbn [mret asking_ret fst snd]. split; [done|]. lia.
    - apply elem_of_cons in Hin as [Hin|Hin]; [congruence|]. destruct (IH Hin) as [H1 H2]. split; [exact H1|]. lia. }
  apply (H all_bytes). apply list_elem_of_In, all_bytes_In.
Qed.

(** *** One byte *)

Section block.
Context (ask_padded : bytes -> bool) (D : bytes -> bytes).
Hypothesis D_length : forall c, length c = 16%nat -> length (D c) = 16%nat.
Hypothesis ask_spec : forall iv c, length iv = 16%nat -> length c = 16%nat ->
  ask_padded (Hex.EncodeToString (iv ++ c)) = padded (zip_with bxor (D c) iv).

(** Only the byte under test decides when later bytes are known. *)
Lemma probe_known front d known g v :
  length front = (15 - length known)%nat -> (0 < length known < 16)%nat -> v = to_byte (len known + 1) ->
  padded (zip_with bxor (front ++ d :: known) (probe v g known)) = bool_decide (g = bxor v d).
Proof.
  intros Hf Hk Hv. set (j := length known) in *. set (m := zip_with bxor _ _).
  assert (Hm : m = front ++ bxor d g :: replicate j v).
  { unfold m, probe. fold j. rewrite zip_with_app by (by rewrite length_replicate). cbn [zip_with]. f_equal.
    - rewrite <- Hf. apply zip_bxor_zeros.
    - f_equal. unfold j. clear. induction known as [|a l IH]; [done|]. cbn [map zip_with length replicate].
      by rewrite bxor_comm, bxor_cancel, IH. }
  assert (Hlen : length m = 16%nat) by (rewrite Hm, length_app; cbn [length]; rewrite length_replicate; lia).
  assert (Hlast : m !! 15%nat = Some v).
  { rewrite Hm, lookup_app_r, lookup_cons_ne_0 by lia. apply lookup_replicate. split; [done|]. lia. }
  assert (Hd : m !! (15 - j)%nat = Some (bxor d g)).
  { rewrite Hm, lookup_app_r by lia. by replace (15 - j - length front)%nat with 0%nat by lia. }
  apply eq_bool_prop_intro. rewrite bool_decide_spec. split.
  - intros Hp%Is_true_true. apply padded_iff in Hp as (w & Hw & Hi); [|done].
    pose proof (Hi 15%nat ltac:(lia)) as H15. rewrite Hlast in H15. injection H15 as Hvw.
    assert (Hwj : w = S j).
    { rewrite Hvw in Hv. apply (f_equal bval) in Hv. rewrite !bval_to_byte_small in Hv by (unfold len; lia).
      unfold len in Hv. lia. }
    pose proof (Hi (15 - j)%nat ltac:(lia)) as Hj. rewrite Hd, <- Hvw in Hj. injection Hj as <-.
    by rewrite (bxor_comm d g), bxor_cancel.
  - intros ->. apply Is_true_true, padded_iff; [done|]. exists (S j). split; [lia|]. intros i Hi.
    replace (to_byte (Z.of_nat (S j))) with v by (rewrite Hv; f_equal; unfold len; lia).
    destruct (decide (i = 15 - j)%nat) as [->|Hne].
    + rewrite Hd. f_equal. by rewrite (bxor_comm v d), <- bxor_assoc, bxor_nilpotent, bxor_0_l.
    + rewrite Hm, lookup_app_r, lookup_cons_ne_0 by lia. apply lookup_replicate. split; [done|]. lia.
Qed.

(** At the last byte the two questions decide. *)
Lemma probe_first front e d g :
  length front = 14%nat ->
  padded (zip_with bxor (front ++ [e; d]) (probe x01 g [])) &&
  padded (zip_with bxor (front ++ [e; d]) (probe_last g)) = bool_decide (g = bxor x01 d).
Proof.
  intros Hf.
  assert (H0 : zip_with bxor front (replicate 14 x00) = front) by (rewrite <- Hf; apply zip_bxor_zeros).
  change (probe x01 g []) with (replicate 14 x00 ++ [x00; g]). unfold probe_last.
  rewrite !zip_with_app, !H0 by (by rewrite length_replicate). cbn [zip_with].
  rewrite padded_last; [|done|].
  - apply bool_decide_ext. split; [intros <-|intros ->].
    + by rewrite (bxor_comm d g), bxor_cancel.
    + by rewrite (bxor_comm x01 d), <- bxor_assoc, bxor_nilpotent, bxor_0_l.
  - rewrite bxor_0_r. intros H%(f_equal (bxor e)). rewrite bxor_nilpotent, <- bxor_assoc, bxor_nilpotent in H.
    rewrite bxor_0_l in H. done.
Qed.

Lemma list_snoc_cases {A} (l : list A) : l = [] \/ exists l' x, l = l' ++ [x].
Proof. induction l as [|x l _] using rev_ind; eauto. Qed.

(** What remains to be asked of the last [n] bytes, and what it costs. *)
Definition questions (known : bytes) : nat := match known with [] => 512 | _ => 256 end.

Lemma next_byte_spec c front d known :
  length c = 16%nat -> D c = front ++ d :: known ->
  (next_byte ask_padded known c).1 = d /\ ((next_byte ask_padded known c).2 <= questions known)%nat.
Proof.
  intros Hc HD. pose proof (D_length c Hc) as Hl. rewrite HD, length_app in Hl. cbn [length] in Hl.
  set (v := to_byte (len known + 1)).
  assert (Hprobe : forall g, length (probe v g known) = 16%nat).
  { intros g. unfold probe. rewrite length_app, length_replicate. cbn [length]. rewrite length_map. lia. }
  assert (Htest : forall g, (test_byte ask_padded known c g).1 = bool_decide (g = bxor v d) /\
    ((test_byte ask_padded known c g).2 <= match known with [] => 2 | _ => 1 end)%nat).
  { intros g. unfold test_byte. fold v. rewrite asking_bind_eq. cbn [ask fst snd].
    rewrite ask_spec, HD by done. destruct known as [|k ks].
    - destruct (list_snoc_cases front) as [->|(f & e & ->)]; [cbn in Hl; lia|].
      rewrite length_app in Hl. cbn [length] in Hl. rewrite <- app_assoc. cbn [app].
      change v with x01. rewrite <- (probe_first f e d g) by lia.
      destruct (padded (zip_with bxor (f ++ [e; d]) (probe x01 g []))); cbn [negb andb mret asking_ret fst snd];
        [|split; [done|lia]]. cbn [ask fst snd]. rewrite ask_spec, HD by done. rewrite <- app_assoc. cbn [app].
      split; [done|lia].
    - rewrite probe_known by (cbn [length] in *; done || lia).
      destruct (bool_decide _); cbn [negb mret asking_ret fst snd]; split; done || lia. }
  destruct (search_unique (test_byte ask_padded known c) (bxor v d) (match known with [] => 2 | _ => 1 end))
    as [H1 H2]; [apply Htest|apply Htest|].
  unfold next_byte. rewrite asking_bind_eq. cbn [mret asking_ret fst snd]. rewrite H1. fold v. cbn [default id].
  rewrite (bxor_comm v (bxor v d)), (bxor_comm v d), bxor_cancel. split; [done|].
  unfold questions. destruct known; lia.
Qed.

Lemma recover_spec c n front known :
  length c = 16%nat -> length front = n -> D c = front ++ known ->
  (recover ask_padded n known c).1 = D c /\
  ((recover ask_padded n known c).2 <= match n with O => 0 | S n' => questions known + 256 * n' end)%nat.
Proof.
  intros Hc. revert front known. induction n as [|n IH]; intros front known Hf HD.
  - destruct front; [|done]. cbn [recover mret asking_ret fst snd]. by rewrite HD.
  - destruct (list_snoc_cases front) as [->|(f & d & ->)]; [done|]. rewrite length_app in Hf. cbn [length] in Hf.
    rewrite <- app_assoc in HD. cbn [app] in HD. destruct (next_byte_spec c f d known Hc HD) as [H1 H2].
    cbn [recover]. rewrite asking_bind_eq, H1. cbn [fst snd].
    destruct (IH f (d :: known) ltac:(lia) HD) as [H3 H4]. split; [exact H3|].
    destruct n as [|n]; cbn [questions] in H4; lia.
Qed.

(** The block cipher's output on any block, for at most 4352 questions. *)
Lemma recover_block c :
  length c = 16%nat -> (recover ask_padded 16 [] c).1 = D c /\ ((recover ask_padded 16 [] c).2 <= 4352)%nat.
Proof.
  intros Hc. destruct (recover_spec c 16 (D c) [] Hc) as [H1 H2]; [by apply D_length|by rewrite app_nil_r|].
  split; [exact H1|]. cbn [questions] in H2. lia.
Qed.
End block.

(** *** Whole texts *)

Section texts.
Context (key : bytes) (b : Block) `{!BlockOk b} (Hb : NewCipher key = Ok b) (ask_padded : bytes -> bool).
Hypothesis ask_spec : forall iv c, length iv = 16%nat -> length c = 16%nat ->
  ask_padded (Hex.EncodeToString (iv ++ c)) = padded (zip_with bxor (blk_Decrypt b c) iv).

Lemma decrypt_blocks_spec prev cs :
  Forall (fun c => length c = 16%nat) cs ->
  (decrypt_blocks ask_padded prev cs).1 = cbc_decrypt_blocks b prev cs /\
  ((decrypt_blocks ask_padded prev cs).2 <= 4352 * length cs)%nat.
Proof.
  intros Hcs. revert prev. induction Hcs as [|c cs Hc _ IH]; intros prev; [done|].
  destruct (recover_block ask_padded (blk_Decrypt b) blk_Decrypt_length ask_spec c Hc) as [H1 H2].
  destruct (IH c) as [H3 H4]. cbn [decrypt_blocks cbc_decrypt_blocks length]. rewrite !asking_bind_eq, H1, H3.
  cbn [mret asking_ret fst snd]. split; [done|]. lia.
Qed.

Lemma craft_spec ps :
  Forall (fun p => length p = 16%nat) ps ->
  exists iv cs, (craft ask_padded ps).1 = iv :: cs /\ length iv = 16%nat /\ length cs = length ps /\
    Forall (fun c => length c = 16%nat) cs /\ cbc_decrypt_blocks b iv cs = ps /\
    ((craft ask_padded ps).2 <= 4352 * length ps)%nat.
Proof.
  induction 1 as [|p ps Hp _ (iv & cs & H1 & Hiv & Hn & Hcs & Hd & H2)].
  { exists (replicate 16 x00), []. repeat split; try done; constructor. }
  destruct (recover_block ask_padded (blk_Decrypt b) blk_Decrypt_length ask_spec iv Hiv) as [H3 H4].
  pose proof (blk_Decrypt_length iv Hiv) as Hl.
  exists (zip_with bxor (blk_Decrypt b iv) p), (iv :: cs). cbn [craft length]. rewrite !asking_bind_eq, H1.
  cbn [head default id]. rewrite H3. cbn [mret asking_ret fst snd]. split; [done|].
  split; [rewrite length_zip_with; lia|]. split; [lia|]. split; [by constructor|]. split; [|lia].
  cbn [cbc_decrypt_blocks]. rewrite Hd. f_equal. apply list_eq. intros i. rewrite !lookup_zip_with.
  destruct (blk_Decrypt b iv !! i) as [y|] eqn:Hy, (p !! i) as [x|] eqn:Hx; cbn; try done.
  - by rewrite <- bxor_assoc, bxor_nilpotent, bxor_0_l.
  - apply lookup_ge_None in Hy. apply lookup_lt_Some in Hx. lia.
Qed.

(** Reading a text of whole blocks, IV first. *)
Lemma decrypt_spec iv c :
  len iv = 16 -> len c mod 16 = 0 ->
  (decrypt ask_padded (Hex.EncodeToString (iv ++ c))).1 = DecryptCBC key (Hex.EncodeToString (iv ++ c)) /\
  (Z.of_nat (decrypt ask_padded (Hex.EncodeToString (iv ++ c))).2 <= 272 * len c).
Proof.
  intros Hiv Hc. pose proof (chunks_aligned 16 c ltac:(lia) Hc) as Hall.
  rewrite (DecryptCBC_raw key b) by done. unfold decrypt, CBCDecrypt. rewrite Hex.hex_roundtrip, asking_bind_eq.
  rewrite take_app_len, drop_app_len by (unfold len in Hiv; lia).
  destruct (decrypt_blocks_spec iv (chunks 16 c) Hall) as [H1 H2].
  rewrite H1, Hiv, Hc. cbn [negb Z.eqb Pos.eqb mbind outcome_bind mret asking_ret fst snd]. split; [done|].
  unfold len. rewrite <- (chunks_join 16 c) at 2 by lia. rewrite (join_length _ 16) by done. lia.
Qed.

Lemma padded_chunks p :
  Forall (fun c => length c = 16%nat) (chunks 16 (p ++ padding p)) /\
  16 * Z.of_nat (length (chunks 16 (p ++ padding p))) = len (p ++ padding p).
Proof.
  assert (H : Forall (fun c => length c = 16%nat) (chunks 16 (p ++ padding p))).
  { apply (chunks_aligned 16); [lia|]. apply padded_aligned. }
  split; [done|]. unfold len. rewrite <- (chunks_join 16 (p ++ padding p)) at 2 by lia.
  rewrite (join_length _ 16) by done. lia.
Qed.

(** A forged text is one of CBC, and decrypts to the plaintext it was forged for. *)
Lemma forge_spec p :
  DecryptCBC key (forge ask_padded p).1 = Ok p /\ isLikelyCBC (forge ask_padded p).1 = true /\
  isLikelyAEAD (forge ask_padded p).1 = false /\
  Z.of_nat (forge ask_padded p).2 <= 4352 * (len p / 16 + 1).
Proof.
  destruct (padded_chunks p) as [Hps Hlen]. pose proof (len_padded p) as Hp. pose proof (len_nonneg p) as H0.
  pose proof (Z.div_pos (len p) 16 H0 eq_refl) as Hq.
  destruct (craft_spec _ Hps) as (iv & cs & H1 & Hiv & Hn & Hcs & Hd & H2).
  assert (Hiv' : len iv = 16) by (unfold len; lia).
  assert (Hl : len (mjoin cs) = 16 * (len p / 16 + 1)) 
    by (change (len (mjoin cs)) with (Z.of_nat (length (mjoin cs))); rewrite (join_length _ 16) by done; lia).
  assert (Ha : len (mjoin cs) mod 16 = 0) by (rewrite Hl, Z.mul_comm; by apply Z.mod_mul).
  unfold forge. rewrite asking_bind_eq, H1. cbn [mret asking_ret fst snd].
  change (mjoin (iv :: cs)) with (iv ++ mjoin cs). split; [|split; [|split; [apply hex_not_AEAD|lia]]].
  - rewrite (DecryptCBC_raw key b), Ha by done. unfold CBCDecrypt. rewrite Hiv', Ha.
    cbn [negb Z.eqb Pos.eqb mbind outcome_bind]. rewrite chunks_of_join, Hd, chunks_join by (done || lia).
    apply unpad_pad.
  - unfold isLikelyCBC. rewrite Hex.hex_roundtrip. cbv zeta. change (Z.to_nat 16) with 16%nat.
    rewrite drop_app_len by done. rewrite len_app, (proj2 (Z.ltb_ge _ _)), Ha by lia. cbn [Z.eqb andb].
    apply Z.ltb_lt. lia.
Qed.
End texts.

(** *** The questions the library answers *)

(** Does [DecryptCBC] return anything but [ErrInvalidPadding]? *)
Definition no_padding_error (key text : bytes) : bool := negb (fails_with (DecryptCBC key text) ErrInvalidPadding).

(** Does [OpenAuto] accept the text? *)
Definition accepted (key aad text : bytes) : bool := is_ok (OpenAuto key text aad).

Section oracles.
Context (key : bytes) (b : Block) `{!BlockOk b} (Hb : NewCipher key = Ok b).

Lemma DecryptCBC_block iv c :
  length iv = 16%nat -> length c = 16%nat ->
  DecryptCBC key (Hex.EncodeToString (iv ++ c)) = unpad (zip_with bxor (blk_Decrypt b c) iv) 16.
Proof.
  intros Hiv Hc. assert (Hl : len c = 16) by (unfold len; lia). assert (Hl' : len iv = 16) by (unfold len; lia).
  rewrite (DecryptCBC_raw key b), Hl by done. unfold CBCDecrypt. rewrite Hl, Hl'.
  change (16 mod 16) with 0. cbn [negb Z.eqb Pos.eqb mbind outcome_bind].
  rewrite <- (app_nil_r c) at 1. rewrite chunks_app, chunks_nil by (done || lia).
  change (mjoin (cbc_decrypt_blocks b iv [c])) with (zip_with bxor (blk_Decrypt b c) iv ++ []). by rewrite app_nil_r.
Qed.

Lemma no_padding_error_spec iv c :
  length iv = 16%nat -> length c = 16%nat ->
  no_padding_error key (Hex.EncodeToString (iv ++ c)) = padded (zip_with bxor (blk_Decrypt b c) iv).
Proof.
  intros Hiv Hc. unfold no_padding_error, padded. rewrite DecryptCBC_block by done.
  by destruct (unpad_result (zip_with bxor (blk_Decrypt b c) iv)) as [[p ->]| ->].
Qed.

Lemma accepted_spec aad iv c :
  length iv = 16%nat -> length c = 16%nat ->
  accepted key aad (Hex.EncodeToString (iv ++ c)) = padded (zip_with bxor (blk_Decrypt b c) iv).
Proof.
  intros Hiv Hc. unfold accepted, padded, OpenAuto. rewrite hex_not_AEAD, DecryptCBC_block by done.
  assert (isLikelyCBC (Hex.EncodeToString (iv ++ c)) = true) as ->.
  { unfold isLikelyCBC. rewrite Hex.hex_roundtrip. cbv zeta. change (Z.to_nat 16) with 16%nat.
    rewrite drop_app_len by done. rewrite len_app. unfold len. by rewrite Hiv, Hc. }
  by destruct (unpad_result (zip_with bxor (blk_Decrypt b c) iv)) as [[p ->]| ->].
Qed.
End oracles.

(** ** Properties *)

(** C15: whoever may hand texts to [DecryptCBC] and see whether the error is [ErrInvalidPadding] reads every text of
    [EncryptCBC] without the key: the attack program [decrypt] returns what [DecryptCBC] returns, on every text of whole
    blocks, and needs at most 272 questions for each byte after the IV. *)
Theorem padding_oracle_reads key :
  validCBCKeyLen (len key) = true ->
  (forall iv c, len iv = 16 -> len c mod 16 = 0 ->
     let '(answer, questions) := decrypt (no_padding_error key) (Hex.EncodeToString (iv ++ c)) in
     answer = DecryptCBC key (Hex.EncodeToString (iv ++ c)) /\ Z.of_nat questions <= 272 * len c) /\
  (forall p w s w', EncryptCBC key p w = (Ok s, w') -> (decrypt (no_padding_error key) s).1 = Ok p).
Proof.
  intros Hk. destruct (NewCipher_Ok key) as (b & Hb & Hok); [by apply validCBCKeyLen_spec|].
  assert (Hd := decrypt_spec key b Hb (no_padding_error key) (no_padding_error_spec key b Hb)). split.
  - intros iv c Hiv Hc. destruct (Hd iv c Hiv Hc) as [H1 H2].
    destruct (decrypt _ _) as [a n]. split; [exact H1|exact H2].
  - intros p w s w' Hs. rewrite <- (EncryptCBC_then_Decrypt _ _ _ _ _ Hs).
    apply EncryptCBC_inv in Hs as (_ & b' & c & Hb' & Hok' & Hr & _ & Hc & ->).
    pose proof (len_next_random 16 w ltac:(lia) Hr) as Hiv.
    destruct (CBC_roundtrip b' (next_random 16 w) (p ++ padding p) Hiv) as (c' & Hc' & Hl & _).
    { apply padded_aligned. }
    assert (c' = c) as -> by congruence. apply Hd; [exact Hiv|]. rewrite Hl. apply padded_aligned.
Qed.

Lemma padding_oracle_reads_witness :
  (decrypt (no_padding_error demo_key) demo_cbc_row).1 = Ok (lit "sk_live_bbbb2222").
Proof.
  refine (proj2 (padding_oracle_reads demo_key _) (lit "sk_live_bbbb2222") demo_world demo_cbc_row
    (EncryptCBC demo_key (lit "sk_live_bbbb2222") demo_world).2 _); vm_compute; exact eq_refl.
Defined.

(** C16: whoever may hand texts to [OpenAuto] and see whether they are accepted writes a text of any plaintext without the
    key: what the attack program [forge] makes is accepted by [OpenAuto] with every AAD and by [DecryptCBC], both
    returning the attacker's plaintext, after at most 4352 questions for each block. *)
Theorem OpenAuto_forgeable key aad p :
  validCBCKeyLen (len key) = true ->
  let '(text, questions) := forge (accepted key aad) p in
  (forall aad', OpenAuto key text aad' = Ok p) /\ DecryptCBC key text = Ok p /\
  Z.of_nat questions <= 4352 * (len p / 16 + 1).
Proof.
  intros Hk. destruct (NewCipher_Ok key) as (b & Hb & Hok); [by apply validCBCKeyLen_spec|].
  destruct (forge_spec key b Hb (accepted key aad) (accepted_spec key b Hb aad) p) as (H1 & H2 & H3 & H4).
  destruct (forge _ _) as [text n]. cbn [fst snd] in *. split; [|split; [exact H1|exact H4]].
  intros aad'. unfold OpenAuto. by rewrite H3, H2, H1.
Qed.

Lemma OpenAuto_forgeable_witness :
  OpenAuto demo_key (forge (accepted demo_key []) (lit "plan=enterprise;seats=500")).1 (lit "tenant:7")
  = Ok (lit "plan=enterprise;seats=500").
Proof.
  pose proof (OpenAuto_forgeable demo_key [] (lit "plan=enterprise;seats=500") eq_refl) as H.
  destruct (forge (accepted demo_key []) (lit "plan=enterprise;seats=500")) as [text n].
  exact (proj1 H (lit "tenant:7")).
Defined.
