(* ===== verification/Sign.v ===== *)
(** * Symmetric signatures: [sign.go] *)

From S2P Require Import Prelude Sha256.

(** ** Operations *)

Definition Sign (key data : bytes) : bytes := hmac_sha256 key data.

Definition Verify (key data mac : bytes) : bool :=
  if negb (len mac =? sha256_Size) then false
  else
    let expected := Sign key data in
    hmac_Equal expected mac.

Definition ConstantTimeEqual (a b : bytes) : bool := ConstantTimeCompare a b =? 1.

(** ** Lemmas *)

Lemma len_Sign key data : len (Sign key data) = sha256_Size.
Proof. apply len_hmac. Qed.

Lemma Verify_spec key data mac : Verify key data mac = bool_decide (mac = Sign key data).
Proof.
  unfold Verify. destruct (Z.eqb_spec (len mac) sha256_Size) as [Hl|Hl]; cbn [negb].
  - rewrite hmac_Equal_spec. apply bool_decide_ext. naive_solver.
  - symmetry. apply bool_decide_eq_false_2. intros ->. by rewrite len_Sign in Hl.
Qed.

(** ** Properties *)

(** [Verify] accepts exactly one tag per key and message, the 32-byte output of [Sign];
    every other tag, one of the wrong length included, gives [false]. *)
Theorem Verify_iff_Sign key data mac :
  (Verify key data mac = true <-> mac = Sign key data) /\ len (Sign key data) = 32.
Proof. split; [|apply len_Sign]. rewrite Verify_spec. apply bool_decide_eq_true. Qed.

(** [ConstantTimeEqual], which accumulates differences over the whole input, agrees with
    equality, on inputs of different lengths too. *)
Theorem ConstantTimeEqual_is_equality a b : ConstantTimeEqual a b = bool_decide (a = b).
Proof. exact (hmac_Equal_spec a b). Qed.
