(* ===== verification/Hkdf.v ===== *)
(** * Key derivation: [hkdf.go]

    [hkdf.New] is a third-party package, so it is a parameter: a function from the master key,
    salt and info to a reader. *)

From S2P Require Import Prelude Errors GoIO Format.

(** RFC 5869 bounds the output at 255 blocks of the hash; past it the reader fails. *)
Definition hkdf_limit : Z := 255 * 32.

Class HkdfOk (New : bytes -> bytes -> bytes -> reader) : Prop := {
  hkdf_output key salt info : len (rd_bytes (New key salt info)) = hkdf_limit
}.

(** ** Operations *)

Section ops.
Context (New : bytes -> bytes -> bytes -> reader).

Definition DeriveKey (masterKey salt info : bytes) (length : Z) : outcome bytes :=
  if length <=? 0 then Err (Errorf "crypt: DeriveKey length must be positive; got %d")
  else if len masterKey =? 0 then Err (Errorf "crypt: DeriveKey masterKey must be non-empty")
  else
    let r := New masterKey salt info in
    match ReadFull (Z.to_nat length) r with
    | (out, None, _) => Ok out
    | (_, Some err, _) => Err (Wrapf "crypt: hkdf: %w" err)
    end.
End ops.

(** A concrete stream for the witnesses: the inputs repeated. *)
Definition demo_hkdf (key salt info : bytes) : reader :=
  {| rd_data := [take (Z.to_nat hkdf_limit) (mjoin (replicate (Z.to_nat hkdf_limit) (x01 :: key ++ salt ++ info)))];
     rd_err := ErrorString "hkdf: entropy limit reached" |}.

Lemma length_join_replicate {A} n (l : list A) :
  length (mjoin (replicate n l)) = (n * length l)%nat.
Proof. induction n as [|n IH]; [done|]. simpl. by rewrite length_app, IH. Qed.

#[global] Instance demo_hkdf_ok : HkdfOk demo_hkdf.
Proof.
  split. intros key salt info.
  change (rd_bytes (demo_hkdf key salt info)) with
    (take (Z.to_nat hkdf_limit) (mjoin (replicate (Z.to_nat hkdf_limit) (x01 :: key ++ salt ++ info))) ++ []).
  unfold len. rewrite app_nil_r, length_take, length_join_replicate.
  rewrite length_cons, Nat.min_l by lia. done.
Qed.

(** ** Lemmas *)

Section lemmas.
Context (New : bytes -> bytes -> bytes -> reader) `{!HkdfOk New}.

Lemma DeriveKey_run key salt info n :
  key <> [] -> 0 < n <= hkdf_limit ->
  DeriveKey New key salt info n = Ok (take (Z.to_nat n) (rd_bytes (New key salt info))).
Proof.
  intros Hk [Hn Hl]. unfold DeriveKey. rewrite (proj2 (Z.leb_gt _ _)) by lia.
  rewrite (proj2 (Z.eqb_neq _ _)) by (destruct key; [done|len_lia]).
  destruct (ReadFull_spec (Z.to_nat n) (New key salt info)) as (r' & _ & ->).
  pose proof (hkdf_output key salt info) as Ho. unfold len in Ho.
  by rewrite (proj2 (Nat.leb_le _ _)) by lia.
Qed.

Lemma DeriveKey_fails key salt info n :
  key = [] \/ ~ (0 < n <= hkdf_limit) -> exists e, DeriveKey New key salt info n = Err e.
Proof.
  intros H. unfold DeriveKey. destruct (Z.leb_spec n 0) as [Hn|Hn]; [eauto|].
  destruct (Z.eqb_spec (len key) 0) as [Hk|Hk]; [eauto|].
  assert (~ n <= hkdf_limit).
  { destruct H as [-> |H]; [done|lia]. }
  destruct (ReadFull_spec (Z.to_nat n) (New key salt info)) as (r' & _ & ->).
  pose proof (hkdf_output key salt info) as Ho. unfold len in Ho.
  rewrite (proj2 (Nat.leb_gt _ _)) by lia.
  destruct (bool_decide _ && _); eauto.
Qed.
End lemmas.

(** ** Properties *)

(** [DeriveKey] succeeds exactly for a non-empty master key and a length from 1 to 8160,
    never panics, returns exactly the requested number of bytes, and a shorter request with the
    same inputs is a prefix of a longer one. *)
Theorem DeriveKey_correct New `{!HkdfOk New} key salt info n :
  (is_ok (DeriveKey New key salt info n) = true <-> key <> [] /\ 0 < n <= hkdf_limit) /\
  panics (DeriveKey New key salt info n) = false /\
  (forall out, DeriveKey New key salt info n = Ok out ->
     len out = n /\
     forall m, 0 < m <= n -> DeriveKey New key salt info m = Ok (take (Z.to_nat m) out)).
Proof.
  destruct (decide (key = [] \/ ~ (0 < n <= hkdf_limit))) as [H|H].
  - destruct (DeriveKey_fails New key salt info n H) as [e ->].
    split; [|done]. simpl. split; [done|]. intros [? ?]. tauto.
  - assert (Hk : key <> []) by tauto. assert (Hn : 0 < n <= hkdf_limit) by (destruct (decide (0 < n <= hkdf_limit)); tauto).
    rewrite (DeriveKey_run New) by done. split; [done|]. split; [done|].
    intros out [= <-]. pose proof (hkdf_output key salt info) as Ho. unfold len in *.
    rewrite length_take. split; [lia|]. intros m Hm.
    rewrite (DeriveKey_run New), take_take by (done || lia). do 2 f_equal. lia.
Qed.

Lemma DeriveKey_correct_witness :
  exists out, DeriveKey demo_hkdf (lit "root") [] (lit "tenant:a") AEADKeySize = Ok out.
Proof.
  destruct (DeriveKey_correct demo_hkdf (lit "root") [] (lit "tenant:a") AEADKeySize)
    as ([_ H] & _).
  destruct (DeriveKey demo_hkdf _ _ _ _) as [out|e|p]; [by exists out|exfalso..];
    (assert (is_ok (A:=bytes) (Err EOF) = true); [|done]; by apply H).
Defined.
