(* ===== verification/KeyRing.v ===== *)
(** * Key rings: [keyring.go]

    A ring maps key ids to ciphers; one of them is active.  [Seal] writes the version 0x03
    format under the active key, [Open] dispatches on the id inside the text and tries every
    key on the version 0x01 format. *)

From S2P Require Import Prelude Errors Base64 GoIO Aes Cipher Format Aead.

Module KeyRing.

(** ** State *)

(** A missing entry of a Go map of interfaces reads as nil, here [None]. *)
Record KeyRing := {
  active : bytes;
  keys : gmap bytes AEAD;
  rawKeys : gmap bytes bytes
}.

(** ** Operations

    A method on the pointer takes the ring and returns its result with the ring left behind. *)

Definition validKid (kid : bytes) : option error :=
  if len kid =? 0 then Some (Errorf "crypt: kid must be non-empty")
  else if keyRingMaxKidLen <? len kid then
    Some (Errorf "crypt: kid length %d exceeds limit %d")
  else None.

Definition NewKeyRing (activeKid activeKey : bytes) : outcome KeyRing :=
  match validKid activeKid with
  | Some err => Err err
  | None =>
      if negb (len activeKey =? AEADKeySize) then
        Err (Wrapf "%w: KeyRing requires %d bytes; got %d" ErrInvalidKey)
      else
        block ← map_err (Wrapf "crypt: aes.NewCipher: %w") (NewCipher activeKey);
        gcm ← map_err (Wrapf "crypt: cipher.NewGCM: %w") (NewGCM block);
        Ok {| active := activeKid;
              keys := {[activeKid := gcm]};
              rawKeys := {[activeKid := activeKey]} |}
  end.

Definition Add (r : KeyRing) (kid key : bytes) : outcome unit * KeyRing :=
  match validKid kid with
  | Some err => (Err err, r)
  | None =>
      match keys r !! kid with
      | Some _ => (Err (Errorf "crypt: KeyRing already has kid %q"), r)
      | None =>
          if negb (len key =? AEADKeySize) then
            (Err (Wrapf "%w: KeyRing requires %d bytes; got %d" ErrInvalidKey), r)
          else
            match (block ← map_err (Wrapf "crypt: aes.NewCipher: %w") (NewCipher key);
                   map_err (Wrapf "crypt: cipher.NewGCM: %w") (NewGCM block)) with
            | Ok gcm =>
                (Ok tt, {| active := active r;
                           keys := <[kid := gcm]> (keys r);
                           rawKeys := <[kid := key]> (rawKeys r) |})
            | Err e => (Err e, r)
            | Panic p => (Panic p, r)
            end
      end
  end.

Definition Remove (r : KeyRing) (kid : bytes) : outcome unit * KeyRing :=
  if bool_decide (kid = active r) then
    (Err (Errorf "crypt: cannot remove active kid %q"), r)
  else
    match keys r !! kid with
    | None => (Err (Errorf "crypt: KeyRing has no kid %q"), r)
    | Some _ =>
        (Ok tt, {| active := active r;
                   keys := delete kid (keys r);
                   rawKeys := delete kid (rawKeys r) |})
    end.

Definition ActiveKid (r : KeyRing) : bytes := active r.

Definition SetActive (r : KeyRing) (kid : bytes) : outcome unit * KeyRing :=
  match keys r !! kid with
  | None => (Err (Errorf "crypt: KeyRing has no kid %q"), r)
  | Some _ => (Ok tt, {| active := kid; keys := keys r; rawKeys := rawKeys r |})
  end.

(** A method call on an [AEAD] read from the map. *)
Definition nil_Seal (gcm : option AEAD) (dst nonce p aad : bytes) : outcome bytes :=
  match gcm with
  | Some c => aead_Seal c dst nonce p aad
  | None => Panic "nil pointer dereference"
  end.

Definition nil_Open (gcm : option AEAD) (nonce ct aad : bytes) : outcome bytes :=
  match gcm with
  | Some c => aead_Open c nonce ct aad
  | None => Panic "nil pointer dereference"
  end.

Definition Seal (r : KeyRing) (plaintext aad : bytes) : M bytes :=
  let gcm := keys r !! active r in
  nonce ← map_errM (Wrapf "crypt: random nonce: %w") (ReadRand aeadNonceSize);
  let kidBytes := active r in
  let out := [] ++ [VersionAEADv3] in
  let out := out ++ [to_byte (len kidBytes)] in
  let out := out ++ kidBytes in
  let out := out ++ nonce in
  out ← lift (nil_Seal gcm out nonce plaintext aad);
  mret (EncodeToString RawURLEncoding out).

(** [order] is the order in which [range r.keys] visits the keys: Go leaves it open. *)
Definition kidsActiveFirst (r : KeyRing) (order : list bytes) : list bytes :=
  active r :: filter (fun kid => kid <> active r) order.

Definition openV1WithAEAD (gcm : option AEAD) (raw aad : bytes) : outcome bytes :=
  if len raw <? aeadMinSize then Err ErrCiphertextTooShort
  else
    version ← index raw 0;
    if negb (bool_decide (version = VersionAEADv1)) then Err ErrUnsupportedVersion
    else
      nonce ← slice raw 1 aeadHeaderSize;
      body ← slice_from raw aeadHeaderSize;
      nil_Open gcm nonce body aad.

(** The loop over the candidate keys. *)
Fixpoint tryKids (r : KeyRing) (raw aad : bytes) (kids : list bytes) : outcome bytes :=
  match kids with
  | [] => Err (Wrapf "%w: no key in ring opens this v1 ciphertext" ErrTampered)
  | kid :: kids' =>
      match openV1WithAEAD (keys r !! kid) raw aad with
      | Ok pt => Ok pt
      | Err _ => tryKids r raw aad kids'
      | Panic p => Panic p
      end
  end.

Definition Open (r : KeyRing) (order : list bytes) (ciphertext aad : bytes) : outcome bytes :=
  raw ← map_err (fun _ => Wrapf "%w: %v" ErrInvalidCiphertext)
          (DecodeString RawURLEncoding ciphertext);
  if len raw <? aeadMinSize then Err ErrCiphertextTooShort
  else
    version ← index raw 0;
    if bool_decide (version = VersionAEADv1) then
      tryKids r raw aad (kidsActiveFirst r order)
    else if bool_decide (version = VersionAEADv3) then
      if len raw <? 2 then Err ErrCiphertextTooShort
      else
        b ← index raw 1;
        let kidLen := bval b in
        if (kidLen <? 1) || (keyRingMaxKidLen <? kidLen) then
          Err (Wrapf "%w: invalid kid length %d" ErrInvalidCiphertext)
        else if len raw <? 2 + kidLen + aeadNonceSize + aeadTagSize then
          Err ErrCiphertextTooShort
        else
          kid ← slice raw 2 (2 + kidLen);
          match keys r !! kid with
          | None => Err (Wrapf "%w: no key for kid %q in ring" ErrTampered)
          | Some gcm =>
              nonce ← slice raw (2 + kidLen) (2 + kidLen + aeadNonceSize);
              body ← slice_from raw (2 + kidLen + aeadNonceSize);
              map_err (fun _ => Wrapf "%w: %v" ErrTampered) (aead_Open gcm nonce body aad)
          end
    else Err (Wrapf "%w: 0x%02x" ErrUnsupportedVersion).

(** ** Reachable rings *)

Inductive ring_op := OpAdd (kid key : bytes) | OpRemove (kid : bytes) | OpSetActive (kid : bytes).

Definition run_op (r : KeyRing) (op : ring_op) : outcome unit * KeyRing :=
  match op with
  | OpAdd kid key => Add r kid key
  | OpRemove kid => Remove r kid
  | OpSetActive kid => SetActive r kid
  end.

(** The ring after a sequence of calls, whether they succeed or fail. *)
Inductive evolves : KeyRing -> list ring_op -> KeyRing -> Prop :=
  | evolves_nil r : evolves r [] r
  | evolves_cons r op ops r' : evolves (run_op r op).2 ops r' -> evolves r (op :: ops) r'.

Definition reachable (r : KeyRing) : Prop :=
  exists kid key r0 ops, NewKeyRing kid key = Ok r0 /\ evolves r0 ops r.

(** The two maps hold the same ids, every id has 1 to 64 bytes and every cipher is the one of
    its raw 32-byte key; the active id is one of them. *)
Definition entry_ok (kid : bytes) (c : option AEAD) (raw : option bytes) : Prop :=
  match c, raw with
  | Some c, Some k =>
      gcm_of_key k = Ok c /\ len k = AEADKeySize /\ 1 <= len kid <= keyRingMaxKidLen
  | None, None => True
  | _, _ => False
  end.

Record ring_ok (r : KeyRing) : Prop := {
  ring_entry kid : entry_ok kid (keys r !! kid) (rawKeys r !! kid);
  ring_active : is_Some (keys r !! active r)
}.

(** The order in which Go may visit the keys. *)
Definition visits (r : KeyRing) (order : list bytes) : Prop :=
  NoDup order /\ forall kid, kid ∈ order <-> is_Some (keys r !! kid).

(** ** Lemmas *)

Lemma validKid_spec kid : validKid kid = None <-> 1 <= len kid <= keyRingMaxKidLen.
Proof.
  unfold validKid. pose proof (len_nonneg kid).
  destruct (Z.eqb_spec (len kid) 0); [split; [done|lia]|].
  destruct (Z.ltb_spec keyRingMaxKidLen (len kid)); split; done || lia.
Qed.

Lemma ring_cipher key f1 f2 :
  len key = 32 ->
  exists c, gcm_of_key key = Ok c /\
    (block ← map_err f1 (NewCipher key); map_err f2 (NewGCM block)) = Ok c.
Proof.
  intros Hk. destruct (gcm_of_key_Ok key Hk) as (c & Hc & _). exists c. split; [done|].
  apply bind_Ok_inv in Hc as (b & -> & Hc). cbn [map_err mbind outcome_bind]. by rewrite Hc.
Qed.

Lemma NewKeyRing_spec kid key r :
  NewKeyRing kid key = Ok r <->
  1 <= len kid <= keyRingMaxKidLen /\ len key = AEADKeySize /\
  exists c, gcm_of_key key = Ok c /\
    r = {| active := kid; keys := {[kid := c]}; rawKeys := {[kid := key]} |}.
Proof.
  unfold NewKeyRing. destruct (validKid kid) eqn:Hv.
  { split; [done|]. intros (Hv'%validKid_spec & _). congruence. }
  apply validKid_spec in Hv. change AEADKeySize with 32.
  destruct (Z.eqb_spec (len key) 32) as [Hk|Hk]; cbn [negb].
  2: { split; [done|]. by intros (_ & ? & _). }
  destruct (gcm_of_key_Ok key Hk) as (c & Hc & _). pose proof Hc as (b & Hb & Hg)%bind_Ok_inv.
  rewrite Hb. cbn [map_err mbind outcome_bind]. rewrite Hg. cbn [map_err mbind outcome_bind].
  split; [intros [= <-]; eauto|]. intros (_ & _ & c' & Hc' & ->). congruence.
Qed.

(** The two outcomes of each mutator. *)
Lemma Add_cases r kid key :
  (exists e, Add r kid key = (Err e, r)) \/
  (exists c, 1 <= len kid <= keyRingMaxKidLen /\ len key = AEADKeySize /\
     keys r !! kid = None /\ gcm_of_key key = Ok c /\
     Add r kid key = (Ok tt, {| active := active r; keys := <[kid := c]> (keys r);
                                rawKeys := <[kid := key]> (rawKeys r) |})).
Proof.
  unfold Add. destruct (validKid kid) eqn:Hv; [eauto|].
  apply validKid_spec in Hv. destruct (keys r !! kid) eqn:Hkid; [eauto|].
  change AEADKeySize with 32. destruct (Z.eqb_spec (len key) 32) as [Hk|Hk]; cbn [negb]; [|eauto].
  right. edestruct (ring_cipher key) as (c & Hc & ->); [done|]. eauto 10.
Qed.

Lemma Remove_cases r kid :
  (exists e, Remove r kid = (Err e, r)) \/
  (kid <> active r /\
   Remove r kid = (Ok tt, {| active := active r; keys := delete kid (keys r);
                             rawKeys := delete kid (rawKeys r) |})).
Proof.
  unfold Remove. case_bool_decide; [eauto|]. destruct (keys r !! kid); eauto.
Qed.

Lemma SetActive_cases r kid :
  (exists e, SetActive r kid = (Err e, r)) \/
  (is_Some (keys r !! kid) /\
   SetActive r kid = (Ok tt, {| active := kid; keys := keys r; rawKeys := rawKeys r |})).
Proof. unfold SetActive. destruct (keys r !! kid) eqn:E; rewrite ?E; eauto. Qed.

Lemma new_ring_ok kid key r : NewKeyRing kid key = Ok r -> ring_ok r.
Proof.
  intros (Hv & Hk & c & Hc & ->)%NewKeyRing_spec. split; simpl.
  - intros kid'. destruct (decide (kid' = kid)) as [->|Hne].
    + by rewrite !lookup_singleton_eq.
    + by rewrite !lookup_singleton_ne.
  - rewrite lookup_singleton_eq. eauto.
Qed.

Lemma run_op_ok r op : ring_ok r -> ring_ok (run_op r op).2.
Proof.
  intros [He Ha]. destruct op as [kid key|kid|kid]; simpl.
  - destruct (Add_cases r kid key) as [[e ->]|(c & Hv & Hk & _ & Hc & ->)]; [done|].
    split; simpl; [intros kid'|].
    + destruct (decide (kid = kid')) as [->|Hne].
      * by rewrite !lookup_insert_eq.
      * by rewrite !lookup_insert_ne.
    + destruct (decide (kid = active r)) as [->|Hne].
      * rewrite lookup_insert_eq. eauto.
      * by rewrite lookup_insert_ne.
  - destruct (Remove_cases r kid) as [[e ->]|(Hne & ->)]; [done|].
    split; simpl; [intros kid'|by rewrite lookup_delete_ne].
    destruct (decide (kid = kid')) as [->|Hne'].
    + by rewrite !lookup_delete_eq.
    + by rewrite !lookup_delete_ne.
  - destruct (SetActive_cases r kid) as [[e ->]|(Hs & ->)]; done.
Qed.

Lemma evolves_ok r ops r' : ring_ok r -> evolves r ops r' -> ring_ok r'.
Proof. intros Hr H. induction H; [done|]. by apply IHevolves, run_op_ok. Qed.

Lemma reachable_ok r : reachable r -> ring_ok r.
Proof. intros (kid & key & r0 & ops & H & He). eapply evolves_ok; [by eapply new_ring_ok|done]. Qed.

(** An entry outlives every call but its own removal. *)
Lemma evolves_keeps r ops r' kid c :
  keys r !! kid = Some c -> OpRemove kid ∉ ops -> evolves r ops r' -> keys r' !! kid = Some c.
Proof.
  intros Hc Hn H. revert Hc Hn. induction H as [|r op ops r' _ IH]; intros Hc Hn; [done|].
  apply not_elem_of_cons in Hn as [Hop Hn]. apply IH; [|done].
  destruct op as [kid' key|kid'|kid']; simpl.
  - destruct (Add_cases r kid' key) as [[e ->]|(c' & _ & _ & Hnew & _ & ->)]; [done|].
    simpl. rewrite lookup_insert_ne; [done|]. congruence.
  - destruct (Remove_cases r kid') as [[e ->]|(Hne & ->)]; [done|].
    simpl. rewrite lookup_delete_ne; [done|]. congruence.
  - by destruct (SetActive_cases r kid') as [[e ->]|(Hs & ->)].
Qed.

(** A removed id stays absent until it is added again. *)
Lemma evolves_absent r ops r' kid :
  keys r !! kid = None -> (forall key, OpAdd kid key ∉ ops) -> evolves r ops r' ->
  keys r' !! kid = None.
Proof.
  intros Hc Hn H. revert Hc Hn. induction H as [|r op ops r' _ IH]; intros Hc Hn; [done|].
  apply IH; [|intros key Hin; by apply (Hn key), elem_of_cons; right].
  destruct op as [kid' key|kid'|kid']; simpl.
  - destruct (Add_cases r kid' key) as [[e ->]|(c' & _ & _ & Hnew & _ & ->)]; [done|].
    simpl. rewrite lookup_insert_ne; [done|]. intros ->.
    apply (Hn key), elem_of_cons. by left.
  - destruct (Remove_cases r kid') as [[e ->]|(Hne & ->)]; [done|].
    simpl. by apply lookup_delete_None; right.
  - by destruct (SetActive_cases r kid') as [[e ->]|(Hs & ->)].
Qed.

(** Every cipher of a reachable ring satisfies the interface. *)
Lemma ring_cipher_ok r kid c :
  ring_ok r -> keys r !! kid = Some c ->
  exists raw, rawKeys r !! kid = Some raw /\ len raw = 32 /\ gcm_of_key raw = Ok c /\
    1 <= len kid <= 64.
Proof.
  intros [He _] Hc. specialize (He kid). rewrite Hc in He.
  destruct (rawKeys r !! kid) as [raw|]; [|done]. destruct He as (? & ? & ?). eauto.
Qed.

(** *** Reading the two layouts *)

Lemma Open_v3 r order text kid nonce body aad :
  DecodeString RawURLEncoding text =
    Ok (VersionAEADv3 :: to_byte (len kid) :: kid ++ nonce ++ body) ->
  1 <= len kid <= 64 -> len nonce = 12 -> 16 <= len body ->
  Open r order text aad =
    match keys r !! kid with
    | None => Err (Wrapf "%w: no key for kid %q in ring" ErrTampered)
    | Some c => map_err (fun _ => Wrapf "%w: %v" ErrTampered) (aead_Open c nonce body aad)
    end.
Proof.
  intros Hd Hk Hn Hb. unfold Open. rewrite Hd. cbn [map_err mbind outcome_bind].
  set (raw := VersionAEADv3 :: to_byte (len kid) :: kid ++ nonce ++ body).
  assert (Hl : len raw = 14 + len kid + len body)
    by (unfold raw; rewrite !len_cons, !len_app, Hn; lia).
  change aeadMinSize with 29. rewrite Hl, !(proj2 (Z.ltb_ge _ _)) by lia.
  assert (index raw 0 = Ok VersionAEADv3) as -> by (by apply index_head).
  cbn [mbind outcome_bind]. rewrite bool_decide_eq_false_2, bool_decide_eq_true_2 by done.
  assert (index raw 1 = Ok (to_byte (len kid))) as ->.
  { destruct (index_Ok raw 1) as (x & -> & Hx); [lia|]. by injection Hx as <-. }
  cbn [mbind outcome_bind]. rewrite bval_to_byte_small by lia.
  change keyRingMaxKidLen with 64. rewrite !(proj2 (Z.ltb_ge _ _)) by lia. cbn [orb].
  change aeadNonceSize with 12. change aeadTagSize with 16.
  rewrite (proj2 (Z.ltb_ge _ _)) by lia.
  change raw with ([VersionAEADv3; to_byte (len kid)] ++ kid ++ (nonce ++ body)).
  rewrite (slice_app [VersionAEADv3; to_byte (len kid)] kid (nonce ++ body) 2 (2 + len kid)) by (change (len [_; _]) with 2; lia).
  cbn [mbind outcome_bind]. destruct (keys r !! kid) as [c|]; [|done].
  rewrite app_assoc.
  rewrite (slice_app ([VersionAEADv3; to_byte (len kid)] ++ kid) nonce body)
    by (rewrite !len_app, ?Hn; change (len [_; _]) with 2; lia).
  cbn [mbind outcome_bind]. rewrite app_assoc.
  rewrite (slice_from_app (([VersionAEADv3; to_byte (len kid)] ++ kid) ++ nonce) body); [done|].
  rewrite !len_app, Hn. change (len [_; _]) with 2. lia.
Qed.

(** A v3 text whose id length is in range and which is long enough has that layout. *)
Lemma v3_layout rest b :
  index (VersionAEADv3 :: rest) 1 = Ok b -> 1 <= bval b <= 64 ->
  2 + bval b + 12 + 16 <= len (VersionAEADv3 :: rest) ->
  exists kid nonce body, rest = to_byte (len kid) :: kid ++ nonce ++ body /\
    1 <= len kid <= 64 /\ len nonce = 12 /\ 16 <= len body.
Proof.
  intros Hb Hr Hl. destruct rest as [|b' rest]; [rewrite len_cons, len_nil in Hl; lia|].
  rewrite !len_cons in Hl.
  assert (b' = b) as ->.
  { destruct (index_Ok (VersionAEADv3 :: b' :: rest) 1) as (x & Hx & [= ->]);
      [rewrite !len_cons; lia|]. congruence. }
  set (k := Z.to_nat (bval b)).
  assert (Hk : len (take k rest) = bval b) by (unfold k, len in *; rewrite length_take; lia).
  exists (take k rest), (take 12 (drop k rest)), (drop 12 (drop k rest)).
  rewrite !take_drop, Hk, to_byte_bval. split; [done|]. split; [lia|].
  unfold k, len in *. rewrite length_take, !length_drop. lia.
Qed.

(** The reader of a v3 text: a malformed header, or that layout. *)
Lemma Open_v3_cases r order text rest aad :
  DecodeString RawURLEncoding text = Ok (VersionAEADv3 :: rest) ->
  Open r order text aad = Err ErrCiphertextTooShort \/
  (exists f, Open r order text aad = Err (Wrapf f ErrInvalidCiphertext)) \/
  (exists kid nonce body, rest = to_byte (len kid) :: kid ++ nonce ++ body /\
    1 <= len kid <= 64 /\ len nonce = 12 /\ 16 <= len body).
Proof.
  intros Hd. unfold Open. rewrite Hd. cbn [map_err mbind outcome_bind].
  change aeadMinSize with 29. case_bool; [auto|]. rewrite (index_head _ _ 0) by done.
  cbn [mbind outcome_bind]. rewrite bool_decide_eq_false_2, bool_decide_eq_true_2 by done.
  case_bool; [auto|]. b2p. destruct (index_Ok (VersionAEADv3 :: rest) 1) as (b & Hb & _); [lia|].
  rewrite Hb. cbn [mbind outcome_bind].
  case_bool; [eauto|]. case_bool; [auto|].
  change keyRingMaxKidLen with 64 in *. change aeadNonceSize with 12 in *.
  change aeadTagSize with 16 in *. b2p. right; right. by apply (v3_layout rest b).
Qed.

Lemma openV1_split c version nonce body aad :
  len nonce = 12 -> 16 <= len body -> version = VersionAEADv1 ->
  openV1WithAEAD c (version :: nonce ++ body) aad = nil_Open c nonce body aad.
Proof.
  intros Hn Hb ->. unfold openV1WithAEAD.
  change aeadMinSize with 29. rewrite (proj2 (Z.ltb_ge _ _)) by (rewrite len_cons, len_app; lia).
  rewrite index_head by done. cbn [mbind outcome_bind]. rewrite bool_decide_eq_true_2 by done.
  change aeadHeaderSize with 13. cbn [negb].
  rewrite (slice_app [VersionAEADv1] nonce body) by (done || (rewrite Hn; done)).
  by rewrite (slice_from_app (VersionAEADv1 :: nonce) body) by (rewrite len_cons, Hn; done).
Qed.

(** The v1 reader under one key of the ring is [Aead.Open] under that key. *)
Lemma openV1_Open raw c text rest aad :
  len raw = 32 -> gcm_of_key raw = Ok c ->
  DecodeString RawURLEncoding text = Ok (VersionAEADv1 :: rest) -> 29 <= len rest + 1 ->
  Aead.Open raw text aad =
    map_err (fun _ => Wrapf "%w: %v" ErrTampered)
      (openV1WithAEAD (Some c) (VersionAEADv1 :: rest) aad).
Proof.
  intros Hk Hc Hd Hl. rewrite (Open_frame raw c) by done.
  assert (len (take 12 rest) = 12) by (unfold len in *; rewrite length_take; lia).
  assert (16 <= len (drop 12 rest)) by (unfold len in *; rewrite length_drop; lia).
  rewrite <- (take_drop 12 rest) in Hd |- *.
  rewrite (openV1_split (Some c)) by done. rewrite (frame_open_cons _ _ _ _ _ _ _ Hd) by done.
  by rewrite bool_decide_eq_true_2.
Qed.

Lemma Open_v1 r order text rest aad :
  DecodeString RawURLEncoding text = Ok (VersionAEADv1 :: rest) -> 29 <= len rest + 1 ->
  Open r order text aad =
    tryKids r (VersionAEADv1 :: rest) aad (kidsActiveFirst r order).
Proof.
  intros Hd Hl. unfold Open. rewrite Hd. cbn [map_err mbind outcome_bind].
  change aeadMinSize with 29. rewrite (proj2 (Z.ltb_ge _ _)) by (rewrite len_cons; lia).
  by rewrite (index_head _ _ 0) by done.
Qed.

(** The candidate list holds exactly the ids of the ring. *)
Lemma kidsActiveFirst_spec r order kid :
  ring_ok r -> visits r order -> kid ∈ kidsActiveFirst r order <-> is_Some (keys r !! kid).
Proof.
  intros [_ Ha] [_ Hv]. unfold kidsActiveFirst. rewrite elem_of_cons, list_elem_of_filter, Hv.
  split; [intros [-> |[_ ?]]; done|]. intros Hs.
  destruct (decide (kid = active r)); auto.
Qed.

(** The loop returns the first success, and fails when there is none. *)
Lemma tryKids_spec r raw aad kids :
  (forall kid, kid ∈ kids -> panics (openV1WithAEAD (keys r !! kid) raw aad) = false) ->
  match tryKids r raw aad kids with
  | Ok p => exists kid, kid ∈ kids /\ openV1WithAEAD (keys r !! kid) raw aad = Ok p
  | Err e => errors_Is e ErrTampered = true /\
      forall kid, kid ∈ kids -> is_ok (openV1WithAEAD (keys r !! kid) raw aad) = false
  | Panic _ => False
  end.
Proof.
  induction kids as [|kid kids IH]; intros Hp; cbn [tryKids].
  - split; [done|]. intros kid Hin. by apply not_elem_of_nil in Hin.
  - destruct (openV1WithAEAD (keys r !! kid) raw aad) as [p|e|m] eqn:Ho.
    + exists kid. by rewrite elem_of_cons; auto.
    + assert (IH' := IH (fun k Hk => Hp k (list_elem_of_further _ _ _ Hk))).
      destruct (tryKids r raw aad kids) as [p|e'|m'].
      * destruct IH' as (k & Hk & H). exists k. by rewrite elem_of_cons; auto.
      * destruct IH' as [He H]. split; [done|]. intros k [-> |Hk]%elem_of_cons; [by rewrite Ho|auto].
      * done.
    + specialize (Hp kid (list_elem_of_here _ _)). by rewrite Ho in Hp.
Qed.

(** On a v1 text, the readers of the ring and of its raw keys agree key by key. *)
Lemma v1_entry r text rest aad kid :
  ring_ok r -> is_Some (keys r !! kid) ->
  DecodeString RawURLEncoding text = Ok (VersionAEADv1 :: rest) -> 29 <= len rest + 1 ->
  exists raw, rawKeys r !! kid = Some raw /\
    Aead.Open raw text aad =
      map_err (fun _ => Wrapf "%w: %v" ErrTampered)
        (openV1WithAEAD (keys r !! kid) (VersionAEADv1 :: rest) aad) /\
    panics (openV1WithAEAD (keys r !! kid) (VersionAEADv1 :: rest) aad) = false.
Proof.
  intros Hr [c Hc] Hd Hl. destruct (ring_cipher_ok r kid c Hr Hc) as (raw & Hraw & Hk & Hg & _).
  exists raw. split; [done|]. rewrite Hc. split; [by apply openV1_Open|].
  assert (len (take 12 rest) = 12) by (unfold len in *; rewrite length_take; lia).
  assert (16 <= len (drop 12 rest)) by (unfold len in *; rewrite length_drop; lia).
  rewrite <- (take_drop 12 rest), (openV1_split (Some c)) by done.
  by eapply gcm_of_key_no_panic.
Qed.

(** The loop over the keys of a ring, on a v1 text. *)
Lemma tryKids_ring r order text rest aad :
  ring_ok r -> visits r order ->
  DecodeString RawURLEncoding text = Ok (VersionAEADv1 :: rest) -> 29 <= len rest + 1 ->
  match tryKids r (VersionAEADv1 :: rest) aad (kidsActiveFirst r order) with
  | Ok p => exists kid, kid ∈ kidsActiveFirst r order /\
      openV1WithAEAD (keys r !! kid) (VersionAEADv1 :: rest) aad = Ok p
  | Err e => errors_Is e ErrTampered = true /\
      forall kid, kid ∈ kidsActiveFirst r order ->
        is_ok (openV1WithAEAD (keys r !! kid) (VersionAEADv1 :: rest) aad) = false
  | Panic _ => False
  end.
Proof.
  intros Hr Hv Hd Hl. apply tryKids_spec. intros kid Hk%kidsActiveFirst_spec; [|done..].
  by destruct (v1_entry r text rest aad kid Hr Hk Hd Hl) as (_ & _ & _ & ?).
Qed.

(** A text sealed by a ring. *)
Lemma ring_Seal_inv r p aad w s w' :
  Seal r p aad w = (Ok s, w') ->
  exists c nonce out, keys r !! active r = Some c /\ nonce = next_random 12 w /\ len nonce = 12 /\
    aead_Seal c (VersionAEADv3 :: to_byte (len (active r)) :: active r ++ nonce) nonce p aad = Ok out /\
    s = EncodeToString RawURLEncoding out.
Proof.
  unfold Seal. intros (n & w1 & Hn & H)%M_bind_Ok_inv.
  apply map_errM_Ok_inv, ReadRand_Ok_inv in Hn as (-> & Hr & _); [|done].
  apply M_lift_bind_inv in H as (out & Ho & [= <- _]).
  destruct (keys r !! active r) as [c|] eqn:Hc; [|discriminate]. cbn [nil_Seal] in Ho.
  exists c, (next_random 12 w), out. split; [done|]. split; [done|].
  split; [by apply len_next_random|]. split; [|done]. cbn [app] in Ho. done.
Qed.

(** What a ring's seal looks like on the wire, for the lemmas that read it back. *)
Lemma Seal_layout r p aad w s w' :
  ring_ok r -> Seal r p aad w = (Ok s, w') ->
  exists c nonce body, keys r !! active r = Some c /\ AEADOk c gcm_max /\
    1 <= len (active r) <= 64 /\ len nonce = 12 /\ 16 <= len body /\
    aead_Open c nonce body aad = Ok p /\
    DecodeString RawURLEncoding s =
      Ok (VersionAEADv3 :: to_byte (len (active r)) :: active r ++ nonce ++ body).
Proof.
  intros Hr (c & n & out & Hc & _ & Hn & Ho & ->)%ring_Seal_inv.
  destruct (ring_cipher_ok r _ c Hr Hc) as (raw & _ & _ & Hg & Hkid).
  pose proof (gcm_of_key_ok _ _ Hg) as Hok.
  destruct (seal_bound _ _ _ _ _ Ho) as [_ Hp].
  destruct (seal_open n p aad Hn Hp) as (body & Hl & Hs & Hopen).
  rewrite Hs in Ho. injection Ho as <-. pose proof (len_nonneg p).
  exists c, n, body. do 4 (split; [done|]). split; [lia|]. split; [done|].
  rewrite Decode_Encode by apply _. f_equal. cbn [app]. by rewrite <- app_assoc.
Qed.

Lemma ring_Seal_run r p aad w :
  ring_ok r -> len p <= gcm_max -> has_random 12 w ->
  exists s w', Seal r p aad w = (Ok s, w') /\ after_random 12 w w'.
Proof.
  intros Hr Hp Hw. destruct (ring_active r Hr) as [c Hc].
  destruct (ring_cipher_ok r _ c Hr Hc) as (raw & _ & _ & Hg & _).
  pose proof (gcm_of_key_ok _ _ Hg) as Hok.
  destruct (ReadRand_Ok 12 w ltac:(lia) Hw) as (w' & Hrand & Ha).
  destruct (seal_open (next_random 12 w) p aad) as (body & _ & Hs & _);
    [by apply len_next_random|done|].
  eexists _, w'. split; [|exact Ha]. unfold Seal. rewrite Hc.
  erewrite M_bind_Ok by (apply map_errM_Ok, Hrand). cbn [nil_Seal].
  rewrite (M_lift_bind _ _ _ _ (Hs _)). done.
Qed.

(** A plain sealing exists and decodes to a v1 layout. *)
Lemma Seal_then_Open_ex key p aad w :
  len key = 32 -> len p <= gcm_max -> has_random 12 w ->
  exists s w' rest, Aead.Seal key p aad w = (Ok s, w') /\
    DecodeString RawURLEncoding s = Ok (VersionAEADv1 :: rest).
Proof.
  intros Hk Hp Hw. destruct (Aead.Seal_run key p aad w Hk Hp Hw) as (c & body & w' & _ & _ & _ & _ & Hs & _).
  eexists _, w', _. split; [exact Hs|]. apply Decode_Encode, _.
Qed.

(** *** The guards of the mutators *)

Lemma Add_ok r kid key :
  is_ok (Add r kid key).1 = true <->
  1 <= len kid <= 64 /\ len key = AEADKeySize /\ keys r !! kid = None.
Proof.
  split.
  - destruct (Add_cases r kid key) as [[e ->]|(c & Hv & Hk & Hn & _ & ->)]; [done|]. auto.
  - intros (Hv & Hk & Hn). unfold Add. rewrite (proj2 (validKid_spec kid) Hv), Hn, Hk, Z.eqb_refl.
    cbn [negb]. edestruct (ring_cipher key) as (c & _ & ->); done.
Qed.

Lemma Remove_ok r kid :
  is_ok (Remove r kid).1 = true <-> kid <> active r /\ is_Some (keys r !! kid).
Proof.
  unfold Remove. case_bool_decide as Hk; [split; [done|by intros [? _]]|].
  destruct (keys r !! kid); split; [eauto|done|done|intros [_ [? ?]]; done].
Qed.

Lemma SetActive_ok r kid : is_ok (SetActive r kid).1 = true <-> is_Some (keys r !! kid).
Proof. unfold SetActive. destruct (keys r !! kid); split; [eauto|done|done|intros [? ?]; done]. Qed.

Lemma Remove_absent r kid :
  is_ok (Remove r kid).1 = true -> keys (Remove r kid).2 !! kid = None.
Proof.
  intros H. destruct (Remove_cases r kid) as [[e E]|(_ & ->)]; [by rewrite E in H|].
  apply lookup_delete_eq.
Qed.

(** ** Properties *)

(** C29: on every ring reachable from [NewKeyRing] by any sequence of [Add], [Remove] and
    [SetActive] calls, failing ones included, the two maps hold the same ids with matching
    keys, every id has 1 to 64 bytes and the active id is present; so [Seal] never meets a
    missing cipher: it succeeds whenever the random source and GCM's limit allow. *)
Theorem KeyRing_invariant r p aad w :
  reachable r -> len p <= gcm_max -> has_random 12 w ->
  ring_ok r /\ exists s w', Seal r p aad w = (Ok s, w') /\ after_random 12 w w'.
Proof. intros Hr%reachable_ok Hp Hw. split; [done|]. by apply ring_Seal_run. Qed.

(** A ring in the middle of a rotation, for the witnesses. *)
Definition demo_old : bytes := replicate 32 x11.
Definition demo_ring0 : KeyRing :=
  match NewKeyRing (lit "v1") demo_old with
  | Ok r => r | _ => {| active := []; keys := ∅; rawKeys := ∅ |} end.
Definition demo_ops : list ring_op := [OpAdd (lit "v2") demo_key; OpSetActive (lit "v2")].
Definition demo_ring : KeyRing := fold_left (fun r op => (run_op r op).2) demo_ops demo_ring0.

Lemma evolves_fold r ops : evolves r ops (fold_left (fun r op => (run_op r op).2) ops r).
Proof. revert r; induction ops as [|op ops IH]; intros r; [constructor|]. simpl. by constructor. Qed.

Lemma demo_ring0_reachable : reachable demo_ring0.
Proof. exists (lit "v1"), demo_old, demo_ring0, []. split; [reflexivity|constructor]. Qed.

Lemma demo_ring_reachable : reachable demo_ring.
Proof.
  exists (lit "v1"), demo_old, demo_ring0, demo_ops. split; [reflexivity|apply evolves_fold].
Qed.

Lemma KeyRing_invariant_witness :
  exists s w', Seal demo_ring (lit "hi") [] demo_world = (Ok s, w').
Proof.
  destruct (KeyRing_invariant demo_ring (lit "hi") [] demo_world) as (_ & s & w' & H & _);
    [apply demo_ring_reachable|vm_compute; discriminate..|]. eauto.
Defined.

(** The guards of the mutators, exactly. [Add] takes a fresh id of 1 to 64 bytes with a
    32-byte key, [Remove] a present id other than the active one, [SetActive] a present id; a
    call outside its guard returns an error, leaves the ring as it was, and none panics. *)
Theorem KeyRing_guards r kid key :
  let ok (m : outcome unit * KeyRing) := is_ok m.1 = true in
  let untouched (m : outcome unit * KeyRing) := ok m \/ ((exists e, m.1 = Err e) /\ m.2 = r) in
  (ok (Add r kid key) <->
     1 <= len kid <= 64 /\ len key = AEADKeySize /\ keys r !! kid = None) /\
  (ok (Remove r kid) <-> kid <> active r /\ is_Some (keys r !! kid)) /\
  (ok (SetActive r kid) <-> is_Some (keys r !! kid)) /\
  untouched (Add r kid key) /\ untouched (Remove r kid) /\ untouched (SetActive r kid).
Proof.
  cbv zeta. split; [apply Add_ok|]. split; [apply Remove_ok|]. split; [apply SetActive_ok|].
  split; [|split].
  - destruct (Add_cases r kid key) as [[e ->]|(c & _ & _ & _ & _ & ->)]; eauto.
  - destruct (Remove_cases r kid) as [[e ->]|(_ & ->)]; eauto.
  - destruct (SetActive_cases r kid) as [[e ->]|(_ & ->)]; eauto.
Qed.

(** C3: key rotation. Whatever a reachable ring sealed opens on every later state of that ring,
    after any sequence of [Add], [SetActive] and [Remove] calls (failing or not) that does not
    remove the sealing id, in any map order. *)
Theorem KeyRing_rotation r p aad w s w' ops r' order :
  reachable r -> Seal r p aad w = (Ok s, w') ->
  evolves r ops r' -> OpRemove (ActiveKid r) ∉ ops ->
  Open r' order s aad = Ok p.
Proof.
  intros Hr%reachable_ok Hs He Hn.
  destruct (Seal_layout r p aad w s w' Hr Hs) as (c & n & body & Hc & _ & Hk & Hl & Hb & Ho & Hd).
  rewrite (Open_v3 _ _ _ _ _ _ _ Hd) by done.
  by rewrite (evolves_keeps _ _ _ _ _ Hc Hn He), Ho.
Qed.

Lemma KeyRing_rotation_witness :
  exists s w', Seal demo_ring0 (lit "hi") [] demo_world = (Ok s, w') /\
    Open demo_ring [lit "v2"; lit "v1"] s [] = Ok (lit "hi").
Proof.
  destruct (ring_Seal_run demo_ring0 (lit "hi") [] demo_world) as (s & w' & Hs & _);
    [apply reachable_ok, demo_ring0_reachable|vm_compute; discriminate..|].
  exists s, w'. split; [done|].
  apply (KeyRing_rotation demo_ring0 (lit "hi") [] demo_world s w' demo_ops demo_ring);
    [apply demo_ring0_reachable|done|apply evolves_fold|].
  intros [H|[H|H%not_elem_of_nil]%elem_of_cons]%elem_of_cons; done.
Defined.

(** After [Remove] of the id that sealed it a text is dead: every later state of the ring it
    was removed from reports [ErrTampered], until some key is added under the same id. *)
Theorem KeyRing_removal r p aad w s w' r1 ops r2 order :
  reachable r -> Seal r p aad w = (Ok s, w') ->
  is_ok (Remove r1 (ActiveKid r)).1 = true ->
  evolves (Remove r1 (ActiveKid r)).2 ops r2 -> (forall key, OpAdd (ActiveKid r) key ∉ ops) ->
  fails_with (Open r2 order s aad) ErrTampered = true.
Proof.
  intros Hr%reachable_ok Hs Hrem He Hn.
  destruct (Seal_layout r p aad w s w' Hr Hs) as (c & n & body & _ & _ & Hk & Hl & Hb & _ & Hd).
  rewrite (Open_v3 _ _ _ _ _ _ _ Hd) by done.
  pose proof (evolves_absent _ _ _ _ (Remove_absent _ _ Hrem) Hn He) as Ha.
  unfold ActiveKid in Ha. by rewrite Ha.
Qed.

Lemma KeyRing_removal_witness :
  exists s w', Seal demo_ring0 (lit "hi") [] demo_world = (Ok s, w') /\
    fails_with (Open (Remove demo_ring (lit "v1")).2 [lit "v2"] s []) ErrTampered = true.
Proof.
  destruct (ring_Seal_run demo_ring0 (lit "hi") [] demo_world) as (s & w' & Hs & _);
    [apply reachable_ok, demo_ring0_reachable|vm_compute; discriminate..|].
  exists s, w'. split; [done|].
  apply (KeyRing_removal demo_ring0 (lit "hi") [] demo_world s w' demo_ring []);
    [apply demo_ring0_reachable|done|reflexivity|constructor|].
  intros key H. by apply not_elem_of_nil in H.
Defined.

(** C22: [Open] accepts a version 0x03 text with plaintext [p] exactly when it has the documented
    layout, its id is in the ring, and its body is what the cipher of that id seals for [p] under
    its nonce and the AAD. *)
Theorem KeyRing_Open_v3_exact r order text rest aad p :
  reachable r -> DecodeString RawURLEncoding text = Ok (VersionAEADv3 :: rest) ->
  Open r order text aad = Ok p <->
  exists kid nonce body c, rest = to_byte (len kid) :: kid ++ nonce ++ body /\
    1 <= len kid <= 64 /\ len nonce = 12 /\ keys r !! kid = Some c /\
    aead_Seal c [] nonce p aad = Ok body.
Proof.
  intros Hr%reachable_ok Hd. split.
  - intros H. destruct (Open_v3_cases r order text rest aad Hd) as [E|[[f E]|Hlay]]; [congruence..|].
    destruct Hlay as (kid & n & body & -> & Hk & Hn & Hb).
    rewrite (Open_v3 _ _ _ _ _ _ _ Hd) in H by done.
    destruct (keys r !! kid) as [c|] eqn:Hc; [|discriminate]. apply map_err_Ok in H.
    destruct (ring_cipher_ok r kid c Hr Hc) as (raw & _ & _ & Hg & _).
    pose proof (gcm_of_key_ok _ _ Hg) as Hok.
    apply open_seal in H as (_ & _ & H). exists kid, n, body, c. by rewrite H.
  - intros (kid & n & body & c & -> & Hk & Hn & Hc & Hs).
    destruct (ring_cipher_ok r kid c Hr Hc) as (raw & _ & _ & Hg & _).
    pose proof (gcm_of_key_ok _ _ Hg) as Hok.
    destruct (seal_bound _ _ _ _ _ Hs) as [_ Hp].
    destruct (seal_open n p aad Hn Hp) as (body' & Hl & Hs' & Ho).
    rewrite Hs' in Hs. injection Hs as <-. pose proof (len_nonneg p).
    rewrite (Open_v3 _ _ _ _ _ _ _ Hd), Hc by (done || lia). by rewrite Ho.
Qed.

(** What the ring seals, after the version byte. *)
Definition demo_v3_rest : bytes := Eval vm_compute in
  match Seal demo_ring (lit "hi") [] demo_world with
  | (Ok s, _) => match DecodeString RawURLEncoding s with Ok raw => drop 1 raw | _ => [] end
  | _ => []
  end.
Definition demo_v3_text : bytes := EncodeToString RawURLEncoding (VersionAEADv3 :: demo_v3_rest).

Lemma KeyRing_Open_v3_exact_witness :
  Open demo_ring [] demo_v3_text [] = Ok (lit "hi") /\
  (exists kid nonce body c, demo_v3_rest = to_byte (len kid) :: kid ++ nonce ++ body /\
    1 <= len kid <= 64 /\ len nonce = 12 /\ keys demo_ring !! kid = Some c /\
    aead_Seal c [] nonce (lit "hi") [] = Ok body).
Proof.
  assert (H : Open demo_ring [] demo_v3_text [] = Ok (lit "hi")) by (vm_compute; reflexivity).
  split; [exact H|]. refine (proj1 (KeyRing_Open_v3_exact demo_ring [] demo_v3_text demo_v3_rest []
    (lit "hi") demo_ring_reachable _) H). apply Decode_Encode, _.
Defined.

(** C28: the version 0x01 fallback. On a v1 text of at least 29 bytes the ring returns only what
    the package-level [Open] returns under one of its raw keys; it succeeds whenever some key
    opens the text, gives the active key's answer when that one does, and reports
    [ErrTampered] when none does, whatever the map order. *)
Theorem KeyRing_v1_fallback r order text rest aad :
  reachable r -> visits r order ->
  DecodeString RawURLEncoding text = Ok (VersionAEADv1 :: rest) -> 29 <= len rest + 1 ->
  let opens kid p := exists raw, rawKeys r !! kid = Some raw /\ Aead.Open raw text aad = Ok p in
  (forall p, Open r order text aad = Ok p -> exists kid, opens kid p) /\
  ((exists kid p, opens kid p) -> is_ok (Open r order text aad) = true) /\
  (forall p, opens (active r) p -> Open r order text aad = Ok p) /\
  ((forall kid p, ~ opens kid p) -> fails_with (Open r order text aad) ErrTampered = true).
Proof.
  intros Hr%reachable_ok Hv Hd Hl opens. rewrite (Open_v1 r order text rest aad Hd Hl).
  set (raw := VersionAEADv1 :: rest).
  assert (Hopens : forall kid p, opens kid p <->
    is_Some (keys r !! kid) /\ openV1WithAEAD (keys r !! kid) raw aad = Ok p).
  { intros kid p. unfold opens. split.
    - intros (k & Hk & Ho). assert (Hs : is_Some (keys r !! kid)).
      { pose proof (ring_entry r Hr kid) as He. rewrite Hk in He. destruct (keys r !! kid); done. }
      destruct (v1_entry r text rest aad kid Hr Hs Hd Hl) as (k' & Hk' & E & _).
      assert (k' = k) as -> by congruence. rewrite E in Ho. by apply map_err_Ok in Ho.
    - intros [Hs Ho]. destruct (v1_entry r text rest aad kid Hr Hs Hd Hl) as (k & Hk & E & _).
      exists k. split; [done|]. rewrite E. by apply map_err_Ok. }
  assert (Hin := fun kid => kidsActiveFirst_spec r order kid Hr Hv).
  pose proof (tryKids_ring r order text rest aad Hr Hv Hd Hl) as Ht. fold raw in Ht.
  split; [|split; [|split]].
  - intros p Hp. rewrite Hp in Ht. destruct Ht as (kid & Hk%Hin & Ho). exists kid. by apply Hopens.
  - intros (kid & p & [Hs Ho]%Hopens). destruct (tryKids _ _ _ _); [done| |done].
    destruct Ht as [_ Ht]. specialize (Ht kid (proj2 (Hin kid) Hs)). by rewrite Ho in Ht.
  - intros p [_ Ho]%Hopens. unfold kidsActiveFirst. cbn [tryKids]. by rewrite Ho.
  - intros Hno. destruct (tryKids _ _ _ _) as [p|e|m]; [|by destruct Ht|done].
    destruct Ht as (kid & Hk%Hin & Ho). destruct (Hno kid p). by apply Hopens.
Qed.

Lemma visits_elements r : visits r (map_to_list (keys r)).*1.
Proof.
  split; [apply NoDup_fst_map_to_list|]. intros kid. rewrite list_elem_of_fmap. split.
  - intros ([k c] & -> & H). apply elem_of_map_to_list in H. eauto.
  - intros [c Hc]. exists (kid, c). by rewrite elem_of_map_to_list.
Qed.

Lemma KeyRing_v1_fallback_witness :
  Open demo_ring (map_to_list (keys demo_ring)).*1
    (lit "AQAAAAAAAAAAAAAAAFMPivvHRTa5qWO08cTLc4s") [] = Ok [].
Proof.
  apply (KeyRing_v1_fallback demo_ring (map_to_list (keys demo_ring)).*1
    (lit "AQAAAAAAAAAAAAAAAFMPivvHRTa5qWO08cTLc4s") (replicate 12 x00 ++ vector0_tag) []);
    [apply demo_ring_reachable|apply visits_elements|reflexivity|vm_compute; discriminate|].
  exists demo_key. split; vm_compute; reflexivity.
Defined.

(** [Open] on a reachable ring never panics, whatever the text and the map order, and every
    failure is one of the four documented sentinels. *)
Theorem KeyRing_Open_total r order text aad :
  reachable r -> visits r order ->
  is_ok (Open r order text aad) = true \/
  exists t, t ∈ [ErrInvalidCiphertext; ErrCiphertextTooShort; ErrUnsupportedVersion; ErrTampered] /\
    fails_with (Open r order text aad) t = true.
Proof.
  intros Hr%reachable_ok Hv.
  destruct (DecodeString RawURLEncoding text) as [raw|e|m] eqn:Hd.
  2: { right. exists ErrInvalidCiphertext. split; [by left|]. unfold Open. by rewrite Hd. }
  2: { pose proof (Decode_panics RawURLEncoding text) as Hp. by rewrite Hd in Hp. }
  destruct (Z.ltb_spec (len raw) 29) as [Hl|Hl].
  { right. exists ErrCiphertextTooShort. split; [by right; left|]. unfold Open. rewrite Hd.
    cbn [map_err mbind outcome_bind]. by rewrite (proj2 (Z.ltb_lt _ _)). }
  destruct raw as [|v rest]; [done|]. rewrite len_cons in Hl.
  destruct (decide (v = VersionAEADv1)) as [->|Hv1];
    [|destruct (decide (v = VersionAEADv3)) as [->|Hv3]].
  - rewrite (Open_v1 _ _ _ _ _ Hd) by lia.
    pose proof (tryKids_ring r order text rest aad Hr Hv Hd ltac:(lia)) as Ht.
    destruct (tryKids _ _ _ _) as [p|e|m]; [by left| |done]. destruct Ht as [He _].
    right. exists ErrTampered. split; [by do 3 right; left|done].
  - destruct (Open_v3_cases r order text rest aad Hd) as [-> |[[f ->]|Hlay]].
    + right. exists ErrCiphertextTooShort. split; [by right; left|done].
    + right. exists ErrInvalidCiphertext. split; [by left|done].
    + destruct Hlay as (kid & n & body & -> & Hk & Hn & Hb).
      rewrite (Open_v3 _ _ _ _ _ _ _ Hd) by done.
      destruct (keys r !! kid) as [c|] eqn:Hc;
        [|right; exists ErrTampered; split; [by do 3 right; left|done]].
      destruct (ring_cipher_ok r kid c Hr Hc) as (k & _ & _ & Hg & _).
      pose proof (gcm_of_key_no_panic k c n body aad Hg Hn) as Hnp.
      destruct (aead_Open c n body aad); [by left| |done].
      right; exists ErrTampered; split; [by do 3 right; left|done].
  - right. exists ErrUnsupportedVersion. split; [by do 2 right; left|]. unfold Open. rewrite Hd.
    cbn [map_err mbind outcome_bind]. change aeadMinSize with 29.
    rewrite (proj2 (Z.ltb_ge _ _)) by (rewrite len_cons; lia). rewrite (index_head v _ 0) by done.
    cbn [mbind outcome_bind]. by rewrite !bool_decide_eq_false_2.
Qed.

Lemma KeyRing_Open_total_witness :
  is_ok (Open demo_ring (map_to_list (keys demo_ring)).*1 (lit "A*") []) = true \/
  exists t, t ∈ [ErrInvalidCiphertext; ErrCiphertextTooShort; ErrUnsupportedVersion; ErrTampered] /\
    fails_with (Open demo_ring (map_to_list (keys demo_ring)).*1 (lit "A*") []) t = true.
Proof. apply KeyRing_Open_total; [apply demo_ring_reachable|apply visits_elements]. Defined.

(** Neither the version byte nor the id of a ring text is authenticated: the nonce and body of
    a plain [Seal] text, put behind a version 0x03 header naming that key, open on the ring. *)
Theorem KeyRing_kid_not_authenticated r order kid key p aad w s w' rest :
  reachable r -> rawKeys r !! kid = Some key -> Aead.Seal key p aad w = (Ok s, w') ->
  DecodeString RawURLEncoding s = Ok (VersionAEADv1 :: rest) ->
  Open r order
    (EncodeToString RawURLEncoding (VersionAEADv3 :: to_byte (len kid) :: kid ++ rest)) aad = Ok p.
Proof.
  intros Hr%reachable_ok Hraw Hs Hd.
  apply sealWithNonce_inv in Hs as (_ & c & n & body & Hc & Hn & Hp & _ & Hs & ->).
  rewrite Decode_Encode in Hd by apply _. injection Hd as <-.
  pose proof (ring_entry r Hr kid) as He. rewrite Hraw in He.
  destruct (keys r !! kid) as [c'|] eqn:Hk; [|done]. destruct He as (Hc' & _ & Hkid).
  assert (c' = c) as -> by congruence. pose proof (gcm_of_key_ok _ _ Hc) as Hok.
  destruct (seal_open n p aad Hn Hp) as (body' & Hl & Hs' & Ho).
  specialize (Hs []). rewrite Hs' in Hs. injection Hs as <-. pose proof (len_nonneg p).
  rewrite (Open_v3 _ _ _ kid n body'), Hk by (apply Decode_Encode, _ || done || lia).
  by rewrite Ho.
Qed.

Lemma KeyRing_kid_not_authenticated_witness :
  exists s rest, DecodeString RawURLEncoding s = Ok (VersionAEADv1 :: rest) /\
  Open demo_ring0 [] (EncodeToString RawURLEncoding
    (VersionAEADv3 :: to_byte (len (lit "v1")) :: lit "v1" ++ rest)) [] = Ok (lit "hi").
Proof.
  destruct (Seal_then_Open_ex demo_old (lit "hi") [] demo_world) as (s & w' & rest & Hs & Hd);
    [done|vm_compute; discriminate..|].
  exists s, rest. split; [done|].
  apply (KeyRing_kid_not_authenticated demo_ring0 [] (lit "v1") demo_old (lit "hi") [] demo_world s w');
    [apply demo_ring0_reachable|reflexivity|done|done].
Defined.

End KeyRing.
