(* ===== verification/Rotation.v ===== *)
(** * Completing a rotation: [keyring.go]

    The procedure [examples/keyring_rotation] follows on a ring of any size: add a key, make it
    active, re-encrypt, remove every other key. It can always be carried out to its end. *)

From S2P Require Import Prelude Errors Base64 GoIO Cipher Format Aead KeyRing.
Import KeyRing.

(** A sequence of calls every one of which succeeds, and the ring it leaves. *)
Fixpoint all_ok (r : KeyRing) (ops : list ring_op) : bool :=
  match ops with
  | [] => true
  | op :: ops' => is_ok (run_op r op).1 && all_ok (run_op r op).2 ops'
  end.

Definition final (r : KeyRing) (ops : list ring_op) : KeyRing :=
  fold_left (fun r op => (run_op r op).2) ops r.

(** ** Lemmas *)

Lemma all_ok_app r ops1 ops2 : all_ok r (ops1 ++ ops2) = all_ok r ops1 && all_ok (final r ops1) ops2.
Proof.
  revert r; induction ops1 as [|op ops1 IH]; intros r; [done|]. cbn [app all_ok final fold_left].
  rewrite IH. by rewrite andb_assoc.
Qed.

(** A text the ring sealed opens while its id is kept. *)
Lemma sealed_stays r p aad w s w' ops order :
  ring_ok r -> Seal r p aad w = (Ok s, w') -> OpRemove (active r) ∉ ops ->
  Open (final r ops) order s aad = Ok p.
Proof.
  intros Hr Hs Hn. destruct (Seal_layout r p aad w s w' Hr Hs) as (c & n & body & Hc & _ & Hk & Hl & Hb & Ho & Hd).
  rewrite (Open_v3 _ _ _ _ _ _ _ Hd) by done.
  assert (Hf : keys (final r ops) !! active r = Some c)
    by (eapply evolves_keeps; [exact Hc|exact Hn|apply evolves_fold]).
  by rewrite Hf, Ho.
Qed.

(** Removing ids other than the active one, each present and named once. *)
Lemma remove_all r olds :
  NoDup olds -> (forall k, k ∈ olds -> k <> active r /\ is_Some (keys r !! k)) ->
  all_ok r (map OpRemove olds) = true /\
  active (final r (map OpRemove olds)) = active r /\
  (forall k, k ∈ olds -> keys (final r (map OpRemove olds)) !! k = None /\
                         rawKeys (final r (map OpRemove olds)) !! k = None) /\
  (forall k, k ∉ olds -> keys (final r (map OpRemove olds)) !! k = keys r !! k /\
                         rawKeys (final r (map OpRemove olds)) !! k = rawKeys r !! k).
Proof.
  revert r; induction olds as [|k olds IH]; intros r Hnd Hall.
  { split; [done|]. split; [done|]. split; [by intros k ?%not_elem_of_nil|done]. }
  apply NoDup_cons in Hnd as [Hk Hnd]. destruct (Hall k) as [Hne [c Hc]]; [by left|].
  set (r' := {| active := active r; keys := delete k (keys r); rawKeys := delete k (rawKeys r) |}).
  assert (Hrun : run_op r (OpRemove k) = (Ok tt, r')).
  { cbn [run_op]. unfold Remove. by rewrite bool_decide_eq_false_2, Hc by done. }
  destruct (IH r') as (Hok & Ha & Hin & Hout); [done| |].
  { intros k' Hk'. destruct (Hall k') as [Hn' Hs']; [by right|]. split; [done|]. cbn.
    rewrite lookup_delete_ne; [done|]. by intros ->. }
  assert (Hf : final r (map OpRemove (k :: olds)) = final r' (map OpRemove olds))
    by (unfold final; cbn [map fold_left]; by rewrite Hrun).
  rewrite Hf. cbn [map all_ok]. rewrite Hrun.
  split; [done|]. split; [done|]. split.
  - intros k' [->|Hk']%elem_of_cons; [|by apply Hin]. destruct (Hout k Hk) as [-> ->].
    cbn. by rewrite !lookup_delete_eq.
  - intros k' [Hn' Hk']%not_elem_of_cons. destruct (Hout k' Hk') as [-> ->]. cbn.
    by rewrite !lookup_delete_ne.
Qed.

(** Adding and activating a fresh key. *)
Definition activated (r : KeyRing) (kid key : bytes) (c : AEAD) : KeyRing :=
  {| active := kid; keys := <[kid := c]> (keys r); rawKeys := <[kid := key]> (rawKeys r) |}.

Lemma activate_ok r kid key :
  1 <= len kid <= 64 -> len key = AEADKeySize -> keys r !! kid = None ->
  exists c, gcm_of_key key = Ok c /\ all_ok r [OpAdd kid key; OpSetActive kid] = true /\
    final r [OpAdd kid key; OpSetActive kid] = activated r kid key c.
Proof.
  intros Hkid Hkey Hnew. destruct (Add_cases r kid key) as [[e He]|(c & _ & _ & _ & Hc & Hadd)].
  { pose proof (proj2 (Add_ok r kid key) (conj Hkid (conj Hkey Hnew))) as Hok. by rewrite He in Hok. }
  exists c. split; [done|]. unfold final. cbn [all_ok fold_left run_op]. rewrite Hadd. cbn [fst snd is_ok andb].
  unfold SetActive. cbn [keys]. by rewrite lookup_insert_eq.
Qed.

(** Removing all the old ids leaves the ring of the new key alone. *)
Lemma only_new_left r kid key c olds :
  ring_ok r -> keys r !! kid = None -> visits r olds ->
  all_ok (activated r kid key c) (map OpRemove olds) = true /\
  final (activated r kid key c) (map OpRemove olds) =
    {| active := kid; keys := {[kid := c]}; rawKeys := {[kid := key]} |}.
Proof.
  intros Hr Hnew [Hnd Hvis]. set (r1 := activated r kid key c).
  assert (Hkold : kid ∉ olds) by (intros Hin%Hvis; rewrite Hnew in Hin; by destruct Hin).
  destruct (remove_all r1 olds Hnd) as (Hrem & Ha & Hin & Hout).
  { intros k Hk. cbn [active keys r1 activated]. split; [by intros ->|].
    rewrite lookup_insert_ne by (by intros ->). by apply Hvis. }
  split; [exact Hrem|]. destruct (final r1 (map OpRemove olds)) as [a ks rs]. cbn [active keys rawKeys] in *.
  assert (Hother : forall k, k <> kid -> ks !! k = None /\ rs !! k = None).
  { intros k Hk. destruct (decide (k ∈ olds)) as [Ho|Ho]; [by apply Hin|]. destruct (Hout k Ho) as [-> ->].
    unfold r1. cbn [keys rawKeys activated]. rewrite !lookup_insert_ne by done.
    pose proof (ring_entry r Hr k) as He. unfold entry_ok in He.
    destruct (keys r !! k) eqn:Hkk; [exfalso; apply Ho, Hvis; by rewrite Hkk|].
    by destruct (rawKeys r !! k). }
  destruct (Hout kid Hkold) as [Hk1 Hk2]. unfold r1 in Hk1, Hk2. cbn [keys rawKeys activated] in Hk1, Hk2.
  rewrite lookup_insert_eq in Hk1. rewrite lookup_insert_eq in Hk2. rewrite Ha. f_equal; apply map_eq; intros k;
    (destruct (decide (k = kid)) as [->|Hk];
     [by rewrite lookup_singleton_eq|rewrite lookup_singleton_ne by done; by apply Hother]).
Qed.

(** ** Properties *)

(** C30: A rotation can always be completed. From every reachable ring, for every fresh id of 1 to 64
    bytes and every 32-byte key, the calls [Add], [SetActive] and a [Remove] of each old id, in
    whatever order the old ids are visited, all succeed and leave exactly the ring [NewKeyRing]
    makes of the new key. Between the activation and the first removal everything the old ring
    sealed still opens, and what is then sealed again opens on the final ring. *)
Theorem rotation_completes r kid key olds :
  reachable r -> 1 <= len kid <= 64 -> len key = AEADKeySize -> keys r !! kid = None -> visits r olds ->
  let activate := [OpAdd kid key; OpSetActive kid] in
  let ops := activate ++ map OpRemove olds in
  all_ok r ops = true /\ NewKeyRing kid key = Ok (final r ops) /\
  (forall p aad w s w' w2 order, Seal r p aad w = (Ok s, w') -> has_random 12 w2 ->
     Open (final r activate) order s aad = Ok p /\
     exists s2 w2', Seal (final r activate) p aad w2 = (Ok s2, w2') /\
       forall order2, Open (final r ops) order2 s2 aad = Ok p).
Proof.
  intros Hr%reachable_ok Hkid Hkey Hnew Hvis activate ops.
  destruct (activate_ok r kid key Hkid Hkey Hnew) as (c & Hc & Hact & Hr1). fold activate in Hact, Hr1.
  destruct (only_new_left r kid key c olds Hr Hnew Hvis) as [Hrem Hlast].
  assert (Hfin : final r ops = final (activated r kid key c) (map OpRemove olds)).
  { unfold ops, final. rewrite fold_left_app. fold (final r activate). by rewrite Hr1. }
  split; [unfold ops; by rewrite all_ok_app, Hact, Hr1|].
  split; [rewrite Hfin, Hlast; apply NewKeyRing_spec; eauto|].
  intros p aad w s w' w2 order Hs Hw2.
  split; [eapply sealed_stays; [done..|]; unfold activate; rewrite !not_elem_of_cons; repeat split;
          by try apply not_elem_of_nil|].
  assert (Hp : len p <= gcm_max).
  { destruct (Seal_layout r p aad w s w' Hr Hs) as (c' & n & body & _ & Hok & _ & _ & _ & Ho & _).
    by destruct (open_seal _ _ _ _ Ho) as (_ & ? & _). }
  assert (Hr1ok : ring_ok (activated r kid key c)).
  { rewrite <- Hr1. eapply evolves_ok; [exact Hr|apply evolves_fold]. }
  rewrite Hr1. destruct (ring_Seal_run _ p aad w2 Hr1ok Hp Hw2) as (s2 & w2' & Hs2 & _).
  exists s2, w2'. split; [exact Hs2|]. intros order2. rewrite Hfin. eapply sealed_stays; [done..|].
  intros Hi. apply list_elem_of_fmap in Hi as (k & [= <-] & Hi%Hvis). cbn in Hi. rewrite Hnew in Hi. by destruct Hi.
Qed.

Lemma rotation_completes_witness :
  NewKeyRing (lit "v3") (replicate 32 x22) =
    Ok (final demo_ring ([OpAdd (lit "v3") (replicate 32 x22); OpSetActive (lit "v3")] ++
                         map OpRemove (map_to_list (keys demo_ring)).*1)).
Proof.
  apply (rotation_completes demo_ring (lit "v3") (replicate 32 x22));
    [apply demo_ring_reachable|split; vm_compute; congruence|reflexivity|reflexivity|apply visits_elements].
Defined.
