(* ===== verification/Kms.v ===== *)
(** * Envelope encryption: [kms.go]

    The [KMS] interface with the laws [EnvelopeSealer] relies on, the sealer proved against
    that interface, and [StaticKMS], proved to implement it. *)

From S2P Require Import Prelude Errors Binary Base64 GoIO Aes Cipher Format Random Aead.

Module Kms.

(** ** The interface *)

(** An adapter may read the environment; the context argument is not modelled. *)
Record KMS := {
  GenerateDataKey : bytes -> M (bytes * bytes);
  Decrypt : bytes -> bytes -> M bytes;
  Encrypt : bytes -> bytes -> M bytes
}.

(** The promise of an adapter for one key id: what it generated or encrypted it decrypts, at any
    later time, and no call panics. *)
Class KMSOk (k : KMS) (keyID : bytes) : Prop := {
  kms_generate w dek wrapped w' w2 :
    GenerateDataKey k keyID w = (Ok (dek, wrapped), w') ->
    exists w3, Decrypt k keyID wrapped w2 = (Ok dek, w3);
  kms_encrypt w p c w' w2 :
    Encrypt k keyID p w = (Ok c, w') -> exists w3, Decrypt k keyID c w2 = (Ok p, w3);
  kms_generate_panics w : panics (GenerateDataKey k keyID w).1 = false;
  kms_decrypt_panics c w : panics (Decrypt k keyID c w).1 = false
}.

Record EnvelopeSealer := { kms : KMS; keyID : bytes }.

Definition NewEnvelopeSealer (kms : KMS) (keyID : bytes) : EnvelopeSealer :=
  {| kms := kms; keyID := keyID |}.

(** ** Operations *)

(** [for i := range b { b[i] = 0 }] *)
Definition zeroBytes (b : bytes) : bytes :=
  fold_left (fun b i => <[i := x00]> b) (seq 0 (length b)) b.

(** A call that ends with a deferred [zeroBytes] on the data key also leaves the buffer that
    held the key, when there is one. *)
Definition MD (A : Type) : Type := world -> outcome A * option bytes * world.

Definition defer_zeroBytes {A} (dek : bytes) (body : M A) : MD A :=
  fun w => let '(o, w') := body w in (o, Some (zeroBytes dek), w').

Definition result {A} (m : MD A) : M A := fun w => let '(o, _, w') := m w in (o, w').

(** [Seal] once the KMS has handed out a data key. *)
Definition seal_under (dek wrapped plaintext aad : bytes) : M bytes :=
  inner ← Aead.Seal dek plaintext aad;
  innerRaw ← lift (map_err (Wrapf "crypt: re-decode inner: %w")
                     (DecodeString RawURLEncoding inner));
  let out := [] ++ [versionEnvelopeV1] in
  let lenField := PutUint32 (u32 (len wrapped)) in
  let out := out ++ lenField in
  let out := out ++ wrapped in
  let out := out ++ innerRaw in
  mret (EncodeToString RawURLEncoding out).

Definition seal_dek (e : EnvelopeSealer) (plaintext aad : bytes) : MD bytes := fun w =>
  match GenerateDataKey (kms e) (keyID e) w with
  | (Ok (dek, wrapped), w1) =>
      defer_zeroBytes dek (seal_under dek wrapped plaintext aad) w1
  | (Err err, w1) => (Err (Wrapf "crypt: kms.GenerateDataKey: %w" err), None, w1)
  | (Panic p, w1) => (Panic p, None, w1)
  end.

Definition Seal (e : EnvelopeSealer) (plaintext aad : bytes) : M bytes :=
  result (seal_dek e plaintext aad).

(** The header checks of [EnvelopeSealer.Open]; the sum [5+wrappedLen] of the slices is a
    uint32, the one of the test a uint64 ([uint64(len(raw))] is the length itself). *)
Definition parse_envelope (ciphertext : bytes) : outcome (bytes * bytes) :=
  raw ← map_err (fun _ => Wrapf "%w: %v" ErrInvalidCiphertext)
          (DecodeString RawURLEncoding ciphertext);
  if len raw <? 1 + 4 then Err ErrCiphertextTooShort
  else
    version ← index raw 0;
    if negb (bool_decide (version = versionEnvelopeV1)) then
      Err (Wrapf "%w: 0x%02x" ErrUnsupportedVersion)
    else
      field ← slice raw 1 5;
      wrappedLen ← Uint32 field;
      if len raw <? u64 (u64 5 + u64 wrappedLen) then Err ErrCiphertextTooShort
      else
        wrapped ← slice raw 5 (u32 (5 + wrappedLen));
        inner ← slice_from raw (u32 (5 + wrappedLen));
        Ok (wrapped, inner).

Definition open_dek (e : EnvelopeSealer) (ciphertext aad : bytes) : MD bytes := fun w =>
  match parse_envelope ciphertext with
  | Ok (wrapped, inner) =>
      match Decrypt (kms e) (keyID e) wrapped w with
      | (Ok dek, w1) =>
          defer_zeroBytes dek (
            let innerStr := EncodeToString RawURLEncoding inner in
            lift (Aead.Open dek innerStr aad)) w1
      | (Err err, w1) => (Err (Wrapf "crypt: kms.Decrypt: %w" err), None, w1)
      | (Panic p, w1) => (Panic p, None, w1)
      end
  | Err err => (Err err, None, w)
  | Panic p => (Panic p, None, w)
  end.

Definition Open (e : EnvelopeSealer) (ciphertext aad : bytes) : M bytes :=
  result (open_dek e ciphertext aad).

(** ** StaticKMS

    The object as one goroutine sees it. Each method holds the mutex for its one access to the map;
    that concurrent calls take effect in some order of these functions is proved in [SharedKms]. *)

Record StaticKMS := { keks : gmap bytes bytes }.

Definition NewStaticKMS : StaticKMS := {| keks := ∅ |}.

Definition AddKey (s : StaticKMS) (keyID key : bytes) : outcome unit * StaticKMS :=
  if negb (len key =? AEADKeySize) then
    (Err (Wrapf "%w: KEK must be %d bytes; got %d" ErrInvalidKey), s)
  else (Ok tt, {| keks := <[keyID := key]> (keks s) |}).

Definition lookup (s : StaticKMS) (keyID : bytes) : outcome bytes :=
  match keks s !! keyID with
  | None => Err (Errorf "static kms: unknown keyID %q")
  | Some k => Ok k
  end.

Definition static_GenerateDataKey (s : StaticKMS) (keyID : bytes) : M (bytes * bytes) :=
  kek ← lift (lookup s keyID);
  dek ← RandomBytes AEADKeySize;
  wrapped ← Aead.Seal kek dek [];
  mret (dek, wrapped).

Definition static_Decrypt (s : StaticKMS) (keyID wrapped : bytes) : M bytes :=
  kek ← lift (lookup s keyID);
  lift (Aead.Open kek wrapped []).

Definition static_Encrypt (s : StaticKMS) (keyID plaintext : bytes) : M bytes :=
  kek ← lift (lookup s keyID);
  ct ← Aead.Seal kek plaintext [];
  mret ct.

(** [var _ KMS = ( *StaticKMS)(nil)] *)
Definition static (s : StaticKMS) : KMS := {|
  GenerateDataKey := static_GenerateDataKey s;
  Decrypt := static_Decrypt s;
  Encrypt := static_Encrypt s
|}.

(** ** Lemmas *)

Lemma zeroBytes_spec b : zeroBytes b = replicate (length b) x00.
Proof.
  unfold zeroBytes.
  assert (H : forall n, (n <= length b)%nat ->
    fold_left (fun b i => <[i := x00]> b) (seq 0 n) b = replicate n x00 ++ drop n b).
  { induction n as [|n IH]; intros Hn; [done|].
    rewrite seq_S, fold_left_app, IH by lia. cbn [fold_left].
    rewrite Nat.add_0_l, insert_app_r_alt by (rewrite length_replicate; lia).
    rewrite length_replicate, Nat.sub_diag.
    destruct (drop n b) as [|x l] eqn:Hd.
    { apply (f_equal length) in Hd. rewrite length_drop in Hd. simpl in Hd. lia. }
    cbn [insert list_insert]. replace (drop (S n) b) with l.
    - rewrite replicate_S_end, <- app_assoc. done.
    - replace (S n) with (n + 1)%nat by lia. rewrite <- drop_drop, Hd. done. }
  rewrite H, drop_ge, app_nil_r by done. done.
Qed.

(** *** The layout *)

(** The bytes of an envelope. *)
Definition envelope (wrapped inner : bytes) : bytes :=
  versionEnvelopeV1 :: PutUint32 (len wrapped) ++ wrapped ++ inner.

Lemma len_envelope wrapped inner : len (envelope wrapped inner) = 5 + len wrapped + len inner.
Proof. unfold envelope. rewrite len_cons, !len_app, len_PutUint32. lia. Qed.

(** The reader once the first five bytes are there. *)
Lemma parse_envelope_cons text v field rest :
  DecodeString RawURLEncoding text = Ok (v :: field ++ rest) -> len field = 4 ->
  parse_envelope text =
    if negb (bool_decide (v = versionEnvelopeV1)) then
      Err (Wrapf "%w: 0x%02x" ErrUnsupportedVersion)
    else if len rest <? be_get field then Err ErrCiphertextTooShort
    else
      wrapped ← slice (v :: field ++ rest) 5 (u32 (5 + be_get field));
      inner ← slice_from (v :: field ++ rest) (u32 (5 + be_get field));
      Ok (wrapped, inner).
Proof.
  intros Hd Hf. unfold parse_envelope. rewrite Hd. cbn [map_err mbind outcome_bind].
  pose proof (len_nonneg rest). pose proof (be_get_range field) as Hr. rewrite Hf in Hr.
  rewrite (proj2 (Z.ltb_ge _ _)) by (rewrite len_cons, len_app; lia).
  rewrite (index_head _ _ 0) by done. cbn [mbind outcome_bind].
  case_bool; [done|].
  rewrite (slice_app [v] field rest) by (done || rewrite Hf; done). cbn [mbind outcome_bind].
  unfold Uint32. rewrite slice_Ok by lia. cbn [mbind outcome_bind].
  rewrite drop_0, take_ge by (unfold len in Hf; lia).
  unfold u64 at 2 3. rewrite (Z.mod_small 5), (Z.mod_small (be_get field)) by lia.
  unfold u64. rewrite Z.mod_small by lia.
  replace (len (v :: field ++ rest) <? 5 + be_get field) with (len rest <? be_get field); [done|].
  rewrite len_cons, len_app, Hf.
  destruct (Z.ltb_spec (len rest) (be_get field)); symmetry; [apply Z.ltb_lt|apply Z.ltb_ge]; lia.
Qed.

(** Every text of five bytes or more splits that way. *)
Lemma envelope_split raw :
  5 <= len raw ->
  exists v field rest, raw = v :: field ++ rest /\ len field = 4 /\
    (be_get field <= len rest ->
     v :: field ++ rest =
       v :: PutUint32 (len (take (Z.to_nat (be_get field)) rest)) ++
            take (Z.to_nat (be_get field)) rest ++ drop (Z.to_nat (be_get field)) rest /\
     len (take (Z.to_nat (be_get field)) rest) = be_get field).
Proof.
  intros H. destruct raw as [|v raw]; [done|]. rewrite len_cons in H.
  exists v, (take 4 raw), (drop 4 raw). rewrite take_drop. split; [done|].
  assert (Hf : len (take 4 raw) = 4) by (unfold len in *; rewrite length_take; lia).
  split; [done|]. intros Hle. pose proof (be_get_range (take 4 raw)) as Hr.
  assert (Hw : len (take (Z.to_nat (be_get (take 4 raw))) (drop 4 raw)) = be_get (take 4 raw))
    by (unfold len in *; rewrite length_take; lia).
  rewrite Hw. split; [|done]. rewrite (take_drop (Z.to_nat _)).
  replace (PutUint32 (be_get (take 4 raw))) with (take 4 raw); [by rewrite take_drop|].
  symmetry. unfold PutUint32. replace 4%nat with (length (take 4 raw)) at 1; [apply be_put_get|].
  unfold len in Hf. lia.
Qed.

(** Reading an envelope back: the slices are right as long as their bound does not wrap. *)
Lemma parse_envelope_layout text wrapped inner :
  DecodeString RawURLEncoding text = Ok (envelope wrapped inner) -> len wrapped < 2 ^ 32 ->
  parse_envelope text =
    if 5 + len wrapped <? 2 ^ 32 then Ok (wrapped, inner) else Panic "slice bounds out of range".
Proof.
  intros Hd Hw. unfold envelope in Hd.
  rewrite (parse_envelope_cons _ _ _ _ Hd) by apply len_PutUint32.
  rewrite bool_decide_eq_true_2 by done. cbn [negb].
  pose proof (len_nonneg wrapped). pose proof (len_nonneg inner).
  assert (be_get (PutUint32 (len wrapped)) = len wrapped) as ->.
  { unfold PutUint32. rewrite be_get_put. apply Z.mod_small. simpl. lia. }
  rewrite len_app, (proj2 (Z.ltb_ge _ _)) by lia.
  set (field := PutUint32 (len wrapped)).
  assert (Hl : len (versionEnvelopeV1 :: field) = 5)
    by (unfold field; by rewrite len_cons, len_PutUint32).
  change (versionEnvelopeV1 :: field ++ wrapped ++ inner)
    with ((versionEnvelopeV1 :: field) ++ wrapped ++ inner).
  destruct (Z.ltb_spec (5 + len wrapped) (2 ^ 32)) as [Hs|Hs].
  - unfold u32. rewrite Z.mod_small by lia.
    rewrite (slice_app _ wrapped inner 5) by (rewrite ?Hl; done). cbn [mbind outcome_bind].
    rewrite app_assoc. rewrite (slice_from_app _ inner); [done|]. rewrite len_app, Hl. done.
  - assert (Hu : u32 (5 + len wrapped) = 5 + len wrapped - 2 ^ 32).
    { unfold u32. symmetry. apply Z.mod_unique with 1; lia. }
    unfold slice. rewrite Hu. rewrite (proj2 (Z.leb_gt 5 _)) by lia.
    by rewrite andb_false_r.
Qed.

(** The reader on every input. *)
Lemma parse_envelope_cases text :
  (exists e, parse_envelope text = Err e /\
     (errors_Is e ErrInvalidCiphertext || errors_Is e ErrCiphertextTooShort ||
      errors_Is e ErrUnsupportedVersion) = true) \/
  (exists wrapped inner, DecodeString RawURLEncoding text = Ok (envelope wrapped inner) /\
     len wrapped < 2 ^ 32).
Proof.
  destruct (DecodeString RawURLEncoding text) as [raw|e|m] eqn:Hd.
  2: { left. unfold parse_envelope. rewrite Hd. eauto. }
  2: { pose proof (Decode_panics RawURLEncoding text) as Hp. by rewrite Hd in Hp. }
  destruct (Z.ltb_spec (len raw) 5) as [Hl|Hl].
  { left. unfold parse_envelope. rewrite Hd. cbn [map_err mbind outcome_bind].
    rewrite (proj2 (Z.ltb_lt _ _)) by done. eauto. }
  destruct (envelope_split raw Hl) as (v & field & rest & -> & Hf & Hsplit).
  rewrite (parse_envelope_cons _ _ _ _ Hd Hf).
  case_bool_decide as Hv; cbn [negb]; [subst v|left; eauto].
  destruct (Z.ltb_spec (len rest) (be_get field)) as [Hr|Hr]; [left; eauto|].
  right. destruct (Hsplit Hr) as [-> Hw]. eexists _, _. split; [done|].
  rewrite Hw. pose proof (be_get_range field) as Hb. rewrite Hf in Hb. lia.
Qed.

Lemma parse_envelope_Ok text wrapped inner :
  parse_envelope text = Ok (wrapped, inner) <->
  DecodeString RawURLEncoding text = Ok (envelope wrapped inner) /\ 5 + len wrapped < 2 ^ 32.
Proof.
  split.
  - destruct (parse_envelope_cases text) as [(e & -> & _)|(w & i & Hd & Hw)]; [done|].
    rewrite (parse_envelope_layout _ _ _ Hd Hw).
    destruct (Z.ltb_spec (5 + len w) (2 ^ 32)); [|done]. by intros [= -> ->].
  - intros [Hd Hw]. rewrite (parse_envelope_layout _ _ _ Hd) by lia.
    by rewrite (proj2 (Z.ltb_lt _ _)).
Qed.

(** *** The sealer over the interface *)

Lemma seal_under_run dek wrapped p aad w :
  seal_under dek wrapped p aad w =
    match Aead.Seal dek p aad w with
    | (Ok inner, w2) =>
        (innerRaw ← map_err (Wrapf "crypt: re-decode inner: %w") (DecodeString RawURLEncoding inner);
         Ok (EncodeToString RawURLEncoding (envelope wrapped innerRaw)), w2)
    | (Err err, w2) => (Err err, w2)
    | (Panic m, w2) => (Panic m, w2)
    end.
Proof.
  unfold seal_under, mbind, M_bind. destruct (Aead.Seal dek p aad w) as [[inner|err|m] w2]; [|done..].
  unfold lift. destruct (DecodeString RawURLEncoding inner) as [raw|err|m]; [|done..].
  cbn [map_err outcome_bind]. unfold mret, M_ret, envelope.
  assert (PutUint32 (u32 (len wrapped)) = PutUint32 (len wrapped)) as -> by apply (be_put_mod 4).
  cbn [app]. by rewrite <- !app_assoc.
Qed.

(** What a data key sealed, it opens. *)
Lemma seal_under_Ok dek wrapped p aad w s w' :
  seal_under dek wrapped p aad w = (Ok s, w') ->
  exists raw, s = EncodeToString RawURLEncoding (envelope wrapped raw) /\
    Aead.Open dek (EncodeToString RawURLEncoding raw) aad = Ok p /\
    (len s < 2 ^ 32 -> parse_envelope s = Ok (wrapped, raw)).
Proof.
  rewrite seal_under_run. destruct (Aead.Seal dek p aad w) as [[inner|err|m] w2] eqn:Hs; [|done..].
  destruct (DecodeString RawURLEncoding inner) as [raw|err|m] eqn:Hd; [|done..]. cbn [map_err mbind outcome_bind].
  remember (EncodeToString RawURLEncoding (envelope wrapped raw)) as t eqn:Ht. intros [= <- <-]. subst t.
  exists raw. split; [done|]. split.
  - rewrite (Open_decoded dek _ inner) by (rewrite Hd; apply Decode_Encode, _). by eapply Seal_then_Open.
  - intros Hl. apply parse_envelope_Ok. split; [apply Decode_Encode, _|].
    rewrite len_Encode, len_envelope in Hl. pose proof (len_nonneg raw).
    pose proof (len_nonneg wrapped). Z.to_euclidean_division_equations; lia.
Qed.

Lemma seal_dek_run e p aad w :
  seal_dek e p aad w =
    match GenerateDataKey (kms e) (keyID e) w with
    | (Ok (dek, wrapped), w1) =>
        let '(o, w2) := seal_under dek wrapped p aad w1 in (o, Some (zeroBytes dek), w2)
    | (Err err, w1) => (Err (Wrapf "crypt: kms.GenerateDataKey: %w" err), None, w1)
    | (Panic m, w1) => (Panic m, None, w1)
    end.
Proof. unfold seal_dek. by destruct (GenerateDataKey _ _ w) as [[[dek wrapped]|err|m] w1]. Qed.

Lemma envelope_Seal_inv e p aad w s w' :
  Seal e p aad w = (Ok s, w') ->
  exists dek wrapped w1, GenerateDataKey (kms e) (keyID e) w = (Ok (dek, wrapped), w1) /\
    seal_under dek wrapped p aad w1 = (Ok s, w').
Proof.
  unfold Seal, result. rewrite seal_dek_run.
  destruct (GenerateDataKey _ _ w) as [[[dek wrapped]|err|m] w1] eqn:Hg; [|done..].
  intros H. exists dek, wrapped, w1. split; [done|]. by destruct (seal_under dek wrapped p aad w1).
Qed.

Lemma Open_run e text aad w :
  Open e text aad w =
    match parse_envelope text with
    | Ok (wrapped, inner) =>
        match Decrypt (kms e) (keyID e) wrapped w with
        | (Ok dek, w1) => (Aead.Open dek (EncodeToString RawURLEncoding inner) aad, w1)
        | (Err err, w1) => (Err (Wrapf "crypt: kms.Decrypt: %w" err), w1)
        | (Panic m, w1) => (Panic m, w1)
        end
    | Err err => (Err err, w)
    | Panic m => (Panic m, w)
    end.
Proof.
  unfold Open, result, open_dek. destruct (parse_envelope text) as [[wrapped inner]|err|m]; [|done..].
  by destruct (Decrypt _ _ _ w) as [[dek|err|m] w1].
Qed.

(** *** StaticKMS *)

#[global] Instance static_ok s keyID : KMSOk (static s) keyID.
Proof.
  split; simpl.
  - unfold static_GenerateDataKey, static_Decrypt.
    intros w dek wrapped w' w2 (kek & Hl & H)%M_lift_bind_inv.
    apply M_bind_Ok_inv in H as (d & w3 & _ & H).
    apply M_bind_Ok_inv in H as (c & w4 & Hs & [= <- <- <-]).
    exists w2. rewrite (M_lift_bind _ _ _ _ Hl). unfold lift. by rewrite (Seal_then_Open _ _ _ _ _ _ Hs).
  - unfold static_Encrypt, static_Decrypt.
    intros w p c w' w2 (kek & Hl & H)%M_lift_bind_inv.
    apply M_bind_Ok_inv in H as (c' & w4 & Hs & [= <- <-]).
    exists w2. rewrite (M_lift_bind _ _ _ _ Hl). unfold lift. by rewrite (Seal_then_Open _ _ _ _ _ _ Hs).
  - intros w. unfold static_GenerateDataKey, mbind, M_bind, lift, lookup.
    destruct (keks s !! keyID) as [kek|]; [|done].
    destruct (RandomBytes AEADKeySize w) as [[dek|err|m] w1] eqn:Hr; [|done|].
    + apply RandomBytes_inv in Hr as (_ & -> & Hr & _).
      pose proof (Seal_no_panic kek (next_random AEADKeySize w) [] w1) as Hs.
      rewrite len_next_random in Hs by done. specialize (Hs ltac:(done)).
      by destruct (Aead.Seal kek _ [] w1) as [[c|e|m] w2].
    + unfold RandomBytes in Hr. cbn [AEADKeySize Z.leb Z.compare] in Hr.
      pose proof (ReadRand_panics AEADKeySize w) as Hp. unfold map_errM in Hr.
      destruct (ReadRand AEADKeySize w) as [[b|e|m'] w2]; done.
  - intros c w. unfold static_Decrypt, mbind, M_bind, lift, lookup.
    destruct (keks s !! keyID); [|done]. apply Aead.Open_no_panic.
Qed.

Lemma AddKey_cases s keyID key :
  (len key <> AEADKeySize /\ (AddKey s keyID key).2 = s /\
     exists f, (AddKey s keyID key).1 = Err (Wrapf f ErrInvalidKey)) \/
  (len key = AEADKeySize /\
     AddKey s keyID key = (Ok tt, {| keks := <[keyID := key]> (keks s) |})).
Proof.
  unfold AddKey. destruct (Z.eqb_spec (len key) AEADKeySize); cbn [negb]; [auto|].
  left. split; [done|]. split; [done|]. simpl. eauto.
Qed.

(** What the sealer wrote, any adapter with the promise opens. *)
Lemma sealed_envelope_opens e `{!KMSOk (kms e) (keyID e)} p aad w s w' w2 :
  Seal e p aad w = (Ok s, w') -> len s < 2 ^ 32 ->
  exists w3, Open e s aad w2 = (Ok p, w3).
Proof.
  intros (dek & wrapped & w1 & Hg & (raw & -> & Ho & Hp)%seal_under_Ok)%envelope_Seal_inv Hl.
  rewrite Open_run, (Hp Hl). destruct (kms_generate w dek wrapped w1 w2 Hg) as [w3 ->]. exists w3. by rewrite Ho.
Qed.

(** ** Properties *)

(** C8: envelope round trip, against the interface alone. Whatever [EnvelopeSealer.Seal] returned
    (a text below 4 GiB) opens to the plaintext with any adapter that keeps the [KMS] promise for
    the key id, at any later state of the environment. *)
Theorem Envelope_roundtrip e `{!KMSOk (kms e) (keyID e)} p aad w s w' w2 :
  Seal e p aad w = (Ok s, w') -> len s < 2 ^ 32 ->
  exists w3, Open e s aad w2 = (Ok p, w3).
Proof. apply sealed_envelope_opens, _. Qed.

Definition demo_kms : StaticKMS := (AddKey NewStaticKMS (lit "kek-1") demo_key).2.
Definition demo_sealer : EnvelopeSealer := NewEnvelopeSealer (static demo_kms) (lit "kek-1").

Definition demo_envelope : bytes := Eval vm_compute in
  match Seal demo_sealer (lit "card") (lit "row:1") demo_world with (Ok s, _) => s | _ => [] end.

Lemma Envelope_roundtrip_witness :
  exists w3, Open demo_sealer demo_envelope (lit "row:1") demo_world = (Ok (lit "card"), w3).
Proof.
  apply (Envelope_roundtrip demo_sealer (lit "card") (lit "row:1") demo_world demo_envelope
    (Seal demo_sealer (lit "card") (lit "row:1") demo_world).2);
    vm_compute; reflexivity.
Defined.

(** [EnvelopeSealer.Open] accepts a text exactly when it decodes to the documented layout with
    a wrapped key whose end fits a uint32, the KMS unwraps that key, and the inner text opens
    under the unwrapped key and the AAD. *)
Theorem Envelope_Open_exact e text aad p w w' :
  Open e text aad w = (Ok p, w') <->
  exists wrapped inner dek,
    DecodeString RawURLEncoding text = Ok (envelope wrapped inner) /\
    5 + len wrapped < 2 ^ 32 /\
    Decrypt (kms e) (keyID e) wrapped w = (Ok dek, w') /\
    Aead.Open dek (EncodeToString RawURLEncoding inner) aad = Ok p.
Proof.
  rewrite Open_run. split.
  - destruct (parse_envelope text) as [[wrapped inner]|err|m] eqn:Hp; [|done..].
    destruct (Decrypt (kms e) (keyID e) wrapped w) as [[dek|err|m] w1] eqn:Hk; [|done..].
    intros [= Ho ->]. apply parse_envelope_Ok in Hp as [Hd Hl]. exists wrapped, inner, dek. done.
  - intros (wrapped & inner & dek & Hd & Hl & Hk & Ho).
    rewrite (proj2 (parse_envelope_Ok text wrapped inner)) by done. by rewrite Hk, Ho.
Qed.

(** C24: with an adapter that does not panic, [EnvelopeSealer.Open] panics on exactly one kind of
    text: a well-formed envelope, above 4 GiB, whose wrapped key ends past the largest uint32.
    There the slice bound wraps around, although the preceding test is done in 64 bits. *)
Theorem Envelope_Open_panics_iff e `{!KMSOk (kms e) (keyID e)} text aad w :
  panics (Open e text aad w).1 = true <->
  exists wrapped inner,
    DecodeString RawURLEncoding text = Ok (envelope wrapped inner) /\
    2 ^ 32 - 5 <= len wrapped < 2 ^ 32.
Proof.
  rewrite Open_run.
  destruct (parse_envelope_cases text) as [(err & Hp & _)|(wrapped & inner & Hd & Hl)].
  - rewrite Hp. split; [done|]. intros (w1 & i1 & Hd & _ & Hl).
    rewrite (parse_envelope_layout _ _ _ Hd Hl) in Hp. destruct (_ <? _) in Hp; done.
  - rewrite (parse_envelope_layout _ _ _ Hd Hl).
    destruct (Z.ltb_spec (5 + len wrapped) (2 ^ 32)) as [Hs|Hs].
    + pose proof (kms_decrypt_panics wrapped w) as Hk.
      assert (Hno : panics (match Decrypt (kms e) (keyID e) wrapped w with
        | (Ok dek, w1) => (Aead.Open dek (EncodeToString RawURLEncoding inner) aad, w1)
        | (Err err, w1) => (Err (Wrapf "crypt: kms.Decrypt: %w" err), w1)
        | (Panic m, w1) => (Panic m, w1) end).1 = false).
      { destruct (Decrypt _ _ wrapped w) as [[dek|err|m] w1]; [apply Aead.Open_no_panic|done..]. }
      rewrite Hno. split; [done|]. intros (wr & i & Hd' & Hl').
      assert (He : parse_envelope text = Ok (wrapped, inner)) by (by apply parse_envelope_Ok).
      rewrite (parse_envelope_layout _ _ _ Hd') in He by lia.
      rewrite (proj2 (Z.ltb_ge _ _)) in He by lia. done.
    + split; [|done]. intros _. exists wrapped, inner. split; [done|lia].
Qed.

Lemma Envelope_Open_panics_iff_witness :
  panics (Open demo_sealer (EncodeToString RawURLEncoding
    (envelope (replicate (Z.to_nat (2 ^ 32 - 5)) x00) [])) [] demo_world).1 = true.
Proof.
  apply (Envelope_Open_panics_iff demo_sealer).
  exists (replicate (Z.to_nat (2 ^ 32 - 5)) x00), []. split; [apply Decode_Encode, _|].
  rewrite len_replicate, Z2Nat.id by lia. lia.
Defined.

(** The plaintext data key does not survive a call. Whenever the KMS hands one out, its buffer
    holds only zeros, of the same length, when [EnvelopeSealer.Seal] or [Open] returns, on every
    success, error and panic path. *)
Theorem Envelope_wipes_dek e p aad w dek wrapped w1 :
  (GenerateDataKey (kms e) (keyID e) w = (Ok (dek, wrapped), w1) ->
     (seal_dek e p aad w).1.2 = Some (replicate (length dek) x00)) /\
  (forall text inner, parse_envelope text = Ok (wrapped, inner) ->
     Decrypt (kms e) (keyID e) wrapped w = (Ok dek, w1) ->
     (open_dek e text aad w).1.2 = Some (replicate (length dek) x00)).
Proof.
  split.
  - intros Hg. rewrite seal_dek_run, Hg.
    destruct (seal_under dek wrapped p aad w1) as [o w2]. cbn. by rewrite zeroBytes_spec.
  - intros text inner Hp Hk. unfold open_dek. rewrite Hp, Hk. cbn. by rewrite zeroBytes_spec.
Qed.

Lemma Envelope_wipes_dek_witness :
  (seal_dek demo_sealer (lit "card") [] demo_world).1.2 = Some (replicate 32 x00).
Proof.
  destruct (GenerateDataKey (kms demo_sealer) (keyID demo_sealer) demo_world)
    as [[[dek wrapped]|err|m] w1] eqn:Hg; [|vm_compute in Hg; discriminate..].
  rewrite (proj1 (Envelope_wipes_dek demo_sealer (lit "card") [] _ dek wrapped w1) Hg).
  vm_compute in Hg. injection Hg as <- _ _. reflexivity.
Defined.

(** [StaticKMS] keeps the interface's promise for every key id; after [AddKey] of a 32-byte
    key it generates a data key of 32 fresh random bytes, and an id that was never added is an
    error for every method. *)
Theorem StaticKMS_implements s id key w :
  KMSOk (static s) id /\
  (len key = AEADKeySize -> has_random 44 w ->
   exists wrapped w', GenerateDataKey (static (AddKey s id key).2) id w =
     (Ok (next_random AEADKeySize w, wrapped), w')) /\
  (keks s !! id = None -> forall b,
   is_ok (GenerateDataKey (static s) id w).1 = false /\
   is_ok (Decrypt (static s) id b w).1 = false /\ is_ok (Encrypt (static s) id b w).1 = false).
Proof.
  split; [apply _|]. split.
  - intros Hk Hr. destruct (AddKey_cases s id key) as [[? _]|[_ ->]]; [done|].
    destruct (RandomBytes_run AEADKeySize w) as (w1 & Hb & Ha & _ & _);
      [done|unfold has_random in *; change AEADKeySize with 32; lia|].
    destruct (Aead.Seal_run key (next_random AEADKeySize w) [] w1) as (c & b & w2 & _ & _ & _ & _ & Hs & _).
    + done.
    + rewrite len_next_random; [done..|]. unfold has_random in *. change AEADKeySize with 32. lia.
    + unfold has_random, len in *. rewrite Ha, length_drop. change AEADKeySize with 32. lia.
    + eexists _, w2. simpl. unfold static_GenerateDataKey.
      rewrite (M_lift_bind _ key) by (unfold lookup; simpl; by rewrite lookup_insert_eq).
      rewrite (M_bind_Ok _ _ _ _ _ Hb). by rewrite (M_bind_Ok _ _ _ _ _ Hs).
  - intros Hn b. simpl. unfold static_GenerateDataKey, static_Decrypt, static_Encrypt, mbind, M_bind,
      lift, lookup. by rewrite Hn.
Qed.

Lemma StaticKMS_implements_witness :
  exists wrapped w', GenerateDataKey (static demo_kms) (lit "kek-1") demo_world =
    (Ok (next_random AEADKeySize demo_world, wrapped), w').
Proof. apply (StaticKMS_implements NewStaticKMS (lit "kek-1") demo_key); [done|vm_compute; discriminate]. Defined.

End Kms.
