(* ===== verification/Buffers.v ===== *)
(** * The buffers of envelope encryption: [kms.go] over a shared store

    A Go slice is a reference.  [EnvelopeSealer] overwrites the data key it got from its KMS with zeros, so
    what the adapter and the sealer see of each other goes through memory.  Here a data key is the address of a
    buffer in a store they share; the operations are those of [Kms], which passes the bytes themselves.
    An address stands for a slice over its whole buffer: slices that overlap in part are not modelled. *)

From S2P Require Import Prelude Errors Binary Base64 GoIO Aes Cipher Format Random Aead Kms.

Module Buffers.

(** ** The store *)

Abbreviation address := nat (only parsing).
Abbreviation store := (gmap address bytes) (only parsing).

(** The state of an adapter, the store, and the environment. *)
Record state (S : Type) := State { adapter : S; mem : store; env : world }.
Arguments State {S} _ _ _.
Arguments adapter {S} _.
Arguments mem {S} _.
Arguments env {S} _.

(** Programs over it. *)
Definition B (S A : Type) : Type := state S -> outcome A * state S.

#[global] Instance B_ret S : MRet (B S) := fun A a σ => (Ok a, σ).
#[global] Instance B_bind S : MBind (B S) := fun A A' f m σ =>
  match m σ with
  | (Ok a, σ') => f a σ'
  | (Err e, σ') => (Err e, σ')
  | (Panic p, σ') => (Panic p, σ')
  end.

Section programs.
Context {S A : Type}.

Definition pure_ (o : outcome A) : B S A := fun σ => (o, σ).

Definition map_errB (f : error -> error) (m : B S A) : B S A := fun σ =>
  let '(o, σ') := m σ in (map_err f o, σ').

(** A computation that does not touch the store. *)
Definition in_env (m : M A) : B S A := fun σ =>
  let '(o, w) := m (env σ) in (o, State (adapter σ) (mem σ) w).
End programs.

Section memory.
Context {S : Type}.

(** The bytes behind an address; no buffer, like a nil slice, is empty. *)
Definition load (l : address) (m : store) : bytes := default [] (m !! l).

Definition deref (l : address) : B S bytes := fun σ => (Ok (load l (mem σ)), σ).

(** A new buffer. *)
Definition alloc (b : bytes) : B S address := fun σ =>
  let l := fresh (dom (mem σ)) in (Ok l, State (adapter σ) (<[l := b]> (mem σ)) (env σ)).

(** An assignment in the adapter's own state. *)
Definition set_adapter (f : S -> S) : B S unit := fun σ => (Ok tt, State (f (adapter σ)) (mem σ) (env σ)).

(** [defer zeroBytes(b)] around the rest of a function. *)
Definition defer_zeroBytes {A} (l : address) (body : B S A) : B S A := fun σ =>
  let '(o, σ') := body σ in (o, State (adapter σ') (alter Kms.zeroBytes l (mem σ')) (env σ')).
End memory.

(** ** The interface and the sealer *)

(** The wrapped key and the other blobs are only read, so they stay values. *)
Record KMS (S : Type) := {
  GenerateDataKey : bytes -> B S (address * bytes);
  Decrypt : bytes -> bytes -> B S address;
  Encrypt : bytes -> bytes -> B S bytes
}.
Arguments GenerateDataKey {S} _ _.
Arguments Decrypt {S} _ _ _.
Arguments Encrypt {S} _ _ _.

Section sealer.
Context {S : Type} (kms : KMS S) (keyID : bytes).

Definition Seal (plaintext aad : bytes) : B S bytes :=
  r ← map_errB (Wrapf "crypt: kms.GenerateDataKey: %w") (GenerateDataKey kms keyID);
  let '(dek, wrapped) := r in
  defer_zeroBytes dek (
    key ← deref dek;
    in_env (Kms.seal_under key wrapped plaintext aad)).

Definition Open (ciphertext aad : bytes) : B S bytes :=
  r ← pure_ (Kms.parse_envelope ciphertext);
  let '(wrapped, inner) := r in
  dek ← map_errB (Wrapf "crypt: kms.Decrypt: %w") (Decrypt kms keyID wrapped);
  defer_zeroBytes dek (
    key ← deref dek;
    pure_ (Aead.Open key (EncodeToString RawURLEncoding inner) aad)).
End sealer.

(** ** StaticKMS

    Its map holds addresses. [AddKey] copies the caller's key to a buffer of its own; [lookup] hands out the
    address of that buffer, to the methods below only. *)

Abbreviation keks := (gmap bytes address) (only parsing).

Definition AddKey (keyID : bytes) (key : address) : B keks unit :=
  k ← deref key;
  if negb (len k =? AEADKeySize) then pure_ (Err (Wrapf "%w: KEK must be %d bytes; got %d" ErrInvalidKey))
  else
    copy ← (alloc k : B keks address);
    set_adapter (fun s => <[keyID := copy]> s).

Definition lookup (keyID : bytes) : B keks address := fun σ =>
  match adapter σ !! keyID with
  | None => (Err (Errorf "static kms: unknown keyID %q"), σ)
  | Some k => (Ok k, σ)
  end.

Definition static : KMS keks := {|
  GenerateDataKey keyID :=
    kek ← lookup keyID;
    dek ← in_env (RandomBytes AEADKeySize);
    dek ← alloc dek;
    k ← deref kek;
    d ← deref dek;
    wrapped ← in_env (Aead.Seal k d []);
    mret (dek, wrapped);
  Decrypt keyID wrapped :=
    kek ← lookup keyID;
    k ← deref kek;
    p ← pure_ (Aead.Open k wrapped []);
    alloc p;
  Encrypt keyID plaintext :=
    kek ← lookup keyID;
    k ← deref kek;
    in_env (Aead.Seal k plaintext [])
|}.

(** ** Lemmas *)

Section programs_lemmas.
Context {S : Type}.
Implicit Types σ : state S.

Lemma B_bind_Ok {A A'} (m : B S A) (f : A -> B S A') σ a σ' : m σ = (Ok a, σ') -> (m ≫= f) σ = f a σ'.
Proof. intros H. unfold mbind, B_bind. by rewrite H. Qed.

Lemma in_env_bind {A A'} (m : M A) (f : A -> B S A') σ a w :
  m (env σ) = (Ok a, w) -> (in_env m ≫= f) σ = f a (State (adapter σ) (mem σ) w).
Proof. intros H. unfold mbind, B_bind, in_env. by rewrite H. Qed.

Lemma load_insert l b (m : store) : load l (<[l := b]> m) = b.
Proof. unfold load. by rewrite lookup_insert_eq. Qed.

Lemma load_alter l (m : store) : load l (alter Kms.zeroBytes l m) = replicate (length (load l m)) x00.
Proof.
  unfold load. rewrite lookup_alter_eq. destruct (m !! l) as [b|]; [|done]. cbn. apply Kms.zeroBytes_spec.
Qed.
End programs_lemmas.

Section sealer_lemmas.
Context {S : Type} (kms : KMS S) (keyID : bytes).
Implicit Types σ : state S.

(** A call of the sealer, once the KMS has answered: the rest runs on the bytes behind the address, and what is
    left in the store is what the KMS left, with zeros in that buffer. *)
Lemma Seal_steps p aad σ :
  Seal kms keyID p aad σ =
    match GenerateDataKey kms keyID σ with
    | (Ok (l, wrapped), σ1) =>
        let '(o, w) := Kms.seal_under (load l (mem σ1)) wrapped p aad (env σ1) in
        (o, State (adapter σ1) (alter Kms.zeroBytes l (mem σ1)) w)
    | (Err err, σ1) => (Err (Wrapf "crypt: kms.GenerateDataKey: %w" err), σ1)
    | (Panic m, σ1) => (Panic m, σ1)
    end.
Proof.
  unfold Seal, mbind, B_bind, map_errB. destruct (GenerateDataKey kms keyID σ) as [[[l wrapped]|err|m] σ1]; [|done..].
  cbn [map_err]. unfold defer_zeroBytes, deref, in_env.
  by destruct (Kms.seal_under (load l (mem σ1)) wrapped p aad (env σ1)) as [o w].
Qed.

Lemma Open_steps text aad σ :
  Open kms keyID text aad σ =
    match Kms.parse_envelope text with
    | Ok (wrapped, inner) =>
        match Decrypt kms keyID wrapped σ with
        | (Ok l, σ1) =>
            (Aead.Open (load l (mem σ1)) (EncodeToString RawURLEncoding inner) aad,
             State (adapter σ1) (alter Kms.zeroBytes l (mem σ1)) (env σ1))
        | (Err err, σ1) => (Err (Wrapf "crypt: kms.Decrypt: %w" err), σ1)
        | (Panic m, σ1) => (Panic m, σ1)
        end
    | Err err => (Err err, σ)
    | Panic m => (Panic m, σ)
    end.
Proof.
  unfold Open, mbind, B_bind, map_errB, pure_. destruct (Kms.parse_envelope text) as [[wrapped inner]|err|m]; [|done..].
  by destruct (Decrypt kms keyID wrapped σ) as [[l|err|m] σ1].
Qed.
End sealer_lemmas.

(** ** Who may write where

    The promise of an adapter over a store: it owns some buffers, and a data key it returns is in a new buffer
    that it does not keep. [unwraps] says of its state and its buffers what a wrapped key stands for; only writes
    to its own buffers can change that, and its calls do not. *)

Definition agree (X : gset address) (m m' : store) : Prop := forall l, l ∈ X -> m' !! l = m !! l.

Section ownership.
Context {S : Type} (own : S -> gset address) (unwraps : S -> store -> bytes -> bytes -> Prop).
Implicit Types σ : state S.

(** What the adapter owns exists. *)
Definition wf σ : Prop := own (adapter σ) ⊆ dom (mem σ).

(** No promise is broken, and no buffer of someone else is written or taken. *)
Definition keeps σ σ' : Prop :=
  wf σ' /\
  (forall wrapped dek, unwraps (adapter σ) (mem σ) wrapped dek -> unwraps (adapter σ') (mem σ') wrapped dek) /\
  (forall l, l ∈ dom (mem σ) -> l ∉ own (adapter σ) -> (l ∉ own (adapter σ')) /\ mem σ' !! l = mem σ !! l).

(** [l] is new and nobody else's. *)
Definition handed_over σ l σ' : Prop := (l ∉ dom (mem σ)) /\ (l ∉ own (adapter σ')).

Class Owns (kms : KMS S) (keyID : bytes) : Prop := {
  own_frame s m m' wrapped dek : agree (own s) m m' -> unwraps s m wrapped dek -> unwraps s m' wrapped dek;
  own_generate σ o σ' : wf σ -> GenerateDataKey kms keyID σ = (o, σ') ->
    keeps σ σ' /\ forall l wrapped, o = Ok (l, wrapped) ->
      handed_over σ l σ' /\ unwraps (adapter σ') (mem σ') wrapped (load l (mem σ'));
  own_decrypt σ wrapped o σ' : wf σ -> Decrypt kms keyID wrapped σ = (o, σ') ->
    keeps σ σ' /\ (forall l, o = Ok l -> handed_over σ l σ') /\
    forall dek, unwraps (adapter σ) (mem σ) wrapped dek -> exists l, o = Ok l /\ load l (mem σ') = dek
}.

(** What happens in a program that uses the sealer: its calls; writes to buffers the adapter does not own; and
    whatever else the adapter does that breaks no promise. *)
Inductive event :=
  | Sealed (plaintext aad : bytes) (o : outcome bytes)
  | Opened (ciphertext aad : bytes) (o : outcome bytes)
  | Elsewhere.

Context (kms : KMS S) (keyID : bytes).

Inductive step σ : event -> state S -> Prop :=
  | step_seal plaintext aad o σ' :
      Seal kms keyID plaintext aad σ = (o, σ') -> step σ (Sealed plaintext aad o) σ'
  | step_open ciphertext aad o σ' :
      Open kms keyID ciphertext aad σ = (o, σ') -> step σ (Opened ciphertext aad o) σ'
  | step_others m w : agree (own (adapter σ)) (mem σ) m -> step σ Elsewhere (State (adapter σ) m w)
  | step_adapter σ' : keeps σ σ' -> step σ Elsewhere σ'.

Inductive run σ : list event -> state S -> Prop :=
  | run_start : run σ [] σ
  | run_step evs σ1 e σ2 : run σ evs σ1 -> step σ1 e σ2 -> run σ (evs ++ [e]) σ2.
End ownership.

#[global] Arguments own_frame {S own unwraps kms keyID _} s m m' wrapped dek.
#[global] Arguments own_generate {S own unwraps kms keyID _} σ o σ'.
#[global] Arguments own_decrypt {S own unwraps kms keyID _} σ wrapped o σ'.

Section history.
Context {S : Type} (own : S -> gset address) (unwraps : S -> store -> bytes -> bytes -> Prop).
Context (kms : KMS S) (keyID : bytes) `{!Owns own unwraps kms keyID}.
Implicit Types σ : state S.
#[local] Abbreviation wf := (wf own).
#[local] Abbreviation keeps := (keeps own unwraps).

Lemma frame s m m' wrapped dek : agree (own s) m m' -> unwraps s m wrapped dek -> unwraps s m' wrapped dek.
Proof. exact (own_frame (kms:=kms) (keyID:=keyID) s m m' wrapped dek). Qed.

Lemma keeps_refl σ : wf σ -> keeps σ σ.
Proof. split; [done|]. split; auto. Qed.

(** Zeros in a buffer the adapter does not own. *)
Lemma keeps_wipe σ σ1 l w :
  keeps σ σ1 -> handed_over own σ l σ1 -> keeps σ (State (adapter σ1) (alter Kms.zeroBytes l (mem σ1)) w).
Proof.
  intros (Hwf & Hu & Hl) [Hnew Hown]. unfold Buffers.keeps, Buffers.wf in *. cbn [adapter mem]. split; [|split].
  - by rewrite dom_alter_L.
  - intros wrapped dek H%Hu. eapply frame; [|exact H]. intros l' Hl'. apply lookup_alter_ne. congruence.
  - intros l' Hd Ho. destruct (Hl l' Hd Ho) as [Ho' He]. split; [done|]. rewrite lookup_alter_ne by congruence. done.
Qed.

(** Calls of the sealer break no promise and write to no buffer that was there before and is not the adapter's. *)
Lemma Seal_keeps p aad σ : wf σ -> keeps σ (Seal kms keyID p aad σ).2.
Proof.
  intros Hwf. rewrite Seal_steps. destruct (GenerateDataKey kms keyID σ) as [o σ1] eqn:Hg.
  destruct (own_generate _ _ _ Hwf Hg) as [Hk Hh]. destruct o as [[l wrapped]|err|m]; [|exact Hk..].
  destruct (Hh _ _ eq_refl) as [Hl _]. destruct (Kms.seal_under _ _ _ _ _) as [o w]. by apply keeps_wipe.
Qed.

Lemma Open_keeps text aad σ : wf σ -> keeps σ (Open kms keyID text aad σ).2.
Proof.
  intros Hwf. rewrite Open_steps. destruct (Kms.parse_envelope text) as [[wrapped inner]|err|m]; [|by apply keeps_refl..].
  destruct (Decrypt kms keyID wrapped σ) as [o σ1] eqn:Hd.
  destruct (own_decrypt _ _ _ _ Hwf Hd) as (Hk & Hh & _). destruct o as [l|err|m]; [|exact Hk..].
  apply keeps_wipe; auto.
Qed.

Lemma step_keeps σ e σ' : wf σ -> step own unwraps kms keyID σ e σ' -> wf σ' /\
  forall wrapped dek, unwraps (adapter σ) (mem σ) wrapped dek -> unwraps (adapter σ') (mem σ') wrapped dek.
Proof.
  intros Hwf [p aad o σ1 H|text aad o σ1 H|m w H|σ1 H].
  - pose proof (Seal_keeps p aad σ Hwf) as (H1 & H2 & _). by rewrite H in *.
  - pose proof (Open_keeps text aad σ Hwf) as (H1 & H2 & _). by rewrite H in *.
  - cbn [adapter mem]. split; [|intros wrapped dek; by apply frame].
    unfold Buffers.wf in *. cbn [adapter mem]. intros l Hl. apply elem_of_dom. rewrite (H l Hl). by apply elem_of_dom, Hwf.
  - destruct H as (H1 & H2 & _). done.
Qed.

(** What a sealed text stands for as long as the promises are kept. *)
Definition promised (text aad p : bytes) σ : Prop :=
  exists wrapped inner dek, Kms.parse_envelope text = Ok (wrapped, inner) /\
    unwraps (adapter σ) (mem σ) wrapped dek /\ Aead.Open dek (EncodeToString RawURLEncoding inner) aad = Ok p.

Lemma Seal_promises p aad text σ σ' :
  wf σ -> Seal kms keyID p aad σ = (Ok text, σ') -> len text < 2 ^ 32 -> promised text aad p σ'.
Proof.
  intros Hwf. rewrite Seal_steps. destruct (GenerateDataKey kms keyID σ) as [o σ1] eqn:Hg.
  destruct (own_generate _ _ _ Hwf Hg) as [_ Hh]. destruct o as [[l wrapped]|err|m]; [|done..].
  destruct (Hh _ _ eq_refl) as [[_ Hl] Hu]. destruct (Kms.seal_under _ _ _ _ _) as [[s|err|m] w] eqn:Hs; [|done..].
  intros [= -> <-] Hlen. apply Kms.seal_under_Ok in Hs as (raw & _ & Ho & Hp).
  exists wrapped, raw, (load l (mem σ1)). split; [by apply Hp|]. split; [|exact Ho]. cbn [adapter mem].
  eapply frame; [|exact Hu]. intros l' Hl'. apply lookup_alter_ne. congruence.
Qed.

Lemma promised_opens text aad p σ : wf σ -> promised text aad p σ -> exists σ', Open kms keyID text aad σ = (Ok p, σ').
Proof.
  intros Hwf (wrapped & inner & dek & Hp & Hu & Ho). rewrite Open_steps, Hp.
  destruct (Decrypt kms keyID wrapped σ) as [o σ1] eqn:Hd.
  destruct (own_decrypt _ _ _ _ Hwf Hd) as (_ & _ & Hk). destruct (Hk dek Hu) as (l & -> & ->). rewrite Ho. eauto.
Qed.

Lemma run_promises σ0 evs σ :
  wf σ0 -> run own unwraps kms keyID σ0 evs σ ->
  wf σ /\ forall p aad text, Sealed p aad (Ok text) ∈ evs -> len text < 2 ^ 32 -> promised text aad p σ.
Proof.
  intros Hwf. induction 1 as [|evs σ1 e σ2 _ [Hwf1 IH] Hstep]; [split; [done|]; intros p aad text []%not_elem_of_nil|].
  destruct (step_keeps σ1 e σ2 Hwf1 Hstep) as [Hwf2 Hu]. split; [done|].
  intros p aad text [Hin|Heq%list_elem_of_singleton]%elem_of_app Hlen.
  - destruct (IH p aad text Hin Hlen) as (wrapped & inner & dek & Hp & Hw & Ho). exists wrapped, inner, dek. auto.
  - subst e. inversion Hstep as [? ? ? ? Hs| | |]; subst. exact (Seal_promises _ _ _ _ _ Hwf1 Hs Hlen).
Qed.
End history.

(** ** StaticKMS keeps the contract *)

Definition static_own (s : keks) : gset address := map_img s.

(** A wrapped key is an AEAD text under the bytes behind the address of some key id. *)
Definition static_unwraps (keyID : bytes) (s : keks) (m : store) (wrapped dek : bytes) : Prop :=
  exists l, s !! keyID = Some l /\ Aead.Open (load l m) wrapped [] = Ok dek.

Section static.
Implicit Types σ : state keks.
#[local] Abbreviation wf := (wf static_own).

Lemma owned (s : keks) id l : s !! id = Some l -> l ∈ static_own s.
Proof. apply elem_of_map_img_2. Qed.

Lemma fresh_new (m : store) : fresh (dom m) ∉ dom m.
Proof. apply is_fresh. Qed.

(** A new buffer with whatever is in it changes nothing for anyone. *)
Lemma alloc_keeps keyID σ b w :
  wf σ -> keeps static_own (static_unwraps keyID) σ (State (adapter σ) (<[fresh (dom (mem σ)) := b]> (mem σ)) w) /\
  handed_over static_own σ (fresh (dom (mem σ))) (State (adapter σ) (<[fresh (dom (mem σ)) := b]> (mem σ)) w).
Proof.
  intros Hwf. pose proof (fresh_new (mem σ)) as Hf. set (l := fresh _) in *. unfold keeps, handed_over, Buffers.wf in *. cbn [adapter mem].
  split; [split; [|split]|].
  - rewrite dom_insert_L. set_solver.
  - intros wrapped dek (l' & Hl & Ho). exists l'. split; [done|]. unfold load in *.
    rewrite lookup_insert_ne; [done|]. intros <-. by apply Hf, Hwf, owned with keyID.
  - intros l' Hd Hn. split; [done|]. apply lookup_insert_ne. congruence.
  - split; [done|]. intros Hin. by apply Hf, Hwf.
Qed.

Lemma load_fresh keyID σ l b :
  wf σ -> adapter σ !! keyID = Some l -> load l (<[fresh (dom (mem σ)) := b]> (mem σ)) = load l (mem σ).
Proof.
  intros Hwf Hl. unfold load. rewrite lookup_insert_ne; [done|].
  intros Heq. apply (fresh_new (mem σ)). rewrite Heq. by apply Hwf, owned with keyID.
Qed.

Lemma static_Decrypt_run keyID wrapped σ :
  Decrypt static keyID wrapped σ =
    match adapter σ !! keyID with
    | None => (Err (Errorf "static kms: unknown keyID %q"), σ)
    | Some l =>
        match Aead.Open (load l (mem σ)) wrapped [] with
        | Ok p => (Ok (fresh (dom (mem σ))), State (adapter σ) (<[fresh (dom (mem σ)) := p]> (mem σ)) (env σ))
        | Err e => (Err e, σ)
        | Panic m => (Panic m, σ)
        end
    end.
Proof.
  unfold static, mbind, B_bind, lookup. cbn [Decrypt]. destruct (adapter σ !! keyID) as [l|]; [|done]. unfold pure_, deref.
  by destruct (Aead.Open (load l (mem σ)) wrapped []).
Qed.

Lemma static_GenerateDataKey_run keyID σ :
  wf σ ->
  GenerateDataKey static keyID σ =
    match adapter σ !! keyID with
    | None => (Err (Errorf "static kms: unknown keyID %q"), σ)
    | Some l =>
        match RandomBytes AEADKeySize (env σ) with
        | (Ok d, w) =>
            let m := <[fresh (dom (mem σ)) := d]> (mem σ) in
            match Aead.Seal (load l (mem σ)) d [] w with
            | (Ok wrapped, w') => (Ok (fresh (dom (mem σ)), wrapped), State (adapter σ) m w')
            | (Err e, w') => (Err e, State (adapter σ) m w')
            | (Panic p, w') => (Panic p, State (adapter σ) m w')
            end
        | (Err e, w) => (Err e, State (adapter σ) (mem σ) w)
        | (Panic p, w) => (Panic p, State (adapter σ) (mem σ) w)
        end
    end.
Proof.
  intros Hwf. unfold static, mbind, B_bind, lookup. cbn [GenerateDataKey]. destruct (adapter σ !! keyID) as [l|] eqn:Hl; [|done].
  unfold in_env. destruct (RandomBytes AEADKeySize (env σ)) as [[d|e|p] w]; [|done..].
  cbn [alloc deref adapter mem env]. rewrite load_insert, (load_fresh keyID) by done.
  by destruct (Aead.Seal (load l (mem σ)) d [] w) as [[c|e|p] w'].
Qed.

#[export] Instance static_owns keyID : Owns static_own (static_unwraps keyID) static keyID.
Proof.
  split.
  - intros s m m' wrapped dek Ha (l & Hl & Ho). exists l. split; [done|]. unfold load in *.
    by rewrite (Ha l (owned _ _ _ Hl)).
  - intros σ o σ' Hwf. rewrite static_GenerateDataKey_run by done.
    assert (Hrefl : forall w, keeps static_own (static_unwraps keyID) σ (State (adapter σ) (mem σ) w))
      by (intros w; split; [done|]; split; auto).
    destruct (adapter σ !! keyID) as [l|] eqn:Hl; [|intros [= <- <-]; split; [by destruct σ; apply Hrefl|done]].
    destruct (RandomBytes AEADKeySize (env σ)) as [[d|e|p] w]; [|by intros [= <- <-]..].
    destruct (Aead.Seal (load l (mem σ)) d [] w) as [[c|e|p] w'] eqn:Hs; intros [= <- <-];
      destruct (alloc_keeps keyID σ d w' Hwf) as [Hk Hh]; (split; [exact Hk|]); [|done..].
    intros l' wrapped [= <- <-]. split; [exact Hh|]. exists l. cbn [adapter mem]. split; [done|].
    rewrite (load_fresh keyID), load_insert by done. by eapply Seal_then_Open.
  - intros σ wrapped o σ' Hwf. rewrite static_Decrypt_run.
    assert (Hrefl : keeps static_own (static_unwraps keyID) σ σ) by (split; [done|]; split; auto).
    destruct (adapter σ !! keyID) as [l|] eqn:Hl.
    2: { intros [= <- <-]. split; [done|]. split; [done|]. intros dek (l & Hl' & _). congruence. }
    destruct (Aead.Open (load l (mem σ)) wrapped []) as [p|e|m] eqn:Ho; intros [= <- <-].
    + destruct (alloc_keeps keyID σ p (env σ) Hwf) as [Hk Hh]. split; [exact Hk|]. split; [by intros l' [= <-]|].
      intros dek (l' & Hl' & Ho'). eexists. split; [done|]. cbn [mem]. rewrite load_insert. congruence.
    + split; [done|]. split; [done|]. intros dek (l' & Hl' & Ho'). congruence.
    + split; [done|]. split; [done|]. intros dek (l' & Hl' & Ho'). congruence.
Qed.

(** *** The bytes behind the map *)

Definition view σ : Kms.StaticKMS := {| Kms.keks := (fun l => load l (mem σ)) <$> adapter σ |}.

Lemma view_lookup keyID σ :
  Kms.lookup (view σ) keyID =
    match adapter σ !! keyID with
    | None => Err (Errorf "static kms: unknown keyID %q")
    | Some l => Ok (load l (mem σ))
    end.
Proof. unfold Kms.lookup. cbn [Kms.keks view]. rewrite lookup_fmap. by destruct (adapter σ !! keyID). Qed.

Lemma view_agree s m m' w w' : agree (static_own s) m m' -> view (State s m' w') = view (State s m w).
Proof.
  intros Ha. unfold view. f_equal. cbn [adapter mem]. apply map_fmap_ext. intros id l Hl. unfold load.
  by rewrite (Ha l (owned _ _ _ Hl)).
Qed.

(** New buffers, also when they are then overwritten, are not the map's. *)
Lemma agree_fresh σ b :
  wf σ -> agree (static_own (adapter σ)) (mem σ) (<[fresh (dom (mem σ)) := b]> (mem σ)).
Proof. intros Hwf l Hl. apply lookup_insert_ne. intros <-. by apply (fresh_new (mem σ)), Hwf. Qed.

Lemma agree_wiped σ b :
  wf σ -> agree (static_own (adapter σ)) (mem σ)
            (alter Kms.zeroBytes (fresh (dom (mem σ))) (<[fresh (dom (mem σ)) := b]> (mem σ))).
Proof.
  intros Hwf l Hl. rewrite lookup_alter_ne; [by apply agree_fresh|].
  intros <-. by apply (fresh_new (mem σ)), Hwf.
Qed.

Lemma view_Seal keyID p aad σ :
  wf σ ->
  let '(o, w) := Kms.Seal (Kms.NewEnvelopeSealer (Kms.static (view σ)) keyID) p aad (env σ) in
  let '(o', σ') := Seal static keyID p aad σ in
  o' = o /\ env σ' = w /\ adapter σ' = adapter σ /\ view σ' = view σ.
Proof.
  intros Hwf. rewrite Seal_steps, static_GenerateDataKey_run by done.
  unfold Kms.Seal, Kms.result. rewrite Kms.seal_dek_run. cbn [Kms.kms Kms.keyID Kms.NewEnvelopeSealer Kms.static Kms.GenerateDataKey].
  unfold Kms.static_GenerateDataKey. unfold mbind at 1 2 3, M_bind, lift. rewrite view_lookup.
  destruct (adapter σ !! keyID) as [l|] eqn:Hl; [|by destruct σ].
  destruct (RandomBytes AEADKeySize (env σ)) as [[d|e|m] w]; [|by destruct σ..]. cbv zeta.
  destruct (Aead.Seal (load l (mem σ)) d [] w) as [[c|e|m] w']; unfold mret, M_ret.
  - cbn [mem adapter env]. rewrite load_insert. destruct (Kms.seal_under d c p aad w') as [o w2]. cbn [adapter env].
    split; [done|]. split; [done|]. split; [done|]. destruct σ as [s m w0]. by apply view_agree, (agree_wiped (State s m w0)).
  - destruct σ as [s m0 w0]. do 3 (split; [done|]). by apply view_agree, (agree_fresh (State s m0 w0)).
  - destruct σ as [s m0 w0]. do 3 (split; [done|]). by apply view_agree, (agree_fresh (State s m0 w0)).
Qed.

Lemma view_Open keyID text aad σ :
  wf σ ->
  let '(o, w) := Kms.Open (Kms.NewEnvelopeSealer (Kms.static (view σ)) keyID) text aad (env σ) in
  let '(o', σ') := Open static keyID text aad σ in
  o' = o /\ env σ' = w /\ adapter σ' = adapter σ /\ view σ' = view σ.
Proof.
  intros Hwf. rewrite Open_steps, Kms.Open_run. cbn [Kms.kms Kms.keyID Kms.NewEnvelopeSealer Kms.static Kms.Decrypt].
  destruct (Kms.parse_envelope text) as [[wrapped inner]|e|m]; [|done..]. rewrite static_Decrypt_run.
  unfold Kms.static_Decrypt, mbind, M_bind, lift. rewrite view_lookup.
  destruct (adapter σ !! keyID) as [l|] eqn:Hl; [|done].
  destruct (Aead.Open (load l (mem σ)) wrapped []) as [d|e|m]; [|done..].
  cbn [mem adapter env]. rewrite load_insert. do 3 (split; [done|]).
  destruct σ as [s m0 w0]. by apply view_agree, (agree_wiped (State s m0 w0)).
Qed.

(** The key is copied: the map gets a new buffer. *)
Lemma AddKey_run keyID l σ :
  AddKey keyID l σ =
    if negb (len (load l (mem σ)) =? AEADKeySize)
    then (Err (Wrapf "%w: KEK must be %d bytes; got %d" ErrInvalidKey), σ)
    else (Ok tt, State (<[keyID := fresh (dom (mem σ))]> (adapter σ))
                   (<[fresh (dom (mem σ)) := load l (mem σ)]> (mem σ)) (env σ)).
Proof. unfold AddKey, mbind, B_bind, deref, pure_. by destruct (negb _). Qed.

Lemma view_AddKey keyID l σ :
  wf σ ->
  let '(o, s) := Kms.AddKey (view σ) keyID (load l (mem σ)) in
  let '(o', σ') := AddKey keyID l σ in
  o' = o /\ env σ' = env σ /\ view σ' = s /\ wf σ' /\
  (l ∈ dom (mem σ) -> l ∉ static_own (adapter σ) -> l ∉ static_own (adapter σ')).
Proof.
  intros Hwf. rewrite AddKey_run. unfold Kms.AddKey. destruct (negb _); [done|].
  pose proof (fresh_new (mem σ)) as Hf. set (f := fresh _) in *.
  assert (Hown : static_own (<[keyID := f]> (adapter σ)) ⊆ {[f]} ∪ static_own (adapter σ)).
  { unfold static_own. apply map_img_insert_subseteq. }
  split; [done|]. split; [done|]. split; [|split].
  - unfold view. f_equal. cbn [adapter mem]. rewrite fmap_insert, load_insert. f_equal.
    destruct σ as [s m w]. injection (view_agree s m _ w w (agree_fresh (State s m w) (load l m) Hwf)) as E. exact E.
  - unfold Buffers.wf in *. cbn [adapter mem]. intros l' [Hl'|Hl']%Hown%elem_of_union; rewrite dom_insert_L;
      apply elem_of_union; auto.
  - intros Hl Hn. cbn [adapter]. intros [->%elem_of_singleton|Hin]%Hown%elem_of_union; [by apply Hf|by apply Hn].
Qed.
End static.

(** ** Adapters that keep the data key *)

Section kept.
Context {S : Type} (kms : KMS S) (keyID : bytes).
Implicit Types σ : state S.

(** What the sealer leaves in a buffer it was given. *)
Lemma Seal_wipes p aad σ l wrapped σ1 :
  GenerateDataKey kms keyID σ = (Ok (l, wrapped), σ1) ->
  let σ2 := (Seal kms keyID p aad σ).2 in
  adapter σ2 = adapter σ1 /\ mem σ2 = alter Kms.zeroBytes l (mem σ1) /\
  load l (mem σ2) = replicate (length (load l (mem σ1))) x00.
Proof.
  intros Hg. cbv zeta. rewrite Seal_steps, Hg. destruct (Kms.seal_under _ _ _ _ _) as [o w]. cbn [snd mem adapter].
  by rewrite load_alter.
Qed.

Lemma Open_wipes text aad σ wrapped inner l σ1 :
  Kms.parse_envelope text = Ok (wrapped, inner) -> Decrypt kms keyID wrapped σ = (Ok l, σ1) ->
  let σ2 := (Open kms keyID text aad σ).2 in
  adapter σ2 = adapter σ1 /\ mem σ2 = alter Kms.zeroBytes l (mem σ1) /\
  load l (mem σ2) = replicate (length (load l (mem σ1))) x00.
Proof.
  intros Hp Hd. cbv zeta. rewrite Open_steps, Hp, Hd. cbn [snd mem adapter]. by rewrite load_alter.
Qed.

(** A key that opens something has 32 bytes. *)
Lemma opening_key dek text aad p : Aead.Open dek text aad = Ok p -> length dek = 32%nat.
Proof.
  intros Ho. destruct (decide (len dek = 32)) as [Hk|Hk]; [unfold len in Hk; lia|].
  destruct (Open_short_key dek text aad Hk). congruence.
Qed.

(** With a slice that was wiped before, the sealer works under the zero key. *)
Lemma Seal_under_zeros p aad σ l wrapped σ1 :
  GenerateDataKey kms keyID σ = (Ok (l, wrapped), σ1) -> load l (mem σ1) = replicate 32 x00 ->
  len p <= gcm_max -> has_random 12 (env σ1) ->
  exists text raw σ', Seal kms keyID p aad σ = (Ok text, σ') /\
    DecodeString RawURLEncoding text = Ok (Kms.envelope wrapped raw) /\
    Aead.Open (replicate 32 x00) (EncodeToString RawURLEncoding raw) aad = Ok p.
Proof.
  intros Hg Hz Hp Hr. rewrite Seal_steps, Hg, Hz, Kms.seal_under_run.
  destruct (Aead.Seal_run (replicate 32 x00) p aad (env σ1)) as (c & body & w & _ & _ & _ & _ & Hs & _); [done..|].
  pose proof (Seal_then_Open _ _ _ _ _ _ Hs) as Ho. rewrite Hs. set (raw := VersionAEADv1 :: _) in *.
  rewrite Decode_Encode by apply _. cbn [map_err mbind outcome_bind].
  do 3 eexists. split; [done|]. split; [apply Decode_Encode, _|exact Ho].
Qed.
End kept.

(** An adapter for one key id that remembers its last data key and returns the same slice again. *)
Definition caching : KMS (option (bytes * address)) := {|
  GenerateDataKey _ := fun σ =>
    match adapter σ with
    | Some (wrapped, l) => (Ok (l, wrapped), σ)
    | None =>
        (dek ← in_env (RandomBytes AEADKeySize);
         wrapped ← in_env (Aead.Seal demo_key dek []);
         l ← alloc dek;
         set_adapter (fun _ => Some (wrapped, l));;
         mret (l, wrapped)) σ
    end;
  Decrypt _ wrapped := fun σ =>
    match adapter σ with
    | Some (wrapped', l) => if bool_decide (wrapped' = wrapped) then (Ok l, σ) else (Err (Errorf "unknown key"), σ)
    | None =>
        (dek ← pure_ (Aead.Open demo_key wrapped []);
         l ← alloc dek;
         set_adapter (fun _ => Some (wrapped, l));;
         mret l) σ
    end;
  Encrypt _ p := in_env (Aead.Seal demo_key p [])
|}.

(** ** Properties *)

(** C9: the round trip over time, with aliasing. Take an adapter that returns data keys in new buffers and does not
    keep them, and any program that calls the sealer, writes to buffers the adapter does not own, and uses the
    adapter in ways that break no promise, in any order. Every text (below 4 GiB) that [Seal] returned so far
    opens to its plaintext, although each call of [Seal] and [Open] has overwritten the data key it was
    given with zeros; and the next call, whatever it is, changes no other buffer but the adapter's own. *)
Theorem Envelope_history {S} own unwraps (kms : KMS S) keyID `{!Owns own unwraps kms keyID} σ0 evs σ :
  wf own σ0 -> run own unwraps kms keyID σ0 evs σ ->
  (forall p aad text, Sealed p aad (Ok text) ∈ evs -> len text < 2 ^ 32 ->
     exists σ', Open kms keyID text aad σ = (Ok p, σ')) /\
  (forall e σ', step own unwraps kms keyID σ e σ' -> e <> Elsewhere ->
     forall l, l ∈ dom (mem σ) -> l ∉ own (adapter σ) -> mem σ' !! l = mem σ !! l).
Proof.
  intros Hwf Hrun. destruct (run_promises own unwraps kms keyID σ0 evs σ Hwf Hrun) as [Hwf' Hp]. split.
  - intros p aad text Hin Hlen. eapply promised_opens; eauto.
  - intros e σ' [p aad o σ1 H|text aad o σ1 H|m w H|σ1 H] He l Hl Hn; [| |done..].
    + pose proof (Seal_keeps own unwraps kms keyID p aad σ Hwf') as (_ & _ & Hk). rewrite H in Hk. by apply Hk.
    + pose proof (Open_keeps own unwraps kms keyID text aad σ Hwf') as (_ & _ & Hk). rewrite H in Hk. by apply Hk.
Qed.

(** C11: [StaticKMS] as a value. Over buffers, its methods under [EnvelopeSealer] do what [Kms] says they do to the
    bytes behind its map: the same result, the same use of the random source, the same map; the overwritten data
    keys never are the stored keys. [AddKey] stores a copy: the caller's buffer does not become the map's. *)
Theorem StaticKMS_value keyID σ :
  wf static_own σ ->
  (forall p aad,
     let '(o, w) := Kms.Seal (Kms.NewEnvelopeSealer (Kms.static (view σ)) keyID) p aad (env σ) in
     let '(o', σ') := Seal static keyID p aad σ in
     o' = o /\ env σ' = w /\ adapter σ' = adapter σ /\ view σ' = view σ) /\
  (forall text aad,
     let '(o, w) := Kms.Open (Kms.NewEnvelopeSealer (Kms.static (view σ)) keyID) text aad (env σ) in
     let '(o', σ') := Open static keyID text aad σ in
     o' = o /\ env σ' = w /\ adapter σ' = adapter σ /\ view σ' = view σ) /\
  (forall l,
     let '(o, s) := Kms.AddKey (view σ) keyID (load l (mem σ)) in
     let '(o', σ') := AddKey keyID l σ in
     o' = o /\ env σ' = env σ /\ view σ' = s /\ wf static_own σ' /\
     (l ∈ dom (mem σ) -> l ∉ static_own (adapter σ) -> l ∉ static_own (adapter σ'))).
Proof.
  intros Hwf. split; [|split].
  - intros p aad. by apply view_Seal.
  - intros text aad. by apply view_Open.
  - intros l. by apply view_AddKey.
Qed.

(** C10: an adapter that keeps the slice. If [GenerateDataKey] returns the same slice again after a [Seal], not
    written in between, the next [Seal] succeeds and encrypts under the zero key, which opens its
    inner text. If [Decrypt] returns the same slice again after an [Open], the next [Open] of the text tries the zero
    key in place of the data key. *)
Theorem kept_data_key {S} (kms : KMS S) keyID σ :
  (forall l wrapped σ1 p aad text σ2,
     GenerateDataKey kms keyID σ = (Ok (l, wrapped), σ1) -> Seal kms keyID p aad σ = (Ok text, σ2) ->
     forall wrapped' σ3, GenerateDataKey kms keyID σ2 = (Ok (l, wrapped'), σ3) -> mem σ3 !! l = mem σ2 !! l ->
     forall p' aad', len p' <= gcm_max -> has_random 12 (env σ3) ->
     exists text' raw σ4, Seal kms keyID p' aad' σ2 = (Ok text', σ4) /\
       DecodeString RawURLEncoding text' = Ok (Kms.envelope wrapped' raw) /\
       Aead.Open (replicate 32 x00) (EncodeToString RawURLEncoding raw) aad' = Ok p') /\
  (forall text aad p wrapped inner l σ1 σ2,
     Kms.parse_envelope text = Ok (wrapped, inner) -> Decrypt kms keyID wrapped σ = (Ok l, σ1) ->
     Open kms keyID text aad σ = (Ok p, σ2) ->
     forall σ3, Decrypt kms keyID wrapped σ2 = (Ok l, σ3) -> mem σ3 !! l = mem σ2 !! l ->
     (Open kms keyID text aad σ2).1 = Aead.Open (replicate 32 x00) (EncodeToString RawURLEncoding inner) aad).
Proof.
  split.
  - intros l wrapped σ1 p aad text σ2 Hg Hs wrapped' σ3 Hg' Hm p' aad' Hp Hr.
    destruct (Seal_wipes kms keyID p aad σ l wrapped σ1 Hg) as (_ & _ & Hz). rewrite Hs in Hz. cbn [snd] in Hz.
    rewrite Seal_steps, Hg in Hs. destruct (Kms.seal_under _ _ _ _ _) as [[s|e|m] w] eqn:Hu; [|done..].
    apply Kms.seal_under_Ok in Hu as (raw & _ & Ho & _). rewrite (opening_key _ _ _ _ Ho) in Hz.
    apply (Seal_under_zeros kms keyID p' aad' σ2 l wrapped' σ3 Hg'); [|done..].
    rewrite <- Hz. unfold load. by rewrite Hm.
  - intros text aad p wrapped inner l σ1 σ2 Hpe Hd Ho σ3 Hd' Hm.
    destruct (Open_wipes kms keyID text aad σ wrapped inner l σ1 Hpe Hd) as (_ & _ & Hz). rewrite Ho in Hz. cbn [snd] in Hz.
    rewrite Open_steps, Hpe, Hd in Ho. injection Ho as Hok _. rewrite (opening_key _ _ _ _ Hok) in Hz.
    rewrite Open_steps, Hpe, Hd'. cbn [fst]. do 2 f_equal. rewrite <- Hz. unfold load. by rewrite Hm.
Qed.

(** *** Runs *)

(** A [StaticKMS] with the key of the caller's buffer 0. *)
Definition demo_static : state keks :=
  (AddKey (lit "kek-1") 0 (State ∅ {[0%nat := demo_key]} demo_world)).2.

Lemma demo_static_wf : wf static_own demo_static.
Proof. unfold wf. apply (bool_decide_unpack _). vm_compute. exact I. Qed.

(** It seals; then the caller wipes its own copy of the key. *)
Definition demo_sealed : outcome bytes * state keks :=
  Seal static (lit "kek-1") (lit "card") (lit "row:1") demo_static.
Definition demo_wiped : state keks :=
  State (adapter demo_sealed.2) (<[0%nat := replicate 32 x00]> (mem demo_sealed.2)) (env demo_sealed.2).

Lemma demo_sealed_run : match demo_sealed.1 with Ok t => len t <? 2 ^ 32 | _ => false end = true.
Proof. vm_compute. reflexivity. Qed.

Lemma demo_not_owned : 0%nat ∉ static_own (adapter demo_sealed.2).
Proof. apply (bool_decide_unpack _). vm_compute. exact I. Qed.

Lemma Envelope_history_witness :
  exists text σ', demo_sealed.1 = Ok text /\ Open static (lit "kek-1") text (lit "row:1") demo_wiped = (Ok (lit "card"), σ').
Proof.
  pose proof demo_sealed_run as Hrun. destruct (demo_sealed.1) as [text|e|m] eqn:Ht; [|discriminate Hrun..].
  exists text.
  destruct (Envelope_history static_own (static_unwraps (lit "kek-1")) static (lit "kek-1") demo_static
    ([] ++ [Sealed (lit "card") (lit "row:1") (Ok text)] ++ [Elsewhere]) demo_wiped) as [H _].
  - exact demo_static_wf.
  - rewrite app_assoc. eapply run_step; [eapply run_step; [apply run_start|]|].
    + apply step_seal with (σ' := demo_sealed.2). rewrite <- Ht. apply surjective_pairing.
    + apply step_others. intros l Hl. apply lookup_insert_ne. intros <-. exact (demo_not_owned Hl).
  - destruct (H (lit "card") (lit "row:1") text) as [σ' Ho]; [apply list_elem_of_here|exact (proj1 (Z.ltb_lt _ _) Hrun)|].
    exists σ'. split; [exact eq_refl|exact Ho].
Defined.

Lemma StaticKMS_value_witness :
  (Seal static (lit "kek-1") (lit "card") (lit "row:1") demo_static).1 =
  (Kms.Seal (Kms.NewEnvelopeSealer (Kms.static (view demo_static)) (lit "kek-1")) (lit "card") (lit "row:1") demo_world).1.
Proof.
  destruct (StaticKMS_value (lit "kek-1") demo_static demo_static_wf) as [H _].
  specialize (H (lit "card") (lit "row:1")). change (env demo_static) with demo_world in H.
  destruct (Kms.Seal _ (lit "card") (lit "row:1") demo_world) as [o w].
  destruct (Seal static (lit "kek-1") (lit "card") (lit "row:1") demo_static) as [o' σ']. exact (proj1 H).
Defined.

(** Opening a text twice through a cache of data keys: the second time it looks tampered with. *)
Definition demo_cache : state (option (bytes * address)) :=
  State None ∅ {| w_rand := {| rd_data := [replicate 100 xa7]; rd_err := EOF |}; w_now := 0 |}.

Example cached_Decrypt_run :
  let text := match (Seal caching [] (lit "first") [] demo_cache).1 with Ok t => t | _ => [] end in
  let '(o1, σ1) := Open caching [] text [] demo_cache in
  o1 = Ok (lit "first") /\ (Open caching [] text [] σ1).1 = Err (Wrapf "%w: %v" ErrTampered).
Proof. vm_compute. split; reflexivity. Qed.

(** The second text of an adapter that keeps its data key opens under the zero key. *)
Lemma kept_data_key_witness :
  let σ2 := (Seal caching [] (lit "first") [] demo_cache).2 in
  exists text raw σ4, Seal caching [] (lit "second") [] σ2 = (Ok text, σ4) /\
    Aead.Open (replicate 32 x00) (EncodeToString RawURLEncoding raw) [] = Ok (lit "second").
Proof.
  destruct (GenerateDataKey caching [] demo_cache) as [o1 σ1] eqn:Hg.
  destruct (Seal caching [] (lit "first") [] demo_cache) as [o2 σ2] eqn:Hs. cbv zeta. cbn [snd].
  assert (Ho : is_ok o1 = true /\ is_ok o2 = true /\ (GenerateDataKey caching [] σ2).1 = o1 /\
    (GenerateDataKey caching [] σ2).2 = σ2 /\ has_random 12 (env σ2)).
  { replace o1 with (GenerateDataKey caching [] demo_cache).1 by (by rewrite Hg).
    replace o2 with (Seal caching [] (lit "first") [] demo_cache).1 by (by rewrite Hs).
    replace σ2 with (Seal caching [] (lit "first") [] demo_cache).2 by (by rewrite Hs).
    vm_compute. repeat split; discriminate. }
  destruct Ho as (H1 & H2 & H3 & H4 & Hr). destruct o1 as [[l wrapped]|e|m]; [|discriminate H1..].
  destruct o2 as [text|e|m]; [|discriminate H2..].
  destruct (kept_data_key caching [] demo_cache) as [H _].
  destruct (H l wrapped σ1 (lit "first") [] text σ2 Hg Hs wrapped σ2) with (p' := lit "second") (aad' := @nil byte)
    as (text' & raw & σ4 & Hs' & _ & Ho'); [|exact eq_refl|vm_compute; discriminate|exact Hr|exists text', raw, σ4; exact (conj Hs' Ho')].
  rewrite (surjective_pairing (GenerateDataKey caching [] σ2)), H3, H4. exact eq_refl.
Defined.

End Buffers.
