(* ===== verification/SharedKms.v ===== *)
(** * StaticKMS shared by goroutines: the mutex of [kms.go]

    [StaticKMS] guards its map with a [sync.RWMutex]. The goroutines that call it are a step
    relation at the granularity of the source's statements: asking for the lock, acquiring it, the
    one access to the map, releasing it, and after [lookup] each read of the random source. The
    specification is the same relation with [Kms.AddKey] and [Kms.lookup] as single steps. *)

From S2P Require Import Prelude Errors GoIO Cipher Format Random Aead Kms.
Import Kms.

(** ** Calls *)

(** The methods that start with [lookup], the calls, and what they return. *)
Inductive query :=
  | AskGenerateDataKey (keyID : bytes)
  | AskDecrypt (keyID wrapped : bytes)
  | AskEncrypt (keyID plaintext : bytes).
Inductive call := CallAddKey (keyID key : bytes) | Call (q : query).
Inductive answer :=
  | Added (o : outcome unit)
  | Generated (o : outcome (bytes * bytes))
  | Returned (o : outcome bytes).

Definition query_id (q : query) : bytes :=
  match q with AskGenerateDataKey id => id | AskDecrypt id _ => id | AskEncrypt id _ => id end.

(** What a method returns when [lookup] or the random source fails. *)
Definition failed (q : query) (err : error) : answer :=
  match q with AskGenerateDataKey _ => Generated (Err err) | _ => Returned (Err err) end.

(** The rest of a method once [lookup] returned [kek]: it returns, or [GenerateDataKey] has its
    data key and still has to wrap it. *)
Definition after_lookup (q : query) (kek : bytes) (w : world) : (bytes + answer) * world :=
  match q with
  | AskGenerateDataKey _ =>
      match RandomBytes AEADKeySize w with
      | (Ok dek, w') => (inl dek, w')
      | (Err err, w') => (inr (Generated (Err err)), w')
      | (Panic p, w') => (inr (Generated (Panic p)), w')
      end
  | AskDecrypt _ wrapped => (inr (Returned (Aead.Open kek wrapped [])), w)
  | AskEncrypt _ plaintext => let '(o, w') := Aead.Seal kek plaintext [] w in (inr (Returned o), w')
  end.

Definition wrap_dek (kek dek : bytes) (w : world) : answer * world :=
  match Aead.Seal kek dek [] w with
  | (Ok wrapped, w') => (Generated (Ok (dek, wrapped)), w')
  | (Err err, w') => (Generated (Err err), w')
  | (Panic p, w') => (Generated (Panic p), w')
  end.

(** ** Goroutines *)

(** Where a goroutine stands in its current call. In [Writing] and [Written] it holds the lock for
    writing, in [Reading] and [Found] for reading. *)
Inductive phase :=
  | Ready
  | Waiting (keyID key : bytes)
  | Writing (keyID key : bytes)
  | Written (keyID key : bytes)
  | Reading (q : query)
  | Found (q : query) (o : outcome bytes)
  | Got (q : query) (o : outcome bytes)
  | GotDek (q : query) (kek dek : bytes).

(** The calls it still has to start, where it stands, and the finished calls with their answers. *)
Record goroutine := { todo : list call; at_ : phase; history : list (call * answer) }.

Definition returns (g : goroutine) (c : call) (a : answer) : goroutine :=
  {| todo := todo g; at_ := Ready; history := history g ++ [(c, a)] |}.
Definition moves (g : goroutine) (p : phase) : goroutine :=
  {| todo := todo g; at_ := p; history := history g |}.
Definition starts (rest : list call) (g : goroutine) : goroutine :=
  {| todo := rest; at_ := Ready; history := history g |}.

(** A panic stops the program: there is no step past it. *)
Definition answer_panics (a : answer) : bool :=
  match a with Added o => panics o | Generated o => panics o | Returned o => panics o end.

(** The steps of a goroutine on its own. *)
Inductive local : goroutine -> world -> goroutine -> world -> Prop :=
  | local_failed g w q err : at_ g = Got q (Err err) -> local g w (returns g (Call q) (failed q err)) w
  | local_returns g w q kek a w' :
      at_ g = Got q (Ok kek) -> after_lookup q kek w = (inr a, w') -> answer_panics a = false ->
      local g w (returns g (Call q) a) w'
  | local_dek g w q kek dek w' :
      at_ g = Got q (Ok kek) -> after_lookup q kek w = (inl dek, w') -> local g w (moves g (GotDek q kek dek)) w'
  | local_wrap g w q kek dek a w' :
      at_ g = GotDek q kek dek -> wrap_dek kek dek w = (a, w') -> answer_panics a = false ->
      local g w (returns g (Call q) a) w'.

Definition local_step (c c' : goroutine * world) : Prop := local c.1 c.2 c'.1 c'.2.

(** ** The lock and the program *)

(** [sync.RWMutex]: the writer that holds it, the writers that wait, and the readers that hold it. *)
Record RWMutex := { writer : bool; waiting : nat; readers : nat }.
Definition unlocked : RWMutex := {| writer := false; waiting := 0; readers := 0 |}.

Record config := { gs : list goroutine; mu : RWMutex; kms_keks : gmap bytes bytes; env : world }.

(** Whether a reader gets in before a writer that waits is left to [sync]: [barge] decides. *)
Section step.
Context (barge : config -> bool).

Inductive step : config -> config -> Prop :=
  | step_add_refused c i g id key rest e s :
      gs c !! i = Some g -> at_ g = Ready -> todo g = CallAddKey id key :: rest ->
      len key <> AEADKeySize -> AddKey {| keks := kms_keks c |} id key = (Err e, s) ->
      step c {| gs := <[i := returns (starts rest g) (CallAddKey id key) (Added (Err e))]> (gs c);
                mu := mu c; kms_keks := kms_keks c; env := env c |}
  | step_Lock c i g id key rest :
      gs c !! i = Some g -> at_ g = Ready -> todo g = CallAddKey id key :: rest -> len key = AEADKeySize ->
      step c {| gs := <[i := moves (starts rest g) (Waiting id key)]> (gs c);
                mu := {| writer := writer (mu c); waiting := S (waiting (mu c)); readers := readers (mu c) |};
                kms_keks := kms_keks c; env := env c |}
  | step_acquire c i g id key n :
      gs c !! i = Some g -> at_ g = Waiting id key -> mu c = {| writer := false; waiting := S n; readers := 0 |} ->
      step c {| gs := <[i := moves g (Writing id key)]> (gs c);
                mu := {| writer := true; waiting := n; readers := 0 |}; kms_keks := kms_keks c; env := env c |}
  | step_write c i g id key :
      gs c !! i = Some g -> at_ g = Writing id key ->
      step c {| gs := <[i := moves g (Written id key)]> (gs c); mu := mu c;
                kms_keks := <[id := key]> (kms_keks c); env := env c |}
  | step_Unlock c i g id key :
      gs c !! i = Some g -> at_ g = Written id key ->
      step c {| gs := <[i := returns g (CallAddKey id key) (Added (Ok tt))]> (gs c);
                mu := {| writer := false; waiting := waiting (mu c); readers := readers (mu c) |};
                kms_keks := kms_keks c; env := env c |}
  | step_RLock c i g q rest n m :
      gs c !! i = Some g -> at_ g = Ready -> todo g = Call q :: rest ->
      mu c = {| writer := false; waiting := m; readers := n |} -> m = 0%nat \/ barge c = true ->
      step c {| gs := <[i := moves (starts rest g) (Reading q)]> (gs c);
                mu := {| writer := false; waiting := m; readers := S n |}; kms_keks := kms_keks c; env := env c |}
  | step_read c i g q :
      gs c !! i = Some g -> at_ g = Reading q ->
      step c {| gs := <[i := moves g (Found q (Kms.lookup {| keks := kms_keks c |} (query_id q)))]> (gs c);
                mu := mu c; kms_keks := kms_keks c; env := env c |}
  | step_RUnlock c i g q o :
      gs c !! i = Some g -> at_ g = Found q o ->
      step c {| gs := <[i := moves g (Got q o)]> (gs c);
                mu := {| writer := writer (mu c); waiting := waiting (mu c); readers := pred (readers (mu c)) |};
                kms_keks := kms_keks c; env := env c |}
  | step_local c i g g' w' :
      gs c !! i = Some g -> local g (env c) g' w' ->
      step c {| gs := <[i := g']> (gs c); mu := mu c; kms_keks := kms_keks c; env := w' |}.
End step.

(** The program: one goroutine per list of calls. *)
Definition spawn (ps : list (list call)) (s : StaticKMS) (w : world) : config :=
  {| gs := (fun p => {| todo := p; at_ := Ready; history := [] |}) <$> ps; mu := unlocked; kms_keks := keks s; env := w |}.

Definition idle (g : goroutine) : Prop := todo g = [] /\ at_ g = Ready.
Definition finished (c : config) : Prop := Forall idle (gs c).

(** The step of goroutine [i], as a function: none when it has to wait, is done, or panics. No reader gets in before a
    waiting writer. *)
Definition exec (c : config) (i : nat) : option config :=
  g ← gs c !! i;
  let next g' mu' keks' env' := Some {| gs := <[i := g']> (gs c); mu := mu'; kms_keks := keks'; env := env' |} in
  match at_ g with
  | Ready =>
      match todo g with
      | [] => None
      | CallAddKey id key :: rest =>
          match AddKey {| keks := kms_keks c |} id key with
          | (Ok _, _) =>
              next (moves (starts rest g) (Waiting id key))
                {| writer := writer (mu c); waiting := S (waiting (mu c)); readers := readers (mu c) |} (kms_keks c) (env c)
          | (o, _) => next (returns (starts rest g) (CallAddKey id key) (Added o)) (mu c) (kms_keks c) (env c)
          end
      | Call q :: rest =>
          match mu c with
          | {| writer := false; waiting := 0; readers := n |} =>
              next (moves (starts rest g) (Reading q)) {| writer := false; waiting := 0; readers := S n |} (kms_keks c) (env c)
          | _ => None
          end
      end
  | Waiting id key =>
      match mu c with
      | {| writer := false; waiting := S n; readers := 0 |} =>
          next (moves g (Writing id key)) {| writer := true; waiting := n; readers := 0 |} (kms_keks c) (env c)
      | _ => None
      end
  | Writing id key => next (moves g (Written id key)) (mu c) (<[id := key]> (kms_keks c)) (env c)
  | Written id key =>
      next (returns g (CallAddKey id key) (Added (Ok tt)))
        {| writer := false; waiting := waiting (mu c); readers := readers (mu c) |} (kms_keks c) (env c)
  | Reading q => next (moves g (Found q (Kms.lookup {| keks := kms_keks c |} (query_id q)))) (mu c) (kms_keks c) (env c)
  | Found q o =>
      next (moves g (Got q o)) {| writer := writer (mu c); waiting := waiting (mu c); readers := pred (readers (mu c)) |} (kms_keks c) (env c)
  | Got q (Ok kek) =>
      match after_lookup q kek (env c) with
      | (inl dek, w') => next (moves g (GotDek q kek dek)) (mu c) (kms_keks c) w'
      | (inr a, w') => if answer_panics a then None else next (returns g (Call q) a) (mu c) (kms_keks c) w'
      end
  | Got q (Err err) => next (returns g (Call q) (failed q err)) (mu c) (kms_keks c) (env c)
  | Got q (Panic _) => None
  | GotDek q kek dek =>
      let '(a, w') := wrap_dek kek dek (env c) in
      if answer_panics a then None else next (returns g (Call q) a) (mu c) (kms_keks c) w'
  end.

(** A whole run, given by the goroutine that moves at each step. *)
Fixpoint schedule (is_ : list nat) (c : config) : option config :=
  match is_ with [] => Some c | i :: is' => c' ← exec c i; schedule is' c' end.

(** ** The specification: each call on the map is one step *)

Record aconfig := { a_gs : list goroutine; a_kms : StaticKMS; a_env : world }.

Inductive atomic : aconfig -> aconfig -> Prop :=
  | atomic_AddKey c i g id key rest o s' :
      a_gs c !! i = Some g -> at_ g = Ready -> todo g = CallAddKey id key :: rest -> AddKey (a_kms c) id key = (o, s') ->
      atomic c {| a_gs := <[i := returns (starts rest g) (CallAddKey id key) (Added o)]> (a_gs c); a_kms := s'; a_env := a_env c |}
  | atomic_lookup c i g q rest :
      a_gs c !! i = Some g -> at_ g = Ready -> todo g = Call q :: rest ->
      atomic c {| a_gs := <[i := moves (starts rest g) (Got q (Kms.lookup (a_kms c) (query_id q)))]> (a_gs c);
                  a_kms := a_kms c; a_env := a_env c |}
  | atomic_local c i g g' w' :
      a_gs c !! i = Some g -> local g (a_env c) g' w' ->
      atomic c {| a_gs := <[i := g']> (a_gs c); a_kms := a_kms c; a_env := w' |}.

(** What a goroutine looks like to the specification: a call takes effect at its access to the map. *)
Definition seen (g : goroutine) : goroutine :=
  match at_ g with
  | Waiting id key | Writing id key => {| todo := CallAddKey id key :: todo g; at_ := Ready; history := history g |}
  | Written id key => returns g (CallAddKey id key) (Added (Ok tt))
  | Reading q => {| todo := Call q :: todo g; at_ := Ready; history := history g |}
  | Found q o => moves g (Got q o)
  | _ => g
  end.
Definition seen_config (c : config) : aconfig :=
  {| a_gs := seen <$> gs c; a_kms := {| keks := kms_keks c |}; a_env := env c |}.

(** ** The methods as functions *)

(** A method of [Kms] on its own. *)
Definition method (s : StaticKMS) (q : query) (w : world) : answer * world :=
  match q with
  | AskGenerateDataKey id => let '(o, w') := static_GenerateDataKey s id w in (Generated o, w')
  | AskDecrypt id wrapped => let '(o, w') := static_Decrypt s id wrapped w in (Returned o, w')
  | AskEncrypt id plaintext => let '(o, w') := static_Encrypt s id plaintext w in (Returned o, w')
  end.

(** What follows [lookup] in the relation is what follows it in the method. *)
Lemma local_runs_method s q w g :
  answer_panics (method s q w).1 = false ->
  rtc local_step (moves g (Got q (Kms.lookup s (query_id q))), w)
    (returns g (Call q) (method s q w).1, (method s q w).2).
Proof.
  intros Hp. destruct (Kms.lookup s (query_id q)) as [kek|e|p] eqn:Hl.
  - assert (Hret : forall a w', after_lookup q kek w = (inr a, w') -> method s q w = (a, w') ->
      rtc local_step (moves g (Got q (Ok kek)), w) (returns g (Call q) (method s q w).1, (method s q w).2)).
    { intros a w' Ha Hm. rewrite Hm in *. apply rtc_once. exact (local_returns (moves g _) w q kek a w' eq_refl Ha Hp). }
    destruct q as [id|id wr|id pt]; cbn [method query_id after_lookup] in *;
      unfold static_GenerateDataKey, static_Decrypt, static_Encrypt in *; rewrite Hl in *.
    + unfold mbind, M_bind, lift in *. destruct (RandomBytes AEADKeySize w) as [[dek|e|p] w1] eqn:Hr;
        [|eapply Hret; rewrite ?Hr; reflexivity..].
      apply (rtc_l _ _ (moves g (GotDek (AskGenerateDataKey id) kek dek), w1));
        [apply (local_dek (moves g _) w _ kek dek w1 eq_refl); cbn [after_lookup]; by rewrite Hr|].
      apply rtc_once. apply (local_wrap (moves g _) w1 _ kek dek _ _ eq_refl).
      * unfold wrap_dek, mret, M_ret. by destruct (Aead.Seal kek dek [] w1) as [[wr|e|p] w2].
      * by destruct (Aead.Seal kek dek [] w1) as [[wr|e|p] w2].
    + eapply Hret; reflexivity.
    + unfold mbind, M_bind, lift, mret, M_ret in *.
      destruct (Aead.Seal kek pt [] w) as [[c|e|p] w1]; eapply Hret; reflexivity.
  - assert (method s q w = (failed q e, w)) as ->.
    { destruct q; cbn [method query_id] in *; unfold static_GenerateDataKey, static_Decrypt, static_Encrypt, mbind, M_bind, lift; by rewrite Hl. }
    apply rtc_once. by eapply (local_failed (moves g _)).
  - unfold Kms.lookup in Hl. by destruct (keks s !! query_id q).
Qed.

(** ** The relation as a function *)

Lemma exec_step c i c' : exec c i = Some c' -> step (fun _ => false) c c'.
Proof.
  unfold exec. destruct (gs c !! i) as [g|] eqn:Hi; [|done]. cbn [mbind option_bind].
  destruct (at_ g) as [|id key|id key|id key|q|q o|q o|q kek dek] eqn:Ha.
  - destruct (todo g) as [|[id key|q] rest] eqn:Ht; [done|..].
    + destruct (AddKey_cases {| keks := kms_keks c |} id key) as [(Hl & _ & f & Hadd)|[Hl Hadd]].
      * destruct (AddKey _ id key) as [o s] eqn:E. cbn in Hadd. subst o. intros [= <-]. by eapply step_add_refused.
      * rewrite Hadd. intros [= <-]. by eapply step_Lock.
    + destruct (mu c) as [[] [|m] n] eqn:Hmu; try done. intros [= <-]. by eapply step_RLock; [..|left].
  - destruct (mu c) as [[] [|m] [|n]] eqn:Hmu; try done. intros [= <-]. by eapply step_acquire.
  - intros [= <-]. by eapply step_write.
  - intros [= <-]. by eapply step_Unlock.
  - intros [= <-]. by eapply step_read.
  - intros [= <-]. by eapply step_RUnlock.
  - destruct o as [kek|e|m]; [|intros [= <-]; by eapply step_local, local_failed|done].
    destruct (after_lookup q kek (env c)) as [[dek|a] w'] eqn:Hl.
    + intros [= <-]. by eapply step_local, local_dek.
    + destruct (answer_panics a) eqn:Hp; [done|]. intros [= <-]. by eapply step_local, local_returns.
  - destruct (wrap_dek kek dek (env c)) as [a w'] eqn:Hw. destruct (answer_panics a) eqn:Hp; [done|].
    intros [= <-]. by eapply step_local, local_wrap.
Qed.

Lemma step_exec c c' : step (fun _ => false) c c' -> exists i, exec c i = Some c'.
Proof.
  destruct 1 as [c i g id key rest e s Hi Ha Ht Hlen Hadd|c i g id key rest Hi Ha Ht Hlen|c i g id key n Hi Ha Hmu|c i g id key Hi Ha
    |c i g id key Hi Ha|c i g q rest n m Hi Ha Ht Hmu Hb|c i g q Hi Ha|c i g q o Hi Ha|c i g g' w' Hi Hl];
    exists i; unfold exec; rewrite Hi; cbn [mbind option_bind]; rewrite ?Ha, ?Ht, ?Hmu; try done.
  - by rewrite Hadd.
  - destruct (AddKey_cases {| keks := kms_keks c |} id key) as [[? _]|[_ ->]]; done.
  - by destruct Hb as [->|].
  - destruct Hl as [g w q e H|g w q k a w' H Hr Hp|g w q k d w' H Hd|g w q k d a w' H Hr Hp]; rewrite H; [done|..].
    + by rewrite Hr, Hp.
    + by rewrite Hd.
    + by rewrite Hr, Hp.
Qed.

Lemma schedule_steps is_ c c' : schedule is_ c = Some c' -> nsteps (step (fun _ => false)) (length is_) c c'.
Proof.
  revert c. induction is_ as [|i is' IH]; intros c; cbn [schedule length]; [intros [= ->]; constructor|].
  destruct (exec c i) as [c1|] eqn:Hi; [|done]. cbn [mbind option_bind]. intros H. econstructor; [by eapply exec_step|by apply IH].
Qed.

(** ** Invariant *)

(** Who waits for the lock, who holds it for writing and who for reading. *)
Definition waits (g : goroutine) : nat := match at_ g with Waiting _ _ => 1 | _ => 0 end.
Definition writes (g : goroutine) : nat := match at_ g with Writing _ _ | Written _ _ => 1 | _ => 0 end.
Definition reads (g : goroutine) : nat := match at_ g with Reading _ | Found _ _ => 1 | _ => 0 end.

(** A key on its way to the map passed the length check. *)
Definition keyed (g : goroutine) : Prop :=
  match at_ g with Waiting _ key | Writing _ key => len key = AEADKeySize | _ => True end.

(** The lock counts its holders, and a writer is alone. *)
Record good (c : config) : Prop := {
  good_waiting : waiting (mu c) = sum_list_with waits (gs c);
  good_writer : (if writer (mu c) then 1 else 0)%nat = sum_list_with writes (gs c);
  good_readers : readers (mu c) = sum_list_with reads (gs c);
  good_exclusive : writer (mu c) = true -> readers (mu c) = 0%nat;
  good_keyed : Forall keyed (gs c)
}.

Lemma sum_map_0 {A B} (f : B -> nat) (h : A -> B) l : (forall a, f (h a) = 0%nat) -> sum_list_with f (h <$> l) = 0%nat.
Proof. intros Hf. induction l as [|a l IH]; [done|]. cbn [fmap list_fmap sum_list_with]. by rewrite Hf, IH. Qed.

Lemma lock_spawn ps s w : good (spawn ps s w).
Proof.
  split; cbn [spawn mu gs unlocked waiting writer readers]; [by rewrite sum_map_0..|done|].
  apply Forall_fmap, Forall_forall. done.
Qed.

Lemma local_free g w g' w' :
  local g w g' w' -> waits g = 0%nat /\ writes g = 0%nat /\ reads g = 0%nat /\ waits g' = 0%nat /\ writes g' = 0%nat /\ reads g' = 0%nat /\ keyed g'.
Proof. unfold waits, writes, reads, keyed. by destruct 1 as [g w q e H|g w q k a w' H|g w q k d w' H|g w q k d a w' H]; rewrite H. Qed.

(** Every step keeps the invariant. *)
Lemma lock_step barge c c' : good c -> step barge c c' -> good c'.
Proof.
  intros [Hq Hw Hr He Hk] Hs.
  destruct Hs as [c i g id key rest e s Hi Ha Ht Hlen Hadd|c i g id key rest Hi Ha Ht Hlen|c i g id key n Hi Ha Hmu|c i g id key Hi Ha
    |c i g id key Hi Ha|c i g q rest n m Hi Ha Ht Hmu Hb|c i g q Hi Ha|c i g q o Hi Ha|c i g g' w' Hi Hl];
    try match goal with H : local _ _ _ _ |- _ => destruct (local_free _ _ _ _ H) as (? & ? & ? & ? & ? & ? & ?) end;
    match goal with |- good {| gs := <[_ := ?g1]> _; mu := _; kms_keks := _; env := _ |} =>
      pose proof (sum_insert _ _ _ g1 Hi waits) as Iq; pose proof (sum_insert _ _ _ g1 Hi writes) as Iw;
      pose proof (sum_insert _ _ _ g1 Hi reads) as Ir; pose proof (Forall_lookup_1 _ _ _ _ Hk Hi) as Hkg
    end;
    try (unfold waits at 2 4 in Iq; unfold writes at 2 4 in Iw; unfold reads at 2 4 in Ir; unfold keyed in Hkg; rewrite Ha in *);
    try rewrite Hmu in *; cbn [at_ moves returns starts waiting writer readers] in *;
    (split; cbn [gs mu waiting writer readers]; [lia|destruct (writer (mu c)); lia|lia|intros; destruct (writer (mu c)); try discriminate; try specialize (He eq_refl); lia|by apply Forall_insert]).
Qed.

Lemma lock_reach barge c c' : good c -> rtc (step barge) c c' -> good c'.
Proof. intros Hg. induction 1 as [c|c c1 c' Hs _ IH]; [done|]. by apply IH, (lock_step barge c). Qed.

(** ** The lock keeps the accesses apart *)

(** Two goroutines are about to access the map, one of them to write. *)
Definition race (c : config) : Prop :=
  exists i j g h id key, i <> j /\ gs c !! i = Some g /\ gs c !! j = Some h /\ at_ g = Writing id key /\
    ((exists id' key', at_ h = Writing id' key') \/ exists q, at_ h = Reading q).

Lemma good_no_race c : good c -> ~ race c.
Proof.
  intros [_ Hw Hr He _] (i & j & g & h & id & key & Hne & Hi & Hj & Hg & Hh).
  assert (Hwg : writes g = 1%nat) by (unfold writes; by rewrite Hg).
  pose proof (sum_lookup writes _ _ _ Hi). destruct (writer (mu c)); [|lia]. specialize (He eq_refl).
  destruct Hh as [(id' & key' & Hh)|[q Hh]].
  - assert (writes h = 1%nat) by (unfold writes; by rewrite Hh). pose proof (sum_lookup_two writes _ _ _ _ _ Hne Hi Hj). lia.
  - assert (reads h = 1%nat) by (unfold reads; by rewrite Hh). pose proof (sum_lookup reads _ _ _ Hj). lia.
Qed.

(** ** Refinement *)

Lemma seen_ready g : at_ g = Ready -> seen g = g.
Proof. unfold seen. by intros ->. Qed.

Lemma seen_local g w g' w' : local g w g' w' -> seen g = g /\ seen g' = g'.
Proof. unfold seen. by destruct 1 as [g w q e H|g w q k a w' H|g w q k d w' H|g w q k d a w' H]; rewrite H. Qed.

Lemma starts_Ready g rest x : at_ g = Ready -> todo g = x :: rest -> {| todo := x :: rest; at_ := Ready; history := history g |} = g.
Proof. destruct g; cbn. by intros -> ->. Qed.

(** A step of the program is a step of the specification, or invisible to it. *)
Lemma step_seen barge c c' :
  good c -> step barge c c' -> seen_config c' = seen_config c \/ atomic (seen_config c) (seen_config c').
Proof.
  intros Hg Hs. unfold seen_config.
  assert (Hstay : forall i g g' k w, gs c !! i = Some g -> seen g' = seen g ->
    {| a_gs := seen <$> <[i := g']> (gs c); a_kms := {| keks := k |}; a_env := w |} =
    {| a_gs := seen <$> gs c; a_kms := {| keks := k |}; a_env := w |}).
  { intros i g g' k w Hi He. f_equal. rewrite list_fmap_insert, He. apply list_insert_id. by rewrite list_lookup_fmap, Hi. }
  assert (Hseen : forall i g, gs c !! i = Some g -> (seen <$> gs c) !! i = Some (seen g)) by (intros i g Hi; by rewrite list_lookup_fmap, Hi).
  destruct Hs as [c i g id key rest e s Hi Ha Ht Hlen Hadd|c i g id key rest Hi Ha Ht Hlen|c i g id key n Hi Ha Hmu|c i g id key Hi Ha
    |c i g id key Hi Ha|c i g q rest n m Hi Ha Ht Hmu Hb|c i g q Hi Ha|c i g q o Hi Ha|c i g g' w' Hi Hl];
    cbn [gs kms_keks env].
  - right. rewrite list_fmap_insert, seen_ready by done.
    destruct (AddKey_cases {| keks := kms_keks c |} id key) as [(_ & Hs & _)|[? _]]; [|done]. rewrite Hadd in Hs. cbn in Hs. subst s.
    pose proof (Hseen i g Hi) as Hi'. rewrite seen_ready in Hi' by done.
    exact (atomic_AddKey {| a_gs := seen <$> gs c; a_kms := _; a_env := env c |} i g id key rest _ _ Hi' Ha Ht Hadd).
  - left. apply (Hstay i g); [done|]. rewrite (seen_ready g) by done. exact (starts_Ready g rest _ Ha Ht).
  - left. apply (Hstay i g); [done|]. unfold seen. by rewrite Ha.
  - right. pose proof (Hseen i g Hi) as Hi'. pose proof (Forall_lookup_1 _ _ _ _ (good_keyed _ Hg) Hi) as Hkey.
    unfold keyed in Hkey. unfold seen in Hi'. rewrite Ha in Hi', Hkey. rewrite list_fmap_insert.
    destruct (AddKey_cases {| keks := kms_keks c |} id key) as [[? _]|[_ Hadd]]; [done|].
    exact (atomic_AddKey {| a_gs := seen <$> gs c; a_kms := _; a_env := env c |} i _ id key _ _ _ Hi' eq_refl eq_refl Hadd).
  - left. apply (Hstay i g); [done|]. unfold seen. by rewrite Ha.
  - left. apply (Hstay i g); [done|]. rewrite (seen_ready g) by done. exact (starts_Ready g rest _ Ha Ht).
  - right. pose proof (Hseen i g Hi) as Hi'. unfold seen in Hi'. rewrite Ha in Hi'. rewrite list_fmap_insert.
    exact (atomic_lookup {| a_gs := seen <$> gs c; a_kms := _; a_env := env c |} i _ q _ Hi' eq_refl eq_refl).
  - left. apply (Hstay i g); [done|]. unfold seen. by rewrite Ha.
  - right. destruct (seen_local _ _ _ _ Hl) as [He He']. rewrite list_fmap_insert, He'.
    pose proof (Hseen i g Hi) as Hi'. rewrite He in Hi'.
    exact (atomic_local {| a_gs := seen <$> gs c; a_kms := _; a_env := env c |} i g g' w' Hi' Hl).
Qed.

Lemma steps_seen barge c c' : good c -> rtc (step barge) c c' -> rtc atomic (seen_config c) (seen_config c').
Proof.
  intros Hg. induction 1 as [c|c c1 c' Hs _ IH]; [done|]. specialize (IH (lock_step barge _ _ Hg Hs)).
  destruct (step_seen barge _ _ Hg Hs) as [<-|Ha]; [done|by eapply rtc_l].
Qed.

(** ** Progress *)

(** Plaintexts within GCM's limit, and data keys of the right size: nothing panics. *)
Definition call_ok (c : call) : Prop := match c with Call (AskEncrypt _ p) => len p <= gcm_max | _ => True end.
Definition phase_ok (p : phase) : Prop :=
  match p with
  | Reading q => call_ok (Call q)
  | Found q o | Got q o => call_ok (Call q) /\ panics o = false
  | GotDek q kek dek => len dek = 32
  | _ => True
  end.
Definition fits (g : goroutine) : Prop := Forall call_ok (todo g) /\ phase_ok (at_ g).

(** The calls of a goroutine: finished, current and to come. *)
Definition current (p : phase) : list call :=
  match p with
  | Ready => []
  | Waiting id key | Writing id key | Written id key => [CallAddKey id key]
  | Reading q | Found q _ | Got q _ | GotDek q _ _ => [Call q]
  end.
Definition calls (g : goroutine) : list call := map fst (history g) ++ current (at_ g) ++ todo g.

(** The steps left, at most. *)
Definition weight (p : phase) : nat :=
  match p with
  | Ready => 0 | Waiting _ _ => 3 | Writing _ _ => 2 | Written _ _ => 1
  | Reading _ => 4 | Found _ _ => 3 | Got _ _ => 2 | GotDek _ _ _ => 1
  end.
Definition work (g : goroutine) : nat := 5 * length (todo g) + weight (at_ g).

Lemma after_lookup_dek q kek w dek w' : after_lookup q kek w = (inl dek, w') -> len dek = 32.
Proof.
  unfold after_lookup. destruct q as [id|id wr|id p]; [|discriminate|by destruct (Aead.Seal kek p [] w)].
  destruct (RandomBytes AEADKeySize w) as [[d|e|m] w1] eqn:Hr; intros [= <- <-].
  apply RandomBytes_inv in Hr as (_ & -> & Hr & _). by apply len_next_random.
Qed.

Lemma local_keeps g w g' w' :
  local g w g' w' -> fits g -> fits g' /\ calls g' = calls g /\ (work g' < work g)%nat.
Proof.
  unfold fits, calls, work. intros Hl [Ht Hp].
  destruct Hl as [g w q e H|g w q k a w' H _ _|g w q k d w' H Hd|g w q k d a w' H _ _]; rewrite H; cbn [todo at_ history returns moves weight current];
    rewrite ?map_app; (split; [split; [done|]|split; [|lia]]); try done; try (by rewrite <- app_assoc).
  by eapply after_lookup_dek.
Qed.

(** A goroutine past its [lookup] can go on. *)
Lemma local_exists g w :
  fits g -> (exists q o, at_ g = Got q o) \/ (exists q kek dek, at_ g = GotDek q kek dek) -> exists g' w', local g w g' w'.
Proof.
  intros [_ Hp] [(q & o & H)|(q & kek & dek & H)]; rewrite H in Hp.
  - destruct Hp as [Hq Ho]. destruct o as [kek|e|m]; [|do 2 eexists; by apply local_failed|done].
    destruct (after_lookup q kek w) as [[dek|a] w'] eqn:Ha; [do 2 eexists; by eapply local_dek|].
    do 2 eexists. eapply local_returns; [done..|]. revert Ha. destruct q as [id|id wr|id p]; cbn [after_lookup].
    + pose proof (RandomBytes_no_panic AEADKeySize w) as Hn.
      destruct (RandomBytes AEADKeySize w) as [[d|e|m] w1]; by intros [= <- <-].
    + intros [= <- <-]. apply Aead.Open_no_panic.
    + pose proof (Aead.Seal_no_panic kek p [] w Hq) as Hn. destruct (Aead.Seal kek p [] w) as [o w1]. by intros [= <- <-].
  - cbn [phase_ok] in Hp. destruct (wrap_dek kek dek w) as [a w'] eqn:Ha. do 2 eexists. eapply local_wrap; [done..|].
    revert Ha. unfold wrap_dek. assert (Hd : len dek <= gcm_max) by (rewrite Hp; done).
    pose proof (Aead.Seal_no_panic kek dek [] w Hd) as Hn.
    destruct (Aead.Seal kek dek [] w) as [[c|e|m] w1]; by intros [= <- <-].
Qed.

(** A step moves one goroutine, closer to its end and through the same calls. *)
Lemma step_goroutine barge c c' :
  step barge c c' -> exists i g g', gs c !! i = Some g /\ gs c' = <[i := g']> (gs c) /\
    (fits g -> fits g' /\ calls g' = calls g /\ (work g' < work g)%nat).
Proof.
  destruct 1 as [c i g id key rest e s Hi Ha Ht Hlen Hadd|c i g id key rest Hi Ha Ht Hlen|c i g id key n Hi Ha Hmu|c i g id key Hi Ha
    |c i g id key Hi Ha|c i g q rest n m Hi Ha Ht Hmu Hb|c i g q Hi Ha|c i g q o Hi Ha|c i g g' w' Hi Hl]; cbn [gs];
    eexists i, g, _; (split; [exact Hi|]); (split; [reflexivity|]); [..|by intros Hf; eapply local_keeps].
  all: unfold fits, calls, work; rewrite Ha; cbn [todo at_ history returns moves starts weight current phase_ok length];
    rewrite ?Ht, ?map_app; cbn [length]; intros [Hc Hp]; try (apply Forall_cons in Hc as [Hc1 Hc]);
    (split; [split; [done|]|split; [|lia]]); try done; try (by rewrite <- app_assoc).
  split; [done|]. unfold Kms.lookup. cbn [keks]. by destruct (kms_keks c !! query_id q).
Qed.

Definition total_work (c : config) : nat := sum_list_with work (gs c).

Lemma steps_keep barge k c c' :
  nsteps (step barge) k c c' -> Forall fits (gs c) ->
  Forall fits (gs c') /\ calls <$> gs c' = calls <$> gs c /\ (k + total_work c' <= total_work c)%nat.
Proof.
  induction 1 as [c|k c c1 c' Hs _ IH]; intros Hf; [split; [done|split; [done|lia]]|].
  destruct (step_goroutine _ _ _ Hs) as (i & g & g' & Hi & Hgs & Hstep).
  destruct (Hstep (Forall_lookup_1 _ _ _ _ Hf Hi)) as (Hf' & Hc & Hw).
  destruct IH as (H1 & H2 & H3); [rewrite Hgs; by apply Forall_insert|]. split; [done|]. split.
  - rewrite H2, Hgs, list_fmap_insert, Hc. apply list_insert_id. by rewrite list_lookup_fmap, Hi.
  - unfold total_work in *. rewrite Hgs in H3. pose proof (sum_insert _ _ _ g' Hi work). lia.
Qed.

(** Some goroutine is in a phase, or none is. *)
Lemma phase_cases (P : goroutine -> Prop) `{!forall g, Decision (P g)} l :
  (exists i g, l !! i = Some g /\ P g) \/ Forall (fun g => ~ P g) l.
Proof.
  destruct (decide (Exists P l)) as [He|He].
  - left. apply Exists_exists in He as (g & Hin & Hg). apply list_elem_of_lookup in Hin as [i Hi]. eauto.
  - right. by apply Forall_Exists_neg.
Qed.

Lemma sum_0 {A} (f : A -> nat) l : Forall (fun a => f a = 0%nat) l -> sum_list_with f l = 0%nat.
Proof. induction 1 as [|a l Ha _ IH]; [done|]. cbn [sum_list_with]. lia. Qed.

(** The goroutines that can move whatever the lock is. *)
Definition free (g : goroutine) : bool := match at_ g with Ready | Waiting _ _ => false | _ => true end.

(** No deadlock: as long as a call is missing, some goroutine has a step. *)
Lemma lock_step_exists barge c : good c -> Forall fits (gs c) -> ~ finished c -> exists c', step barge c c'.
Proof.
  intros Hg Hf Hn.
  destruct (phase_cases (fun g => free g = true) (gs c)) as [(i & g & Hi & Hfree)|Hnone].
  { unfold free in Hfree. pose proof (Forall_lookup_1 _ _ _ _ Hf Hi) as Hfg. destruct (at_ g) eqn:Ha; try discriminate.
    1: eexists; by eapply step_write.
    1: eexists; by eapply step_Unlock.
    1: eexists; by eapply step_read.
    1: eexists; by eapply step_RUnlock.
    all: destruct (local_exists g (env c) Hfg) as (g' & w' & Hl); [eauto|eexists; by eapply step_local]. }
  destruct Hg as [Hq Hw Hr _ _].
  assert (Hzero : writer (mu c) = false /\ readers (mu c) = 0%nat).
  { rewrite sum_0 in Hw, Hr; [split; [by destruct (writer (mu c))|done]|..];
      (eapply Forall_impl; [exact Hnone|]); intros g; unfold free, reads, writes; by destruct (at_ g). }
  destruct (mu c) as [b n m] eqn:Hmu. cbn [writer readers waiting] in *. destruct Hzero as [-> ->].
  destruct (phase_cases (fun g => waits g = 1%nat) (gs c)) as [(i & g & Hi & Hwait)|Hready].
  { pose proof (sum_lookup waits _ _ _ Hi). unfold waits in Hwait. destruct (at_ g) eqn:Ha; try discriminate.
    destruct n as [|n]; [unfold waits in *; rewrite Ha in *; lia|]. eexists. by eapply step_acquire. }
  rewrite sum_0 in Hq. 2: { eapply Forall_impl; [exact Hready|]. intros g. unfold waits. destruct (at_ g); try done. }
  subst n. apply not_Forall_Exists in Hn; [|intros g; unfold idle; destruct (todo g), (at_ g); try (by right; intros [? ?]); by left].
  apply Exists_exists in Hn as (g & Hin & Hidle). apply list_elem_of_lookup in Hin as [i Hi].
  pose proof (Forall_lookup_1 _ _ _ _ Hnone Hi) as Hg1. pose proof (Forall_lookup_1 _ _ _ _ Hready Hi) as Hg2.
  assert (Ha : at_ g = Ready) by (unfold free, waits in *; by destruct (at_ g)).
  destruct (todo g) as [|[id key|q] rest] eqn:Ht; [by destruct Hidle|..].
  - destruct (AddKey_cases {| keks := kms_keks c |} id key) as [(Hl & _ & f & Hadd)|[Hl _]].
    + eexists. eapply step_add_refused; [done..|]. by rewrite <- Hadd, <- surjective_pairing.
    + eexists. by eapply step_Lock.
  - eexists. eapply step_RLock; [done..|exact Hmu|by left].
Qed.

(** ** One key under all goroutines *)

Section key.
Context (id kek : bytes).

(** Nobody binds [id] to another key. *)
Definition rebinds (c : call) : Prop :=
  match c with CallAddKey id' key => id' = id /\ len key = AEADKeySize /\ key <> kek | _ => False end.

(** What a finished call under [id] says of the key. *)
Definition answer_ok (ca : call * answer) : Prop :=
  match ca with
  | (Call q, a) =>
      query_id q = id ->
      match q, a with
      | AskGenerateDataKey _, Generated (Ok (dek, wrapped)) => Aead.Open kek wrapped [] = Ok dek
      | AskGenerateDataKey _, Generated _ => True
      | AskDecrypt _ wrapped, Returned o => o = Aead.Open kek wrapped []
      | AskEncrypt _ p, Returned (Ok c) => Aead.Open kek c [] = Ok p
      | AskEncrypt _ _, Returned _ => True
      | _, _ => False
      end
  | _ => True
  end.

Definition phase_under (p : phase) : Prop :=
  match p with
  | Got q o => query_id q = id -> o = Ok kek
  | GotDek q k _ => q = AskGenerateDataKey (query_id q) /\ (query_id q = id -> k = kek)
  | _ => True
  end.

Definition under (g : goroutine) : Prop :=
  Forall (fun c => ~ rebinds c) (todo g) /\ phase_under (at_ g) /\ Forall answer_ok (history g).

Lemma after_lookup_answer q k w a w' :
  (query_id q = id -> k = kek) -> after_lookup q k w = (inr a, w') -> answer_ok (Call q, a).
Proof.
  intros Hk Ha Hid. specialize (Hk Hid). subst k. revert Ha. destruct q as [i|i wr|i p]; cbn [after_lookup].
  - by destruct (RandomBytes AEADKeySize w) as [[d|e|m] w1]; intros [= <- <-].
  - by intros [= <- <-].
  - destruct (Aead.Seal kek p [] w) as [[c|e|m] w1] eqn:Hs; intros [= <- <-]; [|done..]. by eapply Seal_then_Open.
Qed.

Lemma local_under g w g' w' : local g w g' w' -> under g -> under g'.
Proof.
  unfold under. intros Hl (Ht & Hp & Hh).
  destruct Hl as [g w q e H|g w q k a w' H Ha _|g w q k d w' H Hd|g w q k d a w' H Ha _]; rewrite H in Hp; cbn [phase_under] in Hp;
    cbn [todo at_ history returns moves phase_under]; (split; [done|]).
  - split; [done|]. apply Forall_app_2; [done|]. apply Forall_singleton. intros Hid. by specialize (Hp Hid).
  - split; [done|]. apply Forall_app_2; [done|]. apply Forall_singleton. eapply after_lookup_answer; [|exact Ha].
    intros Hid. by injection (Hp Hid).
  - split; [|done]. split; [|intros Hid; by injection (Hp Hid)].
    destruct q as [i|i wr|i p]; [done|discriminate|]. cbn in Hd. by destruct (Aead.Seal k p [] w).
  - split; [done|]. destruct Hp as [Hq Hk]. apply Forall_app_2; [done|]. apply Forall_singleton. rewrite Hq. intros Hid.
    cbn [query_id] in Hid. specialize (Hk Hid). subst k. revert Ha. unfold wrap_dek.
    destruct (Aead.Seal kek d [] w) as [[c|e|m] w1] eqn:Hs; intros [= <- <-]; [|done..]. by eapply Seal_then_Open.
Qed.

Definition owned (c : aconfig) : Prop := keks (a_kms c) !! id = Some kek /\ Forall under (a_gs c).

Lemma atomic_owned c c' : owned c -> atomic c c' -> owned c'.
Proof.
  intros [Hk Hf] Ha. destruct Ha as [c i g id' key rest o s' Hi Hr Ht Hadd|c i g q rest Hi Hr Ht|c i g g' w' Hi Hl];
    pose proof (Forall_lookup_1 _ _ _ _ Hf Hi) as Hg.
  - destruct Hg as (Hc & _ & Hh). rewrite Ht in Hc. apply Forall_cons in Hc as [Hc1 Hc]. split; cbn [a_kms a_gs].
    + destruct (AddKey_cases (a_kms c) id' key) as [(_ & Hs & _)|[Hl Hs]]; rewrite Hadd in Hs; cbn in Hs; [by subst s'|].
      injection Hs as _ ->. cbn [keks]. destruct (decide (id' = id)) as [->|Hne]; [|by rewrite lookup_insert_ne].
      rewrite lookup_insert_eq. f_equal. destruct (decide (key = kek)) as [|Hkey]; [done|]. by destruct Hc1.
    + apply Forall_insert; [done|]. split; [done|]. split; [done|]. cbn [returns starts history].
      by apply Forall_app_2; [|apply Forall_singleton].
  - destruct Hg as (Hc & _ & Hh). rewrite Ht in Hc. apply Forall_cons in Hc as [_ Hc]. split; [done|]. cbn [a_gs].
    apply Forall_insert; [done|]. split; [done|]. split; [|done]. cbn [at_ moves phase_under].
    intros ->. unfold Kms.lookup. by rewrite Hk.
  - split; [done|]. cbn [a_gs]. apply Forall_insert; [done|]. by eapply local_under.
Qed.

Lemma atomics_owned c c' : owned c -> rtc atomic c c' -> owned c'.
Proof. intros Ho. induction 1 as [c|c c1 c' Ha _ IH]; [done|]. by apply IH, (atomic_owned c). Qed.
End key.

Lemma history_seen g ca : ca ∈ history g -> ca ∈ history (seen g).
Proof. intros Hin. unfold seen. destruct (at_ g); try done. cbn [returns history]. apply elem_of_app. by left. Qed.

(** ** Properties *)

(** The start of the specification. *)
Definition aspawn (ps : list (list call)) (s : StaticKMS) (w : world) : aconfig := seen_config (spawn ps s w).

(** C12: [StaticKMS] shared by goroutines, for every interleaving of their statements and every order in which the
    lock admits readers and writers. No two goroutines ever race on the map; and whatever the goroutines have
    done, their answers and the map are those of a run in which each [AddKey] and each [lookup] is one step of
    the sequential model, taken at its access to the map. When all calls are over the two states are equal. *)
Theorem StaticKMS_atomic barge ps s w c :
  rtc (step barge) (spawn ps s w) c ->
  ~ race c /\ rtc atomic (aspawn ps s w) (seen_config c) /\
  (finished c -> seen_config c = {| a_gs := gs c; a_kms := {| keks := kms_keks c |}; a_env := env c |}).
Proof.
  intros Hr. pose proof (lock_spawn ps s w) as Hg. split; [by eapply good_no_race, lock_reach|].
  split; [by eapply steps_seen|]. intros Hf. unfold seen_config. f_equal.
  induction Hf as [|g l [_ Ha] _ IH]; [done|]. by rewrite fmap_cons, IH, seen_ready.
Qed.

(** C14: no deadlock and no endless run: goroutines that make [n] calls take at most [5n] steps in every interleaving,
    some goroutine can move until every call has returned, and then each one has made its calls in
    order. The plaintexts to encrypt are within GCM's limit; otherwise a call may panic. *)
Theorem StaticKMS_progress barge ps s w k c :
  Forall (Forall call_ok) ps -> nsteps (step barge) k (spawn ps s w) c ->
  (k <= 5 * sum_list_with length ps)%nat /\ (~ finished c -> exists c', step barge c c') /\
  (finished c -> (fun g => map fst (history g)) <$> gs c = ps).
Proof.
  intros Hok Hk. destruct (steps_keep barge k _ _ Hk) as (Hf & Hc & Hw).
  { apply Forall_fmap. eapply Forall_impl; [exact Hok|]. done. }
  assert (Ht : total_work (spawn ps s w) = (5 * sum_list_with length ps)%nat).
  { unfold total_work. cbn [spawn gs]. clear. induction ps as [|p ps IH]; [done|].
    rewrite fmap_cons. cbn [sum_list_with]. rewrite IH. unfold work. cbn [todo at_ weight]. lia. }
  split; [lia|]. split.
  - apply lock_step_exists; [|done]. eapply lock_reach; [apply lock_spawn|]. apply rtc_nsteps. eauto.
  - intros Hfin. assert (Hp : calls <$> gs (spawn ps s w) = ps).
    { cbn [spawn gs]. rewrite <- list_fmap_compose. rewrite <- (list_fmap_id ps) at 2. apply list_fmap_ext. done. }
    rewrite <- Hp, <- Hc. clear -Hfin. induction Hfin as [|g l [Hg Ha] _ IH]; [done|]. rewrite !fmap_cons, IH. f_equal.
    unfold calls. rewrite Hg, Ha. cbn. by rewrite app_nil_r.
Qed.

(** C13: data keys are shared: when [id] is bound to [kek] and no call binds it to another key, then in every
    interleaving each wrapped data key that one goroutine got from [GenerateDataKey] and any other gives to
    [Decrypt] comes back as the same data key, and so does what [Encrypt] wrapped. *)
Theorem shared_data_keys barge ps s w c id kek g h :
  keks s !! id = Some kek -> (forall p ca, p ∈ ps -> ca ∈ p -> ~ rebinds id kek ca) ->
  rtc (step barge) (spawn ps s w) c -> g ∈ gs c -> h ∈ gs c ->
  (forall dek wrapped o, (Call (AskGenerateDataKey id), Generated (Ok (dek, wrapped))) ∈ history g ->
     (Call (AskDecrypt id wrapped), Returned o) ∈ history h -> o = Ok dek) /\
  (forall p ct o, (Call (AskEncrypt id p), Returned (Ok ct)) ∈ history g ->
     (Call (AskDecrypt id ct), Returned o) ∈ history h -> o = Ok p).
Proof.
  intros Hid Hps Hr Hg Hh.
  destruct (atomics_owned id kek (aspawn ps s w) (seen_config c)) as [_ Ho].
  { split; [done|]. cbn [aspawn seen_config a_gs spawn gs]. rewrite <- list_fmap_compose. apply Forall_fmap, Forall_forall.
    intros p Hp. split; [|done]. apply Forall_forall. eauto. }
  { eapply steps_seen; [apply lock_spawn|exact Hr]. }
  cbn [seen_config a_gs] in Ho. rewrite Forall_fmap, Forall_forall in Ho.
  assert (Hans : forall g' ca, g' ∈ gs c -> ca ∈ history g' -> answer_ok id kek ca).
  { intros g' ca Hin Hca. destruct (Ho g' Hin) as (_ & _ & Hf). rewrite Forall_forall in Hf. by apply Hf, history_seen. }
  split; intros x y o Hx%(Hans g) Hy%(Hans h); try done; cbn in Hx, Hy; by rewrite (Hy eq_refl), (Hx eq_refl).
Qed.

(** ** A run of two goroutines *)

Definition demo_wrapped : bytes := Eval vm_compute in
  match static_GenerateDataKey demo_kms (lit "kek-1") demo_world with (Ok (_, wrapped), _) => wrapped | _ => [] end.
Definition demo_dek : bytes := Eval vm_compute in next_random AEADKeySize demo_world.

(** One makes a data key, the other adds a key in the meantime and then unwraps the data key. *)
Definition demo_calls : list (list call) :=
  [[Call (AskGenerateDataKey (lit "kek-1"))];
   [CallAddKey (lit "kek-2") demo_key; Call (AskDecrypt (lit "kek-1") demo_wrapped)]].
Definition demo_order : list nat := [0; 1; 0; 0; 1; 1; 1; 0; 0; 1; 1; 1; 1]%nat.
Definition demo_start : config := spawn demo_calls demo_kms demo_world.
Definition demo_end : config := default demo_start (schedule demo_order demo_start).

Lemma demo_run : nsteps (step (fun _ => false)) 13 demo_start demo_end.
Proof. apply (schedule_steps demo_order). vm_compute. reflexivity. Qed.

Lemma demo_end_gs : gs demo_end =
  [{| todo := []; at_ := Ready; history := [(Call (AskGenerateDataKey (lit "kek-1")), Generated (Ok (demo_dek, demo_wrapped)))] |};
   {| todo := []; at_ := Ready; history :=
        [(CallAddKey (lit "kek-2") demo_key, Added (Ok tt)); (Call (AskDecrypt (lit "kek-1") demo_wrapped), Returned (Ok demo_dek))] |}].
Proof. vm_compute. reflexivity. Qed.

Lemma StaticKMS_atomic_witness : rtc atomic (aspawn demo_calls demo_kms demo_world) (seen_config demo_end).
Proof. apply (StaticKMS_atomic (fun _ => false) demo_calls demo_kms demo_world demo_end). eapply rtc_nsteps_2, demo_run. Defined.

Lemma StaticKMS_progress_witness : (fun g => map fst (history g)) <$> gs demo_end = demo_calls.
Proof.
  apply (StaticKMS_progress (fun _ => false) demo_calls demo_kms demo_world 13 demo_end); [repeat constructor|exact demo_run|].
  unfold finished. rewrite demo_end_gs. repeat constructor.
Defined.

Lemma shared_data_keys_witness :
  exists g o, gs demo_end !! 1%nat = Some g /\
    (Call (AskDecrypt (lit "kek-1") demo_wrapped), Returned o) ∈ history g /\ o = Ok demo_dek.
Proof.
  eexists _, _. split; [by rewrite demo_end_gs|]. split; [by right; left|].
  refine (proj1 (shared_data_keys (fun _ => false) demo_calls demo_kms demo_world demo_end (lit "kek-1") demo_key _ _
    eq_refl _ (rtc_nsteps_2 _ _ _ demo_run) _ _) demo_dek demo_wrapped _ _ _);
    [|rewrite demo_end_gs; by left|rewrite demo_end_gs; by right; left|by left|by right; left].
  intros p ca Hp Hca. unfold demo_calls in Hp. rewrite !elem_of_cons, elem_of_nil in Hp.
  destruct Hp as [->|[->|[]]]; rewrite ?elem_of_cons, elem_of_nil in Hca.
  - destruct Hca as [->|[]]. by intros [].
  - destruct Hca as [->|[->|[]]]; by intros [].
Defined.
