(* ===== verification/Asymmetric.v ===== *)
(** * Public-key sealing: [asymmetric.go]

    X25519 and ChaCha20-Poly1305 are third-party packages, so both are parameters: the first with
    the class [X25519Ok], the second with [ChaChaOk]. *)

From S2P Require Import Prelude Errors Base64 GoIO Aes Cipher Format Aead ChaCha.

Definition X25519KeySize : Z := 32.

(** [curve25519.X25519] and its documented behaviour: scalars, points and results have 32 bytes,
    the product is an error on a bad length or a low-order point, which the base point and its
    multiples are not, and Diffie-Hellman: both parties compute the same product. *)
Class X25519Ok (X25519 : bytes -> bytes -> outcome bytes) (Basepoint : bytes) : Prop := {
  x_len k u s : X25519 k u = Ok s -> len k = 32 /\ len u = 32 /\ len s = 32;
  x_base k : len k = 32 -> exists A, X25519 k Basepoint = Ok A;
  x_shared a b B : len a = 32 -> X25519 b Basepoint = Ok B -> exists s, X25519 a B = Ok s;
  x_comm a b A B :
    X25519 a Basepoint = Ok A -> X25519 b Basepoint = Ok B -> X25519 a B = X25519 b A;
  x_no_panic k u : panics (X25519 k u) = false
}.

(** ** Operations *)

Section ops.
Context (X25519 : bytes -> bytes -> outcome bytes) (Basepoint : bytes).
Context (New : bytes -> outcome AEAD).

Definition GenerateKeyPair : M (bytes * bytes) :=
  priv ← map_errM (Wrapf "crypt: x25519 keygen: %w") (ReadRand X25519KeySize);
  pub ← lift (map_err (Wrapf "crypt: x25519 derive public: %w") (X25519 priv Basepoint));
  mret (pub, priv).

Definition SealAsymmetric (recipientPublicKey plaintext : bytes) : M bytes :=
  if negb (len recipientPublicKey =? X25519KeySize) then
    fail (Wrapf "%w: recipient public key must be %d bytes; got %d" ErrInvalidKey)
  else
    eph ← GenerateKeyPair;
    let '(ephPub, ephPriv) := eph in
    shared ← lift (map_err (Wrapf "crypt: x25519 ecdh: %w") (X25519 ephPriv recipientPublicKey));
    c ← lift (map_err (Wrapf "crypt: chacha20poly1305: %w") (New shared));
    nonce ← map_errM (Wrapf "crypt: random nonce: %w") (ReadRand aeadNonceSize);
    let out := [] ++ [versionAsymmetricV1] in
    let out := out ++ ephPub in
    let out := out ++ nonce in
    out ← lift (aead_Seal c out nonce plaintext ephPub);
    mret (EncodeToString RawURLEncoding out).

Definition OpenAsymmetric (recipientPrivateKey ciphertext : bytes) : outcome bytes :=
  if negb (len recipientPrivateKey =? X25519KeySize) then
    Err (Wrapf "%w: recipient private key must be %d bytes; got %d" ErrInvalidKey)
  else
    raw ← map_err (fun _ => Wrapf "%w: %v" ErrInvalidCiphertext)
            (DecodeString RawURLEncoding ciphertext);
    let minSize := 1 + X25519KeySize + aeadNonceSize + aeadTagSize in
    if len raw <? minSize then Err ErrCiphertextTooShort
    else
      version ← index raw 0;
      if negb (bool_decide (version = versionAsymmetricV1)) then
        Err (Wrapf "%w: 0x%02x" ErrUnsupportedVersion)
      else
        ephPub ← slice raw 1 (1 + X25519KeySize);
        nonce ← slice raw (1 + X25519KeySize) (1 + X25519KeySize + aeadNonceSize);
        body ← slice_from raw (1 + X25519KeySize + aeadNonceSize);
        shared ← map_err (Wrapf "crypt: x25519 ecdh: %w") (X25519 recipientPrivateKey ephPub);
        c ← map_err (Wrapf "crypt: chacha20poly1305: %w") (New shared);
        map_err (fun _ => Wrapf "%w: %v" ErrTampered) (aead_Open c nonce body ephPub).
End ops.

(** ** A concrete group for the witnesses

    Exclusive or on 32-byte strings, with base point zero: commutative and total, and nothing
    else in common with the curve. *)

Definition xor_base : bytes := replicate 32 x00.

Definition xor_X25519 (k u : bytes) : outcome bytes :=
  if (len k =? 32) && (len u =? 32) then Ok (zip_with bxor k u)
  else Err (ErrorString "bad length").

Lemma xor_X25519_Ok k u s :
  xor_X25519 k u = Ok s <-> len k = 32 /\ len u = 32 /\ s = zip_with bxor k u.
Proof.
  unfold xor_X25519. destruct (Z.eqb_spec (len k) 32), (Z.eqb_spec (len u) 32); simpl;
    split; try done; try tauto; [by intros [= <-]|by intros (_ & _ & ->)].
Qed.

Lemma xor_base_r k : len k = 32 -> zip_with bxor k xor_base = k.
Proof.
  unfold xor_base, len. intros H. assert (Hn : length k = 32%nat) by lia. clear H. revert Hn.
  generalize 32%nat. induction k as [|b k IH]; intros [|n] H; simpl in *; try done.
  by rewrite bxor_0_r, IH by lia.
Qed.

Lemma zip_bxor_comm (k u : bytes) : zip_with bxor k u = zip_with bxor u k.
Proof.
  revert u; induction k as [|a k IH]; intros [|b u]; simpl; [done..|]. by rewrite bxor_comm, IH.
Qed.

#[global] Instance xor_X25519_ok : X25519Ok xor_X25519 xor_base.
Proof.
  split.
  - intros k u s (Hk & Hu & ->)%xor_X25519_Ok. do 2 (split; [done|]).
    unfold len in *. rewrite length_zip_with. lia.
  - intros k Hk. eexists. by apply xor_X25519_Ok.
  - intros a b B Ha (Hb & _ & ->)%xor_X25519_Ok. eexists. apply xor_X25519_Ok.
    split; [done|]. split; [|done]. by rewrite xor_base_r.
  - intros a b A B (Ha & _ & ->)%xor_X25519_Ok (Hb & _ & ->)%xor_X25519_Ok.
    rewrite !xor_base_r by done. unfold xor_X25519. by rewrite Ha, Hb, zip_bxor_comm.
  - intros k u. unfold xor_X25519. by case_bool.
Qed.

(** ** Lemmas *)

Section lemmas.
Context (X25519 : bytes -> bytes -> outcome bytes) (Basepoint : bytes).
Context (New : bytes -> outcome AEAD).
Context `{!X25519Ok X25519 Basepoint} `{!ChaChaOk New}.

(** The bytes of a sealed box. *)
Definition sealed_box (ephPub nonce body : bytes) : bytes :=
  versionAsymmetricV1 :: ephPub ++ nonce ++ body.

Lemma GenerateKeyPair_run w :
  has_random 32 w ->
  exists A w', GenerateKeyPair X25519 Basepoint w = (Ok (A, next_random 32 w), w') /\
    X25519 (next_random 32 w) Basepoint = Ok A /\ after_random 32 w w'.
Proof.
  intros Hr. destruct (ReadRand_Ok 32 w ltac:(lia) Hr) as (w' & Hread & Ha).
  destruct (x_base (next_random 32 w)) as [A HA]; [by apply len_next_random|].
  exists A, w'. split; [|done]. unfold GenerateKeyPair.
  rewrite (M_bind_Ok _ _ _ _ _ (map_errM_Ok _ _ _ _ _ Hread)).
  by rewrite (M_lift_bind _ A) by (by rewrite HA).
Qed.

Lemma GenerateKeyPair_inv w A a w' :
  GenerateKeyPair X25519 Basepoint w = (Ok (A, a), w') ->
  len a = 32 /\ X25519 a Basepoint = Ok A.
Proof.
  intros (priv & w1 & Hr & H)%M_bind_Ok_inv.
  apply M_lift_bind_inv in H as (pub & Hp%map_err_Ok & [= <- <- <-]).
  by destruct (x_len _ _ _ Hp) as [? _].
Qed.

(** The receiver on a text with the layout of a sealed box. *)
Lemma OpenAsymmetric_box priv text v ephPub nonce body :
  len priv = 32 -> DecodeString RawURLEncoding text = Ok (v :: ephPub ++ nonce ++ body) ->
  len ephPub = 32 -> len nonce = 12 -> 16 <= len body ->
  OpenAsymmetric X25519 New priv text =
    if bool_decide (v = versionAsymmetricV1) then
      shared ← map_err (Wrapf "crypt: x25519 ecdh: %w") (X25519 priv ephPub);
      c ← map_err (Wrapf "crypt: chacha20poly1305: %w") (New shared);
      map_err (fun _ => Wrapf "%w: %v" ErrTampered) (aead_Open c nonce body ephPub)
    else Err (Wrapf "%w: 0x%02x" ErrUnsupportedVersion).
Proof.
  intros Hk Hd He Hn Hb. unfold OpenAsymmetric, X25519KeySize. rewrite Hk, Z.eqb_refl.
  cbn [negb]. rewrite Hd. cbn [map_err mbind outcome_bind]. cbv zeta.
  change (1 + 32 + aeadNonceSize + aeadTagSize) with 61.
  change (1 + 32 + aeadNonceSize) with 45. change (1 + 32) with 33.
  rewrite (proj2 (Z.ltb_ge _ _)) by (rewrite len_cons, !len_app; lia).
  rewrite (index_head _ _ 0) by done. cbn [mbind outcome_bind].
  case_bool_decide; [|done]. cbn [negb].
  rewrite (slice_app [v] ephPub (nonce ++ body) 1) by (rewrite ?He; done).
  cbn [mbind outcome_bind].
  change (v :: ephPub ++ nonce ++ body) with ((v :: ephPub) ++ nonce ++ body).
  rewrite (slice_app (v :: ephPub) nonce body 33) by (rewrite !len_cons, ?He, ?Hn; done).
  cbn [mbind outcome_bind]. rewrite app_assoc.
  rewrite (slice_from_app ((v :: ephPub) ++ nonce) body); [done|].
  by rewrite len_app, len_cons, He, Hn.
Qed.

Lemma box_split (raw : bytes) :
  61 <= len raw ->
  exists v ephPub nonce body, raw = v :: ephPub ++ nonce ++ body /\
    len ephPub = 32 /\ len nonce = 12 /\ 16 <= len body /\ len body <= len raw.
Proof.
  intros H. destruct raw as [|v raw]; [done|]. rewrite len_cons in *.
  exists v, (take 32 raw), (take 12 (drop 32 raw)), (drop 12 (drop 32 raw)).
  rewrite !take_drop. split; [done|].
  repeat split; unfold len in *; rewrite ?length_take, ?length_drop, ?length_cons in *; lia.
Qed.

(** Every branch of the receiver, in the order of the tests. *)
Lemma OpenAsymmetric_cases priv text :
  (exists e, OpenAsymmetric X25519 New priv text = Err e) \/
  (exists ephPub nonce body shared c,
     len priv = 32 /\ DecodeString RawURLEncoding text = Ok (sealed_box ephPub nonce body) /\
     len ephPub = 32 /\ len nonce = 12 /\ 16 <= len body /\ len body <= len text /\
     X25519 priv ephPub = Ok shared /\ New shared = Ok c /\ AEADOk c chacha_max /\
     OpenAsymmetric X25519 New priv text =
       map_err (fun _ => Wrapf "%w: %v" ErrTampered) (aead_Open c nonce body ephPub)).
Proof.
  destruct (decide (len priv = 32)) as [Hk|Hk].
  2: { left. unfold OpenAsymmetric, X25519KeySize. rewrite (proj2 (Z.eqb_neq _ _)) by done. eauto. }
  destruct (DecodeString RawURLEncoding text) as [raw|e|m] eqn:Hd.
  2: { left. unfold OpenAsymmetric, X25519KeySize. rewrite Hk, Hd. eauto. }
  2: { pose proof (Decode_panics RawURLEncoding text) as Hp. by rewrite Hd in Hp. }
  destruct (Z.ltb_spec (len raw) 61) as [Hl|Hl].
  { left. unfold OpenAsymmetric, X25519KeySize. rewrite Hk, Hd. cbn [map_err mbind outcome_bind].
    change (1 + 32 + aeadNonceSize + aeadTagSize) with 61.
    rewrite (proj2 (Z.ltb_lt _ _)) by done. eauto. }
  pose proof (Decode_length _ _ _ Hd) as Hlen.
  destruct (box_split raw Hl) as (v & eph & n & body & -> & He & Hn & Hb & Hle).
  rewrite (OpenAsymmetric_box priv text v eph n body) by done.
  case_bool_decide as Hv; [subst v|eauto].
  destruct (X25519 priv eph) as [shared|e|m] eqn:Hx; [|eauto|].
  2: { pose proof (x_no_panic priv eph) as Hp. by rewrite Hx in Hp. }
  destruct (x_len _ _ _ Hx) as (_ & _ & Hs). destruct (chacha_New_Ok shared Hs) as (c & Hc & Hok).
  right. exists eph, n, body, shared, c. cbn [map_err mbind outcome_bind]. rewrite Hc.
  repeat (split; [done || lia|]). done.
Qed.

(** What a successful sealing did. *)
Lemma SealAsymmetric_inv pub p w s w' :
  SealAsymmetric X25519 Basepoint New pub p w = (Ok s, w') ->
  exists A a shared c nonce body, len a = 32 /\ X25519 a Basepoint = Ok A /\
    X25519 a pub = Ok shared /\ New shared = Ok c /\ len nonce = 12 /\ len p <= chacha_max /\
    (forall dst, aead_Seal c dst nonce p A = Ok (dst ++ body)) /\
    aead_Open c nonce body A = Ok p /\ len body = len p + 16 /\
    s = EncodeToString RawURLEncoding (sealed_box A nonce body).
Proof.
  unfold SealAsymmetric. case_bool; [discriminate|].
  intros ([A a] & w1 & [Ha HA]%GenerateKeyPair_inv & H)%M_bind_Ok_inv.
  apply M_lift_bind_inv in H as (shared & Hx%map_err_Ok & H).
  apply M_lift_bind_inv in H as (c & Hc%map_err_Ok & H).
  apply M_bind_Ok_inv in H as (n & w2 & Hn & H).
  apply map_errM_Ok_inv, ReadRand_Ok_inv in Hn as (-> & Hr & _); [|done].
  apply M_lift_bind_inv in H as (out & Ho & [= <- _]).
  destruct (chacha_key New shared c Hc) as [_ Hok].
  destruct (seal_bound _ _ _ _ _ Ho) as [Hn12 Hp].
  destruct (seal_open (next_random aeadNonceSize w1) p A Hn12 Hp) as (body & Hl & Hs & Hopen).
  rewrite Hs in Ho. injection Ho as <-.
  exists A, a, shared, c, (next_random aeadNonceSize w1), body.
  repeat (split; [done|]). unfold sealed_box. cbn [app]. by rewrite <- !app_assoc.
Qed.

Lemma SealAsymmetric_run priv pub p w :
  X25519 priv Basepoint = Ok pub -> len p <= chacha_max -> has_random 44 w ->
  exists s w', SealAsymmetric X25519 Basepoint New pub p w = (Ok s, w') /\ after_random 44 w w'.
Proof.
  intros HB Hp Hw. destruct (x_len _ _ _ HB) as (_ & _ & Hpub).
  unfold SealAsymmetric, X25519KeySize. rewrite Hpub, Z.eqb_refl. cbn [negb].
  destruct (GenerateKeyPair_run w) as (A & w1 & Hg & HA & Ha1 & Ha2 & Ha3).
  { unfold has_random in *. lia. }
  rewrite (M_bind_Ok _ _ _ _ _ Hg). cbv beta iota.
  destruct (x_shared (next_random 32 w) priv pub) as [shared Hx];
    [apply len_next_random; unfold has_random in *; lia|done|].
  rewrite (M_lift_bind _ shared) by (by rewrite Hx).
  destruct (x_len _ _ _ Hx) as (_ & _ & Hs). destruct (chacha_New_Ok shared Hs) as (c & Hc & Hok).
  rewrite (M_lift_bind _ c) by (by rewrite Hc).
  assert (Hr1 : has_random 12 w1).
  { unfold has_random, len in *. rewrite Ha1, length_drop. lia. }
  destruct (ReadRand_Ok 12 w1 ltac:(lia) Hr1) as (w2 & Hread & Hb1 & Hb2 & Hb3).
  rewrite (M_bind_Ok _ _ _ _ _ (map_errM_Ok _ _ _ _ _ Hread)).
  destruct (seal_open (next_random 12 w1) p A) as (body & _ & Hseal & _);
    [by apply len_next_random|done|].
  rewrite (M_lift_bind _ _ _ _ (Hseal _)). eexists _, w2. split; [done|].
  split; [|split; congruence]. rewrite Hb1, Ha1, drop_drop. done.
Qed.
End lemmas.

(** A box sealed for a generated key opens with its private half. *)
Lemma sealed_box_opens X25519 Basepoint New
    `{!X25519Ok X25519 Basepoint} `{!ChaChaOk New} w0 pub priv w1 p w :
  GenerateKeyPair X25519 Basepoint w0 = (Ok (pub, priv), w1) ->
  len p <= chacha_max -> has_random 44 w ->
  exists s w', SealAsymmetric X25519 Basepoint New pub p w = (Ok s, w') /\
    after_random 44 w w' /\ OpenAsymmetric X25519 New priv s = Ok p.
Proof.
  intros Hg Hp Hw. destruct (GenerateKeyPair_inv X25519 Basepoint _ _ _ _ Hg) as [Hk HB].
  destruct (SealAsymmetric_run X25519 Basepoint New priv pub p w HB Hp Hw) as (s & w' & Hs & Ha).
  exists s, w'. split; [done|]. split; [done|].
  apply SealAsymmetric_inv in Hs as
    (A & a & shared & c & n & body & _ & HA & Hx & Hc & Hn & _ & _ & Ho & Hl & ->); [|done..].
  destruct (x_len _ _ _ HA) as (_ & _ & HlA). pose proof (len_nonneg p).
  rewrite (OpenAsymmetric_box X25519 New priv _ versionAsymmetricV1 A n body) by
    (done || lia || apply Decode_Encode, _).
  rewrite bool_decide_eq_true_2 by done.
  rewrite (x_comm priv a pub A HB HA), Hx. cbn [map_err mbind outcome_bind]. rewrite Hc.
  cbn [map_err mbind outcome_bind]. by rewrite Ho.
Qed.

(** ** Properties *)

(** C21: sealed box. For a key pair from [GenerateKeyPair], sealing to the public key with 44 random
    bytes left succeeds, consumes exactly those (32 for the ephemeral key, 12 for the nonce), and
    [OpenAsymmetric] under the private key returns the plaintext. *)
Theorem Asymmetric_roundtrip X25519 Basepoint New
    `{!X25519Ok X25519 Basepoint} `{!ChaChaOk New} w0 pub priv w1 p w :
  GenerateKeyPair X25519 Basepoint w0 = (Ok (pub, priv), w1) ->
  len p <= chacha_max -> has_random 44 w ->
  exists s w', SealAsymmetric X25519 Basepoint New pub p w = (Ok s, w') /\
    after_random 44 w w' /\ OpenAsymmetric X25519 New priv s = Ok p.
Proof. by apply sealed_box_opens. Qed.

Definition demo_pair : bytes * bytes := (replicate 32 x42, replicate 32 x42).

Lemma Asymmetric_roundtrip_witness :
  exists s w', SealAsymmetric xor_X25519 xor_base mac_New demo_pair.1 (lit "note") demo_world = (Ok s, w')
    /\ OpenAsymmetric xor_X25519 mac_New demo_pair.2 s = Ok (lit "note").
Proof.
  destruct (Asymmetric_roundtrip xor_X25519 xor_base mac_New
    {| w_rand := {| rd_data := [replicate 32 x42]; rd_err := EOF |}; w_now := 0 |}
    demo_pair.1 demo_pair.2 {| w_rand := {| rd_data := []; rd_err := EOF |}; w_now := 0 |}
    (lit "note") demo_world) as (s & w' & H1 & _ & H2);
    [vm_compute; reflexivity|vm_compute; discriminate..|]. eauto.
Defined.

(** C20: [OpenAsymmetric] accepts a text with plaintext [p] exactly when the private key has 32 bytes
    and the text has the documented layout with a body that is the sealing of [p] under the
    X25519 product of the private key and the embedded ephemeral key, that ephemeral key being
    the authenticated data. *)
Theorem OpenAsymmetric_exact X25519 Basepoint New
    `{!X25519Ok X25519 Basepoint} `{!ChaChaOk New} priv text p :
  OpenAsymmetric X25519 New priv text = Ok p <->
  exists ephPub nonce body shared c,
    len priv = 32 /\ DecodeString RawURLEncoding text = Ok (sealed_box ephPub nonce body) /\
    len ephPub = 32 /\ len nonce = 12 /\
    X25519 priv ephPub = Ok shared /\ New shared = Ok c /\
    aead_Seal c [] nonce p ephPub = Ok body.
Proof.
  split.
  - intros H. destruct (OpenAsymmetric_cases X25519 Basepoint New priv text) as [[e E]|Hc]; [congruence|].
    destruct Hc as (eph & n & body & shared & c & Hk & Hd & He & Hn & _ & _ & Hx & Hc & Hok & E).
    rewrite E in H. apply map_err_Ok, open_seal in H as (_ & _ & Hs).
    exists eph, n, body, shared, c. by rewrite Hs.
  - intros (eph & n & body & shared & c & Hk & Hd & He & Hn & Hx & Hc & Hs).
    destruct (chacha_key New shared c Hc) as [_ Hok].
    destruct (seal_bound _ _ _ _ _ Hs) as [_ Hp].
    destruct (seal_open n p eph Hn Hp) as (body' & Hl & Hs' & Ho).
    rewrite Hs' in Hs. injection Hs as <-. pose proof (len_nonneg p).
    rewrite (OpenAsymmetric_box X25519 New priv text versionAsymmetricV1 eph n body') by (done || lia).
    rewrite bool_decide_eq_true_2 by done. rewrite Hx. cbn [map_err mbind outcome_bind].
    rewrite Hc. cbn [map_err mbind outcome_bind]. by rewrite Ho.
Qed.

(** A box by hand: the checksum of the key, the nonce and the AAD is zero. *)
Definition demo_box : bytes :=
  sealed_box (replicate 32 x41) (replicate 12 x07) (lit "x" ++ replicate 16 x78).

Lemma OpenAsymmetric_exact_witness :
  OpenAsymmetric xor_X25519 mac_New demo_pair.2 (EncodeToString RawURLEncoding demo_box) = Ok (lit "x") /\
  (exists ephPub nonce body shared c,
    len demo_pair.2 = 32 /\
    DecodeString RawURLEncoding (EncodeToString RawURLEncoding demo_box) =
      Ok (sealed_box ephPub nonce body) /\
    len ephPub = 32 /\ len nonce = 12 /\
    xor_X25519 demo_pair.2 ephPub = Ok shared /\ mac_New shared = Ok c /\
    aead_Seal c [] nonce (lit "x") ephPub = Ok body).
Proof.
  assert (H : OpenAsymmetric xor_X25519 mac_New demo_pair.2 (EncodeToString RawURLEncoding demo_box)
    = Ok (lit "x")) by (vm_compute; reflexivity).
  split; [exact H|]. exact (proj1 (OpenAsymmetric_exact xor_X25519 xor_base mac_New demo_pair.2
    (EncodeToString RawURLEncoding demo_box) (lit "x")) H).
Defined.

(** [OpenAsymmetric] never panics on a text within the cipher's limit: a hostile length, point or
    body is an error. *)
Theorem OpenAsymmetric_no_panic X25519 Basepoint New
    `{!X25519Ok X25519 Basepoint} `{!ChaChaOk New} priv text :
  len text <= chacha_max -> panics (OpenAsymmetric X25519 New priv text) = false.
Proof.
  intros Hl. destruct (OpenAsymmetric_cases X25519 Basepoint New priv text) as [[e ->]|Hc]; [done|].
  destruct Hc as (eph & n & body & shared & c & _ & _ & _ & Hn & _ & Hb & _ & _ & Hok & ->).
  rewrite map_err_panics. apply (open_no_panic (maxp:=chacha_max)); [done|lia].
Qed.

Lemma OpenAsymmetric_no_panic_witness :
  panics (OpenAsymmetric xor_X25519 mac_New demo_key (lit "BQUF*")) = false.
Proof. apply (OpenAsymmetric_no_panic xor_X25519 xor_base mac_New). vm_compute. discriminate. Defined.
