(* ===== verification/Stream.v ===== *)
(** * Streaming encryption: [stream.go]

    [SealStream] and [OpenStream] run on a reader and a writer, both explicit; each loop carries
    fuel, one more than the bytes the reader still holds, and running out of it would be a
    panic, so the theorems that exclude panics also say the fuel is enough. *)

From Stdlib Require Import Strings.String.
From S2P Require Import Prelude Errors Binary GoIO Aes Cipher Format.

Definition streamMagic : bytes := lit "CRSV".
Definition streamVersion : byte := x01.
Definition streamNoncePrefix : Z := 8.
Definition streamHeaderSize : Z := 4 + 1 + streamNoncePrefix.
Definition DefaultStreamChunkSize : Z := 64 * 1024.
Definition streamMaxChunkSize : Z := 2 ^ 30.

(** ** Programs over a reader and a writer *)

Definition io (A : Type) : Type := reader * writer -> outcome A * (reader * writer).

#[global] Instance io_ret : MRet io := fun A a s => (Ok a, s).
#[global] Instance io_bind : MBind io := fun A B f m s =>
  match m s with
  | (Ok a, s') => f a s'
  | (Err e, s') => (Err e, s')
  | (Panic p, s') => (Panic p, s')
  end.

Definition io_lift {A} (o : outcome A) : io A := fun s => (o, s).

(** [n, err := io.ReadFull(r, buf)]: the bytes read and the error. *)
Definition io_ReadFull (n : Z) : io (bytes * option error) := fun '(r, w) =>
  let '(b, e, r') := ReadFull (Z.to_nat n) r in (Ok (b, e), (r', w)).

(** [if _, err := w.Write(b); err != nil { return err }] *)
Definition io_Write (b : bytes) : io unit := fun '(r, w) =>
  let '(e, w') := Write b w in
  (match e with None => Ok tt | Some e => Err e end, (r, w')).

(** ** Operations *)

(** [copy(dst, src)], as the new contents of [dst]. *)
Definition copy (dst src : bytes) : bytes :=
  take (length dst) src ++ drop (length src) dst.

Definition makeStreamNonce (prefix : bytes) (counter : Z) : bytes :=
  let out := replicate (Z.to_nat aeadNonceSize) x00 in
  let out := copy (take (Z.to_nat streamNoncePrefix) out) prefix ++
             drop (Z.to_nat streamNoncePrefix) out in
  take (Z.to_nat streamNoncePrefix) out ++
    copy (drop (Z.to_nat streamNoncePrefix) out) (PutUint32 counter).

Definition streamAAD (counter : Z) (last : bool) : bytes :=
  let out := replicate 5 x00 in
  let out := copy (take 4 out) (PutUint32 counter) ++ drop 4 out in
  if last then <[4%nat := x01]> out else out.

(** [lenField[0] |= 0x80], [lenField[0]&0x80 != 0] and [lenField[0] &= 0x7F]. *)
Definition set_last (field : bytes) : bytes :=
  match field with b :: l => to_byte (Z.lor (bval b) 128) :: l | [] => [] end.
Definition test_last (field : bytes) : bool :=
  match field with b :: _ => negb (Z.land (bval b) 128 =? 0) | [] => false end.
Definition clear_last (field : bytes) : bytes :=
  match field with b :: l => to_byte (Z.land (bval b) 127) :: l | [] => [] end.

(** The loop of [SealStream]. *)
Fixpoint seal_loop (fuel : nat) (gcm : AEAD) (noncePrefix : bytes) (chunkSize counter : Z) :
    io unit :=
  match fuel with
  | O => io_lift (Panic "out of fuel")
  | S fuel' =>
      '(buf, err) ← io_ReadFull chunkSize;
      isLast ← io_lift
        match err with
        | None => Ok false
        | Some EOF | Some ErrUnexpectedEOF => Ok true
        | Some err => Err err
        end;
      let nonce := makeStreamNonce noncePrefix counter in
      let aad := streamAAD counter isLast in
      ct ← io_lift (aead_Seal gcm [] nonce buf aad);
      let lenField := PutUint32 (u32 (len ct)) in
      let lenField := if isLast : bool then set_last lenField else lenField in
      io_Write lenField;;
      io_Write ct;;
      let counter := u32 (counter + 1) in
      if isLast : bool then mret tt
      else seal_loop fuel' gcm noncePrefix chunkSize counter
  end.

Definition SealStream (key : bytes) (r : reader) (w : writer) (chunkSize : Z) (env : world) :
    outcome unit * writer * world :=
  if negb (len key =? AEADKeySize) then
    (Err (Wrapf "%w: stream requires %d-byte key; got %d" ErrInvalidKey), w, env)
  else if (chunkSize <=? 0) || (streamMaxChunkSize <? chunkSize) then
    (Err (Errorf "crypt: chunkSize must be in (0, %d]; got %d"), w, env)
  else
    match (block ← NewCipher key; NewGCM block) with
    | Err e => (Err e, w, env)
    | Panic p => (Panic p, w, env)
    | Ok gcm =>
        match ReadRand streamNoncePrefix env with
        | (Err e, env') => (Err e, w, env')
        | (Panic p, env') => (Panic p, w, env')
        | (Ok noncePrefix, env') =>
            let '(o, (_, w')) :=
              (io_Write streamMagic;;
               io_Write [streamVersion];;
               io_Write noncePrefix;;
               seal_loop (S (length (rd_bytes r))) gcm noncePrefix chunkSize 0) (r, w) in
            (o, w', env')
        end
    end.

(** The loop of [OpenStream]. *)
Fixpoint open_loop (fuel : nat) (gcm : AEAD) (noncePrefix : bytes) (counter : Z) : io unit :=
  match fuel with
  | O => io_lift (Panic "out of fuel")
  | S fuel' =>
      '(lenField, err) ← io_ReadFull 4;
      io_lift match err with
              | None => Ok tt
              | Some EOF | Some ErrUnexpectedEOF => Err ErrTruncated
              | Some err => Err err
              end;;
      let isLast := test_last lenField in
      let lenField := clear_last lenField in
      ctLen ← io_lift (Uint32 lenField);
      '(ct, err) ← io_ReadFull ctLen;
      io_lift match err with
              | None => Ok tt
              | Some _ => Err (Wrapf "%w: chunk read: %v" ErrInvalidCiphertext)
              end;;
      let nonce := makeStreamNonce noncePrefix counter in
      let aad := streamAAD counter isLast in
      pt ← io_lift (map_err (fun _ => Wrapf "%w: chunk %d: %v" ErrTampered)
                      (aead_Open gcm nonce ct aad));
      io_Write pt;;
      let counter := u32 (counter + 1) in
      if isLast then mret tt else open_loop fuel' gcm noncePrefix counter
  end.

(** The loop with enough fuel for the bytes left. *)
Definition open_all (gcm : AEAD) (noncePrefix : bytes) : io unit := fun '(r, w) =>
  open_loop (S (length (rd_bytes r))) gcm noncePrefix 0 (r, w).

Definition OpenStream (key : bytes) (r : reader) (w : writer) : outcome unit * (reader * writer) :=
  if negb (len key =? AEADKeySize) then
    (Err (Wrapf "%w: stream requires %d-byte key; got %d" ErrInvalidKey), (r, w))
  else
    ('(header, err) ← io_ReadFull streamHeaderSize;
     io_lift match err with
             | None => Ok tt
             | Some _ => Err (Wrapf "%w: header read: %v" ErrInvalidCiphertext)
             end;;
     magic ← io_lift (slice header 0 4);
     if negb (bool_decide (magic = streamMagic)) then
       io_lift (Err (Wrapf "%w: bad magic" ErrInvalidCiphertext))
     else
       version ← io_lift (index header 4);
       if negb (bool_decide (version = streamVersion)) then
         io_lift (Err (Wrapf "%w: stream version 0x%02x" ErrUnsupportedVersion))
       else
         noncePrefix ← io_lift (slice header 5 (5 + streamNoncePrefix));
         block ← io_lift (NewCipher key);
         gcm ← io_lift (NewGCM block);
         open_all gcm noncePrefix : io unit) (r, w).

(** A small run of both loops. *)
Example stream_run :
  match SealStream (replicate 32 x00) {| rd_data := [lit "ab"; lit "cde"]; rd_err := EOF |}
          (buffer []) 3 demo_world with
  | (Ok _, w, _) =>
      len (wr_out w) = 13 + (4 + 3 + 16) + (4 + 2 + 16) /\
      (OpenStream (replicate 32 x00) {| rd_data := [wr_out w]; rd_err := EOF |} (buffer [])).2.2
        = buffer (lit "abcde")
  | _ => False
  end.
Proof. vm_compute. done. Qed.

(** ** Lemmas *)

Lemma io_bind_Ok {A B} (m : io A) (f : A -> io B) s a s' :
  m s = (Ok a, s') -> (m ≫= f) s = f a s'.
Proof. unfold mbind, io_bind. by intros ->. Qed.

Lemma io_bind_Err {A B} (m : io A) (f : A -> io B) s e s' :
  m s = (Err e, s') -> (m ≫= f) s = (Err e, s').
Proof. unfold mbind, io_bind. by intros ->. Qed.

Lemma io_lift_bind {A B} (o : outcome A) a (f : A -> io B) s :
  o = Ok a -> (io_lift o ≫= f) s = f a s.
Proof. by intros ->. Qed.

Lemma io_lift_Err {A B} (o : outcome A) e (f : A -> io B) s :
  o = Err e -> (io_lift o ≫= f) s = (Err e, s).
Proof. by intros ->. Qed.

(** *** Reading and writing *)

Lemma io_ReadFull_app n r b rest :
  rd_bytes r = b ++ rest -> len b = n ->
  exists r', (forall w, io_ReadFull n (r, w) = (Ok (b, None), (r', w))) /\
    rd_bytes r' = rest /\ rd_err r' = rd_err r.
Proof.
  intros Hr Hn. unfold io_ReadFull.
  destruct (ReadFull_spec (Z.to_nat n) r) as (r' & [H1 H2] & ->).
  exists r'. assert (Hb : Z.to_nat n = length b) by (unfold len in Hn; lia).
  rewrite Hr, Hb, length_app, (proj2 (Nat.leb_le _ _)), take_app_length by lia.
  split; [done|]. split; [|done]. rewrite H1. unfold rd_bytes at 1. simpl.
  by rewrite app_nil_r, Hr, Hb, drop_app_length.
Qed.

(** The error of a read that the reader cannot fill. *)
Definition short_error (r : reader) : error :=
  if bool_decide (rd_err r = EOF) && negb (bool_decide (rd_bytes r = []))
  then ErrUnexpectedEOF else rd_err r.

Lemma io_ReadFull_short n r :
  len (rd_bytes r) < n ->
  exists r', (forall w, io_ReadFull n (r, w) = (Ok (rd_bytes r, Some (short_error r)), (r', w))) /\
    rd_bytes r' = [] /\ rd_err r' = rd_err r.
Proof.
  intros Hn. unfold io_ReadFull, short_error.
  destruct (ReadFull_spec (Z.to_nat n) r) as (r' & [H1 H2] & ->).
  exists r'. unfold len in Hn. rewrite (proj2 (Nat.leb_gt _ _)), take_ge by lia.
  split; [by destruct (_ && _)|]. split; [|done]. rewrite H1. unfold rd_bytes at 1. simpl.
  by rewrite app_nil_r, drop_ge by lia.
Qed.

(** A read of [n] bytes: filled, or short. *)
Lemma read_cases n r : 0 <= n ->
  (exists b rest, rd_bytes r = b ++ rest /\ len b = n) \/ len (rd_bytes r) < n.
Proof.
  intros Hn. destruct (Z.ltb_spec (len (rd_bytes r)) n) as [H|H]; [auto|]. left.
  exists (take (Z.to_nat n) (rd_bytes r)), (drop (Z.to_nat n) (rd_bytes r)).
  rewrite take_drop. split; [done|]. unfold len in *. rewrite length_take. lia.
Qed.

Lemma Write_cases b w :
  (exists w', Write b w = (None, w') /\ wr_out w' = wr_out w ++ b) \/
  (exists e k w', Write b w = (Some e, w') /\ wr_out w' = wr_out w ++ take k b).
Proof.
  unfold Write. destruct (wr_plan w) as [|[[k e]|] plan]; [left| right|left]; eauto 10.
Qed.

Lemma io_Write_buffer b r o : io_Write b (r, buffer o) = (Ok tt, (r, buffer (o ++ b))).
Proof. done. Qed.

(** A write followed by a program that does not panic. *)
Lemma io_Write_panics {A} b (k : unit -> io A) r w :
  (forall w', panics (k tt (r, w')).1 = false) -> panics ((io_Write b ≫= k) (r, w)).1 = false.
Proof. intros Hk. unfold mbind, io_bind, io_Write. by destruct (Write b w) as [[e|] w']. Qed.

(** *** Nonces, associated data and length fields *)

Lemma PutUint32_bytes n :
  PutUint32 n = [to_byte (Z.shiftr (Z.shiftr (Z.shiftr n 8) 8) 8);
                 to_byte (Z.shiftr (Z.shiftr n 8) 8); to_byte (Z.shiftr n 8); to_byte n].
Proof. done. Qed.

Lemma makeStreamNonce_eq prefix n :
  len prefix = 8 -> makeStreamNonce prefix n = prefix ++ PutUint32 n.
Proof.
  intros H. assert (Hl : length prefix = 8%nat) by (unfold len in H; lia).
  destruct_list prefix Hl. done.
Qed.

Lemma len_makeStreamNonce prefix n : len prefix = 8 -> len (makeStreamNonce prefix n) = 12.
Proof. intros H. by rewrite makeStreamNonce_eq, len_app, H, len_PutUint32. Qed.

Lemma streamAAD_eq n last : streamAAD n last = PutUint32 n ++ [if last then x01 else x00].
Proof. by destruct last. Qed.

Lemma last_bit_test :
  forallb (fun b => let v := bval b in
    bool_decide (to_byte (Z.land (bval (to_byte (Z.lor v 128))) 127) = to_byte (Z.land v 127)) &&
    negb (Z.land (bval (to_byte (Z.lor v 128))) 128 =? 0) &&
    bool_decide (b = if negb (Z.land v 128 =? 0) then to_byte (Z.lor (bval (to_byte (Z.land v 127))) 128)
                     else to_byte (Z.land v 127)) &&
    (bval (to_byte (Z.land v 127)) <? 128) &&
    (if v <? 128 then bool_decide (to_byte (Z.land v 127) = b) && (Z.land v 128 =? 0) else true))
    all_bytes = true.
Proof. vm_compute. reflexivity. Qed.

Lemma last_bit b :
  to_byte (Z.land (bval (to_byte (Z.lor (bval b) 128))) 127) = to_byte (Z.land (bval b) 127) /\
  negb (Z.land (bval (to_byte (Z.lor (bval b) 128))) 128 =? 0) = true /\
  b = (if negb (Z.land (bval b) 128 =? 0)
       then to_byte (Z.lor (bval (to_byte (Z.land (bval b) 127))) 128)
       else to_byte (Z.land (bval b) 127)) /\
  bval (to_byte (Z.land (bval b) 127)) < 128 /\
  (bval b < 128 -> to_byte (Z.land (bval b) 127) = b /\ Z.land (bval b) 128 = 0).
Proof.
  pose proof (byte_forall _ last_bit_test b) as H. cbv beta zeta in H.
  apply andb_true_iff in H as [H H5]. apply andb_true_iff in H as [H H4].
  apply andb_true_iff in H as [H H3]. apply andb_true_iff in H as [H1 H2].
  split; [by apply bool_decide_eq_true in H1|]. split; [done|].
  split; [by apply bool_decide_eq_true in H3|]. split; [by apply Z.ltb_lt in H4|].
  intros Hb. rewrite (proj2 (Z.ltb_lt _ _)) in H5 by done.
  apply andb_true_iff in H5 as [H5 H6%Z.eqb_eq]. by apply bool_decide_eq_true in H5.
Qed.

(** The length field of a chunk. *)
Definition field_of (n : Z) (last : bool) : bytes :=
  if last then set_last (PutUint32 n) else PutUint32 n.

Lemma field_of_spec n last :
  0 <= n < 2 ^ 31 ->
  len (field_of n last) = 4 /\ test_last (field_of n last) = last /\
  clear_last (field_of n last) = PutUint32 n.
Proof.
  intros Hn. unfold field_of. rewrite PutUint32_bytes.
  set (b := to_byte (Z.shiftr (Z.shiftr (Z.shiftr n 8) 8) 8)).
  assert (Hb : bval b < 128).
  { unfold b. rewrite bval_to_byte.
    assert (Z.shiftr (Z.shiftr (Z.shiftr n 8) 8) 8 = n / 2 ^ 24) as ->
      by (rewrite !Z.shiftr_shiftr, Z.shiftr_div_pow2 by lia; done).
    assert (0 <= n / 2 ^ 24 < 128) by (split; [apply Z.div_pos|apply Z.div_lt_upper_bound]; lia).
    rewrite Z.mod_small; lia. }
  clearbody b. destruct (last_bit b) as (H1 & H2 & _ & _ & H5). destruct (H5 Hb) as [H6 H7].
  destruct last; simpl.
  - split; [done|]. split; [done|]. by rewrite H1, H6.
  - split; [done|]. rewrite H6, H7. done.
Qed.

Lemma field_of_length n last : 0 <= n < 2 ^ 31 -> be_get (clear_last (field_of n last)) = n.
Proof.
  intros Hn. destruct (field_of_spec n last Hn) as (_ & _ & ->). unfold PutUint32. rewrite be_get_put.
  apply Z.mod_small. simpl. lia.
Qed.

Lemma field_of_inv f :
  len f = 4 -> exists n, 0 <= n < 2 ^ 31 /\ f = field_of n (test_last f) /\
    clear_last f = PutUint32 n.
Proof.
  intros H. assert (Hl : length f = 4%nat) by (unfold len in H; lia). clear H.
  destruct_list f Hl. exists (be_get (clear_last [x; x0; x1; x2])).
  assert (Hp : clear_last [x; x0; x1; x2] = PutUint32 (be_get (clear_last [x; x0; x1; x2])))
    by (symmetry; apply (be_put_get (clear_last [x; x0; x1; x2]))).
  destruct (last_bit x) as (_ & _ & H3 & H4 & _).
  split; [|split; [|done]].
  - split; [apply be_get_range|]. cbn [clear_last].
    set (b := to_byte (Z.land (bval x) 127)) in *.
    change [b; x0; x1; x2] with ((([] ++ [b]) ++ [x0] ++ []) ++ [x1; x2]).
    change ((([] ++ [b]) ++ [x0] ++ []) ++ [x1; x2]) with (((([] ++ [b]) ++ [x0]) ++ [x1]) ++ [x2]).
    rewrite !be_get_snoc. change (be_get []) with 0.
    pose proof (bval_range x0); pose proof (bval_range x1); pose proof (bval_range x2). lia.
  - unfold field_of. rewrite <- Hp. cbn [test_last clear_last].
    rewrite H3 at 1. by destruct (negb _).
Qed.

(** ** The abstract format

    A stream is a header and a sequence of frames; the last frame, and only it, carries the
    mark.  [last] is [None] for a sequence that has not ended. *)

Definition header (prefix : bytes) : bytes := streamMagic ++ [streamVersion] ++ prefix.

Section frames.
Context (c : AEAD) (prefix : bytes).

Definition frame (n : Z) (last : bool) (p : bytes) : outcome bytes :=
  ct ← aead_Seal c [] (makeStreamNonce prefix n) p (streamAAD n last);
  Ok (field_of (len ct) last ++ ct).

Fixpoint frames (n : Z) (full : list bytes) (last : option bytes) : outcome bytes :=
  match full with
  | [] => match last with None => Ok [] | Some p => frame n true p end
  | p :: full' =>
      a ← frame n false p;
      b ← frames (u32 (n + 1)) full' last;
      Ok (a ++ b)
  end.
End frames.

(** The plaintext of a sequence of chunks. *)
Definition plain (full : list bytes) (last : option bytes) : bytes := mjoin full ++ default [] last.

(** A chunk whose sealed length fits the 31 bits of the length field. *)
Definition fits (p : bytes) : Prop := len p + 16 < 2 ^ 31.

(** How [SealStream] splits its input in chunks of [k] bytes: the last one is shorter, and empty
    when the input is a multiple of [k]. *)
Inductive splits (k : Z) : bytes -> list bytes -> bytes -> Prop :=
  | splits_last d : len d < k -> splits k d [] d
  | splits_full b d full last :
      len b = k -> splits k d full last -> splits k (b ++ d) (b :: full) last.

Lemma splits_total k d : 0 < k -> exists full last, splits k d full last.
Proof.
  intros Hk. induction d as [|d Hd IH] using (chunks_ind (Z.to_nat k) ltac:(lia)).
  - exists [], []. by constructor.
  - destruct (Z.ltb_spec (len d) k) as [Hl|Hl]; [exists [], d; by constructor|].
    destruct IH as (full & last & IH). exists (take (Z.to_nat k) d :: full), last.
    rewrite <- (take_drop (Z.to_nat k) d) at 1. constructor; [|done].
    unfold len in *. rewrite length_take. lia.
Qed.

Lemma splits_plain k d full last : splits k d full last -> plain full (Some last) = d.
Proof.
  unfold plain. induction 1 as [d Hd|b d full last Hb _ IH]; [done|]. simpl in *.
  by rewrite <- app_assoc, IH.
Qed.

(** The number of full chunks. *)
Lemma splits_count k d full last : 0 < k -> splits k d full last -> len full = len d / k.
Proof.
  intros Hk. induction 1 as [d Hd|b d full last Hb _ IH].
  - symmetry. apply Z.div_small. pose proof (len_nonneg d). lia.
  - rewrite len_cons, len_app, IH, Hb. replace (k + len d) with (len d + 1 * k) by lia.
    by rewrite Z.div_add by lia.
Qed.

Lemma splits_length k d full last :
  0 < k -> splits k d full last -> (length full <= length d)%nat /\ len last < k /\
  Forall (fun p => len p = k) full.
Proof.
  intros Hk. induction 1 as [d Hd|b d full last Hb _ (IH1 & IH2 & IH3)].
  - split; [simpl; lia|]. split; [done|constructor].
  - split; [|by split; [|constructor]]. rewrite length_app. simpl. unfold len in Hb. lia.
Qed.

(** Where the chunks lie in the input. *)
Lemma len_mjoin (k : Z) (ls : list bytes) : Forall (fun p => len p = k) ls -> len (mjoin ls) = k * len ls.
Proof.
  induction 1 as [|x l Hx _ IH]; [change (0 = k * 0); lia|]. change (mjoin (x :: l)) with (x ++ mjoin l).
  rewrite len_app, len_cons, IH, Hx. ring.
Qed.

Lemma splits_last_length k d full last : 0 < k -> splits k d full last -> len last = len d mod k.
Proof.
  intros Hk Hsp. destruct (splits_length k d full last Hk Hsp) as (_ & Hlt & Hall).
  rewrite <- (splits_plain _ _ _ _ Hsp). unfold plain. change (default [] (Some last)) with last.
  rewrite len_app, (len_mjoin k) by done. pose proof (len_nonneg last).
  rewrite Z.add_comm, Z.mul_comm, Z.mod_add by lia. by rewrite Z.mod_small by lia.
Qed.

Section frame_lemmas.
Context (c : AEAD) `{!AEADOk c gcm_max} (prefix : bytes) (Hprefix : len prefix = 8).

Lemma frame_run n last p :
  fits p ->
  exists ct, frame c prefix n last p = Ok (field_of (len ct) last ++ ct) /\
    len ct = len p + 16 /\
    aead_Seal c [] (makeStreamNonce prefix n) p (streamAAD n last) = Ok ct /\
    aead_Open c (makeStreamNonce prefix n) ct (streamAAD n last) = Ok p.
Proof.
  unfold fits. intros Hp.
  destruct (seal_open (makeStreamNonce prefix n) p (streamAAD n last)) as (ct & Hl & Hs & Ho).
  - by apply len_makeStreamNonce.
  - unfold gcm_max. lia.
  - exists ct. unfold frame. rewrite (Hs []). done.
Qed.

(** One chunk written by [seal_loop]. *)
Lemma frames_total n full last :
  Forall fits full -> match last with Some p => fits p | None => True end ->
  exists s, frames c prefix n full last = Ok s.
Proof.
  intros Hf Hl. revert n. induction Hf as [|p full Hp _ IH]; intros n; simpl.
  - destruct last as [p|]; [|eauto]. destruct (frame_run n true p Hl) as (ct & -> & _). eauto.
  - destruct (frame_run n false p Hp) as (ct & -> & _).
    destruct (IH (u32 (n + 1))) as [s ->]. simpl. eauto.
Qed.

(** *** One iteration of [open_loop] on a complete length field and body *)
Lemma open_step_body n r last ct rest :
  len ct < 2 ^ 31 -> rd_bytes r = (field_of (len ct) last ++ ct) ++ rest ->
  exists r', rd_bytes r' = rest /\ rd_err r' = rd_err r /\
    forall fuel w, open_loop (S fuel) c prefix n (r, w) =
      match aead_Open c (makeStreamNonce prefix n) ct (streamAAD n last) with
      | Ok p =>
          match Write p w with
          | (Some e, w') => (Err e, (r', w'))
          | (None, w') =>
              if last then (Ok tt, (r', w')) else open_loop fuel c prefix (u32 (n + 1)) (r', w')
          end
      | Err e => (Err (Wrapf "%w: chunk %d: %v" ErrTampered), (r', w))
      | Panic m => (Panic m, (r', w))
      end.
Proof.
  intros Hl Hr. rewrite <- app_assoc in Hr. pose proof (len_nonneg ct).
  destruct (field_of_spec (len ct) last ltac:(lia)) as (Hf4 & Ht & Hc).
  destruct (io_ReadFull_app 4 r _ _ Hr Hf4) as (r1 & H1 & Hr1 & He1).
  destruct (io_ReadFull_app (len ct) r1 _ _ Hr1 eq_refl) as (r2 & H2 & Hr2 & He2).
  exists r2. split; [done|]. split; [congruence|]. intros fuel w.
  cbn [open_loop]. rewrite (io_bind_Ok _ _ _ _ _ (H1 w)). cbv beta iota.
  rewrite (io_lift_bind _ tt) by done. rewrite Ht, Hc.
  rewrite (io_lift_bind _ (len ct)).
  2: { rewrite <- (app_nil_r (PutUint32 _)), Uint32_put. f_equal. apply Z.mod_small. lia. }
  rewrite (io_bind_Ok _ _ _ _ _ (H2 w)). cbv beta iota.
  rewrite (io_lift_bind _ tt) by done. cbv zeta.
  destruct (aead_Open _ _ _ _) as [p|e|m]; [|done..].
  rewrite (io_lift_bind _ p) by done.
  unfold mbind, io_bind, io_Write. destruct (Write p w) as [[e|] w']; [done|].
  by destruct last.
Qed.

(** On a well-formed frame. *)
Lemma open_step n r p last s rest :
  frame c prefix n last p = Ok s -> fits p -> rd_bytes r = s ++ rest ->
  exists r', rd_bytes r' = rest /\ rd_err r' = rd_err r /\
    forall fuel w, open_loop (S fuel) c prefix n (r, w) =
      match Write p w with
      | (Some e, w') => (Err e, (r', w'))
      | (None, w') =>
          if last then (Ok tt, (r', w')) else open_loop fuel c prefix (u32 (n + 1)) (r', w')
      end.
Proof.
  intros Hf Hp Hr. destruct (frame_run n last p Hp) as (ct & Hf' & Hl & _ & Ho).
  assert (s = field_of (len ct) last ++ ct) as -> by congruence. unfold fits in Hp.
  destruct (open_step_body n r last ct rest ltac:(lia) Hr) as (r' & Hr' & He & Hstep).
  exists r'. split; [done|]. split; [done|]. intros fuel w. by rewrite Hstep, Ho.
Qed.

(** Any other input ends the loop with an error and writes nothing. *)
Lemma open_step_cases fuel n r w :
  (exists e r', open_loop (S fuel) c prefix n (r, w) = (Err e, (r', w))) \/
  (exists p last s rest, frame c prefix n last p = Ok s /\ fits p /\ rd_bytes r = s ++ rest).
Proof.
  cbn [open_loop].
  destruct (read_cases 4 r ltac:(lia)) as [(f & rest & Hr & Hf)|Hr].
  2: { destruct (io_ReadFull_short 4 r Hr) as (r1 & H1 & _).
       rewrite (io_bind_Ok _ _ _ _ _ (H1 w)). cbv beta iota. left.
       destruct (short_error r); eexists _, r1; reflexivity. }
  destruct (io_ReadFull_app 4 r _ _ Hr Hf) as (r1 & H1 & Hr1 & _).
  rewrite (io_bind_Ok _ _ _ _ _ (H1 w)). cbv beta iota.
  rewrite (io_lift_bind _ tt) by done.
  destruct (field_of_inv f Hf) as (m & Hm & Hfield & Hc). rewrite Hc.
  rewrite (io_lift_bind _ m).
  2: { rewrite <- (app_nil_r (PutUint32 _)), Uint32_put. f_equal. apply Z.mod_small. lia. }
  set (last := test_last f) in *.
  destruct (read_cases m r1 ltac:(lia)) as [(ct & rest' & Hr2 & Hct)|Hr2].
  2: { destruct (io_ReadFull_short m r1 Hr2) as (r2 & H2 & _).
       rewrite (io_bind_Ok _ _ _ _ _ (H2 w)). left. eexists _, r2. by apply io_bind_Err. }
  destruct (io_ReadFull_app m r1 _ _ Hr2 Hct) as (r2 & H2 & _).
  rewrite (io_bind_Ok _ _ _ _ _ (H2 w)). cbv beta iota.
  rewrite (io_lift_bind _ tt) by done. cbv zeta.
  assert (Hnp : panics (aead_Open c (makeStreamNonce prefix n) ct (streamAAD n last)) = false).
  { apply (open_no_panic (maxp:=gcm_max)); [by apply len_makeStreamNonce|]. unfold gcm_max. lia. }
  destruct (aead_Open c (makeStreamNonce prefix n) ct (streamAAD n last)) as [p|e|m'] eqn:Ho;
    [|left; eexists _, r2; by apply io_bind_Err|done].
  right. apply open_seal in Ho as (Hn & Hp & Hs).
  destruct (seal_open (makeStreamNonce prefix n) p (streamAAD n last) Hn Hp) as (ct' & Hl & Hs' & _).
  assert (ct' = ct) as -> by (specialize (Hs []); rewrite Hs' in Hs; by injection Hs).
  exists p, last, (f ++ ct), rest'. split; [|split].
  - unfold frame. rewrite (Hs []). cbn [mbind outcome_bind app]. by rewrite Hct, <- Hfield.
  - unfold fits. lia.
  - by rewrite Hr, <- Hr1, Hr2, app_assoc.
Qed.
End frame_lemmas.

(** ** The loops against the format *)

Section loops.
Context (c : AEAD) `{!AEADOk c gcm_max} (prefix : bytes) (Hprefix : len prefix = 8).

Lemma frame_length n last p s :
  fits p -> frame c prefix n last p = Ok s -> len s = len p + 20.
Proof.
  intros Hp Hs. destruct (frame_run c prefix Hprefix n last p Hp) as (ct & Hf & Hl & _).
  assert (s = field_of (len ct) last ++ ct) as -> by congruence.
  pose proof (len_nonneg p). unfold fits in Hp.
  rewrite len_app. destruct (field_of_spec (len ct) last) as [-> _]; lia.
Qed.

Lemma frames_cons n p full last a s :
  frame c prefix n false p = Ok a -> frames c prefix (u32 (n + 1)) full last = Ok s ->
  frames c prefix n (p :: full) last = Ok (a ++ s).
Proof. intros Ha Hs. simpl. rewrite Ha. simpl. by rewrite Hs. Qed.

(** Reading unfinished frames: the loop goes on after them, with the counter of the next chunk. *)
Lemma open_loop_prefix n full s rest r :
  frames c prefix n full None = Ok s -> Forall fits full -> rd_bytes r = s ++ rest ->
  exists r', rd_bytes r' = rest /\ rd_err r' = rd_err r /\
    forall fuel o, open_loop (length full + fuel) c prefix n (r, buffer o) =
      open_loop fuel c prefix (Nat.iter (length full) (fun n => u32 (n + 1)) n) (r', buffer (o ++ mjoin full)).
Proof.
  intros Hs Hf. revert n s r Hs. induction Hf as [|p full Hp _ IH]; intros n s r Hs Hr.
  - injection Hs as <-. exists r. repeat split; [done|intros fuel o; by rewrite app_nil_r].
  - simpl in Hs. apply bind_Ok_inv in Hs as (a & Ha & Hs).
    apply bind_Ok_inv in Hs as (b & Hb & [= <-]). rewrite <- app_assoc in Hr.
    destruct (open_step c prefix Hprefix n r p false a _ Ha Hp Hr) as (r1 & Hr1 & He1 & Hstep).
    destruct (IH (u32 (n + 1)) b r1 Hb Hr1) as (r2 & Hr2 & He2 & Hrun).
    exists r2. split; [done|]. split; [congruence|].
    intros fuel o. cbn [length Nat.add]. rewrite Hstep. cbn [Write wr_plan buffer wr_out].
    change {| wr_out := o ++ p; wr_plan := [] |} with (buffer (o ++ p)).
    rewrite Hrun, Nat.iter_succ_r. cbn [mjoin list_join]. by rewrite app_assoc.
Qed.

(** Reading a whole stream into a buffer, whatever follows it. *)
Lemma open_loop_frames n full last s rest r fuel o :
  frames c prefix n full (Some last) = Ok s -> Forall fits full -> fits last ->
  rd_bytes r = s ++ rest -> (length full < fuel)%nat ->
  exists r', rd_bytes r' = rest /\ rd_err r' = rd_err r /\
    open_loop fuel c prefix n (r, buffer o) =
      (Ok tt, (r', buffer (o ++ plain full (Some last)))).
Proof.
  intros Hs Hf Hl. revert n s r fuel o Hs.
  induction Hf as [|p full Hp _ IH]; intros n s r [|fuel] o Hs Hr Hfuel; [simpl in *; lia| |simpl in *; lia|].
  - destruct (open_step c prefix Hprefix n r last true s rest Hs Hl Hr) as (r1 & Hr1 & He1 & ->).
    exists r1. done.
  - simpl in Hs. apply bind_Ok_inv in Hs as (a & Ha & Hs).
    apply bind_Ok_inv in Hs as (b & Hb & [= <-]). rewrite <- app_assoc in Hr.
    destruct (open_step c prefix Hprefix n r p false a _ Ha Hp Hr) as (r1 & Hr1 & He1 & ->).
    destruct (IH (u32 (n + 1)) b r1 fuel (o ++ p) Hb Hr1) as (r2 & Hr2 & He2 & Hrun);
      [simpl in Hfuel; lia|].
    exists r2. split; [done|]. split; [congruence|]. cbn [Write wr_plan buffer wr_out].
    change {| wr_out := o ++ p; wr_plan := [] |} with (buffer (o ++ p)). rewrite Hrun.
    unfold plain. cbn [mjoin list_join default]. by rewrite <- !app_assoc.
Qed.

Lemma prefix_of_app_plain p full last x : x `prefix_of` plain full last -> p ++ x `prefix_of` plain (p :: full) last.
Proof. intros [k Hk]. exists k. unfold plain in *. simpl. by rewrite <- !app_assoc, Hk. Qed.

(** What the loop can do on any input, with any writer. *)
Lemma open_loop_inv fuel n r w o r' w' :
  (length (rd_bytes r) < fuel)%nat -> open_loop fuel c prefix n (r, w) = (o, (r', w')) ->
  panics o = false /\
  exists full last s rest x, rd_bytes r = s ++ rest /\ frames c prefix n full last = Ok s /\
    Forall fits full /\ match last with Some p => fits p | None => True end /\
    wr_out w' = wr_out w ++ x /\ x `prefix_of` plain full last /\
    (o = Ok tt -> last <> None /\ x = plain full last /\ rd_bytes r' = rest).
Proof.
  revert n r w. induction fuel as [|fuel IH]; intros n r w Hfuel H; [lia|].
  destruct (open_step_cases c prefix Hprefix fuel n r w) as [(e & r1 & E)|Hframe].
  { rewrite E in H. injection H as <- <- <-. split; [done|].
    exists [], None, [], (rd_bytes r), []. rewrite app_nil_r.
    repeat split; try apply prefix_nil; try done; constructor. }
  destruct Hframe as (p & last & s & rest & Hf & Hp & Hr).
  destruct (open_step c prefix Hprefix n r p last s rest Hf Hp Hr) as (r1 & Hr1 & _ & Hstep).
  rewrite Hstep in H.
  destruct (Write_cases p w) as [(w1 & Hw & Hout)|(e & k & w1 & Hw & Hout)]; rewrite Hw in H.
  - destruct last.
    + injection H as <- <- <-. split; [done|]. exists [], (Some p), s, rest, p. 
      repeat split; try done; constructor.
    + assert (Hlen := frame_length n false p s Hp Hf).
      destruct (IH (u32 (n + 1)) r1 w1) as (Hno & full & last & s' & rest' & x & H1 & H2 & H3 & H4 & H5 & H6 & H7).
      { rewrite Hr, length_app in Hfuel. rewrite Hr1. pose proof (len_nonneg p). unfold len in *. lia. }
      { done. }
      split; [done|]. exists (p :: full), last, (s ++ s'), rest', (p ++ x).
      split; [by rewrite Hr, <- Hr1, H1, app_assoc|]. split; [by apply frames_cons|].
      split; [by constructor|]. split; [done|].
      split; [by rewrite H5, Hout, app_assoc|].
      split; [by apply prefix_of_app_plain|].
      intros Ho. destruct (H7 Ho) as (Hl & -> & Hrest). split; [done|]. split; [|done].
      unfold plain. simpl. by rewrite app_assoc.
  - injection H as <- <- <-. split; [done|].
    assert (Hpre : take k p `prefix_of` p) by apply prefix_take.
    destruct last.
    + exists [], (Some p), s, rest, (take k p). repeat split; try done; constructor.
    + exists [p], None, s, rest, (take k p).
      split; [done|]. split; [simpl; rewrite Hf; simpl; by rewrite app_nil_r|].
      split; [by constructor|]. repeat split; try done.
      unfold plain. simpl. by rewrite !app_nil_r.
Qed.
End loops.

(** ** The writer side *)

Definition ends_input (r : reader) : Prop := rd_err r = EOF \/ rd_err r = ErrUnexpectedEOF.

Section seal.
Context (c : AEAD) `{!AEADOk c gcm_max} (prefix : bytes) (Hprefix : len prefix = 8).
Context (k : Z) (Hk : 0 < k <= streamMaxChunkSize).

Lemma chunk_fits p : len p <= k -> fits p.
Proof. unfold fits, streamMaxChunkSize in *. lia. Qed.

(** One iteration, up to the two writes. *)
Lemma seal_step n r fuel :
  exists buf last r', len buf <= k /\ (last = false -> (length (rd_bytes r') < length (rd_bytes r))%nat) /\
    rd_bytes r = buf ++ rd_bytes r' /\ rd_err r' = rd_err r /\
    (len buf = k -> last = false) /\ (len buf < k -> rd_bytes r' = []) /\
    ((~ ends_input r /\ forall w, seal_loop (S fuel) c prefix k n (r, w) = (Err (rd_err r), (r', w))) \/
     (exists ct, frame c prefix n last buf = Ok (field_of (len ct) last ++ ct) /\
        (len buf < k -> last = true) /\ (last = true -> ends_input r) /\
        forall w, seal_loop (S fuel) c prefix k n (r, w) =
          (io_Write (field_of (len ct) last);; io_Write ct;;
           if last then mret tt else seal_loop fuel c prefix k (u32 (n + 1))) (r', w))).
Proof.
  cbn [seal_loop]. destruct (read_cases k r ltac:(lia)) as [(b & rest & Hr & Hb)|Hr].
  - destruct (io_ReadFull_app k r _ _ Hr Hb) as (r1 & H1 & Hr1 & He1).
    exists b, false, r1. rewrite Hr1. split; [lia|].
    split; [intros _; rewrite Hr, length_app; unfold len in Hb; lia|].
    split; [done|]. split; [done|]. split; [done|]. split; [lia|]. right.
    destruct (frame_run c prefix Hprefix n false b) as (ct & Hf & Hl & Hs & _);
      [apply chunk_fits; lia|].
    exists ct. split; [done|]. split; [lia|]. split; [done|]. intros w.
    rewrite (io_bind_Ok _ _ _ _ _ (H1 w)). cbv beta iota.
    rewrite (io_lift_bind _ false) by done. cbv zeta. rewrite (io_lift_bind _ ct) by done.
    unfold field_of. assert (PutUint32 (u32 (len ct)) = PutUint32 (len ct)) as -> by apply (be_put_mod 4).
    done.
  - destruct (io_ReadFull_short k r Hr) as (r1 & H1 & Hr1 & He1).
    exists (rd_bytes r), true, r1. rewrite Hr1, app_nil_r. split; [lia|]. split; [done|].
    split; [done|]. split; [done|]. split; [lia|]. split; [done|].
    assert (Hcase : (ends_input r /\ (short_error r = EOF \/ short_error r = ErrUnexpectedEOF)) \/
                    (~ ends_input r /\ short_error r = rd_err r)).
    { unfold ends_input, short_error. destruct (rd_err r); simpl;
        try (right; split; [intros [?|?]; discriminate|done]); left; (split; [auto|]);
        destruct (bool_decide (rd_bytes r = [])); simpl; auto. }
    destruct Hcase as [[Hin He]|[Hne He]].
    + right. destruct (frame_run c prefix Hprefix n true (rd_bytes r)) as (ct & Hf & Hl & Hs & _);
        [apply chunk_fits; lia|].
      exists ct. split; [done|]. split; [done|]. split; [done|]. intros w.
      rewrite (io_bind_Ok _ _ _ _ _ (H1 w)). cbv beta iota.
      rewrite (io_lift_bind _ true) by (by destruct He as [-> | ->]). cbv zeta.
      rewrite (io_lift_bind _ ct) by done.
      unfold field_of. assert (PutUint32 (u32 (len ct)) = PutUint32 (len ct)) as -> by apply (be_put_mod 4).
      done.
    + left. split; [done|]. intros w. rewrite (io_bind_Ok _ _ _ _ _ (H1 w)). cbv beta iota.
      apply io_bind_Err. rewrite He. unfold io_lift.
      destruct (rd_err r) eqn:E; try done; destruct Hne; unfold ends_input; rewrite E; auto.
Qed.

(** With any writer, the loop ends within its fuel and does not panic. *)
Lemma seal_loop_no_panic fuel n r w :
  (length (rd_bytes r) < fuel)%nat -> panics (seal_loop fuel c prefix k n (r, w)).1 = false.
Proof.
  revert n r w; induction fuel as [|fuel IH]; intros n r w Hf; [lia|].
  destruct (seal_step n r fuel) as (buf & last & r' & _ & Hlt & _ & _ & _ & _ &
    [(_ & ->)|(ct & _ & _ & _ & ->)]); [done|].
  unfold mbind, io_bind, io_Write. destruct (Write _ w) as [[e|] w1]; [done|].
  destruct (Write ct w1) as [[e|] w2]; [done|]. destruct last; [done|].
  apply IH. specialize (Hlt eq_refl). lia.
Qed.

(** Success means that the input ended and that every write was complete. *)
Lemma seal_loop_Ok fuel n r w r' w' :
  seal_loop fuel c prefix k n (r, w) = (Ok tt, (r', w')) ->
  ends_input r /\ exists out, wr_out w' = wr_out w ++ out /\
    forall o, seal_loop fuel c prefix k n (r, buffer o) = (Ok tt, (r', buffer (o ++ out))).
Proof.
  revert n r w; induction fuel as [|fuel IH]; intros n r w H; [done|].
  destruct (seal_step n r fuel) as (buf & last & r1 & _ & _ & _ & He & _ & _ &
    [(_ & E)|(ct & _ & _ & Hin & E)]); rewrite E in H; [done|].
  unfold mbind, io_bind, io_Write in H.
  destruct (Write_cases (field_of (len ct) last) w) as [(w1 & E1 & Ho1)|(e & j & w1 & E1 & _)];
    rewrite E1 in H; [|done].
  destruct (Write_cases ct w1) as [(w2 & E2 & Ho2)|(e & j & w2 & E2 & _)]; rewrite E2 in H; [|done].
  rewrite Ho1, <- app_assoc in Ho2. destruct last.
  - injection H as <- <-. split; [auto|]. exists (field_of (len ct) true ++ ct). split; [done|].
    intros o. rewrite E. unfold mbind, io_bind. rewrite !io_Write_buffer. by rewrite app_assoc.
  - apply IH in H as (Hr1 & out & Ho & Hrun). split; [unfold ends_input in *; by rewrite He in Hr1|].
    exists ((field_of (len ct) false ++ ct) ++ out). split; [by rewrite Ho, Ho2, <- !app_assoc|].
    intros o. rewrite E. unfold mbind, io_bind. by rewrite !io_Write_buffer, Hrun, <- !app_assoc.
Qed.

(** Any other error of the reader is returned, after the full chunks have been written. *)
Lemma seal_loop_read_error fuel n r o :
  ~ ends_input r -> (length (rd_bytes r) < fuel)%nat ->
  (seal_loop fuel c prefix k n (r, buffer o)).1 = Err (rd_err r).
Proof.
  revert n r o; induction fuel as [|fuel IH]; intros n r o Hne Hf; [lia|].
  destruct (seal_step n r fuel) as (buf & last & r1 & _ & Hlt & _ & He & _ & _ &
    [(_ & ->)|(ct & _ & _ & Hin & ->)]); [done|].
  destruct last; [by destruct Hne; auto|]. specialize (Hlt eq_refl).
  unfold mbind, io_bind. rewrite !io_Write_buffer. rewrite IH; [by rewrite He| |lia].
  unfold ends_input in *. by rewrite He.
Qed.

(** Two readers with the same bytes, both at an end the loop accepts, are sealed alike, whatever the writer. *)
Lemma seal_loop_ends fuel n r1 r2 w :
  rd_bytes r1 = rd_bytes r2 -> ends_input r1 -> ends_input r2 ->
  (seal_loop fuel c prefix k n (r1, w)).1 = (seal_loop fuel c prefix k n (r2, w)).1 /\
  (seal_loop fuel c prefix k n (r1, w)).2.2 = (seal_loop fuel c prefix k n (r2, w)).2.2.
Proof.
  revert n r1 r2 w; induction fuel as [|fuel IH]; intros n r1 r2 w Hr E1 E2; [done|].
  destruct (seal_step n r1 fuel) as (b1 & l1 & r1' & Hb1 & _ & Hr1 & He1 & Hf1 & Hs1 &
    [(Hn & _)|(c1 & F1 & L1 & _ & ->)]); [done|].
  destruct (seal_step n r2 fuel) as (b2 & l2 & r2' & Hb2 & _ & Hr2 & He2 & Hf2 & Hs2 &
    [(Hn & _)|(c2 & F2 & L2 & _ & ->)]); [done|].
  rewrite Hr1, Hr2 in Hr.
  assert (Hsame : b1 = b2 /\ l1 = l2 /\ rd_bytes r1' = rd_bytes r2').
  { pose proof (f_equal len Hr) as Hl. rewrite !len_app in Hl.
    pose proof (len_nonneg (rd_bytes r1')). pose proof (len_nonneg (rd_bytes r2')).
    destruct (Z.ltb_spec (len b1) k) as [H1|H1], (Z.ltb_spec (len b2) k) as [H2|H2].
    - rewrite (Hs1 H1), (Hs2 H2), !app_nil_r in Hr. by rewrite L1, L2, Hs1, Hs2 by done.
    - rewrite (Hs1 H1), len_nil in Hl. lia.
    - rewrite (Hs2 H2), len_nil in Hl. lia.
    - apply app_inj_1 in Hr as [-> ->]; [|unfold len in *; lia]. by rewrite Hf1, Hf2 by lia. }
  destruct Hsame as (<- & <- & Hr'). assert (c1 = c2) as <-.
  { rewrite F1 in F2. injection F2 as F2. apply (f_equal (drop 4)) in F2.
    rewrite !drop_app_len in F2 by (by destruct l1). done. }
  unfold mbind, io_bind, io_Write. destruct (Write _ w) as [[e|] w1]; [done|].
  destruct (Write c1 w1) as [[e|] w2]; [done|]. destruct l1; [done|].
  apply IH; unfold ends_input in *; by rewrite ?He1, ?He2.
Qed.

(** Into a buffer, the loop writes the frames of the input's chunks. *)
Lemma seal_loop_frames d full last n r fuel o :
  splits k d full last -> rd_bytes r = d -> ends_input r -> (length full < fuel)%nat ->
  exists r' s, frames c prefix n full (Some last) = Ok s /\
    seal_loop fuel c prefix k n (r, buffer o) = (Ok tt, (r', buffer (o ++ s))).
Proof.
  intros Hsp. revert n r fuel o.
  induction Hsp as [d Hd|b d full last Hb _ IH]; intros n r [|fuel] o Hr He Hf;
    simpl in Hf; try lia;
    destruct (seal_step n r fuel) as
      (buf & lst & r' & Hle & _ & Hsplit & He' & Hfull & Hshort &
       [(Hne & _)|(ct & Hframe & Hlast & _ & ->)]); try done; rewrite Hr in Hsplit.
  - assert (Hlt : len buf < k) by (rewrite Hsplit, len_app in Hd; pose proof (len_nonneg (rd_bytes r')); lia).
    assert (d = buf) as -> by (by rewrite Hsplit, (Hshort Hlt), app_nil_r).
    rewrite (Hlast Hlt) in *. exists r', (field_of (len ct) true ++ ct). split; [done|].
    unfold mbind, io_bind. rewrite !io_Write_buffer. by rewrite app_assoc.
  - destruct (Z.ltb_spec (len buf) k) as [Hlt|Hge].
    { rewrite (Hshort Hlt), app_nil_r in Hsplit. subst buf. rewrite len_app in Hlt.
      pose proof (len_nonneg d). lia. }
    assert (buf = b /\ rd_bytes r' = d) as [-> Hd].
    { apply app_inj_1 in Hsplit as [-> ->]; [done|]. unfold len in *. lia. }
    rewrite (Hfull Hb) in *.
    destruct (IH (u32 (n + 1)) r' fuel (o ++ field_of (len ct) false ++ ct) Hd) as (r2 & s & Hs & Hrun);
      [unfold ends_input; by rewrite He'|lia|].
    exists r2, ((field_of (len ct) false ++ ct) ++ s). split; [by apply frames_cons|].
    unfold mbind, io_bind. rewrite !io_Write_buffer, <- app_assoc, Hrun, <- !app_assoc. done.
Qed.
End seal.

(** ** The two operations *)

(** Past the checks: the header is written, then the loop runs. *)
Lemma SealStream_body key c r w k env env' prefix :
  len key = 32 -> gcm_of_key key = Ok c -> 0 < k <= streamMaxChunkSize ->
  ReadRand 8 env = (Ok prefix, env') ->
  SealStream key r w k env =
    let '(o, (_, w')) :=
      (io_Write streamMagic;; io_Write [streamVersion];; io_Write prefix;;
       seal_loop (S (length (rd_bytes r))) c prefix k 0) (r, w) in (o, w', env').
Proof.
  intros Hkey Hc Hk Hrand. unfold SealStream. change AEADKeySize with 32. rewrite Hkey, Z.eqb_refl.
  cbn [negb]. rewrite (proj2 (Z.leb_gt _ _)), (proj2 (Z.ltb_ge _ _)) by lia. cbn [orb].
  change (NewCipher key ≫= (fun block => NewGCM block)) with (gcm_of_key key). rewrite Hc.
  change streamNoncePrefix with 8. by rewrite Hrand.
Qed.

Lemma SealStream_run key c r k env full last o :
  len key = 32 -> gcm_of_key key = Ok c -> 0 < k <= streamMaxChunkSize -> has_random 8 env ->
  ends_input r -> splits k (rd_bytes r) full last ->
  exists s env', frames c (next_random 8 env) 0 full (Some last) = Ok s /\
    SealStream key r (buffer o) k env =
      (Ok tt, buffer (o ++ header (next_random 8 env) ++ s), env') /\ after_random 8 env env'.
Proof.
  intros Hkey Hc Hk Hr He Hsp. pose proof (gcm_of_key_ok _ _ Hc) as Hok.
  destruct (ReadRand_Ok 8 env ltac:(lia) Hr) as (env' & Hrand & Ha).
  pose proof (len_next_random 8 env ltac:(lia) Hr) as Hp.
  destruct (splits_length k _ _ _ ltac:(lia) Hsp) as (Hlen & _ & _).
  destruct (seal_loop_frames c (next_random 8 env) Hp k Hk _ _ _ 0 r (S (length (rd_bytes r)))
    (o ++ streamMagic ++ [streamVersion] ++ next_random 8 env) Hsp eq_refl He) as (r' & s & Hs & Hrun);
    [lia|].
  exists s, env'. split; [done|]. split; [|done].
  rewrite (SealStream_body key c r (buffer o) k env env' (next_random 8 env)) by done.
  rewrite !(io_bind_Ok _ _ _ _ _ (io_Write_buffer _ _ _)), <- !app_assoc, Hrun.
  unfold header. by rewrite <- !app_assoc.
Qed.

(** The checks, whatever the reader and the writer. *)
Lemma SealStream_cases key k env :
  (exists e env', forall r w, SealStream key r w k env = (Err e, w, env')) \/
  (exists c prefix env', len key = 32 /\ gcm_of_key key = Ok c /\ 0 < k <= streamMaxChunkSize /\
     ReadRand 8 env = (Ok prefix, env') /\ len prefix = 8).
Proof.
  unfold SealStream. change AEADKeySize with 32.
  destruct (Z.eqb_spec (len key) 32) as [Hkey|Hkey]; [|left; eauto]. cbn [negb].
  destruct ((k <=? 0) || (streamMaxChunkSize <? k)) eqn:Hk; [left; eauto|]. b2p.
  destruct (gcm_of_key_Ok key Hkey) as (c & Hc & Hok).
  change (NewCipher key ≫= (fun block => NewGCM block)) with (gcm_of_key key). rewrite Hc.
  change streamNoncePrefix with 8.
  destruct (ReadRand_cases 8 env ltac:(lia)) as [(env' & Hrand & Hr & _)|(e & env' & Hrand & _)];
    rewrite Hrand; [right|left; eauto].
  exists c, (next_random 8 env), env'. split; [done|]. split; [done|]. split; [lia|].
  split; [done|]. apply len_next_random; [lia|done].
Qed.

(** [SealStream] does not tell the two ends of an input apart. *)
Lemma SealStream_ends key r1 r2 w k env :
  rd_bytes r1 = rd_bytes r2 -> ends_input r1 -> ends_input r2 ->
  SealStream key r1 w k env = SealStream key r2 w k env.
Proof.
  intros Hr E1 E2.
  destruct (SealStream_cases key k env) as [(e & env' & Hno)|(c & prefix & env' & Hkey & Hc & Hk & Hrand & Hp)];
    [by rewrite !Hno|].
  rewrite !(SealStream_body key c _ w k env env' prefix), Hr by done. pose proof (gcm_of_key_ok _ _ Hc) as Hok.
  set (loop := seal_loop _ _ _ _ _). unfold mbind, io_bind, io_Write.
  destruct (Write streamMagic w) as [[e|] w1]; [done|]. destruct (Write [streamVersion] w1) as [[e|] w2]; [done|].
  destruct (Write prefix w2) as [[e|] w3]; [done|].
  destruct (seal_loop_ends c prefix Hp k Hk (S (length (rd_bytes r2))) 0 r1 r2 w3 Hr E1 E2) as [H1 H2]. fold loop in H1, H2.
  destruct (loop (r1, w3)) as [o1 [r1' w1']], (loop (r2, w3)) as [o2 [r2' w2']]. cbn [fst snd] in *. by subst.
Qed.

(** Every other error of the reader is returned. *)
Lemma SealStream_read_error key r o k env :
  len key = 32 -> 0 < k <= streamMaxChunkSize -> has_random 8 env -> ~ ends_input r ->
  (SealStream key r (buffer o) k env).1.1 = Err (rd_err r).
Proof.
  intros Hkey Hk Hr Hne. destruct (gcm_of_key_Ok key Hkey) as (c & Hc & Hok).
  destruct (ReadRand_Ok 8 env ltac:(lia) Hr) as (env' & Hrand & _).
  pose proof (len_next_random 8 env ltac:(lia) Hr) as Hp.
  rewrite (SealStream_body key c _ _ k env env' _ Hkey Hc Hk Hrand), !(io_bind_Ok _ _ _ _ _ (io_Write_buffer _ _ _)).
  pose proof (seal_loop_read_error c _ Hp k Hk (S (length (rd_bytes r))) 0 r
    (((o ++ streamMagic) ++ [streamVersion]) ++ next_random 8 env) Hne ltac:(lia)) as Hl.
  by destruct (seal_loop _ _ _ _ _ _) as [o' [r' w']].
Qed.

(** Success means that the input ended and that the writer has everything. *)
Lemma SealStream_success key r w k env :
  let '(o, w', env') := SealStream key r w k env in
  panics o = false /\
  (o = Ok tt -> ends_input r /\
     exists out, SealStream key r (buffer []) k env = (Ok tt, buffer out, env') /\
       wr_out w' = wr_out w ++ out).
Proof.
  destruct (SealStream_cases key k env) as [(e & env' & Hno)|(c & prefix & env' & Hkey & Hc & Hk & Hrand & Hp)].
  { by rewrite Hno. }
  rewrite !(SealStream_body key c _ _ k env env' prefix) by done.
  pose proof (gcm_of_key_ok _ _ Hc) as Hok. set (loop := seal_loop _ _ _ _ _).
  unfold mbind, io_bind, io_Write at 1 2 3.
  destruct (Write_cases streamMagic w) as [(w1 & -> & H1)|(e & j & w1 & -> & _)]; [|done].
  destruct (Write_cases [streamVersion] w1) as [(w2 & -> & H2)|(e & j & w2 & -> & _)]; [|done].
  destruct (Write_cases prefix w2) as [(w3 & -> & H3)|(e & j & w3 & -> & _)]; [|done].
  pose proof (seal_loop_no_panic c prefix Hp k Hk (S (length (rd_bytes r))) 0 r w3 ltac:(lia)) as Hn.
  fold loop in Hn. destruct (loop (r, w3)) as [o [r' w']] eqn:E. split; [exact Hn|]. intros ->.
  apply seal_loop_Ok in E as (Hin & out & Ho & Hrun); [|done..]. split; [exact Hin|].
  exists (header prefix ++ out). rewrite Ho, H3, H2, H1. rewrite !io_Write_buffer. fold loop in Hrun.
  rewrite Hrun. unfold header. by rewrite <- !app_assoc.
Qed.

Lemma len_header prefix : len prefix = 8 -> len (header prefix) = 13.
Proof. intros H. unfold header. by rewrite !len_app, H. Qed.

Lemma OpenStream_run key c r rest prefix :
  len key = 32 -> gcm_of_key key = Ok c -> len prefix = 8 -> rd_bytes r = header prefix ++ rest ->
  exists r', rd_bytes r' = rest /\ rd_err r' = rd_err r /\
    forall w, OpenStream key r w = open_all c prefix (r', w).
Proof.
  intros Hkey Hc Hp Hr.
  destruct (io_ReadFull_app 13 r _ _ Hr (len_header prefix Hp)) as (r1 & H1 & Hr1 & He1).
  exists r1. split; [done|]. split; [done|]. intros w.
  unfold OpenStream. change AEADKeySize with 32. rewrite Hkey, Z.eqb_refl. cbn [negb].
  change streamHeaderSize with 13. rewrite (io_bind_Ok _ _ _ _ _ (H1 w)). cbv beta iota.
  rewrite (io_lift_bind _ tt) by done.
  assert (length prefix = 8%nat) as Hl by (unfold len in Hp; lia).
  destruct_list prefix Hl. pose proof Hc as (b & Hb & Hg)%bind_Ok_inv.
  rewrite (io_lift_bind _ streamMagic) by done. rewrite bool_decide_eq_true_2 by done. cbn [negb].
  rewrite (io_lift_bind _ streamVersion) by done. rewrite bool_decide_eq_true_2 by done. cbn [negb].
  erewrite io_lift_bind by reflexivity.
  rewrite (io_lift_bind _ _ _ _ Hb), (io_lift_bind _ _ _ _ Hg). done.
Qed.

(** Everything else is an error before anything is written. *)
Lemma OpenStream_cases key r w :
  (exists e r', OpenStream key r w = (Err e, (r', w))) \/
  (exists c prefix rest, len key = 32 /\ gcm_of_key key = Ok c /\ len prefix = 8 /\
     rd_bytes r = header prefix ++ rest).
Proof.
  unfold OpenStream. change AEADKeySize with 32.
  destruct (Z.eqb_spec (len key) 32) as [Hkey|Hkey]; cbn [negb]; [|eauto].
  destruct (gcm_of_key_Ok key Hkey) as (c & Hc & _).
  change streamHeaderSize with 13.
  destruct (read_cases 13 r ltac:(lia)) as [(h & rest & Hr & Hh)|Hr].
  2: { left. destruct (io_ReadFull_short 13 r Hr) as (r1 & H1 & _).
       rewrite (io_bind_Ok _ _ _ _ _ (H1 w)). eexists _, r1. by apply io_bind_Err. }
  destruct (io_ReadFull_app 13 r _ _ Hr Hh) as (r1 & H1 & _).
  rewrite (io_bind_Ok _ _ _ _ _ (H1 w)). cbv beta iota.
  rewrite (io_lift_bind _ tt) by done.
  assert (length h = 13%nat) as Hl by (unfold len in Hh; lia). clear Hh H1.
  destruct_list h Hl. erewrite io_lift_bind by reflexivity.
  case_bool_decide as Hm; cbn [negb]; [|left; eauto].
  erewrite io_lift_bind by reflexivity.
  case_bool_decide as Hv; cbn [negb]; [|left; eauto].
  right. exists c, [x4; x5; x6; x7; x8; x9; x10; x11], rest. rewrite Hr.
  split; [done|]. split; [done|]. split; [done|]. unfold header. rewrite <- Hv.
  assert (streamMagic = [x; x0; x1; x2]) as -> by (symmetry; exact Hm). done.
Qed.

(** *** Which counter seals which chunk *)

(** The counter of the loops at chunk [i]. *)
Definition chunk_counter (i : nat) : Z := Nat.iter i (fun n => u32 (n + 1)) 0.

Lemma chunk_counter_eq i : chunk_counter i = u32 (Z.of_nat i).
Proof.
  induction i as [|i IH]; [done|]. unfold chunk_counter in *. cbn [Nat.iter nat_rect].
  change (nat_rect _ 0 _ i) with (Nat.iter i (fun n => u32 (n + 1)) 0). rewrite IH. unfold u32.
  rewrite Zplus_mod_idemp_l. f_equal. lia.
Qed.

(** The frames of a concatenation. *)
Lemma frames_app c prefix n l1 l2 last :
  frames c prefix n (l1 ++ l2) last =
    (a ← frames c prefix n l1 None;
     b ← frames c prefix (Nat.iter (length l1) (fun n => u32 (n + 1)) n) l2 last;
     Ok (a ++ b)).
Proof.
  revert n; induction l1 as [|q l1 IH]; intros n; [by cbn; destruct (frames _ _ _ _ _)|].
  cbn [app frames length]. rewrite IH, Nat.iter_succ_r.
  destruct (frame c prefix n false q) as [x|e|m]; [|done..]. cbn [mbind outcome_bind].
  destruct (frames c prefix _ l1 None) as [y|e|m]; [|done..]. cbn [mbind outcome_bind].
  destruct (frames c prefix _ l2 last) as [z|e|m]; [|done..]. cbn [mbind outcome_bind]. by rewrite app_assoc.
Qed.

(** The frames before, at and after a chunk. *)
Lemma frames_nth c prefix l1 p l2 last s :
  frames c prefix 0 (l1 ++ p :: l2) last = Ok s ->
  exists s1 a s2, s = s1 ++ a ++ s2 /\ frames c prefix 0 l1 None = Ok s1 /\
    frame c prefix (chunk_counter (length l1)) false p = Ok a.
Proof.
  rewrite frames_app. intros (s1 & H1 & (b & Hb & [= <-])%bind_Ok_inv)%bind_Ok_inv. cbn [frames] in Hb.
  apply bind_Ok_inv in Hb as (a & Ha & (s2 & _ & [= <-])%bind_Ok_inv). by exists s1, a, s2.
Qed.

(** The frames before the last one, and the last one. *)
Lemma frames_last c prefix full last s :
  frames c prefix 0 full (Some last) = Ok s ->
  exists s1 a, s = s1 ++ a /\ frames c prefix 0 full None = Ok s1 /\
    frame c prefix (chunk_counter (length full)) true last = Ok a.
Proof.
  rewrite <- (app_nil_r full) at 1. rewrite frames_app.
  intros (s1 & H1 & (a & Ha & [= <-])%bind_Ok_inv)%bind_Ok_inv. by exists s1, a.
Qed.

Lemma PutUint32_inj i j : PutUint32 i = PutUint32 j <-> i mod 2 ^ 32 = j mod 2 ^ 32.
Proof.
  split; intros H.
  - apply (f_equal be_get) in H. unfold PutUint32 in H. by rewrite !be_get_put in H.
  - unfold PutUint32. etrans; [symmetry; apply (be_put_mod 4)|]. etrans; [|apply (be_put_mod 4)].
    change (8 * Z.of_nat 4) with 32. by rewrite H.
Qed.

Lemma len_frames c prefix n full last s `{!AEADOk c gcm_max} :
  len prefix = 8 -> Forall fits full -> match last with Some p => fits p | None => True end ->
  frames c prefix n full last = Ok s ->
  len s = len (plain full last) + 20 * (len full + (if last is Some _ then 1 else 0)).
Proof.
  intros Hp Hf Hl. revert n s. induction Hf as [|p full Hfit _ IH]; intros n s Hs.
  - destruct last as [p|]; [|by injection Hs as <-].
    rewrite (frame_length c prefix Hp n true p s Hl Hs). unfold plain. simpl. rewrite len_nil. lia.
  - simpl in Hs. apply bind_Ok_inv in Hs as (a & Ha & Hs). apply bind_Ok_inv in Hs as (b & Hb & [= <-]).
    rewrite len_app, (IH _ _ Hb), (frame_length c prefix Hp n false p a Hfit Ha).
    unfold plain. simpl. rewrite len_cons, !len_app. lia.
Qed.

(** Every frame takes at least one byte, so the bytes left are enough fuel. *)
Lemma frames_long c prefix `{!AEADOk c gcm_max} (Hp : len prefix = 8) n full s :
  Forall fits full -> frames c prefix n full None = Ok s -> (length full <= length s)%nat.
Proof.
  intros Hf. revert n s. induction Hf as [|p full Hfit _ IH]; intros n s Hs; [simpl; lia|].
  simpl in Hs. apply bind_Ok_inv in Hs as (a & Ha & Hs). apply bind_Ok_inv in Hs as (b & Hb & [= <-]).
  pose proof (frame_length c prefix Hp n false p a Hfit Ha) as Hlen. specialize (IH _ _ Hb).
  pose proof (len_nonneg p). unfold len in *. rewrite length_app. simpl. lia.
Qed.

Lemma splits_fits k d full last :
  0 < k <= streamMaxChunkSize -> splits k d full last -> Forall fits full /\ fits last.
Proof.
  intros Hk Hsp. destruct (splits_length k d full last ltac:(lia) Hsp) as (_ & Hl & Hf).
  unfold fits, streamMaxChunkSize in *. split; [|lia].
  eapply Forall_impl; [exact Hf|]. simpl. intros p Hp. lia.
Qed.

Lemma OpenStream_frames key c prefix full last s rest r o :
  len key = 32 -> gcm_of_key key = Ok c -> len prefix = 8 ->
  frames c prefix 0 full (Some last) = Ok s -> Forall fits full -> fits last ->
  rd_bytes r = header prefix ++ s ++ rest ->
  exists r', rd_bytes r' = rest /\ rd_err r' = rd_err r /\
    OpenStream key r (buffer o) = (Ok tt, (r', buffer (o ++ plain full (Some last)))).
Proof.
  intros Hk Hc Hp Hs Hf Hl Hr. pose proof (gcm_of_key_ok _ _ Hc) as Hok.
  destruct (OpenStream_run key c r _ prefix Hk Hc Hp Hr) as (r1 & Hr1 & He1 & Hrun).
  destruct (open_loop_frames c prefix Hp 0 full last s rest r1 (S (length (rd_bytes r1))) o
    Hs Hf Hl Hr1) as (r2 & Hr2 & He2 & Hrun2).
  { pose proof (len_frames c prefix 0 full (Some last) s Hp Hf Hl Hs) as Hlen.
    rewrite Hr1, length_app. pose proof (len_nonneg (plain full (Some last))).
    pose proof (len_nonneg full). unfold len in *. lia. }
  exists r2. split; [done|]. split; [congruence|]. rewrite Hrun. exact Hrun2.
Qed.

(** Any call of [OpenStream]: what it returned, what it wrote, and why. *)
Lemma OpenStream_inv key r w o r' w' :
  OpenStream key r w = (o, (r', w')) ->
  panics o = false /\
  ((w' = w /\ is_ok o = false) \/
   exists c prefix full last s rest x, len key = 32 /\ gcm_of_key key = Ok c /\ len prefix = 8 /\
     rd_bytes r = header prefix ++ s ++ rest /\ frames c prefix 0 full last = Ok s /\
     Forall fits full /\ match last with Some p => fits p | None => True end /\
     wr_out w' = wr_out w ++ x /\ x `prefix_of` plain full last /\
     (o = Ok tt -> last <> None /\ x = plain full last /\ rd_bytes r' = rest)).
Proof.
  intros H. destruct (OpenStream_cases key r w) as [(e & r1 & E)|(c & prefix & rest & Hk & Hc & Hp & Hr)].
  - rewrite E in H. injection H as <- <- <-. auto.
  - pose proof (gcm_of_key_ok _ _ Hc) as Hok.
    destruct (OpenStream_run key c r rest prefix Hk Hc Hp Hr) as (r1 & Hr1 & _ & Hrun).
    rewrite Hrun in H. unfold open_all in H.
    destruct (open_loop_inv c prefix Hp _ _ _ _ _ _ _ (Nat.lt_succ_diag_r _) H)
      as (Hno & full & last & s & rest' & x & H1 & H2).
    split; [done|]. right. exists c, prefix, full, last, s, rest', x.
    split; [done|]. split; [done|]. split; [done|]. split; [by rewrite Hr, <- Hr1, H1|]. done.
Qed.

Lemma OpenStream_Ok key r o r' w' :
  OpenStream key r (buffer o) = (Ok tt, (r', w')) ->
  exists c prefix full last s, len key = 32 /\ gcm_of_key key = Ok c /\ len prefix = 8 /\
    rd_bytes r = header prefix ++ s ++ rd_bytes r' /\ frames c prefix 0 full (Some last) = Ok s /\
    Forall fits full /\ fits last /\ w' = buffer (o ++ plain full (Some last)).
Proof.
  intros H. destruct (OpenStream_inv _ _ _ _ _ _ H) as [_ [[_ ?]|Hx]]; [done|].
  destruct Hx as (c & prefix & full & last & s & rest & x & Hk & Hc & Hp & Hr & Hs & Hf & Hl & _ & _ & Hok).
  destruct (Hok eq_refl) as (Hne & _ & Hrest). destruct last as [last|]; [|done].
  exists c, prefix, full, last, s. rewrite Hrest.
  repeat (split; [done|]).
  destruct (OpenStream_frames key c prefix full last s rest r o Hk Hc Hp Hs Hf Hl Hr) as (r2 & _ & _ & E).
  rewrite E in H. by injection H as _ <-.
Qed.

(** After the header and complete unmarked frames, the loop is at the next chunk with fuel left. *)
Lemma OpenStream_prefix key c prefix full s part t :
  len key = 32 -> gcm_of_key key = Ok c -> len prefix = 8 ->
  frames c prefix 0 full None = Ok s -> Forall fits full -> rd_bytes t = header prefix ++ s ++ part ->
  exists r f, rd_bytes r = part /\ rd_err r = rd_err t /\
    OpenStream key t (buffer []) = open_loop (S f) c prefix (chunk_counter (length full)) (r, buffer (mjoin full)).
Proof.
  intros Hk Hc Hp Hs Hf Ht. pose proof (gcm_of_key_ok _ _ Hc) as Hok.
  destruct (OpenStream_run key c t _ prefix Hk Hc Hp Ht) as (r1 & Hr1 & He1 & Hrun).
  destruct (open_loop_prefix c prefix Hp 0 full s part r1 Hs Hf Hr1) as (r2 & Hr2 & He2 & Hloop).
  pose proof (frames_long c prefix Hp 0 full s Hf Hs) as Hlen.
  exists r2, (length (rd_bytes r1) - length full)%nat. split; [done|]. split; [congruence|].
  rewrite Hrun. unfold open_all, chunk_counter. rewrite <- (Hloop _ []). f_equal. rewrite Hr1, length_app. lia.
Qed.

(** The error of an input that stops after complete unmarked frames. *)
Lemma open_cut key c prefix full s part t :
  len key = 32 -> gcm_of_key key = Ok c -> len prefix = 8 ->
  frames c prefix 0 full None = Ok s -> Forall fits full ->
  rd_bytes t = header prefix ++ s ++ part -> rd_err t = EOF ->
  (len part < 4 -> (OpenStream key t (buffer [])).1 = Err ErrTruncated) /\
  (forall field body, part = field ++ body -> len field = 4 ->
     len body < be_get (clear_last field) ->
     fails_with (OpenStream key t (buffer [])).1 ErrInvalidCiphertext = true /\
     fails_with (OpenStream key t (buffer [])).1 ErrTruncated = false).
Proof.
  intros Hk Hc Hp Hs Hf Ht He.
  destruct (OpenStream_prefix key c prefix full s part t Hk Hc Hp Hs Hf Ht) as (r2 & f & Hr2 & He2 & ->).
  set (w := buffer _). cbn [open_loop]. assert (He' : rd_err r2 = EOF) by congruence. split.
  - intros Hpart. destruct (io_ReadFull_short 4 r2 ltac:(by rewrite Hr2)) as (r3 & H3 & _).
    rewrite (io_bind_Ok _ _ _ _ _ (H3 w)). unfold short_error. rewrite He'. simpl.
    by destruct (bool_decide (rd_bytes r2 = [])).
  - intros field body -> Hfield Hbody.
    destruct (io_ReadFull_app 4 r2 _ _ Hr2 Hfield) as (r3 & H3 & Hr3 & _).
    rewrite (io_bind_Ok _ _ _ _ _ (H3 w)). cbv beta iota. rewrite (io_lift_bind _ tt) by done.
    destruct (field_of_inv field Hfield) as (m & Hm & _ & Hcl). rewrite Hcl in *.
    assert (be_get (PutUint32 m) = m) as Hbe.
    { unfold PutUint32. rewrite be_get_put. apply Z.mod_small. simpl. lia. }
    rewrite Hbe in Hbody. rewrite (io_lift_bind _ m).
    2: { rewrite <- (app_nil_r (PutUint32 _)), Uint32_put. f_equal. apply Z.mod_small. lia. }
    destruct (io_ReadFull_short m r3 ltac:(by rewrite Hr3)) as (r4 & H4 & _).
    rewrite (io_bind_Ok _ _ _ _ _ (H4 w)). done.
Qed.

(** What a successful call has written. *)
Lemma sealed_frames key r k env out env' :
  len key = 32 -> 0 < k <= streamMaxChunkSize -> has_random 8 env -> rd_err r = EOF ->
  SealStream key r (buffer []) k env = (Ok tt, buffer out, env') ->
  exists c prefix full last s, gcm_of_key key = Ok c /\ len prefix = 8 /\ out = header prefix ++ s /\
    frames c prefix 0 full (Some last) = Ok s /\ splits k (rd_bytes r) full last /\ Forall fits full /\ fits last.
Proof.
  intros Hkey Hk Hrand He Hrun. destruct (gcm_of_key_Ok key Hkey) as (c & Hc & Hok).
  destruct (splits_total k (rd_bytes r)) as (full & last & Hsp); [lia|].
  destruct (SealStream_run key c r k env full last [] Hkey Hc Hk Hrand (or_introl He) Hsp)
    as (s & env2 & Hs & Hrun2 & _). rewrite Hrun in Hrun2. injection Hrun2 as -> _.
  destruct (splits_fits _ _ _ _ Hk Hsp). exists c, (next_random 8 env), full, last, s.
  by pose proof (len_next_random 8 env ltac:(lia) Hrand).
Qed.

(** Dropping up to the whole sealed last chunk from a stream leaves one [OpenStream] reports as
    [ErrInvalidCiphertext], and not as [ErrTruncated]. *)
Lemma cut_last_chunk key r k env out env' n r' :
  len key = 32 -> 0 < k <= streamMaxChunkSize -> has_random 8 env -> rd_err r = EOF ->
  SealStream key r (buffer []) k env = (Ok tt, buffer out, env') ->
  0 < n <= len (rd_bytes r) mod k + 16 ->
  rd_bytes r' = take (Z.to_nat (len out - n)) out -> rd_err r' = EOF ->
  fails_with (OpenStream key r' (buffer [])).1 ErrInvalidCiphertext = true /\
  fails_with (OpenStream key r' (buffer [])).1 ErrTruncated = false.
Proof.
  intros Hkey Hk Hrand He Hrun Hn Hr' He'.
  destruct (sealed_frames key r k env out env' Hkey Hk Hrand He Hrun)
    as (c & prefix & full & last & s & Hc & Hp & -> & Hs & Hsp & Hf & Hl).
  pose proof (gcm_of_key_ok _ _ Hc) as Hok.
  destruct (frames_last c _ full last s Hs) as (s1 & a & -> & Hs1 & Ha).
  destruct (frame_run c _ Hp (chunk_counter (length full)) true last Hl) as (body & Hfr & Hb & _).
  assert (a = field_of (len body) true ++ body) as -> by congruence.
  assert (Hb31 : 0 <= len body < 2 ^ 31) by (unfold fits in Hl; pose proof (len_nonneg body); lia).
  destruct (field_of_spec (len body) true Hb31) as (Hf4 & _ & _).
  pose proof (field_of_length (len body) true Hb31) as Hbe.
  set (field := field_of _ _) in *. clearbody field.
  pose proof (splits_last_length k _ full last ltac:(lia) Hsp) as Hlast.
  set (body' := take (Z.to_nat (len body - n)) body).
  assert (Hbody' : len body' = len body - n) by (unfold body', len in *; rewrite length_take; lia).
  assert (Hcut : rd_bytes r' = header prefix ++ s1 ++ field ++ body').
  { set (rest := drop (Z.to_nat (len body - n)) body).
    assert (Hrest : len rest = n) by (unfold rest, len in *; rewrite length_drop; lia).
    assert (Hbody : body = body' ++ rest) by (symmetry; apply take_drop).
    rewrite Hr', Hbody, !app_assoc. apply take_app_len. clear -Hrest. unfold len in *. rewrite !length_app. lia. }
  apply (proj2 (open_cut key c prefix full s1 (field ++ body') r' Hkey Hc Hp Hs1 Hf Hcut He')
    field body' eq_refl Hf4). lia.
Qed.

(** What is sealed into a buffer opens from it. *)
Lemma sealed_opens key r k env :
  len key = 32 -> 0 < k <= streamMaxChunkSize -> has_random 8 env -> rd_err r = EOF ->
  exists out env', SealStream key r (buffer []) k env = (Ok tt, buffer out, env') /\
    after_random 8 env env' /\
    len out = 13 + len (rd_bytes r) + 20 * (len (rd_bytes r) / k + 1) /\
    forall r' rest, rd_bytes r' = out ++ rest ->
      exists r'', OpenStream key r' (buffer []) = (Ok tt, (r'', buffer (rd_bytes r))) /\
        rd_bytes r'' = rest.
Proof.
  intros Hkey Hk Hrand He. destruct (gcm_of_key_Ok key Hkey) as (c & Hc & Hok).
  destruct (splits_total k (rd_bytes r)) as (full & last & Hsp); [lia|].
  pose proof (len_next_random 8 env ltac:(lia) Hrand) as Hp.
  destruct (SealStream_run key c r k env full last [] Hkey Hc Hk Hrand (or_introl He) Hsp)
    as (s & env' & Hs & Hrun & Ha).
  destruct (splits_fits _ _ _ _ Hk Hsp) as [Hf Hl].
  exists (header (next_random 8 env) ++ s), env'. split; [done|]. split; [done|]. split.
  - rewrite len_app, len_header by done.
    rewrite (len_frames c _ 0 full (Some last) s Hp Hf Hl Hs), (splits_plain _ _ _ _ Hsp).
    rewrite (splits_count k (rd_bytes r) full last) by (done || lia). lia.
  - intros r' rest Hr'. rewrite <- app_assoc in Hr'.
    destruct (OpenStream_frames key c _ full last s rest r' [] Hkey Hc Hp Hs Hf Hl Hr')
      as (r2 & Hr2 & _ & Ho).
    exists r2. split; [|done]. rewrite Ho. by rewrite (splits_plain _ _ _ _ Hsp).
Qed.

(** *** Where a chunk is in the stream *)

(** Chunk [i] of an input, and the frame of a chunk of [n] bytes at position [i] of a stream. *)
Definition chunk_at (k i : Z) (data : bytes) : bytes := take (Z.to_nat k) (drop (Z.to_nat (i * k)) data).
Definition frame_at (k i n : Z) (out : bytes) : bytes :=
  take (Z.to_nat (n + 20)) (drop (Z.to_nat (13 + i * (k + 20))) out).

(** The chunks before, at and after position [i], with their frames. *)
Lemma frames_split c prefix k d full last s i :
  0 < k <= streamMaxChunkSize -> splits k d full last -> frames c prefix 0 full (Some last) = Ok s ->
  0 <= i <= len d / k ->
  exists l p rest s1 a s2, len l = i /\ Forall (fun q => len q = k) l /\ d = mjoin l ++ p ++ rest /\
    take (Z.to_nat k) (p ++ rest) = p /\ fits p /\ (i <> len d / k -> len p = k) /\
    s = s1 ++ a ++ s2 /\ frames c prefix 0 l None = Ok s1 /\
    frame c prefix (chunk_counter (length l)) (i =? len d / k) p = Ok a.
Proof.
  intros Hk Hsp Hs Hi. destruct (splits_length k d full last ltac:(lia) Hsp) as (_ & Hlast & Hall).
  destruct (splits_fits k d full last Hk Hsp) as [Hf Hfl]. pose proof (splits_plain _ _ _ _ Hsp) as Hd.
  unfold plain in Hd. change (default [] (Some last)) with last in Hd.
  rewrite <- (splits_count k d full last ltac:(lia) Hsp) in *.
  destruct (Z.eqb_spec i (len full)) as [->|Hne].
  - destruct (frames_last c prefix full last s Hs) as (s1 & a & -> & H1 & Ha).
    exists full, last, [], s1, a, []. rewrite !app_nil_r, take_ge by (unfold len in *; lia). done.
  - destruct (lookup_lt_is_Some_2 full (Z.to_nat i)) as [p Hp]; [unfold len in *; lia|].
    pose proof (take_drop_middle full (Z.to_nat i) p Hp) as Hfull.
    assert (Hl : length (take (Z.to_nat i) full) = Z.to_nat i) by (rewrite length_take; unfold len in *; lia).
    set (l := take (Z.to_nat i) full) in *. set (l2 := drop (S (Z.to_nat i)) full) in *.
    rewrite <- Hfull in Hs, Hd, Hall, Hf. destruct (frames_nth c prefix l p l2 _ s Hs) as (s1 & a & s2 & -> & H1 & Ha).
    apply Forall_app in Hall as [Hall1 [Hpk _]%Forall_cons]. apply Forall_app in Hf as [_ [Hpf _]%Forall_cons].
    exists l, p, (mjoin l2 ++ last), s1, a, s2. rewrite take_app_len by (unfold len in Hpk; lia).
    repeat split; try done; [unfold len; lia|]. rewrite <- Hd, join_app.
    change (mjoin (p :: l2)) with (p ++ mjoin l2). by rewrite <- !app_assoc.
Qed.

(** What [frame_at] finds: the chunk's length field and its sealing under the nonce and AAD of [i]. *)
Lemma frame_at_sealed c prefix k d full last s i `{!AEADOk c gcm_max} :
  len prefix = 8 -> 0 < k <= streamMaxChunkSize -> splits k d full last ->
  frames c prefix 0 full (Some last) = Ok s -> 0 <= i <= len d / k ->
  let last_one := i =? len d / k in
  exists ct, aead_Seal c [] (prefix ++ PutUint32 (i mod 2 ^ 32)) (chunk_at k i d)
      (PutUint32 (i mod 2 ^ 32) ++ [if last_one then x01 else x00]) = Ok ct /\
    len ct = len (chunk_at k i d) + 16 /\ (last_one = false -> len (chunk_at k i d) = k) /\
    frame_at k i (len (chunk_at k i d)) (header prefix ++ s) = field_of (len ct) last_one ++ ct.
Proof.
  intros Hp Hk Hsp Hs Hi last_one.
  destruct (frames_split c prefix k d full last s i Hk Hsp Hs Hi)
    as (l & p & rest & s1 & a & s2 & Hl & Hlk & Hd & Ht & Hpf & Hpk & -> & H1 & Ha).
  pose proof (len_nonneg p) as H0. pose proof (len_mjoin k l Hlk) as Hj. rewrite Hl in Hj.
  assert (Hc : chunk_at k i d = p).
  { unfold chunk_at. rewrite Hd, drop_app_len; [exact Ht|]. unfold len in *. lia. }
  destruct (frame_run c prefix Hp (chunk_counter (length l)) last_one p Hpf) as (ct & Hf & Hct & Hseal & _).
  assert (a = field_of (len ct) last_one ++ ct) as -> by (unfold last_one in *; congruence).
  rewrite chunk_counter_eq, makeStreamNonce_eq, streamAAD_eq in Hseal by done. unfold len in Hl. rewrite Hl in Hseal.
  exists ct. rewrite Hc. split; [exact Hseal|]. split; [exact Hct|].
  split; [intros E%Z.eqb_neq; by apply Hpk|].
  assert (Hs1 : len s1 = i * (k + 20)).
  { assert (Hfl : Forall fits l) by (eapply Forall_impl; [exact Hlk|]; intros q Hq; unfold fits, streamMaxChunkSize in *; lia).
    rewrite (len_frames c prefix 0 l None s1 Hp Hfl I H1). unfold plain. cbn [default]. rewrite app_nil_r, Hj.
    unfold len. rewrite Hl. ring. }
  unfold frame_at. rewrite app_assoc, drop_app_len.
  2: { apply Nat2Z.inj. rewrite Z2Nat.id by lia. change (Z.of_nat (length (header prefix ++ s1))) with (len (header prefix ++ s1)).
       rewrite len_app, len_header, Hs1; [ring|done]. }
  apply take_app_len. apply Nat2Z.inj. rewrite Z2Nat.id by lia.
  change (Z.of_nat (length (field_of (len ct) last_one ++ ct))) with (len (field_of (len ct) last_one ++ ct)).
  rewrite len_app, (proj1 (field_of_spec (len ct) last_one ltac:(unfold fits in Hpf; lia))). lia.
Qed.

(** ** Properties *)

(** C5: stream round trip, for any key of 32 bytes, any chunk size in range, and however reads are
    fragmented on either side. [SealStream] writes [13 + N + 20(N/k + 1)] bytes, and [OpenStream] on a
    reader that delivers them returns exactly the input and stops there, leaving what follows
    unread. *)
Theorem Stream_roundtrip key r k env :
  len key = 32 -> 0 < k <= streamMaxChunkSize -> has_random 8 env -> rd_err r = EOF ->
  exists out env', SealStream key r (buffer []) k env = (Ok tt, buffer out, env') /\
    after_random 8 env env' /\
    len out = 13 + len (rd_bytes r) + 20 * (len (rd_bytes r) / k + 1) /\
    forall r' rest, rd_bytes r' = out ++ rest ->
      exists r'', OpenStream key r' (buffer []) = (Ok tt, (r'', buffer (rd_bytes r))) /\
        rd_bytes r'' = rest.
Proof. apply sealed_opens. Qed.

Definition demo_input : reader := {| rd_data := [lit "ab"; lit "cde"]; rd_err := EOF |}.
Definition demo_stream_key : bytes := replicate 32 x00.

Lemma Stream_roundtrip_witness :
  exists out env', SealStream demo_stream_key demo_input (buffer []) 3 demo_world =
    (Ok tt, buffer out, env') /\
    exists r'', OpenStream demo_stream_key {| rd_data := [out; lit "tail"]; rd_err := EOF |} (buffer []) =
      (Ok tt, (r'', buffer (lit "abcde"))) /\ rd_bytes r'' = lit "tail".
Proof.
  destruct (Stream_roundtrip demo_stream_key demo_input 3 demo_world) as (out & env' & H1 & _ & _ & H2);
    [done|done|vm_compute; discriminate|done|].
  exists out, env'. split; [done|].
  apply (H2 {| rd_data := [out; lit "tail"]; rd_err := EOF |} (lit "tail")).
  reflexivity.
Defined.

(** C2: [OpenStream] succeeds with plaintext [p] exactly when the input starts with the header and a
    sequence of frames sealed under the key, with the counters 0, 1, 2, ... in order as nonce and
    associated data, the mark on the last and only there, and [p] is the concatenation of
    their chunks: no frame can be reordered, dropped, repeated or moved to another stream. *)
Theorem OpenStream_exact key r o p rest :
  (exists r', OpenStream key r (buffer o) = (Ok tt, (r', buffer (o ++ p))) /\ rd_bytes r' = rest) <->
  exists c prefix full last s, len key = 32 /\ gcm_of_key key = Ok c /\ len prefix = 8 /\
    rd_bytes r = header prefix ++ s ++ rest /\ frames c prefix 0 full (Some last) = Ok s /\
    Forall fits full /\ fits last /\ p = plain full (Some last).
Proof.
  split.
  - intros (r' & H & <-).
    destruct (OpenStream_Ok _ _ _ _ _ H) as (c & prefix & full & last & s & Hk & Hc & Hp & Hr & Hs & Hf & Hl & Hw).
    exists c, prefix, full, last, s. injection Hw as Hw. apply app_inv_head in Hw. done.
  - intros (c & prefix & full & last & s & Hk & Hc & Hp & Hr & Hs & Hf & Hl & ->).
    destruct (OpenStream_frames key c prefix full last s rest r o Hk Hc Hp Hs Hf Hl Hr) as (r' & H1 & _ & H2).
    eauto.
Qed.

(** C17: only authenticated data reaches the output. Whatever the input and however the writer
    behaves, when [OpenStream] returns, with an error or not, what it has written is a prefix of
    the plaintext of a sequence of frames, at the front of the input, sealed under the key in the
    right order; and success means all of them, the marked last frame included. *)
Theorem OpenStream_only_authentic key r w o r' w' :
  OpenStream key r w = (o, (r', w')) ->
  panics o = false /\
  ((w' = w /\ is_ok o = false) \/
   exists c prefix full last s rest x, len key = 32 /\ gcm_of_key key = Ok c /\ len prefix = 8 /\
     rd_bytes r = header prefix ++ s ++ rest /\ frames c prefix 0 full last = Ok s /\
     wr_out w' = wr_out w ++ x /\ x `prefix_of` plain full last /\
     (o = Ok tt -> last <> None /\ x = plain full last /\ rd_bytes r' = rest)).
Proof.
  intros H. destruct (OpenStream_inv _ _ _ _ _ _ H) as [Hno [Hx|Hx]]; [auto|]. split; [done|]. right.
  destruct Hx as (c & prefix & full & last & s & rest & x & ? & ? & ? & ? & ? & _ & _ & ? & ? & ?).
  exists c, prefix, full, last, s, rest, x. done.
Qed.

Lemma OpenStream_only_authentic_witness :
  panics (OpenStream demo_stream_key {| rd_data := [lit "CRSV"; lit "junk"]; rd_err := EOF |} (buffer [])).1
    = false.
Proof.
  destruct (OpenStream demo_stream_key {| rd_data := [lit "CRSV"; lit "junk"]; rd_err := EOF |} (buffer []))
    as [o [r' w']] eqn:H.
  apply (OpenStream_only_authentic _ _ _ o r' w' H).
Defined.

(** C18: truncation is always detected. If [OpenStream] accepts an input and consumes all of it, it
    rejects every strict prefix of that input, whatever the error that ends it and however its
    reads are split. *)
Theorem Stream_truncation key r r' w' t :
  OpenStream key r (buffer []) = (Ok tt, (r', w')) -> rd_bytes r' = [] ->
  (exists u, u <> [] /\ rd_bytes r = rd_bytes t ++ u) ->
  is_ok (OpenStream key t (buffer [])).1 = false.
Proof.
  intros H Hr (u & Hu & Ht).
  destruct (OpenStream key t (buffer [])) as [[[]|e|m] [t' tw]] eqn:Ho; [|done..]. exfalso.
  destruct (OpenStream_Ok _ _ _ _ _ Ho) as (c & prefix & full & last & s & Hk & Hc & Hp & Htb & Hs & Hf & Hl & _).
  assert (Hrb : rd_bytes r = header prefix ++ s ++ (rd_bytes t' ++ u))
    by (by rewrite Ht, Htb, <- !app_assoc).
  destruct (OpenStream_frames key c prefix full last s _ r [] Hk Hc Hp Hs Hf Hl Hrb) as (r2 & Hr2 & _ & H2).
  rewrite H2 in H. injection H as <- _. rewrite Hr2 in Hr.
  apply app_eq_nil in Hr as [_ Hr]. done.
Qed.

Definition demo_sealed : bytes := Eval vm_compute in
  wr_out (SealStream demo_stream_key demo_input (buffer []) 3 demo_world).1.2.

Lemma Stream_truncation_witness :
  is_ok (OpenStream demo_stream_key {| rd_data := [take 40 demo_sealed]; rd_err := EOF |} (buffer [])).1
    = false.
Proof.
  apply (Stream_truncation demo_stream_key {| rd_data := [demo_sealed]; rd_err := EOF |}
    {| rd_data := []; rd_err := EOF |} (buffer (lit "abcde"))); [vm_compute; reflexivity|reflexivity|].
  exists (drop 40 demo_sealed). split; [vm_compute; discriminate|reflexivity].
Defined.

(** Which error a cut gives. After any number of complete unmarked frames, an input that ends in
    or before a length field gives [ErrTruncated]; one that ends inside a chunk gives
    [ErrInvalidCiphertext] and not [ErrTruncated]. *)
Theorem Stream_truncation_errors key c prefix full s part t :
  len key = 32 -> gcm_of_key key = Ok c -> len prefix = 8 ->
  frames c prefix 0 full None = Ok s -> Forall fits full ->
  rd_bytes t = header prefix ++ s ++ part -> rd_err t = EOF ->
  (len part < 4 -> (OpenStream key t (buffer [])).1 = Err ErrTruncated) /\
  (forall field body, part = field ++ body -> len field = 4 ->
     len body < be_get (clear_last field) ->
     fails_with (OpenStream key t (buffer [])).1 ErrInvalidCiphertext = true /\
     fails_with (OpenStream key t (buffer [])).1 ErrTruncated = false).
Proof. apply open_cut. Qed.

Definition demo_gcm : AEAD :=
  match gcm_of_key demo_stream_key with
  | Ok c => c
  | _ => {| aead_Seal := fun _ _ _ _ => Err errOpen; aead_Open := fun _ _ _ => Err errOpen |}
  end.

Lemma demo_gcm_eq : gcm_of_key demo_stream_key = Ok demo_gcm.
Proof.
  unfold demo_gcm. destruct (gcm_of_key_Ok demo_stream_key) as (c & -> & _); [reflexivity|done].
Qed.

Lemma Stream_truncation_errors_witness :
  (OpenStream demo_stream_key {| rd_data := [take 38 demo_sealed]; rd_err := EOF |} (buffer [])).1
    = Err ErrTruncated.
Proof.
  apply (Stream_truncation_errors demo_stream_key demo_gcm (take 8 (drop 5 demo_sealed)) [lit "abc"]
    (take 23 (drop 13 demo_sealed)) (take 2 (drop 36 demo_sealed)));
    [reflexivity|exact demo_gcm_eq|reflexivity|vm_compute; reflexivity| |reflexivity|reflexivity|reflexivity].
  constructor; [|constructor]. reflexivity.
Defined.

(** C37: [SealStream] never panics, for any key, chunk size, reader and writer: its loop ends within the input's
    length. When it returns no error, the writer has taken the complete stream, the one a buffer would have
    received, so no failure of a write is lost; of the failures of a read exactly one is: a reader that fails with
    [io.ErrUnexpectedEOF] is sealed, whatever the writer, exactly as if its input had ended there, while every
    other error of the reader is the one returned when the arguments and the writer are good. *)
Theorem SealStream_total key r w k env :
  let '(o, w', env') := SealStream key r w k env in
  panics o = false /\
  (o = Ok tt -> (rd_err r = EOF \/ rd_err r = ErrUnexpectedEOF) /\
     exists out, SealStream key r (buffer []) k env = (Ok tt, buffer out, env') /\
       wr_out w' = wr_out w ++ out) /\
  (rd_err r = ErrUnexpectedEOF ->
     SealStream key {| rd_data := rd_data r; rd_err := EOF |} w k env = (o, w', env')) /\
  (forall b, len key = 32 -> 0 < k <= streamMaxChunkSize -> has_random 8 env -> w = buffer b ->
     rd_err r <> EOF -> rd_err r <> ErrUnexpectedEOF -> o = Err (rd_err r)).
Proof.
  pose proof (SealStream_success key r w k env) as Hok.
  pose proof (SealStream_ends key {| rd_data := rd_data r; rd_err := EOF |} r w k env eq_refl (or_introl eq_refl)) as Hends.
  pose proof (fun b => SealStream_read_error key r b k env) as Herr.
  destruct (SealStream key r w k env) as [[o w'] env'] eqn:E. destruct Hok as [H1 H2].
  split; [exact H1|]. split; [exact H2|]. split; [intros He; apply Hends; by right|].
  intros b Hkey Hk Hr -> He1 He2. specialize (Herr b Hkey Hk Hr). rewrite E in Herr. apply Herr. by intros [?|?].
Qed.

Lemma SealStream_total_witness :
  (SealStream demo_stream_key {| rd_data := [lit "abcde"]; rd_err := ErrorString "connection reset" |}
     (buffer []) 3 demo_world).1.1 = Err (ErrorString "connection reset").
Proof.
  assert (Hall : forall key r b k env, len key = 32 -> 0 < k <= streamMaxChunkSize -> has_random 8 env ->
    rd_err r <> EOF -> rd_err r <> ErrUnexpectedEOF -> (SealStream key r (buffer b) k env).1.1 = Err (rd_err r)).
  { intros key r b k env. pose proof (SealStream_total key r (buffer b) k env) as H.
    destruct (SealStream key r (buffer b) k env) as [[o w'] env'] in H |- *. destruct H as (_ & _ & _ & H).
    intros ?????. by apply (H b). }
  apply Hall; [reflexivity|split; vm_compute; [reflexivity|discriminate]|vm_compute; discriminate|discriminate..].
Defined.

(** C31: the nonces of a stream. Of every input and chunk size, [SealStream] writes at the place of chunk [i], for
    each [i] up to the last, its length field and its AES-GCM sealing under the nonce
    [prefix ++ BE32(i mod 2^32)], with the same counter and the end mark as AAD. So the first [2^32] chunks of
    a stream have different nonces, while chunk [i + 2^32], which nothing prevents, has the nonce and the AAD of
    chunk [i]: equal chunks become equal frames, and the ciphertexts of two chunks differ where the plaintexts do. *)
Theorem Stream_nonces key r k env :
  len key = 32 -> 0 < k <= streamMaxChunkSize -> has_random 8 env -> rd_err r = EOF ->
  exists c out env', gcm_of_key key = Ok c /\ SealStream key r (buffer []) k env = (Ok tt, buffer out, env') /\
    let count := len (rd_bytes r) / k in
    let chunk i := chunk_at k i (rd_bytes r) in
    let frame i := frame_at k i (len (chunk i)) out in
    let nonce i := next_random 8 env ++ PutUint32 (i mod 2 ^ 32) in
    let body i := take (length (chunk i)) (drop 4 (frame i)) in
    (forall i, 0 <= i <= count -> exists ct,
       aead_Seal c [] (nonce i) (chunk i) (PutUint32 (i mod 2 ^ 32) ++ [if i =? count then x01 else x00]) = Ok ct /\
       frame i = field_of (len ct) (i =? count) ++ ct) /\
    (forall i j, nonce i = nonce j <-> i mod 2 ^ 32 = j mod 2 ^ 32) /\
    (forall i, 0 <= i -> i + 2 ^ 32 < count ->
       (chunk (i + 2 ^ 32) = chunk i -> frame (i + 2 ^ 32) = frame i) /\
       zip_with bxor (body i) (body (i + 2 ^ 32)) = zip_with bxor (chunk i) (chunk (i + 2 ^ 32))).
Proof.
  intros Hkey Hk Hrand He. destruct (gcm_of_key_Ok key Hkey) as (c & Hc & Hok).
  pose proof (len_next_random 8 env ltac:(lia) Hrand) as Hp.
  destruct (splits_total k (rd_bytes r)) as (full & last & Hsp); [lia|].
  destruct (SealStream_run key c r k env full last [] Hkey Hc Hk Hrand (or_introl He) Hsp) as (s & env' & Hs & Hrun & _).
  exists c, (header (next_random 8 env) ++ s), env'. split; [exact Hc|]. split; [exact Hrun|].
  intros count chunk frame nonce body.
  pose proof (fun i => frame_at_sealed c _ k _ full last s i Hp Hk Hsp Hs) as Hat. split; [|split].
  - intros i Hi. destruct (Hat i Hi) as (ct & H1 & _ & _ & H2). exists ct. by split.
  - intros i j. unfold nonce. split.
    + intros H%app_inv_head%PutUint32_inj. by rewrite !Z.mod_mod in H.
    + by intros ->.
  - intros i Hi Hj. destruct (Hat i ltac:(lia)) as (ct & H1 & Hl1 & Hk1 & F1).
    destruct (Hat (i + 2 ^ 32) ltac:(lia)) as (ct' & H2 & Hl2 & Hk2 & F2).
    rewrite (proj2 (Z.eqb_neq _ _)) in H1, Hk1, F1 by lia. rewrite (proj2 (Z.eqb_neq _ _)) in H2, Hk2, F2 by lia.
    rewrite <- (Z.mul_1_l (2 ^ 32)), Z.mod_add in H2 by lia. rewrite Z.mul_1_l in H2.
    fold (chunk i) in H1, Hl1, Hk1, F1. fold (chunk (i + 2 ^ 32)) in H2, Hl2, Hk2, F2.
    fold (frame i) in F1. fold (frame (i + 2 ^ 32)) in F2. specialize (Hk1 eq_refl). specialize (Hk2 eq_refl). split.
    + intros Heq. rewrite F1, F2. rewrite Heq in H2. congruence.
    + unfold body. unfold streamMaxChunkSize in Hk. rewrite F1, F2, !drop_app_len.
      * eapply gcm_Seal_xor; [exact Hc| |exact H1|exact H2]. unfold len in *. lia.
      * pose proof (proj1 (field_of_spec (len ct') false ltac:(lia))). unfold len in *. lia.
      * pose proof (proj1 (field_of_spec (len ct) false ltac:(lia))). unfold len in *. lia.
Qed.

Lemma Stream_nonces_witness :
  exists c out env', SealStream demo_stream_key demo_input (buffer []) 3 demo_world = (Ok tt, buffer out, env') /\
    exists ct, aead_Seal c [] (next_random 8 demo_world ++ PutUint32 1) (lit "de") (PutUint32 1 ++ [x01]) = Ok ct /\
      frame_at 3 1 2 out = field_of (len ct) true ++ ct.
Proof.
  destruct (Stream_nonces demo_stream_key demo_input 3 demo_world) as (c & out & env' & _ & H & Hi & _);
    [reflexivity|split; vm_compute; [reflexivity|discriminate]|vm_compute; discriminate|reflexivity|].
  exists c, out, env'. split; [exact H|]. apply (Hi 1). split; vm_compute; discriminate.
Defined.

(** An input that breaks off is sealed as if it were complete: a reader that fails with
    [io.ErrUnexpectedEOF] after its data gives the same successful stream as one that ends with
    [io.EOF], while any other read error is returned. *)
Theorem SealStream_takes_broken_input key data k env :
  len key = 32 -> 0 < k <= streamMaxChunkSize -> has_random 8 env ->
  let failing e := {| rd_data := data; rd_err := e |} in
  (exists out env1,
    SealStream key (failing ErrUnexpectedEOF) (buffer []) k env = (Ok tt, buffer out, env1) /\
    SealStream key (failing EOF) (buffer []) k env = (Ok tt, buffer out, env1)) /\
  (forall e, e <> EOF -> e <> ErrUnexpectedEOF ->
    (SealStream key (failing e) (buffer []) k env).1.1 = Err e).
Proof.
  intros Hkey Hk Hr failing. split.
  - destruct (sealed_opens key (failing EOF) k env Hkey Hk Hr eq_refl) as (out & env1 & Hrun & _). exists out, env1.
    split; [|exact Hrun]. rewrite <- Hrun. apply SealStream_ends; [done|by right|by left].
  - intros e He1 He2. apply (SealStream_read_error key (failing e)); [done..|]. by intros [?|?].
Qed.

Lemma SealStream_takes_broken_input_witness :
  exists out env1,
    SealStream demo_stream_key {| rd_data := [lit "abcde"]; rd_err := ErrUnexpectedEOF |} (buffer []) 3
      demo_world = (Ok tt, buffer out, env1) /\
    SealStream demo_stream_key {| rd_data := [lit "abcde"]; rd_err := EOF |} (buffer []) 3
      demo_world = (Ok tt, buffer out, env1).
Proof.
  apply (SealStream_takes_broken_input demo_stream_key [lit "abcde"] 3 demo_world);
    [done|done|vm_compute; discriminate].
Defined.
