(* ===== verification/StreamBinding.v ===== *)
(** * What the end mark of a stream is bound to

    [SealStream] of [stream.go] marks its last chunk in the length field, which is sent in the clear, and in the
    additional data of the chunk, which is not sent.  The two values a chunk's additional data can take
    are one block long and differ in their last byte, so [Binding] decides, for every hash key, whether
    [OpenStream] notices a mark that was set or cleared on the way. *)

From Stdlib Require Import Strings.String.
From S2P Require Import Prelude Errors Binary GoIO Aes Cipher Ghash Format Aead Binding Stream.

#[local] Opaque gf_mul gcm_Open gcm_Seal.

(** The frame with the other mark. *)
Definition flip_mark (a : bytes) : bytes := if test_last a then clear_last a else set_last a.

(** ** Lemmas *)

Lemma flip_field n last ct :
  0 <= n < 2 ^ 31 -> flip_mark (field_of n last ++ ct) = field_of n (negb last) ++ ct.
Proof.
  intros Hn. destruct (field_of_spec n last Hn) as (H4 & Ht & Hc). unfold flip_mark.
  destruct (field_of n last) as [|b f] eqn:Hf; [done|]. cbn [app test_last clear_last set_last] in *. rewrite Ht.
  destruct last; cbn [negb] in *.
  - change (to_byte (Z.land (bval b) 127) :: f ++ ct) with ((to_byte (Z.land (bval b) 127) :: f) ++ ct). by rewrite Hc.
  - unfold field_of in *. by rewrite Hf.
Qed.

Lemma streamAAD_marks n last :
  len (streamAAD n last) = 5 /\ streamAAD n last <> streamAAD n (negb last).
Proof.
  rewrite !streamAAD_eq. split; [rewrite len_app; by destruct last|].
  intros H%app_inv_head. by destruct last.
Qed.

(** A sealed chunk under the other mark. *)
Lemma Open_other_mark key c nonce ct n last p :
  gcm_of_key key = Ok c -> aead_Open c nonce ct (streamAAD n last) = Ok p ->
  aead_Open c nonce ct (streamAAD n (negb last)) = (if bool_decide (key_hash key = 0) then Ok p else Err errOpen).
Proof.
  intros (b & Hb & [= <-])%bind_Ok_inv Ho. cbn [aead_Open] in *. pose proof (NewCipher_BlockOk _ _ Hb) as HB.
  pose proof Ho as (Hn & Hp & ->)%gcm_Open_Ok; [|done].
  set (ct0 := gctr b nonce p) in *. set (tag := gcm_tag b nonce ct0 _) in *.
  assert (Ht : len tag = 16) by (unfold tag, len; by rewrite length_gcm_tag).
  assert (Hl : len ct0 = len p) by (unfold ct0, len; by rewrite length_gctr).
  rewrite (gcm_Open_gap b nonce ct0 tag (streamAAD n last) p ct0 tag _ Ht Ho Ht) by lia.
  rewrite (bool_decide_ext _ (key_hash key = 0)).
  2: { destruct (streamAAD_marks n last) as [H5 Hne]. destruct (streamAAD_marks n (negb last)) as [H5' _].
       rewrite gap_tags, (key_hash_eq _ _ Hb). apply aad_gap_one; [by apply blk_hash_key|congruence|lia|done]. }
  unfold ct0. by rewrite gctr_gctr.
Qed.

(** Reading a chunk whose mark was changed, after any number of good ones. *)
Lemma OpenStream_flipped key c prefix full last p s a t rest :
  len key = 32 -> gcm_of_key key = Ok c -> len prefix = 8 ->
  frames c prefix 0 full None = Ok s -> Forall fits full -> fits p ->
  frame c prefix (chunk_counter (length full)) last p = Ok a ->
  rd_bytes t = header prefix ++ s ++ flip_mark a ++ rest ->
  (key_hash key <> 0 -> exists r', OpenStream key t (buffer []) =
     (Err (Wrapf "%w: chunk %d: %v" ErrTampered), (r', buffer (mjoin full)))) /\
  (key_hash key = 0 -> last = false -> exists r', rd_bytes r' = rest /\
     OpenStream key t (buffer []) = (Ok tt, (r', buffer (mjoin full ++ p)))).
Proof.
  intros Hk Hc Hp Hs Hf Hfit Ha Ht. pose proof (gcm_of_key_ok _ _ Hc) as Hok.
  destruct (frame_run c prefix Hp (chunk_counter (length full)) last p Hfit) as (ct & Hfr & Hl & _ & Ho).
  assert (a = field_of (len ct) last ++ ct) as -> by congruence. clear Ha Hfr.
  unfold fits in Hfit. pose proof (len_nonneg p). rewrite flip_field in Ht by lia.
  destruct (OpenStream_prefix key c prefix full s _ t Hk Hc Hp Hs Hf Ht) as (r1 & f & Hr1 & _ & ->).
  destruct (open_step_body c prefix (chunk_counter (length full)) r1 (negb last) ct rest ltac:(lia) Hr1)
    as (r2 & Hr2 & _ & ->).
  rewrite (Open_other_mark key c _ _ _ last p Hc Ho). split.
  - intros Hz. rewrite bool_decide_eq_false_2 by done. by exists r2.
  - intros Hz ->. rewrite bool_decide_eq_true_2 by done. by exists r2.
Qed.

(** The mark of a frame that was not changed. *)
Lemma flip_frame key c prefix n last p a :
  gcm_of_key key = Ok c -> len prefix = 8 -> fits p -> frame c prefix n last p = Ok a ->
  flip_mark a = (if last then clear_last a else set_last a).
Proof.
  intros Hc Hp Hfit Ha. pose proof (gcm_of_key_ok _ _ Hc).
  destruct (frame_run c prefix Hp n last p Hfit) as (ct & Hfr & Hl & _).
  assert (a = field_of (len ct) last ++ ct) as -> by congruence. unfold fits in Hfit. pose proof (len_nonneg p).
  destruct (field_of_spec (len ct) last ltac:(lia)) as (H4 & Ht & _). unfold flip_mark.
  destruct (field_of (len ct) last) as [|b f]; [done|]. cbn [app test_last] in *. by rewrite Ht.
Qed.

(** Where the frame of chunk [i] starts when chunks are [k] bytes long. *)
Definition frame_start (k : Z) (i : nat) : nat := (13 + i * (Z.to_nat k + 20))%nat.

(** The frames before chunk [i] end where it starts, and hold the input before it. *)
Lemma frames_before key c prefix k full s :
  0 < k -> gcm_of_key key = Ok c -> len prefix = 8 -> Forall fits full -> Forall (fun p => len p = k) full ->
  frames c prefix 0 full None = Ok s -> length (header prefix ++ s) = frame_start k (length full).
Proof.
  intros Hk Hc Hp Hf Hall Hs. pose proof (gcm_of_key_ok _ _ Hc).
  pose proof (len_frames c prefix 0 full None s Hp Hf I Hs) as Hl. unfold plain in Hl. cbn [default] in Hl.
  rewrite app_nil_r, (len_mjoin k full Hall) in Hl. pose proof (len_header prefix Hp) as Hh.
  rewrite length_app. unfold frame_start, len in *. lia.
Qed.

(** Setting the mark of a chunk that is not the last one. *)
Lemma mark_set key c prefix k full l1 q l2 last s t rest :
  len key = 32 -> 0 < k -> gcm_of_key key = Ok c -> len prefix = 8 ->
  frames c prefix 0 full (Some last) = Ok s -> Forall fits full -> Forall (fun p => len p = k) full ->
  full = l1 ++ q :: l2 ->
  let out := header prefix ++ s in
  let at_ := frame_start k (length l1) in
  rd_bytes t = take at_ out ++ set_last (take (Z.to_nat k + 20) (drop at_ out)) ++ rest ->
  exists r', OpenStream key t (buffer []) =
    (if bool_decide (key_hash key = 0) then (Ok tt, (r', buffer (mjoin l1 ++ q)))
     else (Err (Wrapf "%w: chunk %d: %v" ErrTampered), (r', buffer (mjoin l1)))).
Proof.
  intros Hkey Hk Hc Hp Hs Hf Hall -> out at_ Ht. pose proof (gcm_of_key_ok _ _ Hc).
  apply Forall_app in Hf as [Hf1 [Hfq _]%Forall_cons]. apply Forall_app in Hall as [Hall1 [Hq _]%Forall_cons].
  destruct (frames_nth c prefix l1 q l2 (Some last) s Hs) as (s1 & a & s2 & -> & Hs1 & Ha).
  pose proof (frames_before key c prefix k l1 s1 Hk Hc Hp Hf1 Hall1 Hs1) as Hat.
  pose proof (frame_length c prefix Hp _ false q a Hfq Ha) as Hla.
  unfold out, at_ in Ht. rewrite <- Hat, (app_assoc (header prefix)), take_app_length, drop_app_length in Ht.
  rewrite take_app_len in Ht by (unfold len in *; lia). rewrite <- app_assoc in Ht.
  change (set_last a) with (if false then clear_last a else set_last a) in Ht.
  rewrite <- (flip_frame key c prefix _ false q a Hc Hp Hfq Ha) in Ht.
  destruct (OpenStream_flipped key c prefix l1 false q s1 a t rest Hkey Hc Hp Hs1 Hf1 Hfq Ha Ht) as [Hbad Hgood].
  case_bool_decide as Hz.
  - destruct (Hgood Hz eq_refl) as (r' & _ & Ho). by exists r'.
  - by apply Hbad.
Qed.

(** Clearing the mark of the last chunk. *)
Lemma mark_cleared key c prefix k full last s t rest :
  len key = 32 -> 0 < k -> gcm_of_key key = Ok c -> len prefix = 8 ->
  frames c prefix 0 full (Some last) = Ok s -> Forall fits full -> Forall (fun p => len p = k) full -> fits last ->
  key_hash key <> 0 ->
  let out := header prefix ++ s in
  let at_ := frame_start k (length full) in
  rd_bytes t = take at_ out ++ clear_last (drop at_ out) ++ rest ->
  exists r', OpenStream key t (buffer []) = (Err (Wrapf "%w: chunk %d: %v" ErrTampered), (r', buffer (mjoin full))).
Proof.
  intros Hkey Hk Hc Hp Hs Hf Hall Hl Hz out at_ Ht.
  destruct (frames_last c prefix full last s Hs) as (s1 & a & -> & Hs1 & Ha).
  pose proof (frames_before key c prefix k full s1 Hk Hc Hp Hf Hall Hs1) as Hat.
  unfold out, at_ in Ht. rewrite <- Hat, (app_assoc (header prefix)), take_app_length, drop_app_length in Ht.
  rewrite <- app_assoc in Ht. change (clear_last a) with (if true then clear_last a else set_last a) in Ht.
  rewrite <- (flip_frame key c prefix _ true last a Hc Hp Hl Ha) in Ht.
  by apply (OpenStream_flipped key c prefix full true last s1 a t rest Hkey Hc Hp Hs1 Hf Hl Ha Ht).
Qed.

(** ** Properties *)

(** C19: the end mark of a chunk is bound to the chunk. Take a stream that [SealStream] wrote and set the mark of a
    chunk that is not the last, to end the stream early, whatever follows: [OpenStream] reports
    [ErrTampered] at that chunk, with exactly the chunks before it written, unless the key's hash key is zero,
    and then it accepts. If the mark of the last chunk is cleared, to go on after it, the answer is [ErrTampered]
    too for every other hash key. The bound does not grow with the length of the chunk. *)
Theorem Stream_end_mark key r k env out env' :
  len key = 32 -> 0 < k <= streamMaxChunkSize -> has_random 8 env -> rd_err r = EOF ->
  SealStream key r (buffer []) k env = (Ok tt, buffer out, env') ->
  let data := rd_bytes r in
  let chunks_before i := take (i * Z.to_nat k) data in
  let n := Z.to_nat (len data / k) in
  (forall i t rest, (i < n)%nat ->
     rd_bytes t = take (frame_start k i) out ++ set_last (take (Z.to_nat k + 20) (drop (frame_start k i) out)) ++ rest ->
     exists r', OpenStream key t (buffer []) =
       (if bool_decide (key_hash key = 0) then (Ok tt, (r', buffer (chunks_before (S i))))
        else (Err (Wrapf "%w: chunk %d: %v" ErrTampered), (r', buffer (chunks_before i))))) /\
  (key_hash key <> 0 -> forall t rest,
     rd_bytes t = take (frame_start k n) out ++ clear_last (drop (frame_start k n) out) ++ rest ->
     exists r', OpenStream key t (buffer []) =
       (Err (Wrapf "%w: chunk %d: %v" ErrTampered), (r', buffer (chunks_before n)))).
Proof.
  intros Hkey Hk Hrand He Hrun data chunks_before n.
  destruct (sealed_frames key r k env out env' Hkey Hk Hrand He Hrun)
    as (c & prefix & full & last & s & Hc & Hp & -> & Hs & Hsp & Hf & Hl).
  destruct (splits_length k _ full last ltac:(lia) Hsp) as (_ & _ & Hall).
  pose proof (splits_count k _ full last ltac:(lia) Hsp) as Hn. pose proof (splits_plain k _ full last Hsp) as Hd.
  assert (Hbefore : forall l1 l2, full = l1 ++ l2 -> chunks_before (length l1) = mjoin l1).
  { intros l1 l2 Heq. unfold chunks_before, data. rewrite <- Hd, Heq. unfold plain. rewrite join_app, <- app_assoc.
    apply take_app_len. rewrite Heq in Hall. apply Forall_app in Hall as [Hall _].
    pose proof (len_mjoin k l1 Hall). unfold len in *. lia. }
  assert (Hfull : n = length full) by (unfold n, data; rewrite <- Hn; unfold len; lia). split.
  - intros i t rest Hi Ht. rewrite Hfull in Hi. destruct (lookup_lt_is_Some_2 full i Hi) as [q Hq].
    pose proof (take_drop_middle full i q Hq) as Heq. symmetry in Heq.
    assert (Hlen : length (take i full) = i) by (rewrite length_take; lia).
    destruct (mark_set key c prefix k full (take i full) q (drop (S i) full) last s t rest) as [r' Ho];
      try done; [lia|by rewrite Hlen|].
    pose proof (Hbefore _ _ Heq) as Hb. rewrite cons_middle, app_assoc in Heq. pose proof (Hbefore _ _ Heq) as Hb'.
    rewrite length_app, Hlen, Nat.add_1_r, join_app in Hb'. rewrite Hlen in Hb. change (mjoin [q]) with (q ++ []) in Hb'.
    rewrite app_nil_r in Hb'. exists r'. by rewrite Ho, Hb, Hb'.
  - intros Hz t rest Ht. rewrite Hfull in *. rewrite (Hbefore full [] (eq_sym (app_nil_r full))).
    by apply (mark_cleared key c prefix k full last s t rest); try lia.
Qed.

(** A stream of "abcde" in chunks of three bytes; the end mark set on its first chunk. *)
Lemma Stream_end_mark_witness :
  exists r', OpenStream demo_stream_key
      {| rd_data := [take 13 demo_sealed ++ set_last (take 23 (drop 13 demo_sealed))]; rd_err := EOF |} (buffer []) =
    (Err (Wrapf "%w: chunk %d: %v" ErrTampered), (r', buffer [])).
Proof.
  destruct (SealStream demo_stream_key demo_input (buffer []) 3 demo_world) as [[o w] env'] eqn:Hrun.
  assert (Ho : (o, w) = (Ok tt, buffer demo_sealed)).
  { transitivity (SealStream demo_stream_key demo_input (buffer []) 3 demo_world).1; [by rewrite Hrun|vm_compute; reflexivity]. }
  injection Ho as -> ->.
  destruct (Stream_end_mark demo_stream_key demo_input 3 demo_world demo_sealed env') as [H _];
    [reflexivity|unfold streamMaxChunkSize; lia|vm_compute; discriminate|reflexivity|exact Hrun|].
  destruct (H 0%nat {| rd_data := [take 13 demo_sealed ++ set_last (take 23 (drop 13 demo_sealed))]; rd_err := EOF |} [])
    as [r' Hr]; [vm_compute; lia|vm_compute; reflexivity|].
  exists r'. rewrite Hr. rewrite bool_decide_eq_false_2; [reflexivity|]. vm_compute. discriminate.
Defined.
