(* ===== verification/TimeLock.v ===== *)
(** * Expiring tokens: [timelock.go]

    Times are nanoseconds since the Unix epoch, durations nanoseconds, as in package [time]. *)

From S2P Require Import Prelude Errors Binary Base64 GoIO Cipher Format Aead GoText.

(** [time.Second], and [Time.Unix], which rounds down to a whole second. *)
Definition Second : Z := 10 ^ 9.
Definition Unix (t : Z) : Z := t / Second.

(** ** Operations *)

Definition IssueToken (key payload : bytes) (ttl : Z) (aad : bytes) : M bytes :=
  if ttl <=? 0 then fail (Errorf "crypt: TTL must be positive; got %v")
  else
    now ← time_Now;
    let expiry := Unix (now + ttl) in
    let wrapped := PutUint64 (u64 expiry) ++ payload in
    Seal key wrapped aad.

Definition VerifyToken (key token aad : bytes) : M bytes :=
  wrapped ← lift (Open key token aad);
  if len wrapped <? 8 then fail (Wrapf "%w: token plaintext too short" ErrInvalidCiphertext)
  else
    field ← lift (slice wrapped 0 8);
    expiry ← lift (Uint64 field);
    let expiry := i64 expiry in
    now ← time_Now;
    if expiry <=? Unix now then fail ErrExpired
    else lift (slice_from wrapped 8).

(** ** Lemmas *)

(** A sealed plaintext of at least 8 bytes splits in expiry and payload. *)
Lemma VerifyToken_opened key token aad field payload w :
  Open key token aad = Ok (field ++ payload) -> len field = 8 ->
  VerifyToken key token aad w =
    (if i64 (be_get field) <=? Unix (w_now w) then Err ErrExpired else Ok payload, w).
Proof.
  intros Ho Hf. unfold VerifyToken. rewrite (M_lift_bind _ _ _ _ Ho).
  pose proof (len_nonneg payload). rewrite (proj2 (Z.ltb_ge _ _)) by (rewrite len_app; lia).
  rewrite (M_lift_bind _ field) by (rewrite (slice_app [] field payload); rewrite ?Hf; done).
  rewrite (M_lift_bind _ (be_get field)).
  2: { unfold Uint64. rewrite slice_Ok by lia. simpl. rewrite drop_0, take_ge; [done|].
       unfold len in Hf. lia. }
  unfold mbind, M_bind, time_Now. case_bool; [done|].
  unfold lift. by rewrite slice_from_app.
Qed.

Lemma VerifyToken_cases key token aad w :
  (exists e, Open key token aad = Err e /\ VerifyToken key token aad w = (Err e, w)) \/
  (exists p, Open key token aad = Ok p /\ len p < 8 /\
     exists f, VerifyToken key token aad w = (Err (Wrapf f ErrInvalidCiphertext), w)) \/
  (exists field payload, Open key token aad = Ok (field ++ payload) /\ len field = 8).
Proof.
  pose proof (Open_no_panic key token aad) as Hp.
  destruct (Open key token aad) as [p|e|m] eqn:Ho; [right|left|done].
  - destruct (Z.ltb_spec (len p) 8) as [Hl|Hl].
    + left. exists p. split; [done|]. split; [done|]. unfold VerifyToken.
      rewrite (M_lift_bind _ _ _ _ Ho), (proj2 (Z.ltb_lt _ _)) by done. eexists. reflexivity.
    + right. exists (take 8 p), (drop 8 p). rewrite take_drop. split; [done|].
      unfold len in *. rewrite length_take. lia.
  - exists e. split; [done|]. unfold VerifyToken, mbind, M_bind, lift. by rewrite Ho.
Qed.

(** What a token holds. *)
Lemma IssueToken_opens key payload ttl aad w tok w' :
  IssueToken key payload ttl aad w = (Ok tok, w') ->
  0 < ttl /\ Open key tok aad = Ok (PutUint64 (u64 (Unix (w_now w + ttl))) ++ payload).
Proof.
  unfold IssueToken. destruct (Z.leb_spec ttl 0); [discriminate|].
  intros (now & w1 & [= <- <-] & Hs)%M_bind_Ok_inv. split; [done|]. by apply Seal_then_Open in Hs.
Qed.

(** The verdict on an issued token, in whole seconds. *)
Lemma Issue_Verify key payload ttl aad w tok w' w2 :
  IssueToken key payload ttl aad w = (Ok tok, w') -> in_int64 (Unix (w_now w + ttl)) ->
  VerifyToken key tok aad w2 =
    (if Unix (w_now w + ttl) <=? Unix (w_now w2) then Err ErrExpired else Ok payload, w2).
Proof.
  intros [_ Ho]%IssueToken_opens Hr.
  rewrite (VerifyToken_opened _ _ _ _ _ w2 Ho) by apply len_PutUint64.
  assert (be_get (PutUint64 (u64 (Unix (w_now w + ttl)))) = u64 (Unix (w_now w + ttl))) as ->.
  { unfold PutUint64. rewrite be_get_put. unfold u64. apply Z.mod_mod. done. }
  by rewrite i64_u64.
Qed.

(** ** Properties *)

(** C26: the validity window. A token issued at time [t] with lifetime [ttl] verifies to its payload at
    every moment at least one second before [t + ttl], under the same key and AAD, and is
    [ErrExpired] at every moment from [t + ttl] on; in the second between the answer depends on
    where the whole seconds fall. *)
Theorem TimeLock_window key payload ttl aad w tok w' w2 :
  IssueToken key payload ttl aad w = (Ok tok, w') -> in_int64 (Unix (w_now w + ttl)) ->
  (w_now w2 + Second <= w_now w + ttl -> VerifyToken key tok aad w2 = (Ok payload, w2)) /\
  (w_now w + ttl <= w_now w2 -> VerifyToken key tok aad w2 = (Err ErrExpired, w2)) /\
  (VerifyToken key tok aad w2 = (Ok payload, w2) \/ VerifyToken key tok aad w2 = (Err ErrExpired, w2)).
Proof.
  intros Hi Hr. rewrite (Issue_Verify _ _ _ _ _ _ _ w2 Hi Hr). unfold Unix, Second.
  split; [|split].
  - intros Ht. rewrite (proj2 (Z.leb_gt _ _)); [done|].
    assert ((w_now w2 + 1 * 10 ^ 9) / 10 ^ 9 <= (w_now w + ttl) / 10 ^ 9) as H by (apply Z.div_le_mono; lia).
    rewrite Z.div_add in H by lia. lia.
  - intros Ht. rewrite (proj2 (Z.leb_le _ _)); [done|]. apply Z.div_le_mono; lia.
  - case_bool; auto.
Qed.

Definition world_at (t : Z) : world := {| w_rand := w_rand demo_world; w_now := t |}.

Definition demo_token : bytes := Eval vm_compute in
  match IssueToken demo_key (lit "user:7") (60 * Second) (lit "pwreset-v1") (world_at 0) with
  | (Ok s, _) => s | _ => [] end.

Lemma TimeLock_window_witness :
  VerifyToken demo_key demo_token (lit "pwreset-v1") (world_at (59 * Second)) =
    (Ok (lit "user:7"), world_at (59 * Second)) /\
  VerifyToken demo_key demo_token (lit "pwreset-v1") (world_at (60 * Second)) =
    (Err ErrExpired, world_at (60 * Second)).
Proof.
  assert (Hi : IssueToken demo_key (lit "user:7") (60 * Second) (lit "pwreset-v1") (world_at 0) =
    (Ok demo_token, (IssueToken demo_key (lit "user:7") (60 * Second) (lit "pwreset-v1") (world_at 0)).2))
    by (vm_compute; reflexivity).
  split.
  - apply (TimeLock_window _ _ _ _ _ _ _ (world_at (59 * Second)) Hi);
      [split; vm_compute; congruence|vm_compute; discriminate].
  - apply (TimeLock_window _ _ _ _ _ _ _ (world_at (60 * Second)) Hi);
      [split; vm_compute; congruence|vm_compute; discriminate].
Defined.

(** [IssueToken] succeeds for every positive lifetime with a 32-byte key, a payload within the
    limit and 12 random bytes, and fails with an error, never a panic, for a lifetime of zero or
    less; but with a lifetime below one second a token can be expired at the very moment it is
    issued: exactly when no whole second starts within the lifetime. *)
Theorem TimeLock_short_ttl key payload ttl aad w :
  len key = AEADKeySize -> len payload + 8 <= gcm_max -> has_random 12 w ->
  in_int64 (Unix (w_now w + ttl)) ->
  (ttl <= 0 -> exists e, IssueToken key payload ttl aad w = (Err e, w)) /\
  (0 < ttl -> exists tok w', IssueToken key payload ttl aad w = (Ok tok, w') /\ w_now w' = w_now w /\
     (VerifyToken key tok aad w' = (Err ErrExpired, w') <-> Unix (w_now w + ttl) = Unix (w_now w))).
Proof.
  intros Hk Hp Hw Hr. split.
  - intros Ht. unfold IssueToken. rewrite (proj2 (Z.leb_le _ _)) by done. eexists. reflexivity.
  - intros Ht.
    destruct (Seal_run key (PutUint64 (u64 (Unix (w_now w + ttl))) ++ payload) aad w) as
      (c & body & w' & _ & (Ha1 & Ha2 & Ha3) & _ & _ & Hs & _); [done| |done|].
    { rewrite len_app, len_PutUint64. lia. }
    set (tok := EncodeToString _ _) in Hs. exists tok, w'.
    assert (Hi : IssueToken key payload ttl aad w = (Ok tok, w')).
    { unfold IssueToken. rewrite (proj2 (Z.leb_gt _ _)) by done.
      unfold mbind, M_bind, time_Now. exact Hs. }
    split; [exact Hi|]. split; [done|].
    rewrite (Issue_Verify _ _ _ _ _ _ _ w' Hi Hr), Ha3.
    assert (Unix (w_now w) <= Unix (w_now w + ttl)) by (apply Z.div_le_mono; unfold Second; lia).
    destruct (Z.leb_spec (Unix (w_now w + ttl)) (Unix (w_now w))); split; try done; lia.
Qed.

Lemma TimeLock_short_ttl_witness :
  exists tok w', IssueToken demo_key [] 1 [] (world_at 5) = (Ok tok, w') /\ w_now w' = 5 /\
    (VerifyToken demo_key tok [] w' = (Err ErrExpired, w') <-> Unix (5 + 1) = Unix 5).
Proof.
  apply (TimeLock_short_ttl demo_key [] 1 [] (world_at 5));
    [done|vm_compute; discriminate|vm_compute; discriminate|split; vm_compute; congruence|done].
Defined.

(** [VerifyToken] returns a payload exactly when the text opens under the key and the AAD, to an
    8-byte expiry that lies in the future and that payload; so any [Seal] text with a plaintext of
    8 bytes or more is a candidate token. It never panics, returns [Open]'s error unchanged, and
    a plaintext below 8 bytes is [ErrInvalidCiphertext]. *)
Theorem VerifyToken_exact key token aad w :
  (forall p, VerifyToken key token aad w = (Ok p, w) <->
     exists field, len field = 8 /\ Open key token aad = Ok (field ++ p) /\
       Unix (w_now w) < i64 (be_get field)) /\
  panics (VerifyToken key token aad w).1 = false /\
  (forall e, Open key token aad = Err e -> VerifyToken key token aad w = (Err e, w)) /\
  (forall p, Open key token aad = Ok p -> len p < 8 ->
     fails_with (VerifyToken key token aad w).1 ErrInvalidCiphertext = true).
Proof.
  destruct (VerifyToken_cases key token aad w) as
    [(e & Ho & Hv)|[(p & Ho & Hl & f & Hv)|(field & payload & Ho & Hl)]].
  - rewrite Hv, Ho. split; [|split; [done|split; [by intros ? [= ->]|done]]].
    intros p. split; [done|]. by intros (? & _ & ? & _).
  - rewrite Hv, Ho. split; [|split; [done|split; [done|done]]].
    intros q. split; [done|]. intros (fl & Hfl & [= ->] & _). rewrite len_app in Hl.
    pose proof (len_nonneg q). lia.
  - rewrite (VerifyToken_opened _ _ _ _ _ w Ho Hl), Ho.
    split; [|split; [by case_bool|split; [done|]]].
    + intros p. destruct (Z.leb_spec (i64 (be_get field)) (Unix (w_now w))) as [He|He]; split; try done.
      * intros (fl & Hfl & [= Happ] & Hlt). apply app_inj_1 in Happ as [-> ->]; [lia|].
        unfold len in *. lia.
      * intros [= ->]. by exists field.
      * intros (fl & Hfl & [= Happ] & _). apply app_inj_1 in Happ as [_ ->]; [done|].
        unfold len in *. lia.
    + intros p [= <-] Hlt. rewrite len_app in Hlt. pose proof (len_nonneg payload). lia.
Qed.
