(* ===== verification/Sessions.v ===== *)
(** * Sealed JSON payloads: [examples/session_token], [examples/magic_link], [examples/csrf_token],
    [examples/encrypted_cookie] and [examples/time_locked_token]

    Four programs that seal a small struct as JSON under a fixed AAD and check its times when
    they open it, and the one that builds such a payload for [VerifyToken] by hand. *)

From Stdlib Require Import Strings.String.
From S2P Require Import Prelude Errors Binary GoIO Cipher Format Aead GoText Utf8 Json Codec Http TimeLock.

(** ** What the programs share *)

(** [json.Marshal] and [json.Unmarshal] as the programs call them: these types always encode. *)
Definition json_Marshal `{Struct A} (a : A) : outcome bytes := Ok (Marshal a).
Definition json_Unmarshal `{Struct A} (data : bytes) : outcome A :=
  match Unmarshal data zero with Some a => Ok a | None => Err (ErrorString "json") end.

Definition Minute : Z := 60 * Second.
Definition Hour : Z := 60 * Minute.

(** [int64(d.Seconds())] of a duration of whole seconds, where the float is exact. *)
Definition Seconds (d : Z) : Z := Z.quot d Second.

(** ** Sessions *)

Module SessionToken.

Record Session := { UserID : bytes; Scopes : list bytes; IssuedAt : Z; ExpiresAt : Z }.

#[global] Instance Session_struct : Struct Session := {
  to_fields s :=
    [{| name := lit "u"; omitempty := false; val := FString (UserID s) |};
     {| name := lit "s"; omitempty := true; val := FStrings (Scopes s) (length (Scopes s)) |};
     {| name := lit "i"; omitempty := false; val := FInt64 (IssuedAt s) |};
     {| name := lit "e"; omitempty := false; val := FInt64 (ExpiresAt s) |}];
  of_fields fs :=
    match fs with
    | [(_, FString u); (_, FStrings cells n); (_, FInt64 i); (_, FInt64 e)] =>
        Some {| UserID := u; Scopes := strings_of cells n; IssuedAt := i; ExpiresAt := e |}
    | _ => None
    end;
  zero := {| UserID := []; Scopes := []; IssuedAt := 0; ExpiresAt := 0 |}
}.

Definition sessionAAD : bytes := lit "session-v1".
Definition sessionTTL : Z := 24 * Hour.
Definition clockSkewLimit : Z := 30 * Second.

Definition IssueSession (sealer : Sealer.Sealer) (userID : bytes) (scopes : list bytes) : M bytes :=
  now ← time_Now;
  pt ← lift (json_Marshal {| UserID := userID; Scopes := scopes; IssuedAt := Unix now;
                             ExpiresAt := Unix (now + sessionTTL) |});
  Sealer.Seal sealer pt sessionAAD.

Definition OpenSession (sealer : Sealer.Sealer) (token : bytes) : M Session :=
  pt ← lift (map_err (fun _ => ErrorString "invalid session") (Sealer.Open sealer token sessionAAD));
  s ← lift (map_err (fun _ => ErrorString "invalid session") (json_Unmarshal pt));
  now ← time_Now;
  let now := Unix now in
  if ExpiresAt s <=? now then fail (ErrorString "session expired")
  else if i64 (now + Seconds clockSkewLimit) <? IssuedAt s then fail (ErrorString "session in the future")
  else mret s.

End SessionToken.

(** ** Links *)

Module MagicLink.

Record linkPayload := { UserID : bytes; ExpiresAt : Z }.

#[global] Instance linkPayload_struct : Struct linkPayload := {
  to_fields p :=
    [{| name := lit "u"; omitempty := false; val := FString (UserID p) |};
     {| name := lit "e"; omitempty := false; val := FInt64 (ExpiresAt p) |}];
  of_fields fs :=
    match fs with
    | [(_, FString u); (_, FInt64 e)] => Some {| UserID := u; ExpiresAt := e |}
    | _ => None
    end;
  zero := {| UserID := []; ExpiresAt := 0 |}
}.

Definition purposePasswordReset : bytes := lit "pwreset-v1".
Definition purposeEmailVerify : bytes := lit "email-verify-v1".
Definition resetTokenTTL : Z := 1 * Hour.

Definition issueLink (sealer : Sealer.Sealer) (userID purpose : bytes) (ttl : Z) : M bytes :=
  now ← time_Now;
  pt ← lift (json_Marshal {| UserID := userID; ExpiresAt := Unix (now + ttl) |});
  Sealer.Seal sealer pt purpose.

Definition verifyLink (sealer : Sealer.Sealer) (token purpose : bytes) : M bytes :=
  pt ← lift (map_err (fun _ => Errorf "invalid token") (Sealer.Open sealer token purpose));
  p ← lift (map_err (fun _ => Errorf "invalid token") (json_Unmarshal pt));
  now ← time_Now;
  if ExpiresAt p <=? Unix now then fail (Errorf "token expired")
  else mret (UserID p).

End MagicLink.

(** ** Form tokens *)

Module CsrfToken.

Record csrfPayload := { SessionID : bytes; IssuedAt : Z }.

#[global] Instance csrfPayload_struct : Struct csrfPayload := {
  to_fields p :=
    [{| name := lit "s"; omitempty := false; val := FString (SessionID p) |};
     {| name := lit "i"; omitempty := false; val := FInt64 (IssuedAt p) |}];
  of_fields fs :=
    match fs with
    | [(_, FString s); (_, FInt64 i)] => Some {| SessionID := s; IssuedAt := i |}
    | _ => None
    end;
  zero := {| SessionID := []; IssuedAt := 0 |}
}.

Definition csrfTTL : Z := 15 * Minute.

Definition IssueCSRF (sealer : Sealer.Sealer) (sessionID : bytes) : M bytes :=
  now ← time_Now;
  pt ← lift (json_Marshal {| SessionID := sessionID; IssuedAt := Unix now |});
  Sealer.Seal sealer pt (lit "csrf-v1").

Definition VerifyCSRF (sealer : Sealer.Sealer) (token expectedSession : bytes) : M unit :=
  pt ← lift (map_err (fun _ => Errorf "invalid csrf token") (Sealer.Open sealer token (lit "csrf-v1")));
  p ← lift (map_err (fun _ => Errorf "invalid csrf token") (json_Unmarshal pt));
  if negb (bool_decide (SessionID p = expectedSession)) then
    fail (Errorf "csrf token does not belong to this session")
  else
    now ← time_Now;
    if Seconds csrfTTL <? i64 (Unix now - IssuedAt p) then fail (Errorf "csrf token expired")
    else mret tt.

End CsrfToken.

(** ** Cookies *)

Module EncryptedCookie.

Record sessionCookie := { UserID : bytes; ExpiresAt : Z }.

#[global] Instance sessionCookie_struct : Struct sessionCookie := {
  to_fields p :=
    [{| name := lit "u"; omitempty := false; val := FString (UserID p) |};
     {| name := lit "e"; omitempty := false; val := FInt64 (ExpiresAt p) |}];
  of_fields fs :=
    match fs with
    | [(_, FString u); (_, FInt64 e)] => Some {| UserID := u; ExpiresAt := e |}
    | _ => None
    end;
  zero := {| UserID := []; ExpiresAt := 0 |}
}.

Definition cookieName : bytes := lit "_session".

Definition setSession (w : response) (sealer : Sealer.Sealer) (userID : bytes) (ttl : Z) : M response :=
  now ← time_Now;
  pt ← lift (json_Marshal {| UserID := userID; ExpiresAt := Unix (now + ttl) |});
  value ← Sealer.Seal sealer pt (lit "cookie-v1");
  now ← time_Now;
  mret (SetCookie w {| Name := cookieName; Value := value; HttpOnly := true; Same := SameSiteLaxMode;
                       Path := lit "/"; Expires := now + ttl |}).

Definition getSession (r : request) (sealer : Sealer.Sealer) : M sessionCookie :=
  c ← lift (map_err (fun _ => Errorf "no session") (request_Cookie r cookieName));
  pt ← lift (map_err (fun _ => Errorf "invalid session") (Sealer.Open sealer c (lit "cookie-v1")));
  s ← lift (map_err (fun _ => Errorf "invalid session") (json_Unmarshal pt));
  now ← time_Now;
  if ExpiresAt s <=? Unix now then fail (Errorf "session expired")
  else mret s.

(** The two handlers of [main]. *)
Definition handle_login (sealer : Sealer.Sealer) : M response := fun env =>
  match setSession new_response sealer (lit "usr_42") Hour env with
  | (Err err, env') => (Ok (http_Error new_response (ErrorText err) StatusInternalServerError), env')
  | (Ok w, env') => (Ok (Fprint w (lit "logged in" ++ [x0a])), env')
  | (Panic p, env') => (Panic p, env')
  end.

Definition handle_me (sealer : Sealer.Sealer) (r : request) : M response := fun env =>
  match getSession r sealer env with
  | (Err err, env') => (Ok (http_Error new_response (ErrorText err) StatusUnauthorized), env')
  | (Ok s, env') => (Ok (Fprint new_response (lit "you are " ++ UserID s ++ [x0a])), env')
  | (Panic p, env') => (Panic p, env')
  end.

End EncryptedCookie.

(** ** Hand-made tokens *)

Module TimeLockedToken.

(** The loop writes [out[7-i] = byte(expiry >> (8*i))]. *)
Definition packExpiryBytes (offset : Z) : M bytes :=
  now ← time_Now;
  let expiry := u64 (Unix (now + offset)) in
  mret (fold_left (fun (out : bytes) i => <[(7 - i)%nat := to_byte (Z.shiftr expiry (8 * Z.of_nat i))]> out)
          (seq 0 8) (replicate 8 x00)).

End TimeLockedToken.

(** ** The laws of the payload types *)

(** A list of fields with a known shape is a list of that many constructors. *)
Ltac fields_of_shape fs Hs Hv :=
  repeat (let k := fresh "k" in let v := fresh "v" in
          destruct fs as [|[k v] fs]; [discriminate Hs|]; cbn in Hs; injection Hs as -> ? Hs;
          destruct v; try discriminate; apply Forall_cons in Hv as [? Hv]);
  destruct fs; [|discriminate Hs].

Ltac struct_laws :=
  first
    [ done
    | solve [repeat constructor]
    | solve [apply (bool_decide_eq_true_1 (NoDup _)); vm_compute; reflexivity]
    | solve [let Hs := fresh in let Hv := fresh in
             intros fs Hs Hv; cbn in Hs, Hv; fields_of_shape fs Hs Hv;
             eexists; split; [reflexivity|]; cbn in *; intuition eauto using Forall_take] ].

#[export] Program Instance Session_ok : StructOk SessionToken.Session := {
  clean s := {| SessionToken.UserID := ToValid (SessionToken.UserID s);
                SessionToken.Scopes := map ToValid (SessionToken.Scopes s);
                SessionToken.IssuedAt := SessionToken.IssuedAt s;
                SessionToken.ExpiresAt := SessionToken.ExpiresAt s |};
  valid s := Valid (SessionToken.UserID s) = true /\
             Forall (fun x => Valid x = true) (SessionToken.Scopes s) /\
             in_int64 (SessionToken.IssuedAt s) /\ in_int64 (SessionToken.ExpiresAt s)
}.
Solve All Obligations with (try struct_laws).
Next Obligation.
  intros [u s i e] _. cbn. unfold strings_of. rewrite firstn_all.
  by rewrite <- (length_map ToValid s), firstn_all.
Qed.

#[export] Program Instance linkPayload_ok : StructOk MagicLink.linkPayload := {
  clean p := {| MagicLink.UserID := ToValid (MagicLink.UserID p); MagicLink.ExpiresAt := MagicLink.ExpiresAt p |};
  valid p := Valid (MagicLink.UserID p) = true /\ in_int64 (MagicLink.ExpiresAt p)
}.
Solve All Obligations with (try struct_laws).

#[export] Program Instance csrfPayload_ok : StructOk CsrfToken.csrfPayload := {
  clean p := {| CsrfToken.SessionID := ToValid (CsrfToken.SessionID p); CsrfToken.IssuedAt := CsrfToken.IssuedAt p |};
  valid p := Valid (CsrfToken.SessionID p) = true /\ in_int64 (CsrfToken.IssuedAt p)
}.
Solve All Obligations with (try struct_laws).

#[export] Program Instance sessionCookie_ok : StructOk EncryptedCookie.sessionCookie := {
  clean p := {| EncryptedCookie.UserID := ToValid (EncryptedCookie.UserID p);
                EncryptedCookie.ExpiresAt := EncryptedCookie.ExpiresAt p |};
  valid p := Valid (EncryptedCookie.UserID p) = true /\ in_int64 (EncryptedCookie.ExpiresAt p)
}.
Solve All Obligations with (try struct_laws).

(** ** Lemmas *)

(** The fields of a value, one by one. *)
Ltac solve_fits := unfold fits; repeat first [apply Forall_nil | apply Forall_cons; split]; cbn; try done; try lia.

Lemma json_Unmarshal_Ok `{StructOk A} data (a : A) : json_Unmarshal data = Ok a <-> Unmarshal data zero = Some a.
Proof. unfold json_Unmarshal. destruct (Unmarshal data zero); split; congruence. Qed.

(** What a sealed payload opens to. *)
Lemma sealed_payload `{StructOk A} key sl (a : A) aad w tok w' :
  Sealer.NewSealer key = Ok sl -> fits a -> Sealer.Seal sl (Marshal a) aad w = (Ok tok, w') ->
  Sealer.Open sl tok aad = Ok (Marshal a) /\ json_Unmarshal (Marshal a) = Ok (clean a).
Proof.
  intros (Hs & Ho & _)%NewSealer_inv Hf. rewrite Hs, Ho. intros Ht%Seal_then_Open. split; [done|].
  apply json_Unmarshal_Ok. by apply Unmarshal_Marshal.
Qed.

(** Opening a payload and decoding it, with an error of the program's own on either failure: both
    steps give one value or that error. *)
Lemma open_payload `{StructOk A} {B} key sl text aad e (f : A -> M B) w :
  Sealer.NewSealer key = Ok sl ->
  (exists pt a, Sealer.Open sl text aad = Ok pt /\ Unmarshal pt zero = Some a /\ valid a /\
     (pt ← lift (map_err (fun _ => e) (Sealer.Open sl text aad));
      s ← lift (map_err (fun _ => e) (json_Unmarshal pt)); f s) w = f a w) \/
  ((forall pt a, Sealer.Open sl text aad = Ok pt -> Unmarshal pt zero <> Some a) /\
     (pt ← lift (map_err (fun _ => e) (Sealer.Open sl text aad));
      s ← lift (map_err (fun _ => e) (json_Unmarshal pt)); f s) w = (Err e, w)).
Proof.
  intros Hs. pose proof (Sealer_Open_no_panic key sl text aad Hs) as Hp.
  destruct (Sealer.Open sl text aad) as [pt|e'|]; [|right|done].
  - unfold mbind, M_bind, lift, json_Unmarshal; cbn [map_err].
    destruct (Unmarshal pt zero) as [a|] eqn:Hu; [left|right].
    + exists pt, a. repeat split; [done|]. by apply Unmarshal_valid in Hu.
    + split; [by intros ? ? [= <-]; congruence|done].
  - split; [done|]. done.
Qed.

(** The two outcomes of opening and decoding in the goal. *)
Ltac payload_cases Hsl w :=
  match type of Hsl with Sealer.NewSealer ?key = Ok ?sl =>
    match goal with
    | |- context [lift (map_err (fun _ => ?e) (Sealer.Open sl ?tok ?aad)) ≫=
                  fun pt => lift (map_err _ (json_Unmarshal pt)) ≫= ?f] =>
        destruct (open_payload key sl tok aad e f w Hsl) as [(pt & p & Ho & Hu & Hv & ->)|[Hn ->]]
    end
  end.

Lemma Unix_add t d : Unix (t + d * Second) = Unix t + d.
Proof. unfold Unix. apply Z.div_add. done. Qed.

(** A valid session is one of the Go type that decoding leaves alone. *)
Lemma Session_valid_clean (s : SessionToken.Session) : valid s -> fits s /\ clean s = s.
Proof.
  destruct s as [u sc i e]. cbn. intros (Hu & Hsc & Hi & He). split; [solve_fits|].
  rewrite ToValid_Valid by done. f_equal. rewrite <- (map_id sc) at 2. apply map_ext_Forall.
  eapply Forall_impl; [exact Hsc|]. intros x. apply ToValid_Valid.
Qed.

Section sessions.
Import SessionToken.
Context (key : bytes) (sl : Sealer.Sealer) (Hsl : Sealer.NewSealer key = Ok sl).

(** What [OpenSession] answers once the payload is known. *)
Definition session_verdict (s : Session) (now : Z) : outcome Session :=
  if ExpiresAt s <=? now then Err (ErrorString "session expired")
  else if i64 (now + 30) <? IssuedAt s then Err (ErrorString "session in the future")
  else Ok s.

Lemma OpenSession_cases tok w :
  (exists pt s, Sealer.Open sl tok sessionAAD = Ok pt /\ Unmarshal pt zero = Some s /\ valid s /\
     OpenSession sl tok w = (session_verdict s (Unix (w_now w)), w)) \/
  ((forall pt (s : Session), Sealer.Open sl tok sessionAAD = Ok pt -> Unmarshal pt zero <> Some s) /\
     OpenSession sl tok w = (Err (ErrorString "invalid session"), w)).
Proof.
  unfold OpenSession. payload_cases Hsl w; [left|right; by split].
  exists pt, p. split; [done|]. split; [done|]. split; [done|]. unfold mbind, M_bind, time_Now, session_verdict.
  change (Seconds clockSkewLimit) with 30. case_bool; [done|]. by case_bool.
Qed.

Lemma IssueSession_opens user scopes w tok w' w2 :
  in_int64 (Unix (w_now w)) -> in_int64 (Unix (w_now w) + 86400) ->
  IssueSession sl user scopes w = (Ok tok, w') ->
  OpenSession sl tok w2 =
    (session_verdict {| UserID := ToValid user; Scopes := map ToValid scopes; IssuedAt := Unix (w_now w);
                        ExpiresAt := Unix (w_now w) + 86400 |} (Unix (w_now w2)), w2).
Proof.
  intros H1 H2. unfold IssueSession. change sessionTTL with (86400 * Second).
  unfold mbind at 1, M_bind at 1, time_Now. rewrite Unix_add.
  unfold mbind at 1, M_bind at 1, lift, json_Marshal. intros Hs.
  eapply (sealed_payload key) in Hs as [Ho Hu]; [|done|solve_fits].
  apply json_Unmarshal_Ok in Hu.
  destruct (OpenSession_cases tok w2) as [(pt & s & Ho' & Hu' & _ & ->)|[Hn _]].
  - rewrite Ho in Ho'. injection Ho' as <-. rewrite Hu in Hu'. injection Hu' as <-. reflexivity.
  - exfalso. by eapply Hn.
Qed.

Lemma IssueSession_run user scopes w :
  len (Marshal {| UserID := user; Scopes := scopes; IssuedAt := Unix (w_now w); ExpiresAt := Unix (w_now w) + 86400 |}) <= gcm_max ->
  has_random 12 w ->
  exists tok w' pt, IssueSession sl user scopes w = (Ok tok, w') /\ after_random 12 w w' /\
    Sealer.Seal sl pt sessionAAD w = (Ok tok, w').
Proof.
  intros Hl Hw. destruct (Sealer_Seal_ok key sl _ sessionAAD w Hsl Hl Hw) as (tok & w' & Hs & Ha).
  exists tok, w'. eexists. split; [|by split]. unfold IssueSession. change sessionTTL with (86400 * Second).
  unfold mbind, M_bind, time_Now. rewrite Unix_add. exact Hs.
Qed.

(** C23: The life of a session. A session is issued whenever 12 random bytes are left and its JSON is
    within the cipher's limit. With the age of a token counted in whole seconds from the one it was
    issued in, [OpenSession] returns the user, the scopes (with invalid UTF-8 replaced) and the two
    times at every age from -30 to 86399, "session expired" from 86400 on, and "session in the
    future" below -30. *)
Theorem Session_lifecycle user scopes w :
  in_int64 (Unix (w_now w)) -> in_int64 (Unix (w_now w) + 86400) ->
  let s := {| UserID := user; Scopes := scopes; IssuedAt := Unix (w_now w);
              ExpiresAt := Unix (w_now w) + 86400 |} in
  (len (Marshal s) <= gcm_max -> has_random 12 w ->
     exists tok w', IssueSession sl user scopes w = (Ok tok, w') /\ after_random 12 w w') /\
  (forall tok w' w2, IssueSession sl user scopes w = (Ok tok, w') -> in_int64 (Unix (w_now w2) + 30) ->
     let age := Unix (w_now w2) - Unix (w_now w) in
     (-30 <= age < 86400 -> OpenSession sl tok w2 = (Ok (clean s), w2)) /\
     (86400 <= age -> OpenSession sl tok w2 = (Err (ErrorString "session expired"), w2)) /\
     (age < -30 -> OpenSession sl tok w2 = (Err (ErrorString "session in the future"), w2))).
Proof.
  intros H1 H2 s. split.
  - intros Hl Hw. destruct (IssueSession_run user scopes w Hl Hw) as (tok & w' & _ & Hs & Ha & _). by exists tok, w'.
  - intros tok w' w2 Hi H3 age. rewrite (IssueSession_opens _ _ _ _ _ w2 H1 H2 Hi).
    unfold session_verdict. cbn [ExpiresAt IssuedAt]. rewrite i64_id by done.
    split; [|split]; intros Ha; unfold age in Ha; repeat (case_bool; try lia); done.
Qed.

(** C27: What [OpenSession] can return. It never panics and its failures are its three messages; a
    session comes back exactly when the token opens under the key and the session AAD to JSON that
    decodes to it, it has not expired and is issued at most 30 seconds ahead; and every session it
    returns, whoever wrote the JSON, is well typed: its strings are valid UTF-8, its times fit
    [int64], and encoding and decoding it again gives the same session. *)
Theorem OpenSession_typed tok w :
  match OpenSession sl tok w with
  | (Ok s, w') => w' = w /\ valid s /\ Unmarshal (Marshal s) zero = Some s
  | (Err e, w') => w' = w /\ e ∈ [ErrorString "invalid session"; ErrorString "session expired";
                                 ErrorString "session in the future"]
  | (Panic _, _) => False
  end /\
  forall s, OpenSession sl tok w = (Ok s, w) <->
    exists pt, Sealer.Open sl tok sessionAAD = Ok pt /\ Unmarshal pt zero = Some s /\
      Unix (w_now w) < ExpiresAt s /\ IssuedAt s <= i64 (Unix (w_now w) + 30).
Proof.
  destruct (OpenSession_cases tok w) as [(pt & s & Ho & Hu & Hv & ->)|[Hn ->]].
  - assert (Hr : Unmarshal (Marshal s) zero = Some s).
    { destruct (Session_valid_clean s Hv) as [Hf Hc]. rewrite <- Hc at 2. by apply Unmarshal_Marshal. }
    unfold session_verdict. repeat case_bool.
    + split; [split; [done|rewrite !elem_of_cons; tauto]|]. intros s'. split; [done|].
      intros (pt' & Ho' & Hu' & He & Hi). rewrite Ho in Ho'. injection Ho' as <-.
      rewrite Hu in Hu'. injection Hu' as <-. lia.
    + split; [split; [done|rewrite !elem_of_cons; tauto]|]. intros s'. split; [done|].
      intros (pt' & Ho' & Hu' & He & Hi). rewrite Ho in Ho'. injection Ho' as <-.
      rewrite Hu in Hu'. injection Hu' as <-. lia.
    + split; [done|]. intros s'. split.
      * intros [= <-]. exists pt. split; [done|]. split; [done|]. lia.
      * intros (pt' & Ho' & Hu' & He & Hi). rewrite Ho in Ho'. injection Ho' as <-.
        rewrite Hu in Hu'. by injection Hu' as <-.
  - split; [split; [done|rewrite !elem_of_cons; tauto]|]. intros s. split; [done|].
    intros (pt & Ho & Hu & _). exfalso. by eapply Hn.
Qed.
End sessions.

(** A session issued at second 1000 to a user id with an invalid byte. *)
Definition issued_at (m : Sealer.Sealer -> M bytes) (t : Z) : bytes :=
  match m demo_sealer (world_at (t * Second)) with (Ok s, _) => s | _ => [] end.

Definition demo_session : bytes := Eval vm_compute in
  issued_at (fun sl => SessionToken.IssueSession sl (lit "usr" ++ [xff]) [lit "read"; lit "write"]) 1000.

Definition opened_session : SessionToken.Session :=
  {| SessionToken.UserID := lit "usr" ++ [xef; xbf; xbd]; SessionToken.Scopes := [lit "read"; lit "write"];
     SessionToken.IssuedAt := 1000; SessionToken.ExpiresAt := 87400 |}.

Lemma demo_session_issued :
  exists w', SessionToken.IssueSession demo_sealer (lit "usr" ++ [xff]) [lit "read"; lit "write"]
    (world_at (1000 * Second)) = (Ok demo_session, w').
Proof. eexists. vm_compute. reflexivity. Qed.

Lemma Session_lifecycle_witness :
  SessionToken.OpenSession demo_sealer demo_session (world_at (87399 * Second)) =
    (Ok opened_session, world_at (87399 * Second)) /\
  SessionToken.OpenSession demo_sealer demo_session (world_at (87400 * Second)) =
    (Err (ErrorString "session expired"), world_at (87400 * Second)).
Proof.
  destruct demo_session_issued as [w' Hi].
  assert (H1 : in_int64 (Unix (w_now (world_at (1000 * Second))))) by (vm_compute; split; congruence).
  assert (H2 : in_int64 (Unix (w_now (world_at (1000 * Second))) + 86400)) by (vm_compute; split; congruence).
  destruct (Session_lifecycle demo_key demo_sealer demo_sealer_new (lit "usr" ++ [xff]) [lit "read"; lit "write"]
    (world_at (1000 * Second)) H1 H2) as [_ Hl].
  split.
  - destruct (Hl demo_session w' (world_at (87399 * Second)) Hi) as [Ho _]; [vm_compute; split; congruence|].
    rewrite Ho by (vm_compute; split; congruence). vm_compute. reflexivity.
  - destruct (Hl demo_session w' (world_at (87400 * Second)) Hi) as (_ & Ho & _); [vm_compute; split; congruence|].
    apply Ho. vm_compute. congruence.
Defined.

Lemma OpenSession_typed_witness :
  Forall (fun s => Valid s = true) (SessionToken.Scopes opened_session) /\
  Unmarshal (Marshal opened_session) zero = Some opened_session.
Proof.
  pose proof (OpenSession_typed demo_key demo_sealer demo_sealer_new demo_session (world_at (1010 * Second))) as H.
  assert (Ho : SessionToken.OpenSession demo_sealer demo_session (world_at (1010 * Second)) =
    (Ok opened_session, world_at (1010 * Second))) by (vm_compute; reflexivity).
  rewrite Ho in H. destruct H as [(_ & Hv & Hu) _]. split; [apply Hv|exact Hu].
Defined.

(** *** Links *)

(** Opening what was sealed hands the payload, as decoding leaves it, to the rest of the call. *)
Lemma open_sealed `{StructOk A} {B} key sl (a : A) aad w0 tok w' e (f : A -> M B) w :
  Sealer.NewSealer key = Ok sl -> fits a -> Sealer.Seal sl (Marshal a) aad w0 = (Ok tok, w') ->
  (pt ← lift (map_err (fun _ => e) (Sealer.Open sl tok aad));
   s ← lift (map_err (fun _ => e) (json_Unmarshal pt)); f s) w = f (clean a) w.
Proof.
  intros Hs Hf Ht. destruct (sealed_payload key sl a aad w0 tok w' Hs Hf Ht) as [-> Hu].
  unfold mbind, M_bind, lift. cbn [map_err]. by rewrite Hu.
Qed.

Section links.
Import MagicLink.
Context (key : bytes) (sl : Sealer.Sealer) (Hsl : Sealer.NewSealer key = Ok sl).

(** The verdict on an issued link under its purpose. *)
Lemma verifyLink_issued tok purpose userID ttl w w' w2 :
  issueLink sl userID purpose ttl w = (Ok tok, w') -> in_int64 (Unix (w_now w + ttl)) ->
  verifyLink sl tok purpose w2 =
    (if Unix (w_now w + ttl) <=? Unix (w_now w2) then Err (Errorf "token expired") else Ok (ToValid userID), w2).
Proof.
  intros Hi Hr. unfold verifyLink. erewrite (open_sealed key sl {| UserID := userID; ExpiresAt := Unix (w_now w + ttl) |});
    [|done|solve_fits|exact Hi].
  unfold mbind, M_bind, time_Now. cbn [clean linkPayload_ok ExpiresAt UserID]. by case_bool.
Qed.

(** A link that does not open. *)
Lemma verifyLink_invalid tok purpose e w :
  Sealer.Open sl tok purpose = Err e -> verifyLink sl tok purpose w = (Err (Errorf "invalid token"), w).
Proof. intros Ho. unfold verifyLink, mbind, M_bind, lift. by rewrite Ho. Qed.

(** A link opens under its purpose to the user it was issued for (invalid UTF-8 replaced) in every
    second before the one [now + ttl] falls in, and is "token expired" from that second on; so a
    lifetime of zero or less gives a link that is expired at once. The two failures can be told
    apart: "token expired" comes back exactly for texts that are sealed under the key and the purpose
    and decode to a payload of the past, "invalid token" for all others, and there is no third. *)
Theorem MagicLink_window tok purpose w2 :
  (forall userID ttl w w', issueLink sl userID purpose ttl w = (Ok tok, w') -> in_int64 (Unix (w_now w + ttl)) ->
     verifyLink sl tok purpose w2 =
       (if Unix (w_now w + ttl) <=? Unix (w_now w2) then Err (Errorf "token expired") else Ok (ToValid userID), w2) /\
     (ttl <= 0 -> w_now w <= w_now w2 -> verifyLink sl tok purpose w2 = (Err (Errorf "token expired"), w2))) /\
  (verifyLink sl tok purpose w2 = (Err (Errorf "token expired"), w2) <->
     exists pt (p : linkPayload), Sealer.Open sl tok purpose = Ok pt /\ Unmarshal pt zero = Some p /\
       ExpiresAt p <= Unix (w_now w2)) /\
  match (verifyLink sl tok purpose w2).1 with
  | Ok _ => True
  | Err e => e = Errorf "token expired" \/ e = Errorf "invalid token"
  | Panic _ => False
  end.
Proof.
  split; [|split].
  - intros userID ttl w w' Hi Hr.
    pose proof (verifyLink_issued _ _ _ _ _ _ w2 Hi Hr) as Hv.
    split; [done|]. intros Ht Hw. rewrite Hv.
    rewrite (proj2 (Z.leb_le _ _)); [done|]. unfold Unix, Second. apply Z.div_le_mono; lia.
  - unfold verifyLink. payload_cases Hsl w2.
    + unfold mbind, M_bind, time_Now. case_bool; split; try done.
      * intros _. exists pt, p. split; [done|]. split; [done|lia].
      * intros (pt' & p' & Ho' & Hu' & He). rewrite Ho in Ho'. injection Ho' as <-. rewrite Hu in Hu'.
        injection Hu' as <-. lia.
    + split; [done|]. intros (pt & p & Ho & Hu & _). exfalso. by eapply Hn.
  - unfold verifyLink. payload_cases Hsl w2; [|by right].
    unfold mbind, M_bind, time_Now. case_bool; [by left|done].
Qed.
End links.

Definition demo_link : bytes := Eval vm_compute in
  issued_at (fun sl => MagicLink.issueLink sl (lit "usr_42") MagicLink.purposePasswordReset MagicLink.resetTokenTTL) 1000.

Lemma demo_link_issued :
  exists w', MagicLink.issueLink demo_sealer (lit "usr_42") MagicLink.purposePasswordReset MagicLink.resetTokenTTL
    (world_at (1000 * Second)) = (Ok demo_link, w').
Proof. eexists. vm_compute. reflexivity. Qed.

Lemma MagicLink_window_witness :
  MagicLink.verifyLink demo_sealer demo_link MagicLink.purposePasswordReset (world_at (4599 * Second)) =
    (Ok (lit "usr_42"), world_at (4599 * Second)).
Proof.
  destruct demo_link_issued as [w' Hi].
  destruct (MagicLink_window demo_key demo_sealer demo_sealer_new demo_link MagicLink.purposePasswordReset
    (world_at (4599 * Second))) as [Hw _].
  destruct (Hw _ _ _ _ Hi) as [-> _]; [vm_compute; split; congruence|]. vm_compute. reflexivity.
Defined.

(** *** Form tokens *)

Section csrf.
Import CsrfToken.
Context (key : bytes) (sl : Sealer.Sealer) (Hsl : Sealer.NewSealer key = Ok sl).

(** The verdict on an issued form token. *)
Lemma VerifyCSRF_issued sessionID w tok w' w2 expected :
  IssueCSRF sl sessionID w = (Ok tok, w') -> in_int64 (Unix (w_now w)) ->
  in_int64 (Unix (w_now w2) - Unix (w_now w)) ->
  VerifyCSRF sl tok expected w2 =
    (if bool_decide (expected = ToValid sessionID) then
       if 900 <? Unix (w_now w2) - Unix (w_now w) then Err (Errorf "csrf token expired") else Ok tt
     else Err (Errorf "csrf token does not belong to this session"), w2).
Proof.
  intros Hi Hr Hd. unfold VerifyCSRF.
  erewrite (open_sealed key sl {| SessionID := sessionID; IssuedAt := Unix (w_now w) |});
    [|done|solve_fits|exact Hi].
  cbn [clean csrfPayload_ok SessionID IssuedAt]. change (Seconds csrfTTL) with 900.
  rewrite (bool_decide_ext (ToValid sessionID = expected) (expected = ToValid sessionID)) by done.
  case_bool_decide; [|done]. cbn [negb]. unfold mbind, M_bind, time_Now. rewrite i64_id by done. by case_bool.
Qed.

(** A form token that does not open. *)
Lemma VerifyCSRF_invalid tok expected e w :
  Sealer.Open sl tok (lit "csrf-v1") = Err e -> VerifyCSRF sl tok expected w = (Err (Errorf "invalid csrf token"), w).
Proof. intros Ho. unfold VerifyCSRF, mbind, M_bind, lift. by rewrite Ho. Qed.

(** Whose form token it is. A token issued for a session id verifies against the ids that equal it
    once its invalid UTF-8 is replaced, for 900 whole seconds (and at every moment before its
    issue); any other id is told that the token belongs to another session, whatever its age.
    So a session's own tokens verify exactly when its id is valid UTF-8, and the tokens of ids
    that differ only in invalid bytes have one owner. *)
Theorem VerifyCSRF_owner sessionID w tok w' w2 :
  IssueCSRF sl sessionID w = (Ok tok, w') -> in_int64 (Unix (w_now w)) ->
  in_int64 (Unix (w_now w2) - Unix (w_now w)) ->
  let age := Unix (w_now w2) - Unix (w_now w) in
  (forall expected, VerifyCSRF sl tok expected w2 =
     (if bool_decide (expected = ToValid sessionID) then
        if 900 <? age then Err (Errorf "csrf token expired") else Ok tt
      else Err (Errorf "csrf token does not belong to this session"), w2)) /\
  (VerifyCSRF sl tok sessionID w2 = (Ok tt, w2) <-> Valid sessionID = true /\ age <= 900).
Proof.
  intros Hi Hr Hd age.
  assert (Hv : forall expected, VerifyCSRF sl tok expected w2 =
     (if bool_decide (expected = ToValid sessionID) then
        if 900 <? age then Err (Errorf "csrf token expired") else Ok tt
      else Err (Errorf "csrf token does not belong to this session"), w2)).
  { intros expected. by eapply VerifyCSRF_issued. }
  split; [exact Hv|]. rewrite Hv, Valid_iff. case_bool_decide; [case_bool|].
  - split; [done|]. intros [_ Ha]. lia.
  - split; [|done]. intros _. split; [done|lia].
  - split; [done|]. intros [Ha _]. congruence.
Qed.
End csrf.

Definition demo_csrf : bytes := Eval vm_compute in
  issued_at (fun sl => CsrfToken.IssueCSRF sl (lit "sess" ++ [xff])) 1000.

Lemma demo_csrf_issued :
  exists w', CsrfToken.IssueCSRF demo_sealer (lit "sess" ++ [xff]) (world_at (1000 * Second)) = (Ok demo_csrf, w').
Proof. eexists. vm_compute. reflexivity. Qed.

Lemma VerifyCSRF_owner_witness :
  CsrfToken.VerifyCSRF demo_sealer demo_csrf (lit "sess" ++ [xff]) (world_at (1000 * Second)) =
    (Err (Errorf "csrf token does not belong to this session"), world_at (1000 * Second)) /\
  CsrfToken.VerifyCSRF demo_sealer demo_csrf (lit "sess" ++ [xef; xbf; xbd]) (world_at (1000 * Second)) =
    (Ok tt, world_at (1000 * Second)).
Proof.
  destruct demo_csrf_issued as [w' Hi].
  destruct (VerifyCSRF_owner demo_key demo_sealer demo_sealer_new _ _ _ _ (world_at (1000 * Second)) Hi) as [Hv _];
    [vm_compute; split; congruence..|].
  rewrite !Hv. split; vm_compute; reflexivity.
Defined.

(** *** Cookies *)

Section cookies.
Import EncryptedCookie.
Context (key : bytes) (sl : Sealer.Sealer) (Hsl : Sealer.NewSealer key = Ok sl).

(** A client that sends back the cookie it was given. *)
Lemma getSession_sent_back userID ttl w r w' w2 :
  setSession new_response sl userID ttl w = (Ok r, w') -> in_int64 (Unix (w_now w + ttl)) ->
  (exists c, cookies r = [c] /\ Name c = cookieName /\ Expires c = w_now w' + ttl) /\
  status r = 200 /\ body r = [] /\
  getSession (sent_back r) sl w2 =
    (if Unix (w_now w + ttl) <=? Unix (w_now w2) then Err (Errorf "session expired")
     else Ok {| UserID := ToValid userID; ExpiresAt := Unix (w_now w + ttl) |}, w2).
Proof.
  unfold setSession. intros (now & w1 & [= <- <-] & Hs)%M_bind_Ok_inv Hr.
  apply M_bind_Ok_inv in Hs as (pt & w1 & [= <- <-] & Hs).
  apply M_bind_Ok_inv in Hs as (value & w1 & Ht & [= <- <-]).
  split; [eauto|]. split; [done|]. split; [done|]. unfold getSession.
  change (sent_back (SetCookie new_response _)) with {| r_headers := ∅; r_cookies := [(cookieName, value)] |}.
  unfold request_Cookie. cbn [r_cookies list_find fst snd]. rewrite decide_True by done. cbn [fst snd map_err].
  unfold mbind at 1, M_bind at 1, lift at 1. cbv beta iota.
  erewrite (open_sealed key sl {| UserID := userID; ExpiresAt := Unix (w_now w + ttl) |});
    [|done|solve_fits|exact Ht].
  unfold mbind, M_bind, time_Now. cbn [clean sessionCookie_ok ExpiresAt UserID]. by case_bool.
Qed.

Lemma usr_42_fits e : len (Marshal {| UserID := lit "usr_42"; ExpiresAt := e |}) <= gcm_max.
Proof.
  assert (Hm : Marshal {| UserID := lit "usr_42"; ExpiresAt := e |} =
    lit_q "{'u':'usr_42','e':" ++ FormatInt e ++ lit "}").
  { unfold Marshal, struct_json. cbn [to_fields sessionCookie_struct UserID ExpiresAt].
    rewrite !filter_cons_True by done. cbn [filter list_filter map name val field_json encode join].
    rewrite <- !app_assoc. reflexivity. }
  rewrite Hm. pose proof (length_FormatInt e). unfold len. rewrite !length_app.
  change (length (lit_q _)) with 18%nat. change (length (lit "}")) with 1%nat. unfold gcm_max. lia.
Qed.

(** The two handlers and a client between them. A login with 12 random bytes left answers 200 with
    one cookie, named "_session" and expiring an hour later; sent back to [/me] it gives 200 and
    "you are usr_42" in every second before the one an hour after the login, and 401 "session
    expired" from then on. A request without that cookie gets 401 "no session", one whose cookie does
    not open 401 "invalid session", and a login without randomness 500 and no cookie; the handlers
    never panic. *)
Theorem cookie_session w :
  in_int64 (Unix (w_now w) + 3600) ->
  (has_random 12 w -> exists r w' c, handle_login sl w = (Ok r, w') /\ w_now w' = w_now w /\ status r = 200 /\ cookies r = [c] /\
     Name c = cookieName /\ Expires c = w_now w + Hour /\ body r = [Text (lit "logged in" ++ [x0a])] /\
     forall w2, handle_me sl (sent_back r) w2 =
       (Ok (if Unix (w_now w) + 3600 <=? Unix (w_now w2)
            then {| status := 401; cookies := []; body := [ErrorText (Errorf "session expired"); Text [x0a]] |}
            else {| status := 200; cookies := []; body := [Text (lit "you are usr_42" ++ [x0a])] |}), w2)) /\
  (~ has_random 12 w -> exists r w', handle_login sl w = (Ok r, w') /\ status r = 500 /\ cookies r = []) /\
  (forall q, (forall v, (cookieName, v) ∉ r_cookies q) -> handle_me sl q w =
     (Ok {| status := 401; cookies := []; body := [ErrorText (Errorf "no session"); Text [x0a]] |}, w)) /\
  (forall q v e, request_Cookie q cookieName = Ok v -> Sealer.Open sl v (lit "cookie-v1") = Err e ->
     handle_me sl q w =
       (Ok {| status := 401; cookies := []; body := [ErrorText (Errorf "invalid session"); Text [x0a]] |}, w)).
Proof.
  intros Hr. split; [|split; [|split]].
  - intros Hw. destruct (Sealer_Seal_ok key sl (Marshal {| UserID := lit "usr_42"; ExpiresAt := Unix (w_now w + Hour) |})
      (lit "cookie-v1") w Hsl (usr_42_fits _) Hw) as (value & w' & Hs & (_ & _ & Hn)).
    assert (Hset : setSession new_response sl (lit "usr_42") Hour w =
      (Ok (SetCookie new_response {| Name := cookieName; Value := value; HttpOnly := true; Same := SameSiteLaxMode;
             Path := lit "/"; Expires := w_now w' + Hour |}), w')).
    { unfold setSession. unfold mbind at 1, M_bind at 1, time_Now at 1.
      unfold mbind at 1, M_bind at 1, lift, json_Marshal. unfold mbind at 1, M_bind at 1. by rewrite Hs. }
    rewrite Hn in Hset. eexists _, w', _. split; [unfold handle_login; rewrite Hset; reflexivity|]. split; [done|].
    repeat (split; [done|]). intros w2. unfold handle_me.
    edestruct (getSession_sent_back _ _ _ _ _ w2 Hset) as (_ & _ & _ & Hg).
    { change Hour with (3600 * Second). by rewrite Unix_add. }
    change Hour with (3600 * Second) in *. rewrite Unix_add in Hg.
    match type of Hg with getSession ?q _ _ = _ =>
      match goal with |- context [getSession ?q' _ _] => change q' with q end end.
    rewrite Hg. by case_bool.
  - intros Hw. destruct (ReadRand_Err 12 w) as (e & w' & Hrd); [done..|].
    assert (Hs : forall pt aad, exists e, Sealer.Seal sl pt aad w = (Err e, w')).
    { intros pt aad. eexists. unfold Sealer.Seal. apply M_bind_Err. apply map_errM_Err. exact Hrd. }
    destruct (Hs (Marshal {| UserID := lit "usr_42"; ExpiresAt := Unix (w_now w + Hour) |}) (lit "cookie-v1")) as [e' He].
    eexists _, w'. unfold handle_login, setSession. unfold mbind at 1, M_bind at 1, time_Now at 1.
    unfold mbind at 1, M_bind at 1, lift, json_Marshal. unfold mbind at 1, M_bind at 1. rewrite He. done.
  - intros q Hq. unfold handle_me, getSession, request_Cookie.
    destruct (list_find (fun c : bytes * bytes => c.1 = cookieName) (r_cookies q)) as [[i [n v]]|] eqn:Hf; [|done].
    apply list_find_Some in Hf as (Hl & Hn & _). cbn in Hn. subst n. exfalso.
    by eapply Hq, list_elem_of_lookup_2.
  - intros q v e Hc Ho. unfold handle_me, getSession. rewrite Hc. cbn [map_err].
    unfold mbind at 1, M_bind at 1, lift at 1. cbv beta iota. by rewrite Ho.
Qed.
End cookies.

Lemma cookie_session_witness :
  exists r w' c, EncryptedCookie.handle_login demo_sealer (world_at 0) = (Ok r, w') /\
    cookies r = [c] /\
    EncryptedCookie.handle_me demo_sealer (sent_back r) (world_at (3599 * Second)) =
      (Ok {| status := 200; cookies := [];
             body := [Text (lit "you are usr_42" ++ [x0a])] |}, world_at (3599 * Second)).
Proof.
  destruct (cookie_session demo_key demo_sealer demo_sealer_new (world_at 0)) as [Hl _];
    [vm_compute; split; congruence|].
  destruct Hl as (r & w' & c & Hr & _ & _ & Hc & _ & _ & _ & Hme); [vm_compute; congruence|].
  exists r, w', c. split; [exact Hr|]. split; [exact Hc|]. exact (Hme (world_at (3599 * Second))).
Defined.

(** *** Hand-made tokens *)

Lemma fold_pack (e : Z) :
  fold_left (fun (out : bytes) i => <[(7 - i)%nat := to_byte (Z.shiftr e (8 * Z.of_nat i))]> out)
    (seq 0 8) (replicate 8 x00) = PutUint64 e.
Proof.
  unfold PutUint64. cbn [be_put app]. rewrite !Z.shiftr_shiftr by done.
  cbn. by rewrite Z.shiftr_0_r.
Qed.

Lemma packExpiryBytes_run offset w :
  TimeLockedToken.packExpiryBytes offset w = (Ok (PutUint64 (u64 (Unix (w_now w + offset)))), w).
Proof. unfold TimeLockedToken.packExpiryBytes, mbind, M_bind, time_Now. by rewrite fold_pack. Qed.

(** What is sealed behind an expiry of its own choice. *)
Lemma packed_Verify key payload offset aad w tok w' w2 w3 :
  Seal key (PutUint64 (u64 (Unix (w_now w + offset))) ++ payload) aad w2 = (Ok tok, w') ->
  in_int64 (Unix (w_now w + offset)) ->
  VerifyToken key tok aad w3 =
    (if Unix (w_now w + offset) <=? Unix (w_now w3) then Err ErrExpired else Ok payload, w3).
Proof.
  intros Hs%Seal_then_Open Hr. rewrite (VerifyToken_opened _ _ _ _ _ w3 Hs) by apply len_PutUint64.
  assert (be_get (PutUint64 (u64 (Unix (w_now w + offset)))) = u64 (Unix (w_now w + offset))) as ->.
  { unfold PutUint64. rewrite be_get_put. unfold u64. apply Z.mod_mod. done. }
  by rewrite i64_u64.
Qed.

(** The program's own expiry field. [packExpiryBytes] writes the 8 bytes [IssueToken] puts in front
    of a payload, for any offset, so for a positive one sealing them by hand is [IssueToken]; with
    an offset of zero or less, which [IssueToken] refuses, the text [Seal] makes of them is
    [ErrExpired] for [VerifyToken] at every later moment, and never a payload. *)
Theorem packExpiryBytes_is_IssueToken key payload offset aad w :
  (TimeLockedToken.packExpiryBytes offset w = (Ok (PutUint64 (u64 (Unix (w_now w + offset)))), w)) /\
  (0 < offset -> IssueToken key payload offset aad w =
     (field ← TimeLockedToken.packExpiryBytes offset; Seal key (field ++ payload) aad) w) /\
  (forall tok w' w2, offset <= 0 -> w_now w <= w_now w2 -> in_int64 (Unix (w_now w + offset)) ->
     (field ← TimeLockedToken.packExpiryBytes offset; Seal key (field ++ payload) aad) w = (Ok tok, w') ->
     VerifyToken key tok aad w2 = (Err ErrExpired, w2)).
Proof.
  pose proof (packExpiryBytes_run offset w) as Hp.
  split; [exact Hp|]. split.
  - intros Ho. rewrite (M_bind_Ok _ _ _ _ _ Hp). unfold IssueToken.
    by rewrite (proj2 (Z.leb_gt _ _)) by done.
  - intros tok w' w2 Ho Hw Hr. rewrite (M_bind_Ok _ _ _ _ _ Hp). intros Hs.
    rewrite (packed_Verify _ _ _ _ _ _ _ _ w2 Hs Hr). rewrite (proj2 (Z.leb_le _ _)); [done|].
    unfold Unix, Second. apply Z.div_le_mono; lia.
Qed.

Lemma packExpiryBytes_is_IssueToken_witness :
  IssueToken demo_key (lit "user_id=usr_42") Hour (lit "pwreset-v1") (world_at 0) =
    (field ← TimeLockedToken.packExpiryBytes Hour; Seal demo_key (field ++ lit "user_id=usr_42") (lit "pwreset-v1"))
      (world_at 0).
Proof. apply packExpiryBytes_is_IssueToken. reflexivity. Defined.
