(* ===== verification/Services.v ===== *)
(** * Small services over the library: [examples/seal_with_aad], [examples/sealer],
    [examples/encrypted_file] and [examples/api_key_check]

    Tokens bound to a user, a service that holds a sealer, sealed files, and a handler behind an
    API key. *)

From Stdlib Require Import Strings.String.
From S2P Require Import Prelude Errors Base64 GoIO Cipher Format Aead GoText Http Sign.

(** ** Tokens bound to a user *)

Module SealWithAAD.

Definition issueSession (serverKey userID payload : bytes) : M bytes :=
  let aad := lit "user:" ++ userID in
  Seal serverKey payload aad.

Definition openSession (serverKey userID ciphertext : bytes) : outcome bytes :=
  let aad := lit "user:" ++ userID in
  Open serverKey ciphertext aad.

End SealWithAAD.

(** ** A service with an injected sealer *)

Module SealerService.

Record Service := { sealer : Sealer.Sealer }.

Definition NewService (sealer : Sealer.Sealer) : Service := {| sealer := sealer |}.

Definition Encrypt (s : Service) (plaintext : bytes) : M bytes := Sealer.Seal (sealer s) plaintext [].

Definition Decrypt (s : Service) (ciphertext : bytes) : outcome bytes := Sealer.Open (sealer s) ciphertext [].

End SealerService.

(** ** Sealed files *)

Module EncryptedFile.

(** The files by path. [os.WriteFile] truncates the file and writes; [plan] says how its next
    calls go: [None] writes everything, [Some (None, e)] fails to open the file, and
    [Some (Some k, e)] fails after [k] bytes. Past the plan every call succeeds. *)
Record disk := { files : gmap bytes bytes; plan : list (option (option nat * error)) }.

Definition WriteFile (path data : bytes) (d : disk) : outcome unit * disk :=
  match plan d with
  | [] => (Ok tt, {| files := <[path := data]> (files d); plan := [] |})
  | None :: pl => (Ok tt, {| files := <[path := data]> (files d); plan := pl |})
  | Some (None, e) :: pl => (Err e, {| files := files d; plan := pl |})
  | Some (Some k, e) :: pl => (Err e, {| files := <[path := take k data]> (files d); plan := pl |})
  end.

Definition ReadFile (path : bytes) (d : disk) : outcome bytes :=
  match files d !! path with Some b => Ok b | None => Err (ErrorString "file does not exist") end.

Definition writeEncrypted (sealer : Sealer.Sealer) (path plaintext aad : bytes) (d : disk) :
    world -> outcome unit * disk * world := fun w =>
  match Sealer.Seal sealer plaintext aad w with
  | (Err err, w') => (Err err, d, w')
  | (Panic p, w') => (Panic p, d, w')
  | (Ok ct, w') => (WriteFile path ct d, w')
  end.

Definition readEncrypted (sealer : Sealer.Sealer) (path aad : bytes) (d : disk) : outcome bytes :=
  raw ← ReadFile path d;
  Sealer.Open sealer raw aad.

End EncryptedFile.

(** ** A handler behind an API key *)

Module ApiKeyCheck.

(** A handler writes to the response it is given. *)
Definition Handler : Type := response -> request -> response.

Definition requireAPIKey (expected : bytes) (next : Handler) : Handler := fun w r =>
  let got := Header_Get r (lit "X-API-Key") in
  if negb (ConstantTimeEqual got expected) then
    http_Error w (Text (lit "unauthorized")) StatusUnauthorized
  else next w r.

(** The handler [main] registers. *)
Definition health : Handler := fun w _ => Fprint w (lit "ok" ++ [x0a]).

End ApiKeyCheck.

(** ** Properties *)

(** A token opens for the user it was issued to, and two users never share their associated data. *)
Theorem openSession_issued key user p w t w' :
  SealWithAAD.issueSession key user p w = (Ok t, w') ->
  SealWithAAD.openSession key user t = Ok p /\
  (forall user', user' <> user -> lit "user:" ++ user' <> lit "user:" ++ user).
Proof.
  intros Ht. split; [by eapply Seal_then_Open|]. intros user' Hne Heq. by apply app_inv_head in Heq.
Qed.

(** What [Encrypt] returned, any service with a sealer of the same key decrypts. *)
Theorem Service_roundtrip key sl1 sl2 p w ct w' :
  Sealer.NewSealer key = Ok sl1 -> Sealer.NewSealer key = Ok sl2 ->
  SealerService.Encrypt (SealerService.NewService sl1) p w = (Ok ct, w') ->
  SealerService.Decrypt (SealerService.NewService sl2) ct = Ok p.
Proof.
  intros (Hs & _)%NewSealer_inv (_ & Ho & _)%NewSealer_inv. unfold SealerService.Encrypt, SealerService.Decrypt.
  cbn [SealerService.sealer SealerService.NewService]. rewrite Hs, Ho. apply Seal_then_Open.
Qed.

(** Sealed files, with every way a write can go. When [writeEncrypted] returns nil,
    [readEncrypted] of the path under the same AAD returns the plaintext. When the random source
    fails, the disk is untouched; when [os.WriteFile] cannot open the file, its content is
    untouched; but when it fails midway the old content is gone, and what the path holds is the
    front of the new text. No other path changes on any branch. *)
Theorem encrypted_file key sl path p aad d w :
  Sealer.NewSealer key = Ok sl -> len p <= gcm_max ->
  let '(o, d', w') := EncryptedFile.writeEncrypted sl path p aad d w in
  (forall q, q <> path -> EncryptedFile.files d' !! q = EncryptedFile.files d !! q) /\
  (has_random 12 w -> exists ct, Sealer.Seal sl p aad w = (Ok ct, w') /\
     match EncryptedFile.plan d with
     | [] | None :: _ => o = Ok tt /\ EncryptedFile.readEncrypted sl path aad d' = Ok p
     | Some (None, e) :: _ => o = Err e /\ EncryptedFile.files d' = EncryptedFile.files d
     | Some (Some k, e) :: _ => o = Err e /\ EncryptedFile.files d' !! path = Some (take k ct)
     end) /\
  (~ has_random 12 w -> (exists e, o = Err e) /\ d' = d).
Proof.
  intros Hsl Hp. unfold EncryptedFile.writeEncrypted.
  assert (Hbad : ~ has_random 12 w -> exists e w', Sealer.Seal sl p aad w = (Err e, w')).
  { intros Hw. destruct (ReadRand_Err 12 w) as (e & w' & Hr); [done..|]. eexists _, w'.
    unfold Sealer.Seal. apply M_bind_Err, map_errM_Err. exact Hr. }
  destruct (Z_le_dec 12 (len (rd_bytes (w_rand w)))) as [Hw|Hw].
  - destruct (Sealer_Seal_ok key sl p aad w Hsl Hp Hw) as (ct & w' & Hs & _). rewrite Hs.
    pose proof (NewSealer_inv key sl Hsl) as (Hseal & Hopen & _).
    assert (Ho : Sealer.Open sl ct aad = Ok p) by (rewrite Hopen; rewrite Hseal in Hs; by eapply Seal_then_Open).
    unfold EncryptedFile.WriteFile, EncryptedFile.readEncrypted, EncryptedFile.ReadFile.
    destruct (EncryptedFile.plan d) as [|[[[k|] e]|] pl]; cbn [EncryptedFile.files];
      (split; [intros q Hq; by rewrite ?lookup_insert_ne|]); (split; [|done]); intros _; exists ct;
      (split; [done|]); rewrite ?lookup_insert_eq; done.
  - destruct (Hbad Hw) as (e & w' & ->). split; [done|]. split; [done|]. eauto.
Qed.

Lemma encrypted_file_witness :
  exists d', (EncryptedFile.writeEncrypted demo_sealer (lit "report.enc") (lit "secret") (lit "file:report")
    {| EncryptedFile.files := ∅; EncryptedFile.plan := [] |} demo_world).1 = (Ok tt, d') /\
    EncryptedFile.readEncrypted demo_sealer (lit "report.enc") (lit "file:report") d' = Ok (lit "secret").
Proof.
  pose proof (encrypted_file demo_key demo_sealer (lit "report.enc") (lit "secret") (lit "file:report")
    {| EncryptedFile.files := ∅; EncryptedFile.plan := [] |} demo_world demo_sealer_new) as H.
  destruct (EncryptedFile.writeEncrypted _ _ _ _ _ _) as [[o d'] w']. exists d'.
  destruct H as (_ & H & _); [vm_compute; congruence|].
  destruct H as (ct & _ & -> & Hr); [vm_compute; congruence|]. done.
Defined.

(** The handler behind the key runs exactly for requests whose header has the expected value; all
    others get 401 and no effect of the handler. A request without the header counts as one with an
    empty value, so an empty expected key lets everyone in. *)
Theorem requireAPIKey_exact expected next w r :
  ApiKeyCheck.requireAPIKey expected next w r =
    (if bool_decide (Header_Get r (lit "X-API-Key") = expected) then next w r
     else {| status := 401; cookies := cookies w; body := body w ++ [Text (lit "unauthorized"); Text [x0a]] |}) /\
  (r_headers r !! lit "X-Api-Key" = None ->
   ApiKeyCheck.requireAPIKey [] next w r = next w r).
Proof.
  unfold ApiKeyCheck.requireAPIKey. rewrite !ConstantTimeEqual_is_equality. split.
  - by destruct (bool_decide _).
  - intros Hn. unfold Header_Get. change (CanonicalHeaderKey (lit "X-API-Key")) with (lit "X-Api-Key").
    by rewrite Hn.
Qed.
