(* ===== verification/Password.v ===== *)
(** * Password hashing: [password.go]

    [argon2.IDKey] is a third-party function, so it is a parameter; the parts of [strings] and
    [fmt] the parser uses are written out byte for byte. *)

From Stdlib Require Import Strings.String.
From S2P Require Import Prelude Errors Base64 GoIO Sha256 GoText.

(** ** fmt.Sscanf

    [Sscanf] with literal text and the verb [%d].  The literals of the two formats have no
    space, and input after the last verb is ignored. *)

(** Literal text of the format must match. *)
Fixpoint scan_literal (l s : bytes) : option bytes :=
  match l, s with
  | [], _ => Some s
  | a :: l', b :: s' => if bool_decide (a = b) then scan_literal l' s' else None
  | _ :: _, [] => None
  end.

(** The white space of package [fmt], by its UTF-8 bytes; a line feed is tested before. *)
Definition space1 (a : byte) : bool :=
  ((9 <=? bval a) && (bval a <=? 13)) || (bval a =? 32).
Definition space2 (a b : byte) : bool :=
  bool_decide (a = xc2) && (bool_decide (b = x85) || bool_decide (b = xa0)).
Definition space3 (a b c : byte) : bool :=
  (bool_decide (a = xe1) && bool_decide (b = x9a) && bool_decide (c = x80)) ||
  (bool_decide (a = xe2) && bool_decide (b = x80) &&
     (((128 <=? bval c) && (bval c <=? 138)) || bool_decide (c = xa8) || bool_decide (c = xa9) ||
      bool_decide (c = xaf))) ||
  (bool_decide (a = xe2) && bool_decide (b = x81) && bool_decide (c = x9f)) ||
  (bool_decide (a = xe3) && bool_decide (b = x80) && bool_decide (c = x80)).

(** [SkipSpace]: a line feed is an error for [Sscanf]. *)
Fixpoint SkipSpace (s : bytes) : option bytes :=
  match s with
  | [] => Some []
  | a :: s1 =>
      if bool_decide (a = x0a) then None
      else if space1 a then SkipSpace s1
      else match s1 with
           | [] => Some s
           | b :: s2 =>
               if space2 a b then SkipSpace s2
               else match s2 with
                    | [] => Some s
                    | c :: s3 => if space3 a b c then SkipSpace s3 else Some s
                    end
           end
  end.

(** [scanUint] with [%d] into a variable of [bits] bits: no sign, at least one digit, no
    overflow. *)
Definition scan_uint (bits : Z) (s : bytes) : option (Z * bytes) :=
  s ← SkipSpace s;
  let '(v, n, rest) := scan_digits 0 s in
  if (n =? 0)%nat then None
  else if v <? 2 ^ bits then Some (v, rest) else None.

(** [scanInt] with [%d] into an [int]: an optional sign. *)
Definition scan_int (s : bytes) : option (Z * bytes) :=
  s ← SkipSpace s;
  let '(neg, s) :=
    match s with
    | b :: s' =>
        if bool_decide (b = x2d) then (true, s')
        else if bool_decide (b = x2b) then (false, s') else (false, s)
    | [] => (false, s)
    end in
  let '(v, n, rest) := scan_digits 0 s in
  if (n =? 0)%nat then None
  else
    let v := if neg : bool then - v else v in
    if (- 2 ^ 63 <=? v) && (v <? 2 ^ 63) then Some (v, rest) else None.

(** The two calls. *)
Definition Sscanf_version (s : bytes) : option Z :=
  s ← scan_literal (lit "v=") s;
  '(ver, _) ← scan_int s;
  Some ver.

Definition Sscanf_params (s : bytes) : option (Z * Z * Z) :=
  s ← scan_literal (lit "m=") s;
  '(m, s) ← scan_uint 32 s;
  s ← scan_literal (lit ",t=") s;
  '(t, s) ← scan_uint 32 s;
  s ← scan_literal (lit ",p=") s;
  '(p, _) ← scan_uint 8 s;
  Some (m, t, p).

(** ** Constants *)

Definition argonMemoryKiB : Z := 64 * 1024.
Definition argonTimeCost : Z := 2.
Definition argonParallel : Z := 1.
Definition argonSaltLen : Z := 16.
Definition argonKeyLen : Z := 32.
Definition argonAlgo : bytes := lit "argon2id".
Definition argonVersionTag : Z := 19.

Record argon2Params := { memoryKiB : Z; timeCost : Z; parallel : Z }.

(** ** Operations *)

Definition formatPHC (salt hash : bytes) : bytes :=
  let enc := RawStdEncoding in
  lit "$" ++ argonAlgo ++ lit "$v=" ++ Itoa argonVersionTag ++
  lit "$m=" ++ Itoa argonMemoryKiB ++ lit ",t=" ++ Itoa argonTimeCost ++
  lit ",p=" ++ Itoa argonParallel ++
  lit "$" ++ EncodeToString enc salt ++ lit "$" ++ EncodeToString enc hash.

Definition parsePHC (s : bytes) : outcome (bytes * bytes * argon2Params) :=
  let parts := Split x24 s in
  match parts with
  | [part0; part1; part2; part3; part4; part5] =>
      if negb (bool_decide (part0 = [])) then
        Err (Wrapf "%w: missing leading '$'" ErrInvalidPasswordHash)
      else if negb (bool_decide (part1 = argonAlgo)) then
        Err (Wrapf "%w: unsupported algorithm %q" ErrInvalidPasswordHash)
      else
        match Sscanf_version part2 with
        | None => Err (Wrapf "%w: bad version %q" ErrInvalidPasswordHash)
        | Some ver =>
            if negb (ver =? argonVersionTag) then
              Err (Wrapf "%w: unsupported version %d" ErrInvalidPasswordHash)
            else
              match Sscanf_params part3 with
              | None => Err (Wrapf "%w: bad params %q: %v" ErrInvalidPasswordHash)
              | Some (m, t, p) =>
                  let params := {| memoryKiB := m; timeCost := t; parallel := p |} in
                  let enc := RawStdEncoding in
                  salt ← map_err (fun _ => Wrapf "%w: bad salt: %v" ErrInvalidPasswordHash)
                           (DecodeString enc part4);
                  hash ← map_err (fun _ => Wrapf "%w: bad hash: %v" ErrInvalidPasswordHash)
                           (DecodeString enc part5);
                  if (len salt =? 0) || (len hash =? 0) then
                    Err (Wrapf "%w: empty salt or hash" ErrInvalidPasswordHash)
                  else Ok (salt, hash, params)
              end
        end
  | _ => Err (Wrapf "%w: expected 5 segments, got %d" ErrInvalidPasswordHash)
  end.

(** [argon2.IDKey(password, salt, time, memory, threads, keyLen)]: a key of [keyLen] bytes, at least one, or a
    panic when [time] or [threads] is zero. *)
Class ArgonOk (IDKey : bytes -> bytes -> Z -> Z -> Z -> Z -> outcome bytes) : Prop := {
  argon_key pw salt t m p n :
    1 <= t -> 1 <= p -> 1 <= n -> exists k, IDKey pw salt t m p n = Ok k /\ len k = n;
  argon_panic pw salt t m p n : t < 1 \/ p < 1 -> panics (IDKey pw salt t m p n) = true
}.

Section ops.
Context (IDKey : bytes -> bytes -> Z -> Z -> Z -> Z -> outcome bytes).

Definition HashPassword (plaintext : bytes) : M bytes :=
  salt ← map_errM (Wrapf "crypt: random salt: %w") (ReadRand argonSaltLen);
  hash ← lift (IDKey plaintext salt argonTimeCost argonMemoryKiB argonParallel argonKeyLen);
  mret (formatPHC salt hash).

Definition VerifyPassword (plaintext stored : bytes) : outcome bool :=
  '(salt, hash, params) ← parsePHC stored;
  computed ← IDKey plaintext salt (timeCost params) (memoryKiB params) (parallel params)
               (u32 (len hash));
  if ConstantTimeCompare computed hash =? 1 then Ok true else Ok false.
End ops.

Example format_run :
  formatPHC (lit "saltsalt") (lit "hash") = lit "$argon2id$v=19$m=65536,t=2,p=1$c2FsdHNhbHQ$aGFzaA".
Proof. vm_compute. reflexivity. Qed.

(** ** Lemmas *)

(** *** Encodings have no separator *)

Lemma std_no_dollar src : x24 ∉ EncodeToString RawStdEncoding src.
Proof.
  intros H. pose proof (Encode_chars RawStdEncoding src) as Hc.
  rewrite Forall_forall in Hc. destruct (Hc x24 H) as (v & Hv & E).
  assert (Ht : negb (bool_decide (enc_char RawStdEncoding v = x24)) = true).
  { revert v Hv E. intros v Hv _. revert v Hv. apply sextet_forall. vm_compute. reflexivity. }
  rewrite <- E in Ht. done.
Qed.

Ltac no_dollar := apply (bool_decide_unpack _); vm_compute; exact I.

(** *** Scanning *)

Lemma SkipSpace_digit a s : is_digit a = true -> SkipSpace (a :: s) = Some (a :: s).
Proof.
  intros H. destruct a; try discriminate H; destruct s as [|b [|c s]]; reflexivity.
Qed.

(** A number of the format followed by something else. *)
Lemma scan_uint_app bits b l g v :
  forallb is_digit (b :: l) = true -> no_digit_first g ->
  fold_left (fun a b => 10 * a + (bval b - 48)) (b :: l) 0 = v -> v < 2 ^ bits ->
  scan_uint bits ((b :: l) ++ g) = Some (v, g).
Proof.
  intros Hl Hg Hv Hb. unfold scan_uint. cbn [app].
  rewrite SkipSpace_digit by (by apply andb_true_iff in Hl as [? _]).
  cbn [mbind option_bind]. change (b :: l ++ g) with ((b :: l) ++ g).
  rewrite scan_digits_app, Hv by done. cbn [length Nat.eqb]. by rewrite (proj2 (Z.ltb_lt _ _)).
Qed.

(** What follows the last number of either format is not read. *)
Lemma Sscanf_version_19 g : no_digit_first g -> Sscanf_version (lit "v=19" ++ g) = Some 19.
Proof.
  intros Hg. unfold Sscanf_version.
  change (scan_literal (lit "v=") (lit "v=19" ++ g)) with (Some (lit "19" ++ g)).
  cbn [mbind option_bind]. unfold scan_int.
  change (lit "19" ++ g) with (x31 :: x39 :: g). rewrite SkipSpace_digit by done.
  cbn [mbind option_bind]. rewrite bool_decide_eq_false_2, bool_decide_eq_false_2 by done.
  change (x31 :: x39 :: g) with ([x31; x39] ++ g). by rewrite scan_digits_app.
Qed.

Lemma Sscanf_params_default g :
  no_digit_first g -> Sscanf_params (lit "m=65536,t=2,p=1" ++ g) = Some (65536, 2, 1).
Proof.
  intros Hg. unfold Sscanf_params.
  change (scan_literal (lit "m=") (lit "m=65536,t=2,p=1" ++ g))
    with (Some ((x36 :: lit "5536") ++ (lit ",t=2,p=1" ++ g))).
  cbn [mbind option_bind]. rewrite (scan_uint_app 32 x36 (lit "5536") _ 65536) by done.
  cbn [mbind option_bind].
  change (scan_literal (lit ",t=") (lit ",t=2,p=1" ++ g)) with (Some ([x32] ++ (lit ",p=1" ++ g))).
  cbn [mbind option_bind]. rewrite (scan_uint_app 32 x32 [] _ 2) by done. cbn [mbind option_bind].
  change (scan_literal (lit ",p=") (lit ",p=1" ++ g)) with (Some ([x31] ++ g)).
  cbn [mbind option_bind]. by rewrite (scan_uint_app 8 x31 [] g 1).
Qed.

Lemma scan_uint_range bits s v rest : scan_uint bits s = Some (v, rest) -> 0 <= v < 2 ^ bits.
Proof.
  unfold scan_uint. destruct (SkipSpace s) as [s'|]; [|done]. cbn.
  pose proof (scan_digits_nonneg 0 s' ltac:(lia)).
  destruct (scan_digits 0 s') as [[w n] r]. destruct (n =? 0)%nat; [done|].
  destruct (Z.ltb_spec w (2 ^ bits)); [|done]. intros [= <- _]. simpl in *. lia.
Qed.

(** *** The format *)

(** A string with the four fields after the algorithm. *)
Definition phc (v m s h : bytes) : bytes :=
  lit "$argon2id$" ++ v ++ lit "$" ++ m ++ lit "$" ++ s ++ lit "$" ++ h.

Lemma Split_phc v m s h :
  x24 ∉ v -> x24 ∉ m -> x24 ∉ s -> x24 ∉ h ->
  Split x24 (phc v m s h) = [[]; argonAlgo; v; m; s; h].
Proof.
  intros Hv Hm Hs Hh.
  change (phc v m s h) with
    ([] ++ x24 :: argonAlgo ++ x24 :: v ++ x24 :: m ++ x24 :: s ++ x24 :: h).
  rewrite (Split_app x24 []) by apply not_elem_of_nil. rewrite (Split_app x24 argonAlgo) by no_dollar.
  by rewrite !Split_app, Split_last.
Qed.

Lemma formatPHC_phc salt hash :
  formatPHC salt hash = phc (lit "v=19") (lit "m=65536,t=2,p=1")
    (EncodeToString RawStdEncoding salt) (EncodeToString RawStdEncoding hash).
Proof. reflexivity. Qed.

(** Parsing the library's own parameters, whatever follows the two numbers. *)
Lemma parsePHC_default g1 g2 s h :
  no_digit_first g1 -> no_digit_first g2 -> x24 ∉ g1 -> x24 ∉ g2 -> x24 ∉ s -> x24 ∉ h ->
  parsePHC (phc (lit "v=19" ++ g1) (lit "m=65536,t=2,p=1" ++ g2) s h) =
    (salt ← map_err (fun _ => Wrapf "%w: bad salt: %v" ErrInvalidPasswordHash)
              (DecodeString RawStdEncoding s);
     hash ← map_err (fun _ => Wrapf "%w: bad hash: %v" ErrInvalidPasswordHash)
              (DecodeString RawStdEncoding h);
     if (len salt =? 0) || (len hash =? 0) then
       Err (Wrapf "%w: empty salt or hash" ErrInvalidPasswordHash)
     else Ok (salt, hash,
       {| memoryKiB := argonMemoryKiB; timeCost := argonTimeCost; parallel := argonParallel |})).
Proof.
  intros H1 H2 Hd1 Hd2 Hs Hh. unfold parsePHC. rewrite Split_phc; [|..].
  - cbv zeta. rewrite Sscanf_version_19, Sscanf_params_default by done. done.
  - apply not_elem_of_app. split; [no_dollar|done].
  - apply not_elem_of_app. split; [no_dollar|done].
  - done.
  - done.
Qed.

Lemma parse_format salt hash :
  salt <> [] -> hash <> [] ->
  parsePHC (formatPHC salt hash) = Ok (salt, hash,
    {| memoryKiB := argonMemoryKiB; timeCost := argonTimeCost; parallel := argonParallel |}).
Proof.
  intros Hs Hh. rewrite formatPHC_phc.
  rewrite <- (app_nil_r (lit "v=19")), <- (app_nil_r (lit "m=65536,t=2,p=1")).
  rewrite parsePHC_default by (done || apply not_elem_of_nil || apply std_no_dollar).
  rewrite !Decode_Encode by apply _. cbn [map_err mbind outcome_bind].
  rewrite !(proj2 (Z.eqb_neq _ _)); [done|destruct hash; [done|len_lia]|destruct salt; [done|len_lia]].
Qed.

(** Every result of the parser. *)
Lemma parsePHC_cases s :
  (exists f, parsePHC s = Err (Wrapf f ErrInvalidPasswordHash)) \/
  (exists salt hash m t p, parsePHC s =
       Ok (salt, hash, {| memoryKiB := m; timeCost := t; parallel := p |}) /\
     salt <> [] /\ hash <> [] /\ 0 <= m < 2 ^ 32 /\ 0 <= t < 2 ^ 32 /\ 0 <= p < 2 ^ 8).
Proof.
  unfold parsePHC.
  destruct (Split x24 s) as [|p0 [|p1 [|p2 [|p3 [|p4 [|p5 [|]]]]]]]; [left; eauto..| |left; eauto].
  case_bool; [left; eauto|]. case_bool; [left; eauto|].
  destruct (Sscanf_version p2) as [ver|]; [|left; eauto]. case_bool; [left; eauto|].
  destruct (Sscanf_params p3) as [[[m t] p]|] eqn:Hp; [|left; eauto]. cbv zeta.
  pose proof (Decode_panics RawStdEncoding p4) as Hn4.
  destruct (DecodeString RawStdEncoding p4) as [salt|e|x]; [|left; simpl; eauto|done].
  pose proof (Decode_panics RawStdEncoding p5) as Hn5.
  destruct (DecodeString RawStdEncoding p5) as [hash|e|x]; [|left; simpl; eauto|done].
  cbn [map_err mbind outcome_bind]. case_bool; [left; eauto|]. right.
  exists salt, hash, m, t, p. b2p. split; [done|].
  split; [by intros ->|]. split; [by intros ->|].
  unfold Sscanf_params in Hp. apply bind_Some in Hp as (s1 & _ & Hp).
  apply bind_Some in Hp as ([m' s2] & Hm%scan_uint_range & Hp).
  apply bind_Some in Hp as (s3 & _ & Hp).
  apply bind_Some in Hp as ([t' s4] & Ht%scan_uint_range & Hp).
  apply bind_Some in Hp as (s5 & _ & Hp).
  apply bind_Some in Hp as ([p' s6] & Hpp%scan_uint_range & [= <- <- <-]). done.
Qed.

(** The stored key is part of the string. *)
Lemma parsePHC_hash s salt hash params : parsePHC s = Ok (salt, hash, params) -> 0 < len hash <= len s.
Proof.
  unfold parsePHC. destruct (Split_join x24 s) as [Hs _].
  destruct (Split x24 s) as [|p0 [|p1 [|p2 [|p3 [|p4 [|p5 [|]]]]]]]; try done.
  case_bool; [done|]. case_bool; [done|]. destruct (Sscanf_version p2) as [ver|]; [|done]. case_bool; [done|].
  destruct (Sscanf_params p3) as [[[m t] p]|]; [|done]. cbv zeta.
  intros (salt' & _ & (hash' & Hh%map_err_Ok & H)%bind_Ok_inv)%bind_Ok_inv. revert H. case_bool; [done|].
  intros [= -> -> _]. b2p. apply Decode_length in Hh. pose proof (len_nonneg hash).
  assert (len p5 <= len s); [|lia]. rewrite Hs. cbn. unfold len. rewrite !length_app. cbn [length].
  repeat (rewrite length_app || cbn [length]). lia.
Qed.

(** The grammar of a stored string: five fields between dollar signs, the algorithm, the version 19, three
    numbers in their ranges, and the base64 forms of a salt and a key that are not empty. *)
Definition is_PHC (s salt hash : bytes) (params : argon2Params) : Prop :=
  exists v m salt64 hash64, s = phc v m salt64 hash64 /\
    ((x24 ∉ v) /\ (x24 ∉ m) /\ (x24 ∉ salt64) /\ (x24 ∉ hash64)) /\
    Sscanf_version v = Some 19 /\ Sscanf_params m = Some (memoryKiB params, timeCost params, parallel params) /\
    (DecodeString RawStdEncoding salt64 = Ok salt /\ salt <> []) /\
    (DecodeString RawStdEncoding hash64 = Ok hash /\ hash <> []).

Lemma parsePHC_exact s salt hash params : parsePHC s = Ok (salt, hash, params) <-> is_PHC s salt hash params.
Proof.
  split.
  - unfold parsePHC, is_PHC. destruct (Split_join x24 s) as [Hs Hno].
    destruct (Split x24 s) as [|p0 [|p1 [|p2 [|p3 [|p4 [|p5 [|]]]]]]]; try done.
    case_bool; [done|]. case_bool; [done|]. destruct (Sscanf_version p2) as [ver|] eqn:Hv; [|done].
    case_bool; [done|]. destruct (Sscanf_params p3) as [[[m t] p]|] eqn:Hm; [|done]. cbv zeta.
    intros (salt' & Hsalt%map_err_Ok & (hash' & Hh%map_err_Ok & H)%bind_Ok_inv)%bind_Ok_inv. revert H.
    case_bool; [done|]. intros [= -> -> <-]. b2p.
    repeat match goal with H : bool_decide _ = true |- _ => apply bool_decide_eq_true in H end. rewrite !Forall_cons in Hno.
    destruct Hno as (_ & _ & H2 & H3 & H4 & H5 & _). exists p2, p3, p4, p5. subst.
    split; [cbn; by rewrite app_nil_r|]. split; [done|]. split; [done|]. split; [done|].
    split; (split; [done|by intros ->]).
  - intros (v & m & s64 & h64 & -> & (Hv & Hm & Hs & Hh) & Hver & Hpar & (Hsalt & Hs0) & (Hhash & Hh0)).
    unfold parsePHC. rewrite Split_phc by done. cbv zeta. rewrite Hver, Hpar, Hsalt, Hhash.
    cbn [map_err mbind outcome_bind]. rewrite bool_decide_eq_true_2, (bool_decide_eq_true_2 (argonAlgo = _)) by done.
    cbn [negb]. rewrite Z.eqb_refl. cbn [negb].
    rewrite !(proj2 (Z.eqb_neq _ _)) by (destruct salt, hash; [done..|len_lia]). by destruct params.
Qed.

(** ** A concrete function for the witnesses *)

Definition demo_IDKey (pw salt : bytes) (t m p n : Z) : outcome bytes :=
  if (t <? 1) || (p <? 1) then Panic "argon2: bad parameters"
  else Ok (take (Z.to_nat n) (pw ++ salt ++ replicate (Z.to_nat n) x00)).

#[global] Instance demo_IDKey_ok : ArgonOk demo_IDKey.
Proof.
  split; intros pw salt t m p n; unfold demo_IDKey.
  - intros Ht Hp Hn. rewrite !(proj2 (Z.ltb_ge _ _)) by lia. eexists. split; [done|].
    unfold len. rewrite length_take, !length_app, length_replicate. lia.
  - intros [Ht|Hp]; [rewrite (proj2 (Z.ltb_lt t _)) by lia|
      rewrite (proj2 (Z.ltb_lt p _)), orb_true_r by lia]; done.
Qed.

(** What [HashPassword] computes, and what its result verifies. *)
Lemma HashPassword_spec IDKey `{!ArgonOk IDKey} pw w :
  has_random 16 w ->
  exists s w', HashPassword IDKey pw w = (Ok s, w') /\ after_random 16 w w' /\
    HasPrefix s (lit "$argon2id$") = true /\ VerifyPassword IDKey pw s = Ok true /\
    let derive q := IDKey q (next_random 16 w) argonTimeCost argonMemoryKiB argonParallel argonKeyLen in
    forall q, exists b, VerifyPassword IDKey q s = Ok b /\ (b = true <-> derive q = derive pw).
Proof.
  intros Hr. destruct (ReadRand_Ok 16 w ltac:(lia) Hr) as (w' & Hread & Ha).
  set (salt := next_random 16 w).
  set (derive := fun q => IDKey q salt argonTimeCost argonMemoryKiB argonParallel argonKeyLen).
  assert (Hd : forall q, exists k, derive q = Ok k /\ len k = 32)
    by (intros q; apply argon_key; unfold argonTimeCost, argonParallel, argonKeyLen; lia).
  destruct (Hd pw) as (k & Hk & Hlk).
  assert (Hv : forall q, exists b, VerifyPassword IDKey q (formatPHC salt k) = Ok b /\
    (b = true <-> derive q = derive pw)).
  { intros q. destruct (Hd q) as (kq & Hkq & _). unfold VerifyPassword.
    rewrite parse_format.
    2: { intros Hs. pose proof (len_next_random 16 w ltac:(lia) Hr) as Hl. unfold salt in Hs.
         by rewrite Hs in Hl. }
    2: { by intros ->. }
    cbn [mbind outcome_bind timeCost memoryKiB parallel]. rewrite Hlk. change (u32 32) with argonKeyLen.
    fold (derive q). rewrite Hkq, Hk. cbn [mbind outcome_bind]. rewrite ConstantTimeCompare_spec.
    case_bool_decide as E; simpl; eexists; (split; [done|]); split; congruence. }
  exists (formatPHC salt k), w'. split; [|split; [done|split; [reflexivity|split; [|exact Hv]]]].
  - unfold HashPassword. rewrite (M_bind_Ok _ _ _ _ _ (map_errM_Ok _ _ _ _ _ Hread)).
    by rewrite (M_lift_bind _ k).
  - destruct (Hv pw) as (b & E & Hb). by rewrite E, (proj2 Hb eq_refl).
Qed.

(** A hash that was returned came from a successful read. *)
Lemma HashPassword_Ok IDKey `{!ArgonOk IDKey} pw w s w' :
  HashPassword IDKey pw w = (Ok s, w') ->
  has_random 16 w /\ HasPrefix s (lit "$argon2id$") = true /\ VerifyPassword IDKey pw s = Ok true.
Proof.
  intros H. destruct (ReadRand_cases 16 w ltac:(lia)) as [(w1 & _ & Hr & _)|(e & w1 & Hread & _)].
  - destruct (HashPassword_spec IDKey pw w Hr) as (s' & w2 & H' & _ & Hp & Hv & _).
    rewrite H' in H. injection H as <- _. done.
  - exfalso. unfold HashPassword in H. change argonSaltLen with 16 in H.
    erewrite M_bind_Err in H by (apply map_errM_Err, Hread). discriminate.
Qed.

(** The default parameters never make [IDKey] panic. *)
Lemma HashPassword_no_panic IDKey `{!ArgonOk IDKey} pw w : panics (HashPassword IDKey pw w).1 = false.
Proof.
  destruct (ReadRand_cases 16 w ltac:(lia)) as [(w1 & _ & Hr & _)|(e & w1 & Hread & _)].
  - by destruct (HashPassword_spec IDKey pw w Hr) as (s' & w2 & -> & _).
  - unfold HashPassword. change argonSaltLen with 16.
    by erewrite M_bind_Err by (apply map_errM_Err, Hread).
Qed.

(** ** Properties *)

(** PHC round trip: parsing what [formatPHC] writes gives back the salt, the hash and the default
    cost parameters, for every non-empty salt and hash. *)
Theorem PHC_roundtrip salt hash :
  salt <> [] -> hash <> [] ->
  parsePHC (formatPHC salt hash) = Ok (salt, hash,
    {| memoryKiB := 65536; timeCost := 2; parallel := 1 |}).
Proof. exact (parse_format salt hash). Qed.

Lemma PHC_roundtrip_witness :
  parsePHC (formatPHC (lit "saltsaltsaltsalt") (lit "h")) = Ok (lit "saltsaltsaltsalt", lit "h",
    {| memoryKiB := 65536; timeCost := 2; parallel := 1 |}).
Proof. apply PHC_roundtrip; discriminate. Defined.

(** C33: a password verifies against its own hash. [HashPassword] draws 16 random bytes of salt and
    succeeds whenever they are there; [VerifyPassword] of a candidate against its result is [true]
    exactly when the candidate derives the same key from that salt, in particular for the
    password itself. *)
Theorem HashPassword_Verify IDKey `{!ArgonOk IDKey} pw w :
  has_random 16 w ->
  exists s w', HashPassword IDKey pw w = (Ok s, w') /\ after_random 16 w w' /\
    VerifyPassword IDKey pw s = Ok true /\
    let derive q := IDKey q (next_random 16 w) argonTimeCost argonMemoryKiB argonParallel argonKeyLen in
    forall q, exists b, VerifyPassword IDKey q s = Ok b /\ (b = true <-> derive q = derive pw).
Proof.
  intros Hr. destruct (HashPassword_spec IDKey pw w Hr) as (s & w' & H & Ha & _ & Hv & Hd).
  exists s, w'. done.
Qed.

Lemma HashPassword_Verify_witness :
  exists s w', HashPassword demo_IDKey (lit "hunter2") demo_world = (Ok s, w') /\
    VerifyPassword demo_IDKey (lit "hunter2") s = Ok true.
Proof.
  destruct (HashPassword_Verify demo_IDKey (lit "hunter2") demo_world) as (s & w' & H1 & _ & H2 & _);
    [vm_compute; discriminate|]. eauto.
Defined.

(** [parsePHC] never panics, reports every malformed string as [ErrInvalidPasswordHash], and what
    it returns fits the types of the parameters: salt and hash non-empty, memory and time below
    [2^32], parallelism below [2^8]. *)
Theorem parsePHC_total s :
  (exists f, parsePHC s = Err (Wrapf f ErrInvalidPasswordHash)) \/
  (exists salt hash m t p, parsePHC s =
       Ok (salt, hash, {| memoryKiB := m; timeCost := t; parallel := p |}) /\
     salt <> [] /\ hash <> [] /\ 0 <= m < 2 ^ 32 /\ 0 <= t < 2 ^ 32 /\ 0 <= p < 2 ^ 8).
Proof. exact (parsePHC_cases s). Qed.

(** C32: the answer of [VerifyPassword] on every stored string below 4 GiB, by its grammar [is_PHC]. It panics
    exactly on a well-formed string with a time cost or a parallelism of zero, such as
    [$argon2id$v=19$m=65536,t=0,p=1$c2FsdA$aGFzaA]; on every other well-formed string it returns whether the password
    derives the stored key; and it fails with [ErrInvalidPasswordHash] exactly on the malformed strings. *)
Theorem VerifyPassword_panics_iff IDKey `{!ArgonOk IDKey} pw stored :
  len stored < 2 ^ 32 ->
  (panics (VerifyPassword IDKey pw stored) = true <->
     exists salt hash params, is_PHC stored salt hash params /\ (timeCost params = 0 \/ parallel params = 0)) /\
  (forall salt hash params, is_PHC stored salt hash params -> timeCost params <> 0 -> parallel params <> 0 ->
     exists computed, IDKey pw salt (timeCost params) (memoryKiB params) (parallel params) (len hash) = Ok computed /\
       VerifyPassword IDKey pw stored = Ok (bool_decide (computed = hash))) /\
  (fails_with (VerifyPassword IDKey pw stored) ErrInvalidPasswordHash = true <->
     ~ exists salt hash params, is_PHC stored salt hash params).
Proof.
  intros Hlen. setoid_rewrite <- parsePHC_exact. unfold VerifyPassword.
  destruct (parsePHC_cases stored) as [[f ->]|(salt & hash & m & t & p & Hparse & _ & _ & _ & Ht & Hp)].
  { split; [split; [done|]; by intros (? & ? & ? & ? & _)|]. split; [by intros|]. split; [|done].
    intros _. by intros (? & ? & ? & ?). }
  pose proof (parsePHC_hash _ _ _ _ Hparse) as Hh. rewrite Hparse. cbn [mbind outcome_bind timeCost memoryKiB parallel].
  assert (Hu : u32 (len hash) = len hash) by (unfold u32; rewrite Z.mod_small; lia). rewrite Hu.
  assert (Hex : exists a b c, Ok (salt, hash, {| memoryKiB := m; timeCost := t; parallel := p |}) =
    Ok (a, b, c) :> outcome (bytes * bytes * argon2Params)) by eauto.
  destruct (decide (t = 0 \/ p = 0)) as [Hz|Hz].
  - pose proof (argon_panic pw salt t m p (len hash) ltac:(lia)) as Hpan.
    destruct (IDKey pw salt t m p (len hash)); try done. cbn [mbind outcome_bind]. split; [|split].
    + split; [intros _; eexists _, _, _; by split|done].
    + intros ??? [= <- <- <-] ? ?. cbn in *. lia.
    + split; [done|by intros []].
  - destruct (argon_key pw salt t m p (len hash)) as (k & Hk & _); [lia..|].
    assert (Hans : (computed ← IDKey pw salt t m p (len hash);
      if ConstantTimeCompare computed hash =? 1 then Ok true else Ok false) = Ok (bool_decide (k = hash))).
    { rewrite Hk. cbn [mbind outcome_bind]. rewrite ConstantTimeCompare_spec. by case_bool_decide. }
    rewrite Hans. split; [|split].
    + split; [done|]. intros (? & ? & ? & [= <- <- <-] & H). cbn in H. tauto.
    + intros ??? [= <- <- <-] _ _. exists k. by split.
    + split; [done|by intros []].
Qed.

Lemma VerifyPassword_panics_iff_witness :
  panics (VerifyPassword demo_IDKey (lit "guess")
    (lit "$argon2id$v=19$m=65536,t=0,p=1$c2FsdA$aGFzaA")) = true.
Proof.
  apply (VerifyPassword_panics_iff demo_IDKey); [vm_compute; reflexivity|].
  exists (lit "salt"), (lit "hash"), {| memoryKiB := 65536; timeCost := 0; parallel := 1 |}.
  split; [|by left]. exists (lit "v=19"), (lit "m=65536,t=0,p=1"), (lit "c2FsdA"), (lit "aGFzaA").
  split; [reflexivity|]. split; [repeat split; no_dollar|].
  repeat split; try discriminate; vm_compute; reflexivity.
Defined.

(** The parser is lenient: anything without a dollar sign and not starting with a digit may
    follow the version number or the last parameter, and the string parses as if it were not
    there. *)
Theorem parsePHC_trailing_garbage g1 g2 s h :
  no_digit_first g1 -> no_digit_first g2 -> x24 ∉ g1 -> x24 ∉ g2 -> x24 ∉ s -> x24 ∉ h ->
  parsePHC (phc (lit "v=19" ++ g1) (lit "m=65536,t=2,p=1" ++ g2) s h) =
  parsePHC (phc (lit "v=19") (lit "m=65536,t=2,p=1") s h).
Proof.
  intros H1 H2 Hd1 Hd2 Hs Hh. rewrite parsePHC_default by done.
  rewrite <- (app_nil_r (lit "v=19")), <- (app_nil_r (lit "m=65536,t=2,p=1")).
  by rewrite parsePHC_default by (done || apply not_elem_of_nil).
Qed.

Lemma parsePHC_trailing_garbage_witness :
  parsePHC (phc (lit "v=19" ++ lit "beta") (lit "m=65536,t=2,p=1" ++ lit ",x=9") (lit "c2FsdA") (lit "aGFzaA"))
  = parsePHC (phc (lit "v=19") (lit "m=65536,t=2,p=1") (lit "c2FsdA") (lit "aGFzaA")).
Proof. apply parsePHC_trailing_garbage; solve [reflexivity | no_dollar]. Defined.
