(* ===== verification/Bcrypt.v ===== *)
(** * Legacy bcrypt hashes: [password_bcrypt.go]

    The bcrypt package is third-party: its two functions are parameters with the class
    [BcryptOk]. *)

From Stdlib Require Import Strings.String.
From S2P Require Import Prelude Errors GoIO.

Definition bcryptMaxInputLen : Z := 72.
Definition DefaultBcryptCost : Z := 12.

(** [bcrypt.MinCost], [bcrypt.MaxCost] and two of the package's errors. *)
Definition bcrypt_MinCost : Z := 4.
Definition bcrypt_MaxCost : Z := 31.
Definition ErrMismatchedHashAndPassword : error :=
  ErrorString "crypto/bcrypt: hashedPassword is not the hash of the given password".
Definition ErrHashTooShort : error :=
  ErrorString "crypto/bcrypt: hashedSecret too short to be a bcrypted password".

(** What the file relies on: a generated hash compares equal to its password, and only the first
    72 bytes of a password count. *)
Class BcryptOk (Generate : bytes -> Z -> M bytes) (Compare : bytes -> bytes -> option error) : Prop := {
  bcrypt_match pw cost w h w' : Generate pw cost w = (Ok h, w') -> Compare h pw = None;
  bcrypt_truncates h pw : 72 <= len pw -> Compare h pw = Compare h (take 72 pw);
  bcrypt_no_panic pw cost w :
    len pw <= 72 -> bcrypt_MinCost <= cost <= bcrypt_MaxCost -> panics (Generate pw cost w).1 = false
}.

(** ** Operations *)

Section ops.
Context (GenerateFromPassword : bytes -> Z -> M bytes).
Context (CompareHashAndPassword : bytes -> bytes -> option error).

Definition HashPasswordBcrypt (plaintext : bytes) (cost : Z) : M bytes :=
  if bcryptMaxInputLen <? len plaintext then
    fail (Errorf "crypt: bcrypt input must be <= %d bytes; got %d (use HashPassword for longer)")
  else if (cost <? bcrypt_MinCost) || (bcrypt_MaxCost <? cost) then
    fail (Errorf "crypt: bcrypt cost must be in [%d, %d]; got %d")
  else map_errM (Wrapf "crypt: bcrypt: %w") (GenerateFromPassword plaintext cost).

Definition VerifyPasswordBcrypt (plaintext hash : bytes) : outcome bool :=
  match CompareHashAndPassword hash plaintext with
  | None => Ok true
  | Some err =>
      if errors_Is err ErrMismatchedHashAndPassword then Ok false
      else if errors_Is err ErrHashTooShort || errors_Is err ErrMismatchedHashAndPassword then
        Err (Wrapf "%w: %v" ErrInvalidPasswordHash)
      else Err (Wrapf "%w: %v" ErrInvalidPasswordHash)
  end.
End ops.

(** ** A concrete scheme for the witnesses: the hash is the truncated password. *)

Definition plain_Generate (pw : bytes) (cost : Z) : M bytes := mret (lit "$2a$" ++ take 72 pw).

Definition plain_Compare (h pw : bytes) : option error :=
  if bool_decide (h = lit "$2a$" ++ take 72 pw) then None
  else if len h <? 4 then Some ErrHashTooShort else Some ErrMismatchedHashAndPassword.

#[global] Instance plain_ok : BcryptOk plain_Generate plain_Compare.
Proof.
  split.
  - intros pw cost w h w' [= <- _]. unfold plain_Compare. by rewrite bool_decide_eq_true_2.
  - intros h pw _. unfold plain_Compare. by rewrite take_take.
  - done.
Qed.

(** What [HashPasswordBcrypt] returns. *)
Lemma Bcrypt_ok Generate Compare `{!BcryptOk Generate Compare} pw cost w h w' :
  HashPasswordBcrypt Generate pw cost w = (Ok h, w') ->
  len pw <= 72 /\ 4 <= cost <= 31 /\ VerifyPasswordBcrypt Compare pw h = Ok true.
Proof.
  unfold HashPasswordBcrypt, bcryptMaxInputLen, bcrypt_MinCost, bcrypt_MaxCost.
  destruct (Z.ltb_spec 72 (len pw)) as [Hl|Hl]; [done|]. case_bool; [done|]. b2p.
  intros Hh%map_errM_Ok_inv. split; [done|]. split; [done|].
  unfold VerifyPasswordBcrypt. by rewrite (bcrypt_match _ _ _ _ _ Hh).
Qed.

(** ** Properties *)

(** [HashPasswordBcrypt] rejects a password above 72 bytes and a cost outside 4 to 31 without
    calling bcrypt (the random source is untouched), never panics, and what it returns verifies
    against the same password. *)
Theorem Bcrypt_guarded Generate Compare `{!BcryptOk Generate Compare} pw cost w :
  (72 < len pw \/ ~ (4 <= cost <= 31) ->
     exists e, HashPasswordBcrypt Generate pw cost w = (Err e, w)) /\
  panics (HashPasswordBcrypt Generate pw cost w).1 = false /\
  (forall h w', HashPasswordBcrypt Generate pw cost w = (Ok h, w') ->
     len pw <= 72 /\ 4 <= cost <= 31 /\ VerifyPasswordBcrypt Compare pw h = Ok true).
Proof.
  unfold HashPasswordBcrypt, bcryptMaxInputLen.
  destruct (Z.ltb_spec 72 (len pw)) as [Hl|Hl];
    [split; [intros _; eexists; reflexivity|split; [done|discriminate]]|].
  destruct ((cost <? bcrypt_MinCost) || (bcrypt_MaxCost <? cost)) eqn:Hc;
    [split; [intros _; eexists; reflexivity|split; [done|discriminate]]|]. b2p.
  unfold bcrypt_MinCost, bcrypt_MaxCost in *. split; [intros [?|?]; lia|]. split.
  - pose proof (bcrypt_no_panic pw cost w Hl ltac:(done)) as Hp. unfold map_errM.
    by destruct (Generate pw cost w) as [[h|e|m] w'].
  - intros h w' Hh%map_errM_Ok_inv. split; [done|]. split; [done|].
    unfold VerifyPasswordBcrypt. by rewrite (bcrypt_match _ _ _ _ _ Hh).
Qed.

Lemma Bcrypt_guarded_witness :
  exists e, HashPasswordBcrypt plain_Generate (replicate 73 x61) 12 demo_world = (Err e, demo_world).
Proof. apply (Bcrypt_guarded plain_Generate plain_Compare). by left. Defined.

(** [VerifyPasswordBcrypt] maps the comparison's three outcomes to [true], [false] and
    [ErrInvalidPasswordHash], and nothing else. *)
Theorem VerifyPasswordBcrypt_cases Compare pw h :
  match Compare h pw with
  | None => VerifyPasswordBcrypt Compare pw h = Ok true
  | Some e =>
      if errors_Is e ErrMismatchedHashAndPassword
      then VerifyPasswordBcrypt Compare pw h = Ok false
      else fails_with (VerifyPasswordBcrypt Compare pw h) ErrInvalidPasswordHash = true
  end.
Proof.
  unfold VerifyPasswordBcrypt. destruct (Compare h pw) as [e|]; [|done].
  destruct (errors_Is e ErrMismatchedHashAndPassword); [done|]. by rewrite orb_false_r; case_bool.
Qed.

(** The 72-byte limit is enforced when hashing only: a longer candidate that starts with the
    72-byte password verifies against its hash. *)
Theorem VerifyPasswordBcrypt_truncates Generate Compare `{!BcryptOk Generate Compare} pw x cost w h w' :
  len pw = 72 -> HashPasswordBcrypt Generate pw cost w = (Ok h, w') ->
  VerifyPasswordBcrypt Compare (pw ++ x) h = Ok true.
Proof.
  unfold HashPasswordBcrypt. intros Hl. case_bool; [discriminate|]. case_bool; [discriminate|].
  intros H%map_errM_Ok_inv. unfold VerifyPasswordBcrypt.
  rewrite bcrypt_truncates by (rewrite len_app; pose proof (len_nonneg x); lia).
  rewrite take_app_len by (unfold len in Hl; lia). by rewrite (bcrypt_match _ _ _ _ _ H).
Qed.

Lemma VerifyPasswordBcrypt_truncates_witness :
  VerifyPasswordBcrypt plain_Compare (replicate 72 x61 ++ lit "anything") (lit "$2a$" ++ replicate 72 x61)
    = Ok true.
Proof.
  apply (VerifyPasswordBcrypt_truncates plain_Generate plain_Compare _ _ 12 demo_world _ demo_world);
    vm_compute; reflexivity.
Defined.
