(* ===== verification/Ed25519.v ===== *)
(** * Public-key signatures: [ed25519.go]

    The curve arithmetic of [crypto/ed25519] is not modelled: its functions are parameters with
    the class [Ed25519Ok]. *)

From S2P Require Import Prelude Errors GoIO.

Definition Ed25519PublicKeySize : Z := 32.
Definition Ed25519PrivateKeySize : Z := 64.
Definition Ed25519SignatureSize : Z := 64.

(** The documented behaviour: a private key is its 32-byte seed and its public key, a signature
    has 64 bytes and verifies under the public key, and both functions panic on a key of the
    wrong size. *)
Class Ed25519Ok (NewKeyFromSeed : bytes -> bytes) (sign : bytes -> bytes -> outcome bytes)
    (verify : bytes -> bytes -> bytes -> outcome bool) : Prop := {
  ed_key seed : len seed = 32 -> exists pub, len pub = 32 /\ NewKeyFromSeed seed = seed ++ pub;
  ed_sign priv data : len priv = 64 -> exists sig, sign priv data = Ok sig /\ len sig = 64;
  ed_verify pub data sig : len pub = 32 -> exists b, verify pub data sig = Ok b;
  ed_correct seed pub data sig :
    len seed = 32 -> NewKeyFromSeed seed = seed ++ pub -> sign (seed ++ pub) data = Ok sig ->
    verify pub data sig = Ok true
}.

(** ** Operations *)

Section ops.
Context (NewKeyFromSeed : bytes -> bytes) (sign : bytes -> bytes -> outcome bytes).
Context (verify : bytes -> bytes -> bytes -> outcome bool).

(** [ed25519.GenerateKey(randReader)] reads a seed. *)
Definition ed25519_GenerateKey : M (bytes * bytes) :=
  seed ← ReadRand 32;
  let privateKey := NewKeyFromSeed seed in
  publicKey ← lift (slice_from privateKey 32);
  mret (publicKey, privateKey).

Definition GenerateEd25519 : M (bytes * bytes) :=
  map_errM (Wrapf "crypt: ed25519 keygen: %w") ed25519_GenerateKey.

Definition SignEd25519 (priv data : bytes) : outcome bytes :=
  if negb (len priv =? Ed25519PrivateKeySize) then
    Err (Wrapf "%w: ed25519 private key must be %d bytes; got %d" ErrInvalidKey)
  else sign priv data.

Definition VerifyEd25519 (pub data sig : bytes) : outcome bool :=
  if negb (len pub =? Ed25519PublicKeySize) then
    Err (Wrapf "%w: ed25519 public key must be %d bytes; got %d" ErrInvalidKey)
  else if negb (len sig =? Ed25519SignatureSize) then
    Err (Wrapf "%w: ed25519 signature must be %d bytes; got %d" ErrInvalidSignature)
  else verify pub data sig.
End ops.

(** ** A concrete scheme for the witnesses: the public key is the seed, a signature a checksum. *)

Definition toy_sig (pub data : bytes) : bytes := replicate 64 (fold_left bxor (pub ++ data) x00).
Definition toy_key (seed : bytes) : bytes := seed ++ seed.
Definition toy_sign (priv data : bytes) : outcome bytes :=
  if len priv =? 64 then Ok (toy_sig (drop 32 priv) data) else Panic "bad private key length".
Definition toy_verify (pub data sig : bytes) : outcome bool :=
  if len pub =? 32 then Ok (bool_decide (sig = toy_sig pub data)) else Panic "bad public key length".

#[global] Instance toy_ok : Ed25519Ok toy_key toy_sign toy_verify.
Proof.
  split; unfold toy_key, toy_sign, toy_verify.
  - intros seed Hs. by exists seed.
  - intros priv data ->. eexists. split; [done|]. apply len_replicate.
  - intros pub data sig ->. eauto.
  - intros seed pub data sig Hs Hk%app_inv_head. subst pub. rewrite len_app, Hs. simpl.
    intros [= <-]. rewrite drop_app_len by (unfold len in Hs; lia). by rewrite bool_decide_eq_true_2.
Qed.

(** ** Lemmas *)

Lemma GenerateEd25519_run NewKey sign verify `{!Ed25519Ok NewKey sign verify} w data :
  has_random 32 w ->
  exists pub priv w', GenerateEd25519 NewKey w = (Ok (pub, priv), w') /\ after_random 32 w w' /\
    len pub = Ed25519PublicKeySize /\ len priv = Ed25519PrivateKeySize /\
    exists sig, SignEd25519 sign priv data = Ok sig /\ len sig = Ed25519SignatureSize /\
      VerifyEd25519 verify pub data sig = Ok true.
Proof.
  intros Hr. destruct (ReadRand_Ok 32 w ltac:(lia) Hr) as (w' & Hread & Ha).
  pose proof (len_next_random 32 w ltac:(lia) Hr) as Hs.
  destruct (ed_key (next_random 32 w) Hs) as (pub & Hp & Hk).
  assert (Hl : len (next_random 32 w ++ pub) = 64) by (rewrite len_app; lia).
  destruct (ed_sign (next_random 32 w ++ pub) data Hl) as (sig & Hsig & Hls).
  exists pub, (next_random 32 w ++ pub), w'. split; [|split; [done|split; [done|split; [done|]]]].
  - unfold GenerateEd25519. apply map_errM_Ok. unfold ed25519_GenerateKey.
    rewrite (M_bind_Ok _ _ _ _ _ Hread). cbv zeta. rewrite Hk.
    rewrite (M_lift_bind _ pub); [done|]. apply slice_from_app. by rewrite Hs.
  - exists sig. unfold SignEd25519, VerifyEd25519, Ed25519PrivateKeySize, Ed25519PublicKeySize,
      Ed25519SignatureSize. rewrite Hl, Hp, Hls. cbn [negb Z.eqb Pos.eqb].
    split; [exact Hsig|]. split; [done|]. exact (ed_correct _ _ _ _ Hs Hk Hsig).
Qed.

(** ** Properties *)


(** With 32 random bytes [GenerateEd25519] returns a 32-byte public and a 64-byte private key,
    and every message signed with the one verifies with the other. *)
Theorem Ed25519_sign_verify NewKey sign verify `{!Ed25519Ok NewKey sign verify} w data :
  has_random 32 w ->
  exists pub priv w', GenerateEd25519 NewKey w = (Ok (pub, priv), w') /\ after_random 32 w w' /\
    len pub = Ed25519PublicKeySize /\ len priv = Ed25519PrivateKeySize /\
    exists sig, SignEd25519 sign priv data = Ok sig /\ len sig = Ed25519SignatureSize /\
      VerifyEd25519 verify pub data sig = Ok true.
Proof. exact (GenerateEd25519_run NewKey sign verify w data). Qed.

Lemma Ed25519_sign_verify_witness :
  exists pub priv w', GenerateEd25519 toy_key demo_world = (Ok (pub, priv), w') /\
    exists sig, SignEd25519 toy_sign priv (lit "release") = Ok sig /\
      VerifyEd25519 toy_verify pub (lit "release") sig = Ok true.
Proof.
  destruct (Ed25519_sign_verify toy_key toy_sign toy_verify demo_world (lit "release"))
    as (pub & priv & w' & H1 & _ & _ & _ & sig & H2 & _ & H3); [vm_compute; discriminate|].
  exists pub, priv, w'. eauto.
Defined.

(** The size checks of the wrappers shield every panic of the package: [SignEd25519] and
    [VerifyEd25519] return [ErrInvalidKey] exactly on a key of the wrong size and
    [ErrInvalidSignature] on a signature of the wrong size, and otherwise a result. *)
Theorem Ed25519_shape_errors NewKey sign verify `{!Ed25519Ok NewKey sign verify} priv pub data sig :
  (if len priv =? 64 then is_ok (SignEd25519 sign priv data) = true
   else fails_with (SignEd25519 sign priv data) ErrInvalidKey = true) /\
  (if len pub =? 32 then
     if len sig =? 64 then is_ok (VerifyEd25519 verify pub data sig) = true
     else fails_with (VerifyEd25519 verify pub data sig) ErrInvalidSignature = true
   else fails_with (VerifyEd25519 verify pub data sig) ErrInvalidKey = true).
Proof.
  unfold SignEd25519, VerifyEd25519, Ed25519PrivateKeySize, Ed25519PublicKeySize, Ed25519SignatureSize.
  destruct (Z.eqb_spec (len priv) 64) as [H1|H1], (Z.eqb_spec (len pub) 32) as [H2|H2],
    (len sig =? 64); cbn [negb]; split; try done;
    try (by destruct (ed_sign priv data H1) as (s & -> & _));
    by destruct (ed_verify pub data sig H2) as [b ->].
Qed.

Lemma Ed25519_shape_errors_witness :
  fails_with (SignEd25519 toy_sign (lit "short") []) ErrInvalidKey = true.
Proof. apply (Ed25519_shape_errors toy_key toy_sign toy_verify (lit "short") [] [] []). Defined.
