(* ===== verification/GenVectors.v ===== *)
(** * The test vector generator: [cmd/gen-vectors/main.go]

    The program computes the known-answer vectors that the Go and TypeScript suites share; its
    three tables are evaluated here and compared with [testdata/vectors.json] and with the
    library, and [main] is compared with the whole file.  An [os.Exit(1)] is an error. *)

From Stdlib Require Import Strings.String.
From S2P Require Import Prelude Errors Base64 Hex GoText Utf8 Json GoIO Sha256 Aes Cipher Format Aead Cbc Sign.

(** ** Data *)

Record AEADVector := {
  av_Name : bytes; av_KeyHex : bytes; av_NonceHex : bytes; av_AADHex : bytes;
  av_PlaintextHex : bytes; av_ExpectedB64URL : bytes
}.

Record HMACVector := {
  hv_Name : bytes; hv_KeyHex : bytes; hv_DataHex : bytes; hv_ExpectedHex : bytes
}.

Record CBCVector := {
  cv_Name : bytes; cv_KeyHex : bytes; cv_IVHex : bytes; cv_PlaintextHex : bytes;
  cv_ExpectedHex : bytes
}.

(** The top-level document; [Version] is an [int]. *)
Record Vectors := {
  vs_Version : Z; vs_Notes : bytes; vs_AEAD : list AEADVector; vs_HMAC : list HMACVector;
  vs_CBC : list CBCVector
}.

(** The members of each struct, by the tags of its fields. *)
Definition strings_json (ms : list (string * bytes)) : json :=
  JObj (map (fun '(k, v) => (lit k, JStr v)) ms).

Definition AEADVector_json (v : AEADVector) : json :=
  strings_json [("name", av_Name v); ("key_hex", av_KeyHex v); ("nonce_hex", av_NonceHex v);
                ("aad_hex", av_AADHex v); ("plaintext_hex", av_PlaintextHex v);
                ("expected_b64url", av_ExpectedB64URL v)]%string.
Definition HMACVector_json (v : HMACVector) : json :=
  strings_json [("name", hv_Name v); ("key_hex", hv_KeyHex v); ("data_hex", hv_DataHex v);
                ("expected_hex", hv_ExpectedHex v)]%string.
Definition CBCVector_json (v : CBCVector) : json :=
  strings_json [("name", cv_Name v); ("key_hex", cv_KeyHex v); ("iv_hex", cv_IVHex v);
                ("plaintext_hex", cv_PlaintextHex v); ("expected_hex", cv_ExpectedHex v)]%string.
Definition Vectors_json (v : Vectors) : json :=
  JObj [(lit "version", JNum (FormatInt (vs_Version v))); (lit "notes", JStr (vs_Notes v));
        (lit "aead", JArr (map AEADVector_json (vs_AEAD v)));
        (lit "hmac", JArr (map HMACVector_json (vs_HMAC v)));
        (lit "cbc_legacy", JArr (map CBCVector_json (vs_CBC v)))].

(** ** Helpers *)

(** [buf, padLen] copies of the pad length. *)
Definition pkcs7Pad (buf : bytes) (size : Z) : bytes :=
  let padLen := size - len buf mod size in
  buf ++ replicate (Z.to_nat padLen) (to_byte padLen).

Fixpoint repeatHex (twoChar : bytes) (count : nat) : bytes :=
  match count with
  | O => []
  | S count' => twoChar ++ repeatHex twoChar count'
  end.

(** [v, _ := hex.DecodeString(s)] keeps what was decoded when it fails; the tables hold only
    valid strings, so the model keeps nothing. *)
Definition decode_unchecked (s : bytes) : bytes :=
  match Hex.DecodeString s with Ok b => b | _ => [] end.

(** A check that ends in [os.Exit(1)]. *)
Definition or_exit {A} (o : outcome A) (msg : string) : outcome A :=
  map_err (fun _ => Errorf msg) o.

(** [for _, s := range specs { ...; out = append(out, v) }] *)
Fixpoint map_specs {A B} (f : A -> outcome B) (specs : list A) : outcome (list B) :=
  match specs with
  | [] => Ok []
  | s :: specs' => v ← f s; vs ← map_specs f specs'; Ok (v :: vs)
  end.

(** ** The three tables *)

Definition hex_of (s : string) : bytes := Hex.EncodeToString (lit s).

Definition aead_specs : list (bytes * bytes * bytes * bytes * bytes) := [
  (lit "all-zero key, all-zero nonce, empty plaintext, no AAD",
   repeatHex (lit "00") 32, repeatHex (lit "00") 12, [], []);
  (lit "all-zero key, all-zero nonce, ASCII plaintext, no AAD",
   repeatHex (lit "00") 32, repeatHex (lit "00") 12, [], hex_of "hello, world");
  (lit "all-zero key, all-zero nonce, ASCII plaintext, ASCII AAD",
   repeatHex (lit "00") 32, repeatHex (lit "00") 12, hex_of "user:42", hex_of "hello, world");
  (lit "patterned key, patterned nonce, longer plaintext",
   lit "000102030405060708090a0b0c0d0e0f101112131415161718191a1b1c1d1e1f",
   lit "111213141516171819101a1b", hex_of "context-binding-string",
   hex_of "the quick brown fox jumps over the lazy dog 0123456789");
  (lit "binary plaintext, no AAD",
   lit "0123456789abcdef0123456789abcdef0123456789abcdef0123456789abcdef",
   lit "fedcba9876543210fedcba98", [],
   lit "000102030405060708090a0b0c0d0e0ffefcfdf8f0e0d0c0b0a0908070605040")].

Definition aeadVector (s : bytes * bytes * bytes * bytes * bytes) : outcome AEADVector :=
  let '(name, keyHex, nonceHex, aadHex, plaintextHex) := s in
  let key := decode_unchecked keyHex in
  let nonce := decode_unchecked nonceHex in
  plaintext ← or_exit (Hex.DecodeString plaintextHex) "decode plaintext_hex %q: %v\n";
  aad ← (if bool_decide (aadHex = []) then Ok []
         else or_exit (Hex.DecodeString aadHex) "decode aad_hex %q: %v\n");
  block ← or_exit (NewCipher key) "aes.NewCipher:";
  gcm ← or_exit (NewGCM block) "cipher.NewGCM:";
  let buf := [] ++ [x01] in
  let buf := buf ++ nonce in
  buf ← aead_Seal gcm buf nonce plaintext aad;
  let expected := EncodeToString RawURLEncoding buf in
  Ok {| av_Name := name; av_KeyHex := keyHex; av_NonceHex := nonceHex; av_AADHex := aadHex;
        av_PlaintextHex := plaintextHex; av_ExpectedB64URL := expected |}.

Definition aeadVectors : outcome (list AEADVector) := map_specs aeadVector aead_specs.

Definition hmac_specs : list (bytes * bytes * bytes) := [
  (lit "empty data", repeatHex (lit "aa") 32, []);
  (lit "short ASCII data", repeatHex (lit "aa") 32, hex_of "hello");
  (lit "long ASCII data", lit "0123456789abcdef0123456789abcdef0123456789abcdef0123456789abcdef",
   hex_of "the quick brown fox jumps over the lazy dog");
  (lit "binary data", lit "fedcba9876543210fedcba9876543210fedcba9876543210fedcba9876543210",
   lit "000102fffefd")].

Definition hmacVector (s : bytes * bytes * bytes) : outcome HMACVector :=
  let '(name, keyHex, dataHex) := s in
  let key := decode_unchecked keyHex in
  data ← or_exit (Hex.DecodeString dataHex) "decode data_hex %q: %v\n";
  let mac := hmac_sha256 key data in
  Ok {| hv_Name := name; hv_KeyHex := keyHex; hv_DataHex := dataHex;
        hv_ExpectedHex := Hex.EncodeToString mac |}.

Definition hmacVectors : outcome (list HMACVector) := map_specs hmacVector hmac_specs.

Definition cbc_specs : list (bytes * bytes * bytes * bytes) := [
  (lit "AES-256-CBC, short plaintext", repeatHex (lit "00") 32, repeatHex (lit "11") 16,
   hex_of "hello");
  (lit "AES-256-CBC, exact-block plaintext", repeatHex (lit "00") 32, repeatHex (lit "22") 16,
   hex_of "0123456789abcdef");
  (lit "AES-256-CBC, longer plaintext",
   lit "0123456789abcdef0123456789abcdef0123456789abcdef0123456789abcdef",
   lit "fedcba9876543210fedcba9876543210",
   hex_of "the quick brown fox jumps over the lazy dog")].

Definition cbcVector (s : bytes * bytes * bytes * bytes) : outcome CBCVector :=
  let '(name, keyHex, ivHex, plaintextHex) := s in
  let key := decode_unchecked keyHex in
  let iv := decode_unchecked ivHex in
  plaintext ← or_exit (Hex.DecodeString plaintextHex) "decode plaintext_hex: %v\n";
  block ← or_exit (NewCipher key) "aes.NewCipher:";
  let padded := pkcs7Pad plaintext aes_BlockSize in
  ct ← CBCEncrypt block iv padded;
  let full := iv ++ ct in
  Ok {| cv_Name := name; cv_KeyHex := keyHex; cv_IVHex := ivHex; cv_PlaintextHex := plaintextHex;
        cv_ExpectedHex := Hex.EncodeToString full |}.

Definition cbcVectors : outcome (list CBCVector) := map_specs cbcVector cbc_specs.

(** ** The program *)

Definition main_Vectors : outcome Vectors :=
  aead ← aeadVectors;
  hmac ← hmacVectors;
  cbc ← cbcVectors;
  Ok {| vs_Version := 1;
        vs_Notes := lit "Cross-language test vectors for github.com/ubgo/crypt and @ubgo/crypt. Both Go and TS test suites consume this file. Regenerate with: go run ./cmd/gen-vectors > testdata/vectors.json";
        vs_AEAD := aead; vs_HMAC := hmac; vs_CBC := cbc |}.

(** What [main] writes to the standard output: [Encode] ends the document with a line feed. *)
Definition main : outcome bytes :=
  out ← main_Vectors;
  Ok (encode_indent 0 (Vectors_json out) ++ [x0a]).

(** [testdata/vectors.json], byte for byte (' stands for the double quote). *)
Definition vectors_json : bytes := lit_q
"{
  'version': 1,
  'notes': 'Cross-language test vectors for github.com/ubgo/crypt and @ubgo/crypt. Both Go and TS test suites consume this file. Regenerate with: go run ./cmd/gen-vectors \u003e testdata/vectors.json',
  'aead': [
    {
      'name': 'all-zero key, all-zero nonce, empty plaintext, no AAD',
      'key_hex': '0000000000000000000000000000000000000000000000000000000000000000',
      'nonce_hex': '000000000000000000000000',
      'aad_hex': '',
      'plaintext_hex': '',
      'expected_b64url': 'AQAAAAAAAAAAAAAAAFMPivvHRTa5qWO08cTLc4s'
    },
    {
      'name': 'all-zero key, all-zero nonce, ASCII plaintext, no AAD',
      'key_hex': '0000000000000000000000000000000000000000000000000000000000000000',
      'nonce_hex': '000000000000000000000000',
      'aad_hex': '',
      'plaintext_hex': '68656c6c6f2c20776f726c64',
      'expected_b64url': 'AQAAAAAAAAAAAAAAAKbCLFEiTEsZaDyptyVyvm9D_ANLvLHf91EaQ6I'
    },
    {
      'name': 'all-zero key, all-zero nonce, ASCII plaintext, ASCII AAD',
      'key_hex': '0000000000000000000000000000000000000000000000000000000000000000',
      'nonce_hex': '000000000000000000000000',
      'aad_hex': '757365723a3432',
      'plaintext_hex': '68656c6c6f2c20776f726c64',
      'expected_b64url': 'AQAAAAAAAAAAAAAAAKbCLFEiTEsZaDypt1i1i-WvUsUgHzjEz9xiQJ0'
    },
    {
      'name': 'patterned key, patterned nonce, longer plaintext',
      'key_hex': '000102030405060708090a0b0c0d0e0f101112131415161718191a1b1c1d1e1f',
      'nonce_hex': '111213141516171819101a1b',
      'aad_hex': '636f6e746578742d62696e64696e672d737472696e67',
      'plaintext_hex': '74686520717569636b2062726f776e20666f78206a756d7073206f76657220746865206c617a7920646f672030313233343536373839',
      'expected_b64url': 'ARESExQVFhcYGRAaG02zELqvtgMZdTLRnB920A89R5Gy_tBdQYshiZwMIaENd-PjpDYdxtOqaf2jSXAuYIUS0VTgJ0svKV4faIdv8mOPpGNpi_I'
    },
    {
      'name': 'binary plaintext, no AAD',
      'key_hex': '0123456789abcdef0123456789abcdef0123456789abcdef0123456789abcdef',
      'nonce_hex': 'fedcba9876543210fedcba98',
      'aad_hex': '',
      'plaintext_hex': '000102030405060708090a0b0c0d0e0ffefcfdf8f0e0d0c0b0a0908070605040',
      'expected_b64url': 'Af7cuph2VDIQ_ty6mNKuSaE7UmVDRZ8uHWlPw_Jr_vhu4ppGNcxtl4Yiupwnt_SPD7MeTma-g5qXCBV9kA'
    }
  ],
  'hmac': [
    {
      'name': 'empty data',
      'key_hex': 'aaaaaaaaaaaaaaaaaaaaaaaaaaaaaaaaaaaaaaaaaaaaaaaaaaaaaaaaaaaaaaaa',
      'data_hex': '',
      'expected_hex': '63210aee265762634fa3db8c1aa920dcd07d31ec297309580394a21412f83372'
    },
    {
      'name': 'short ASCII data',
      'key_hex': 'aaaaaaaaaaaaaaaaaaaaaaaaaaaaaaaaaaaaaaaaaaaaaaaaaaaaaaaaaaaaaaaa',
      'data_hex': '68656c6c6f',
      'expected_hex': 'b6e8136a040e71266e360e23c7d48eac29362d4cff102207565d5b3072f1453b'
    },
    {
      'name': 'long ASCII data',
      'key_hex': '0123456789abcdef0123456789abcdef0123456789abcdef0123456789abcdef',
      'data_hex': '74686520717569636b2062726f776e20666f78206a756d7073206f76657220746865206c617a7920646f67',
      'expected_hex': '57d075d661dfc62b3075c1ecd0e8d95a47c552d52ba14b72e8140588dc416710'
    },
    {
      'name': 'binary data',
      'key_hex': 'fedcba9876543210fedcba9876543210fedcba9876543210fedcba9876543210',
      'data_hex': '000102fffefd',
      'expected_hex': '4e5b5f87793ae112c40262b1bcbdbf058f53af55e4d5f51c7277d289e7a7d06d'
    }
  ],
  'cbc_legacy': [
    {
      'name': 'AES-256-CBC, short plaintext',
      'key_hex': '0000000000000000000000000000000000000000000000000000000000000000',
      'iv_hex': '11111111111111111111111111111111',
      'plaintext_hex': '68656c6c6f',
      'expected_hex': '11111111111111111111111111111111de7609295c6f95e6796b12f25cfa8550'
    },
    {
      'name': 'AES-256-CBC, exact-block plaintext',
      'key_hex': '0000000000000000000000000000000000000000000000000000000000000000',
      'iv_hex': '22222222222222222222222222222222',
      'plaintext_hex': '30313233343536373839616263646566',
      'expected_hex': '2222222222222222222222222222222278f53377b0fdaa51e1fda1afa4bbf3c79ece5a5ddd68b880c2c46049a91cbc4e'
    },
    {
      'name': 'AES-256-CBC, longer plaintext',
      'key_hex': '0123456789abcdef0123456789abcdef0123456789abcdef0123456789abcdef',
      'iv_hex': 'fedcba9876543210fedcba9876543210',
      'plaintext_hex': '74686520717569636b2062726f776e20666f78206a756d7073206f76657220746865206c617a7920646f67',
      'expected_hex': 'fedcba9876543210fedcba9876543210955f52e9c049484c36615c5482343377ddbfb3c8816c78a04f806fb543ac649a90463124bbd7a5ac5b4a6f02cf1334dc'
    }
  ]
}
".

(** ** Lemmas *)

Lemma decode_unchecked_Ok s b : Hex.DecodeString s = Ok b -> decode_unchecked s = b.
Proof. unfold decode_unchecked. by intros ->. Qed.

Lemma Ok_inj {A} (a b : A) : Ok a = Ok b -> a = b.
Proof. congruence. Qed.

Lemma or_exit_Ok {A} (o : outcome A) msg a : or_exit o msg = Ok a <-> o = Ok a.
Proof. apply map_err_Ok. Qed.

(** What a vector of each table is, in terms of the decoded fields. *)

Lemma aeadVector_inv s v key nonce p aad :
  aeadVector s = Ok v ->
  Hex.DecodeString (av_KeyHex v) = Ok key -> Hex.DecodeString (av_NonceHex v) = Ok nonce ->
  Hex.DecodeString (av_PlaintextHex v) = Ok p -> Hex.DecodeString (av_AADHex v) = Ok aad ->
  exists c out, gcm_of_key key = Ok c /\ aead_Seal c (x01 :: nonce) nonce p aad = Ok out /\
    av_ExpectedB64URL v = EncodeToString RawURLEncoding out.
Proof.
  destruct s as [[[[name kh] nh] ah] ph]. unfold aeadVector.
  intros (p' & Hp'%or_exit_Ok & H)%bind_Ok_inv. apply bind_Ok_inv in H as (aad' & Ha' & H).
  apply bind_Ok_inv in H as (b & Hb%or_exit_Ok & H).
  apply bind_Ok_inv in H as (c & Hc%or_exit_Ok & H).
  apply bind_Ok_inv in H as (out & Ho & [= <-]). cbn [av_KeyHex av_NonceHex av_PlaintextHex av_AADHex].
  intros Hk Hn Hp Ha. rewrite (decode_unchecked_Ok _ _ Hk) in *.
  rewrite (decode_unchecked_Ok _ _ Hn) in *. assert (p' = p) as -> by congruence.
  assert (aad' = aad) as ->.
  { case_bool_decide as E; [|apply or_exit_Ok in Ha'; congruence].
    subst ah. injection Ha as <-. by injection Ha' as <-. }
  exists c, out. split; [|done]. unfold gcm_of_key. by rewrite Hb.
Qed.

Lemma pkcs7Pad_padding p : pkcs7Pad p aes_BlockSize = p ++ padding p.
Proof. done. Qed.

Lemma cbcVector_inv s v key iv p :
  cbcVector s = Ok v ->
  Hex.DecodeString (cv_KeyHex v) = Ok key -> Hex.DecodeString (cv_IVHex v) = Ok iv ->
  Hex.DecodeString (cv_PlaintextHex v) = Ok p ->
  exists b ct, NewCipher key = Ok b /\ CBCEncrypt b iv (p ++ padding p) = Ok ct /\
    cv_ExpectedHex v = Hex.EncodeToString (iv ++ ct).
Proof.
  destruct s as [[[name kh] ih] ph]. unfold cbcVector.
  intros (p' & Hp'%or_exit_Ok & H)%bind_Ok_inv.
  apply bind_Ok_inv in H as (b & Hb%or_exit_Ok & H).
  apply bind_Ok_inv in H as (ct & Hct & [= <-]). cbn [cv_KeyHex cv_IVHex cv_PlaintextHex].
  intros Hk Hi Hp. rewrite (decode_unchecked_Ok _ _ Hk) in *.
  rewrite (decode_unchecked_Ok _ _ Hi) in *. assert (p' = p) as -> by congruence.
  rewrite pkcs7Pad_padding in Hct. by exists b, ct.
Qed.

(** ** Properties *)

(** The committed file is up to date: the generator ends normally and its [expected] columns are
    those of [testdata/vectors.json], so the AES, GCM, CBC, SHA-256, HMAC, base64 and hexadecimal
    definitions of this development reproduce the recorded outputs of the Go program. *)
Theorem vectors_match_file :
  (vs ← aeadVectors; Ok (map av_ExpectedB64URL vs)) = Ok [
    lit "AQAAAAAAAAAAAAAAAFMPivvHRTa5qWO08cTLc4s";
    lit "AQAAAAAAAAAAAAAAAKbCLFEiTEsZaDyptyVyvm9D_ANLvLHf91EaQ6I";
    lit "AQAAAAAAAAAAAAAAAKbCLFEiTEsZaDypt1i1i-WvUsUgHzjEz9xiQJ0";
    lit "ARESExQVFhcYGRAaG02zELqvtgMZdTLRnB920A89R5Gy_tBdQYshiZwMIaENd-PjpDYdxtOqaf2jSXAuYIUS0VTgJ0svKV4faIdv8mOPpGNpi_I";
    lit "Af7cuph2VDIQ_ty6mNKuSaE7UmVDRZ8uHWlPw_Jr_vhu4ppGNcxtl4Yiupwnt_SPD7MeTma-g5qXCBV9kA"] /\
  (vs ← hmacVectors; Ok (map hv_ExpectedHex vs)) = Ok [
    lit "63210aee265762634fa3db8c1aa920dcd07d31ec297309580394a21412f83372";
    lit "b6e8136a040e71266e360e23c7d48eac29362d4cff102207565d5b3072f1453b";
    lit "57d075d661dfc62b3075c1ecd0e8d95a47c552d52ba14b72e8140588dc416710";
    lit "4e5b5f87793ae112c40262b1bcbdbf058f53af55e4d5f51c7277d289e7a7d06d"] /\
  (vs ← cbcVectors; Ok (map cv_ExpectedHex vs)) = Ok [
    lit "11111111111111111111111111111111de7609295c6f95e6796b12f25cfa8550";
    lit "2222222222222222222222222222222278f53377b0fdaa51e1fda1afa4bbf3c79ece5a5ddd68b880c2c46049a91cbc4e";
    lit "fedcba9876543210fedcba9876543210955f52e9c049484c36615c5482343377ddbfb3c8816c78a04f806fb543ac649a90463124bbd7a5ac5b4a6f02cf1334dc"].
Proof. vm_compute. repeat split. Qed.

(** C38: the generator is an independent implementation of the library's formats. For any row, not
    only those of the tables, whose fields decode: an AEAD vector is what [sealWithNonce] returns
    (for a 32-byte key), an HMAC vector is [Sign], and a CBC vector is what [EncryptCBC] returns
    when the random source delivers the row's IV. *)
Theorem vectors_agree_with_library w :
  (forall s v key nonce p aad, aeadVector s = Ok v -> len key = AEADKeySize ->
     Hex.DecodeString (av_KeyHex v) = Ok key -> Hex.DecodeString (av_NonceHex v) = Ok nonce ->
     Hex.DecodeString (av_PlaintextHex v) = Ok p -> Hex.DecodeString (av_AADHex v) = Ok aad ->
     sealWithNonce key p aad (Some nonce) w = (Ok (av_ExpectedB64URL v), w)) /\
  (forall s v key data, hmacVector s = Ok v ->
     Hex.DecodeString (hv_KeyHex v) = Ok key -> Hex.DecodeString (hv_DataHex v) = Ok data ->
     Hex.DecodeString (hv_ExpectedHex v) = Ok (Sign key data)) /\
  (forall s v key iv p, cbcVector s = Ok v -> validCBCKeyLen (len key) = true ->
     Hex.DecodeString (cv_KeyHex v) = Ok key -> Hex.DecodeString (cv_IVHex v) = Ok iv ->
     Hex.DecodeString (cv_PlaintextHex v) = Ok p ->
     has_random 16 w -> next_random 16 w = iv ->
     (EncryptCBC key p w).1 = Ok (cv_ExpectedHex v)).
Proof.
  split; [|split].
  - intros s v key nonce p aad Hv Hlen Hk Hn Hp Ha.
    destruct (aeadVector_inv s v key nonce p aad Hv Hk Hn Hp Ha) as (c & out & Hc & Ho & ->).
    pose proof (gcm_of_key_ok _ _ Hc) as Hok. destruct (seal_bound _ _ _ _ _ Ho) as [Hn12 Hl].
    destruct (seal_open nonce p aad Hn12 Hl) as (body & _ & Hs & _).
    rewrite Hs in Ho. injection Ho as <-.
    by apply (sealWithNonce_run key p aad (Some nonce) w w nonce c body).
  - intros [[name kh] dh] v key data Hv Hk Hd. unfold hmacVector in Hv.
    apply bind_Ok_inv in Hv as (d & Hd'%or_exit_Ok & Hv). apply Ok_inj in Hv as <-.
    cbn [hv_KeyHex hv_DataHex hv_ExpectedHex] in *.
    rewrite (decode_unchecked_Ok _ _ Hk). assert (d = data) as -> by congruence.
    apply Hex.hex_roundtrip.
  - intros s v key iv p Hv Hlen Hk Hi Hp Hr Hiv.
    destruct (cbcVector_inv s v key iv p Hv Hk Hi Hp) as (b & ct & Hb & Hct & ->).
    destruct (EncryptCBC_run key p w Hlen Hr) as (s' & w' & Hs & _ & _). rewrite Hs.
    apply EncryptCBC_inv in Hs as (_ & b' & c & Hb' & _ & _ & _ & Hc & ->).
    assert (b' = b) as -> by congruence. rewrite Hiv in *. simpl. do 2 f_equal. congruence.
Qed.

Definition first_row : AEADVector := {|
  av_Name := lit "all-zero key, all-zero nonce, empty plaintext, no AAD";
  av_KeyHex := repeatHex (lit "00") 32; av_NonceHex := repeatHex (lit "00") 12;
  av_AADHex := []; av_PlaintextHex := [];
  av_ExpectedB64URL := lit "AQAAAAAAAAAAAAAAAFMPivvHRTa5qWO08cTLc4s" |}.

Lemma vectors_agree_with_library_witness :
  sealWithNonce (replicate 32 x00) [] [] (Some (replicate 12 x00)) demo_world =
    (Ok (lit "AQAAAAAAAAAAAAAAAFMPivvHRTa5qWO08cTLc4s"), demo_world).
Proof.
  apply (proj1 (vectors_agree_with_library demo_world)
    (lit "all-zero key, all-zero nonce, empty plaintext, no AAD",
     repeatHex (lit "00") 32, repeatHex (lit "00") 12, [], []) first_row); vm_compute; reflexivity.
Defined.

(** [go run ./cmd/gen-vectors > testdata/vectors.json] leaves the committed file as it is: the program
    ends normally and writes that file byte for byte, JSON layout and escapes included; and a
    reader of the file gets back the document the program built. So the AES, GCM, CBC, SHA-256,
    HMAC, base64, hexadecimal and JSON definitions of this development reproduce the recorded
    output of the Go program. *)
Theorem main_writes_vectors_json :
  main = Ok vectors_json /\ (out ← main_Vectors; Ok (Some (Vectors_json out))) = Ok (parse vectors_json).
Proof. vm_compute. split; reflexivity. Qed.
