(* ===== verification/Programs.v ===== *)
(** * Example programs: what their [main] functions print

    [examples/keyring_rotation], [examples/streaming_file], [examples/envelope_encryption],
    [examples/asymmetric_encrypt], [examples/encrypt_field], [examples/cross_lang_go] and
    [examples/sign_webhook], from the first line to the last. *)

From Stdlib Require Import Strings.String.
From S2P Require Import Prelude Errors Base64 Hex GoIO Console Sha256 Cipher Format Random Aead ChaCha Sign.
From S2P Require Import KeyRing Rotation Kms Asymmetric Stream Ed25519.

(** ** Rotating a ring *)

Module KeyringRotation.
Import KeyRing.

(** [order] is the order in which [range] visits the keys of a ring. *)
Definition main (order : KeyRing -> list bytes) : program unit :=
  let keyV1 := replicate 32 x01 in
  let keyV2 := replicate 32 x02 in
  ring ← expr (NewKeyRing (lit "2025") keyV1);
  old ← ignore [] (Seal ring (lit "encrypted in 2025") []);
  head ← expr (slice old 0 32);
  _ ← print (fmt "2025 ciphertext active=%s: %s\n") [VText (ActiveKid ring); VText (head ++ lit "...")];
  let '(err, ring) := Add ring (lit "2026") keyV2 in
  _ ← expr err;
  let '(err, ring) := SetActive ring (lit "2026") in
  _ ← expr err;
  new2026 ← ignore [] (Seal ring (lit "encrypted in 2026") []);
  head ← expr (slice new2026 0 32);
  _ ← print (fmt "2026 ciphertext active=%s: %s\n") [VText (ActiveKid ring); VText (head ++ lit "...")];
  pt ← ignore [] (lift (Open ring (order ring) old []));
  _ ← print (fmt "\nopened old: %s\n") [VText pt];
  pt ← ignore [] (lift (Open ring (order ring) new2026 []));
  _ ← print (fmt "opened new: %s\n") [VText pt];
  let '(err, ring) := Remove ring (lit "2025") in
  _ ← expr err;
  _ ← print (fmt "\nremoved 2025 — now ring has only %s\n") [VText (ActiveKid ring)];
  print_error (fmt "opening orphaned 2025 ct: %v\n") (lift (Open ring (order ring) old [])).

End KeyringRotation.

(** ** Streaming a file *)

Module StreamingFile.

(** The three files hold what was last written to them; [reads] is how the system delivers a
    file's bytes to an open descriptor, in pieces of any size. *)
Definition main (reads : bytes -> reader) : program unit :=
  key ← ignore (replicate 32 x00) (ReadRand AEADKeySize);
  let plaintext := mjoin (replicate (Z.to_nat 25000) (fmt "the quick brown fox jumps over the lazy dog\n")) in
  _ ← print (fmt "plaintext: %d bytes\n") [VInt (len plaintext)];
  enc ← must (fun w => let '(o, out, w') := SealStream key (reads plaintext) (buffer []) DefaultStreamChunkSize w in
                       (match o with Ok _ => Ok (wr_out out) | Err e => Err e | Panic p => Panic p end, w'));
  _ ← print (fmt "ciphertext: %d bytes (%.1fx larger due to per-chunk tags)\n")
        [VInt (len enc); VRatio (len enc) (len plaintext)];
  let '(err, (_, dec)) := OpenStream key (reads enc) (buffer []) in
  _ ← expr err;
  let got := wr_out dec in
  _ ← (if bool_decide (got = plaintext) then mret tt
       else fun w => (Fatal (ErrorString "plaintext mismatch"), [], w));
  _ ← print (fmt "decrypted: %d bytes (matches original)\n") [VInt (len got)];
  truncated ← expr (slice enc 0 (len enc - 100));
  let '(err, _) := OpenStream key {| rd_data := [truncated]; rd_err := EOF |} (buffer []) in
  match err with
  | Ok _ => mret tt
  | Err e => if errors_Is e ErrTruncated then print (fmt "\ntruncation detected: %v\n") [VErr e] else mret tt
  | Panic p => fun w => (Crash p, [], w)
  end.

End StreamingFile.

(** ** Envelope encryption *)

Module EnvelopeEncryption.
Import Kms.

Definition main : program unit :=
  let kms := NewStaticKMS in
  let kek := replicate 32 xa1 in
  let '(err, kms) := AddKey kms (lit "kek-prod-2026") kek in
  _ ← expr err;
  let sealer := NewEnvelopeSealer (static kms) (lit "kek-prod-2026") in
  let plaintext := lit "PCI-regulated card metadata" in
  ct ← must (Seal sealer plaintext (lit "table:transactions"));
  head ← expr (slice ct 0 48);
  _ ← print (fmt "envelope ciphertext: %s...\n") [VText head];
  pt ← must (Open sealer ct (lit "table:transactions"));
  _ ← print (fmt "decrypted: %s\n") [VText pt];
  a ← ignore [] (Seal sealer plaintext []);
  b ← ignore [] (Seal sealer plaintext []);
  _ ← print (fmt "\ntwo seals of same plaintext are distinct: %v\n") [VBool (negb (bool_decide (a = b)))];
  print (fmt "\nthe interface is what crypt provides; KMS-specific\nadapter packages plug in by implementing crypt.KMS.\n") [].

End EnvelopeEncryption.

(** ** Sealed boxes, signed *)

Module AsymmetricEncrypt.

Section main.
Context (X25519 : bytes -> bytes -> outcome bytes) (Basepoint : bytes) (New : bytes -> outcome AEAD).
Context (NewKeyFromSeed : bytes -> bytes) (sign : bytes -> bytes -> outcome bytes).
Context (verify : bytes -> bytes -> bytes -> outcome bool).

(** The second half: the sender signs, then encrypts; the recipient opens and verifies. *)
Definition signed_message (recipientPub recipientPriv plaintext : bytes) : program unit :=
  '(senderPub, senderPriv) ← ignore ([], []) (GenerateEd25519 NewKeyFromSeed);
  sig ← ignore [] (lift (SignEd25519 sign senderPriv plaintext));
  let signed := sig ++ plaintext in
  signedCT ← ignore [] (SealAsymmetric X25519 Basepoint New recipientPub signed);
  openedSigned ← ignore [] (lift (OpenAsymmetric X25519 New recipientPriv signedCT));
  gotSig ← expr (slice openedSigned 0 Ed25519SignatureSize);
  gotMsg ← expr (slice_from openedSigned Ed25519SignatureSize);
  ok ← ignore false (lift (VerifyEd25519 verify senderPub gotMsg gotSig));
  print (fmt "\nsigned + encrypted message:\n  authenticated sender: %v\n  message: %s\n") [VBool ok; VText gotMsg].

Definition main : program unit :=
  '(recipientPub, recipientPriv) ← must (GenerateKeyPair X25519 Basepoint);
  _ ← print (fmt "recipient public key (publish):  %s\n") [VText (Std.EncodeToString recipientPub)];
  head ← expr (slice (Std.EncodeToString recipientPriv) 0 24);
  _ ← print (fmt "recipient private key (keep):    %s\n\n") [VText (head ++ lit "...")];
  let plaintext := lit "only the recipient can read this" in
  ct ← must (SealAsymmetric X25519 Basepoint New recipientPub plaintext);
  _ ← print (fmt "ciphertext (anyone can produce, only recipient can open):\n  %s\n\n") [VText ct];
  pt ← must (lift (OpenAsymmetric X25519 New recipientPriv ct));
  _ ← print (fmt "decrypted by recipient: %s\n") [VText pt];
  '(_, otherPriv) ← ignore ([], []) (GenerateKeyPair X25519 Basepoint);
  r ← call (lift (OpenAsymmetric X25519 New otherPriv ct));
  _ ← match r with
      | inl _ => mret tt
      | inr err => if errors_Is err ErrTampered
                   then print (fmt "\nwrong recipient: %v (correctly rejected)\n") [VErr err] else mret tt
      end;
  signed_message recipientPub recipientPriv plaintext.
End main.

End AsymmetricEncrypt.

(** ** A sealed column *)

Module EncryptField.

Record fakeRow := { ID : bytes; ClientSecret : bytes }.

Definition main : program unit :=
  let appKey := lit "01234567890123456789012345678901" in
  sealer ← expr (Sealer.NewSealer appKey);
  let plaintext := lit "sk_live_4242deadbeef" in
  encrypted ← must (Sealer.Seal sealer plaintext []);
  let row := {| ID := lit "prtn_001"; ClientSecret := encrypted |} in
  _ ← print (fmt "stored row:\n  id=%s\n  client_secret=%s\n\n") [VText (ID row); VText (ClientSecret row)];
  decrypted ← must (lift (Sealer.Open sealer (ClientSecret row) []));
  _ ← print (fmt "loaded plaintext: %s\n") [VText decrypted];
  front ← expr (slice (ClientSecret row) 0 (len (ClientSecret row) - 1));
  let tampered := front ++ lit "X" in
  print_error (fmt "\ntamper detected: %v\n") (lift (Sealer.Open sealer tampered [])).

End EncryptField.

(** ** A text for another language *)

Module CrossLangGo.

Definition sharedKeyHex : bytes := lit "0123456789abcdef0123456789abcdef0123456789abcdef0123456789abcdef".

Definition main : program unit :=
  key ← must (lift (Hex.DecodeString sharedKeyHex));
  let plaintext := lit "Hello from Go! This message will decrypt in Node." in
  let aad := lit "crypt-demo-v1" in
  ct ← must (Seal key plaintext aad);
  _ ← print (fmt "=== Go encrypt ===\n") [];
  _ ← print (fmt "key (hex): %s\n") [VText sharedKeyHex];
  _ ← print (fmt "aad      : %s\n") [VText aad];
  _ ← print (fmt "plaintext: %s\n") [VText plaintext];
  _ ← print (fmt "ciphertext (paste into TS decrypt.ts):\n%s\n") [VText ct];
  pt ← must (lift (Open key ct aad));
  print (fmt "\nGo round-trip plaintext: %s\n") [VText pt].

End CrossLangGo.

(** ** A signed webhook *)

Module SignWebhookExample.

(** ' stands for the double quote. *)
Definition q (s : bytes) : bytes := map (fun b => if bool_decide (b = x27) then x22 else b) s.

Definition main : program unit :=
  let secret := lit "partner-webhook-secret" in
  let body := q (lit "{'event':'order.created','data':{'id':'ord_42','amount':99.50}}") in
  let mac := Sign secret body in
  let signature := Std.EncodeToString mac in
  _ ← print (fmt "--- outgoing request ---\n") [];
  _ ← print (fmt "X-Signature-Algorithm: hmac-sha256\n") [];
  _ ← print (fmt "X-Signature: %s\n") [VText signature];
  _ ← print (fmt "Body: %s\n\n") [VText body];
  let receivedBody := body in
  receivedSig ← ignore [] (lift (Std.DecodeString signature));
  _ ← (if Verify secret receivedBody receivedSig then print (fmt "verified — process event\n") []
       else print (fmt "rejected — return 401\n") []);
  b ← expr (index body 10);
  let tamperedBody := <[10%nat := bxor b x01]> body in
  _ ← (if negb (Verify secret tamperedBody receivedSig)
       then print (fmt "\ntampered body rejected — would return 401\n") [] else mret tt);
  if negb (Verify (lit "wrong-secret") receivedBody receivedSig)
  then print (fmt "wrong secret rejected — would return 401\n") [] else mret tt.

End SignWebhookExample.

(** ** Lemmas *)

(** *** The last character of a text *)

Lemma last_char_test :
  forallb (fun b =>
    match EncodeToString RawURLEncoding [b] with
    | [c1; c2] =>
        bool_decide (DecodeString RawURLEncoding [c1; x58] = Ok [to_byte (4 * (bval b / 4) + 1)]) &&
        Bool.eqb (bool_decide (c2 = x51)) (bool_decide (b = to_byte (4 * (bval b / 4) + 1)))
    | _ => false
    end) all_bytes = true.
Proof. vm_compute. reflexivity. Qed.

(** Replacing the last character of a text of [3k + 1] bytes by X sets the two low bits of the last
    byte to 01, which they are already exactly when the character was Q. *)
Lemma tamper_last head b :
  (length head mod 3 = 0)%nat ->
  exists front c b', EncodeToString RawURLEncoding (head ++ [b]) = front ++ [c] /\
    DecodeString RawURLEncoding (front ++ [x58]) = Ok (head ++ [b']) /\ (c = x51 <-> b' = b).
Proof.
  intros Hl. rewrite Encode_app3 by done. pose proof (byte_forall _ last_char_test b) as Ht. cbv beta in Ht.
  destruct (EncodeToString RawURLEncoding [b]) as [|c1 [|c2 [|]]]; try discriminate.
  apply andb_true_iff in Ht as [Hd%bool_decide_eq_true He%Bool.eqb_prop].
  exists (EncodeToString RawURLEncoding head ++ [c1]), c2, (to_byte (4 * (bval b / 4) + 1)).
  rewrite <- app_assoc. split; [done|]. split.
  - rewrite <- app_assoc. cbn [app]. rewrite Decode_app3 by (apply _ || done). by rewrite Hd.
  - repeat case_bool_decide; naive_solver.
Qed.

(** ** Properties *)

(** A sealed text of 49 bytes whose last character becomes an X: the X stands for the same byte as a Q. *)
Lemma last_char_X key p raw :
  length raw = 49%nat -> Open key (EncodeToString RawURLEncoding raw) [] = Ok p ->
  exists front ch, EncodeToString RawURLEncoding raw = front ++ [ch] /\
    (ch = x51 -> Open key (front ++ [x58]) [] = Ok p) /\
    (ch <> x51 -> fails_with (Open key (front ++ [x58]) []) ErrTampered = true).
Proof.
  intros Hraw Ho.
  assert (Hsplit : exists head b, raw = head ++ [b] /\ length head = 48%nat).
  { pose proof (take_drop 48 raw) as Htd. assert (Hld : length (drop 48 raw) = 1%nat) by (rewrite length_drop; lia).
    destruct (drop 48 raw) as [|b [|]]; try discriminate. exists (take 48 raw), b. split; [done|].
    rewrite length_take. lia. }
  destruct Hsplit as (head & b & -> & Hhead).
  destruct (tamper_last head b ltac:(by rewrite Hhead)) as (front & ch & b' & Hct & Hdec & Hq).
  assert (Hdecct : DecodeString RawURLEncoding (front ++ [ch]) = Ok (head ++ [b])) by (rewrite <- Hct; apply Decode_Encode, _).
  rewrite Hct in Ho. exists front, ch. split; [exact Hct|]. split.
  - intros Hch. rewrite <- Ho. apply Open_decoded. by rewrite Hdec, Hdecct, (proj1 Hq Hch).
  - intros Hch. apply (Open_rejects_other_tag key [] p (front ++ [ch]) _ (take 33 head) (drop 33 head ++ [b]) (drop 33 head ++ [b'])).
    + exact Ho.
    + rewrite Hdecct, app_assoc, take_drop. done.
    + rewrite Hdec, app_assoc, take_drop. done.
    + unfold len. rewrite length_take. lia.
    + unfold len. rewrite length_app, length_drop, Hhead. done.
    + unfold len. rewrite length_app, length_drop, Hhead. done.
    + intros [_ [= ->]]%app_inj_tail. by apply Hch, Hq.
Qed.

(** [examples/encrypt_field] and its demonstration of tampering. With 12 random bytes the program
    stores the sealed column and loads the plaintext back; then it replaces the last character of the
    text by X, which it expects to be detected. It is, with [ErrTampered], unless the last
    character was Q: the decoder ignores the spare bits of the last character, the text then
    still stands for the same bytes, and the program prints nothing. *)
Theorem encrypt_field_prints w :
  has_random 12 w ->
  exists ct w', after_random 12 w w' /\
    let shown := [Printf (fmt "stored row:\n  id=%s\n  client_secret=%s\n\n") [VText (lit "prtn_001"); VText ct];
                  Printf (fmt "loaded plaintext: %s\n") [VText (lit "sk_live_4242deadbeef")]] in
    if bool_decide (last ct = Some x51) then EncryptField.main w = (Done tt, shown, w')
    else exists e, errors_Is e ErrTampered = true /\
           EncryptField.main w = (Done tt, shown ++ [Printf (fmt "\ntamper detected: %v\n") [VErr e]], w').
Proof.
  intros Hw. unfold EncryptField.main. set (key := lit "01234567890123456789012345678901").
  set (p := lit "sk_live_4242deadbeef").
  destruct (proj2 (Sealer_equivalent key) eq_refl) as (sl & Hsl & Hseal & Hopen).
  rewrite (expr_Ok _ _ _ _ Hsl).
  destruct (Seal_run key p [] w eq_refl ltac:(vm_compute; congruence) Hw) as (c & body & w' & Hc & Ha & Hb & _ & Hs & _).
  pose proof (Seal_then_Open _ _ _ _ _ _ Hs) as Ho.
  set (raw := VersionAEADv1 :: next_random 12 w ++ body) in *.
  assert (Hraw : length raw = 49%nat).
  { pose proof (len_next_random 12 w ltac:(lia) Hw) as Hn. unfold raw, len in *. cbn [length]. rewrite length_app.
    change (length p) with 20%nat in Hb. lia. }
  destruct (last_char_X key p raw Hraw Ho) as (front & ch & Hct & Hsame & Hother).
  exists (front ++ [ch]), w'. split; [exact Ha|]. cbv zeta.
  rewrite Hct in Hs, Ho. rewrite (must_Ok _ _ _ (front ++ [ch]) w') by (by rewrite Hseal). cbn [EncryptField.ID EncryptField.ClientSecret].
  assert (Hfront : slice (front ++ [ch]) 0 (len (front ++ [ch]) - 1) = Ok front).
  { apply (slice_app [] front [ch]); [done|]. rewrite len_app. change (len [] : Z) with 0. change (len [ch]) with 1. lia. }
  rewrite print_bind. rewrite (must_Ok _ _ _ p w') by (unfold lift; by rewrite Hopen, Ho).
  rewrite print_bind, (expr_Ok _ _ _ _ Hfront). change (lit "X") with [x58].
  unfold print_error. rewrite Hopen. rewrite last_snoc. case_bool_decide as Hlast.
  - injection Hlast as Hch. by rewrite (call_Ok _ _ _ p w') by (unfold lift; by rewrite (Hsame Hch)).
  - specialize (Hother ltac:(intros Hch; by apply Hlast; f_equal)).
    destruct (Open key (front ++ [x58]) []) as [|e|] eqn:Hot; try discriminate. exists e. split; [exact Hother|].
    by rewrite (call_Err _ _ _ e w') by (unfold lift; done).
Qed.

Lemma encrypt_field_prints_witness : (EncryptField.main demo_world).1.1 = Done tt.
Proof.
  destruct (encrypt_field_prints demo_world) as (ct & w' & _ & H); [vm_compute; discriminate|].
  cbv zeta in H. destruct (bool_decide (last ct = Some x51)); [by rewrite H|]. destruct H as (e & _ & H). by rewrite H.
Defined.

(** *** [examples/sign_webhook] *)

(** The whole output of [examples/sign_webhook], which depends on nothing: the signature of the body,
    accepted, and the rejection of a changed body and of another secret. *)
Theorem sign_webhook_prints w :
  SignWebhookExample.main w = (Done tt, [
    Printf (fmt "--- outgoing request ---\n") [];
    Printf (fmt "X-Signature-Algorithm: hmac-sha256\n") [];
    Printf (fmt "X-Signature: %s\n") [VText (lit "YvVv/zYvo68DfG7S5M21BT/Gbg/ogA/2e+N8s0ypeUU=")];
    Printf (fmt "Body: %s\n\n") [VText (SignWebhookExample.q
      (lit "{'event':'order.created','data':{'id':'ord_42','amount':99.50}}"))];
    Printf (fmt "verified — process event\n") [];
    Printf (fmt "\ntampered body rejected — would return 401\n") [];
    Printf (fmt "wrong secret rejected — would return 401\n") []], w).
Proof. vm_compute. reflexivity. Qed.

(** *** [examples/keyring_rotation] *)

Section keyring.
Import KeyRing.

(** A text a ring seals under an id of two bytes or more is at least 32 characters long. *)
Lemma ring_text_front r p aad w s w' : 2 <= len (active r) -> ring_ok r -> Seal r p aad w = (Ok s, w') -> slice s 0 32 = Ok (take 32 s).
Proof.
  intros Hid Hr Hs. destruct (Seal_layout r p aad w s w' Hr Hs) as (c & n & body & _ & _ & Hk & Hn & Hb & _ & Hd).
  apply Decode_length in Hd. rewrite !len_cons, !len_app in Hd. by rewrite slice_Ok, drop_0 by lia.
Qed.

(** The calls on the ring, one after the other. *)
Lemma rotate_2025_2026 :
  exists r0 r1 r2 r3,
    NewKeyRing (lit "2025") (replicate 32 x01) = Ok r0 /\
    Add r0 (lit "2026") (replicate 32 x02) = (Ok tt, r1) /\
    SetActive r1 (lit "2026") = (Ok tt, r2) /\ Remove r2 (lit "2025") = (Ok tt, r3) /\
    ring_ok r0 /\ ring_ok r2 /\ active r0 = lit "2025" /\ active r2 = lit "2026" /\ active r3 = lit "2026" /\
    final r0 [OpAdd (lit "2026") (replicate 32 x02); OpSetActive (lit "2026")] = r2 /\
    keys r3 !! lit "2025" = None.
Proof.
  set (keyV1 := replicate 32 x01). set (keyV2 := replicate 32 x02).
  destruct (gcm_of_key_Ok keyV1 eq_refl) as (c1 & Hc1 & _).
  set (r0 := {| active := lit "2025"; keys := {[lit "2025" := c1]}; rawKeys := {[lit "2025" := keyV1]} |}).
  assert (H0 : NewKeyRing (lit "2025") keyV1 = Ok r0).
  { apply NewKeyRing_spec. split; [done|]. split; [done|]. eauto. }
  destruct (Add_cases r0 (lit "2026") keyV2) as [[e He]|(c2 & _ & _ & _ & _ & Hadd)].
  { pose proof (proj2 (Add_ok r0 (lit "2026") keyV2)) as Hadd. rewrite He in Hadd.
    discriminate Hadd. split; [done|]. split; [done|]. unfold r0. cbn [keys]. by rewrite lookup_singleton_ne. }
  set (r1 := {| active := active r0; keys := <[lit "2026" := c2]> (keys r0); rawKeys := <[lit "2026" := keyV2]> (rawKeys r0) |}) in *.
  set (r2 := {| active := lit "2026"; keys := keys r1; rawKeys := rawKeys r1 |}).
  assert (Hset : SetActive r1 (lit "2026") = (Ok tt, r2)).
  { unfold SetActive, r1 at 1. cbn [keys]. by rewrite lookup_insert_eq. }
  set (r3 := {| active := lit "2026"; keys := delete (lit "2025") (keys r2); rawKeys := delete (lit "2025") (rawKeys r2) |}).
  assert (Hrem : Remove r2 (lit "2025") = (Ok tt, r3)).
  { unfold Remove. rewrite bool_decide_eq_false_2 by done. unfold r2 at 1, r1 at 1. cbn [keys].
    rewrite lookup_insert_ne by done. unfold r0 at 1. cbn [keys]. by rewrite lookup_singleton_eq. }
  assert (Hfin : final r0 [OpAdd (lit "2026") keyV2; OpSetActive (lit "2026")] = r2).
  { unfold final. cbn [fold_left run_op]. rewrite Hadd. cbn [snd]. by rewrite Hset. }
  pose proof (new_ring_ok _ _ _ H0) as Hok0.
  exists r0, r1, r2, r3. do 5 (split; [done|]).
  split; [rewrite <- Hfin; eapply evolves_ok; [exact Hok0|apply evolves_fold]|].
  do 4 (split; [done|]). unfold r3. cbn [keys]. by rewrite lookup_delete_eq.
Qed.

(** [examples/keyring_rotation] from the first line to the last. With 24 random bytes, in any map
    order, it ends normally and prints exactly these six lines: the texts of both years, both read
    back after the rotation, the ring reduced to the new key, and [ErrTampered] for the text of
    the removed key. *)
Theorem keyring_rotation_prints order w :
  has_random 24 w ->
  exists old new2026 w', KeyringRotation.main order w = (Done tt, [
    Printf (fmt "2025 ciphertext active=%s: %s\n") [VText (lit "2025"); VText (take 32 old ++ lit "...")];
    Printf (fmt "2026 ciphertext active=%s: %s\n") [VText (lit "2026"); VText (take 32 new2026 ++ lit "...")];
    Printf (fmt "\nopened old: %s\n") [VText (lit "encrypted in 2025")];
    Printf (fmt "opened new: %s\n") [VText (lit "encrypted in 2026")];
    Printf (fmt "\nremoved 2025 — now ring has only %s\n") [VText (lit "2026")];
    Printf (fmt "opening orphaned 2025 ct: %v\n") [VErr (Wrapf "%w: no key for kid %q in ring" ErrTampered)]], w').
Proof.
  intros Hw. unfold KeyringRotation.main.
  destruct rotate_2025_2026 as (r0 & r1 & r2 & r3 & H0 & Hadd & Hset & Hrem & Hok0 & Hok2 & Ha0 & Ha2 & Ha3 & Hfin & Hgone).
  unfold ActiveKid. rewrite (expr_Ok _ _ _ _ H0).
  destruct (ring_Seal_run r0 (lit "encrypted in 2025") [] w Hok0) as (old & w1 & Hold & Ha1);
    [vm_compute; congruence|by eapply has_random_le; [|exact Hw]|].
  destruct (ring_Seal_run r2 (lit "encrypted in 2026") [] w1 Hok2) as (new2026 & w2 & Hnew & _);
    [vm_compute; congruence|by eapply (has_random_after 12 12); [..|exact Ha1|exact Hw]|].
  assert (Hf0 : slice old 0 32 = Ok (take 32 old)) by (eapply (ring_text_front r0); [rewrite Ha0; vm_compute; discriminate|exact Hok0|exact Hold]).
  assert (Hf2 : slice new2026 0 32 = Ok (take 32 new2026)) by (eapply (ring_text_front r2); [rewrite Ha2; vm_compute; discriminate|exact Hok2|exact Hnew]).
  assert (Hopen_old : Open r2 (order r2) old [] = Ok (lit "encrypted in 2025")).
  { rewrite <- Hfin at 1. eapply sealed_stays; [exact Hok0|exact Hold|].
    rewrite !not_elem_of_cons. repeat split; by try apply not_elem_of_nil. }
  assert (Hopen_new : Open r2 (order r2) new2026 [] = Ok (lit "encrypted in 2026")).
  { apply (sealed_stays r2 _ _ _ _ _ [] _ Hok2 Hnew). apply not_elem_of_nil. }
  assert (Hdead : Open r3 (order r3) old [] = Err (Wrapf "%w: no key for kid %q in ring" ErrTampered)).
  { destruct (Seal_layout r0 _ _ _ _ _ Hok0 Hold) as (c & n & body & _ & _ & Hk & Hn & Hb & _ & Hd).
    rewrite (Open_v3 _ _ _ _ _ _ _ Hd) by done. by rewrite Ha0, Hgone. }
  exists old, new2026, w2.
  rewrite (ignore_Ok _ _ _ _ _ _ Hold), (expr_Ok _ _ _ _ Hf0), print_bind.
  rewrite Hadd. cbv beta iota. rewrite (expr_Ok _ _ _ tt eq_refl).
  rewrite Hset. cbv beta iota. rewrite (expr_Ok _ _ _ tt eq_refl).
  rewrite (ignore_Ok _ _ _ _ _ _ Hnew), (expr_Ok _ _ _ _ Hf2), print_bind.
  rewrite (ignore_Ok _ _ _ _ (lit "encrypted in 2025") w2) by (unfold lift; by rewrite Hopen_old). rewrite print_bind.
  rewrite (ignore_Ok _ _ _ _ (lit "encrypted in 2026") w2) by (unfold lift; by rewrite Hopen_new). rewrite print_bind.
  rewrite Hrem. cbv beta iota. rewrite (expr_Ok _ _ _ tt eq_refl), print_bind.
  unfold print_error. rewrite (call_Err _ _ _ _ w2 (eq_trans (f_equal (fun o => (o, w2)) Hdead) eq_refl)).
  by rewrite Ha0, Ha2, Ha3.
Qed.
End keyring.

Lemma keyring_rotation_prints_witness :
  length (KeyringRotation.main (fun _ => []) demo_world).1.2 = 6%nat.
Proof.
  destruct (keyring_rotation_prints (fun _ => []) demo_world) as (old & new & w' & ->); [vm_compute; discriminate|].
  reflexivity.
Defined.

(** *** [examples/streaming_file] *)

Lemma len_repeat (n : nat) (b : bytes) : len (mjoin (replicate n b)) = Z.of_nat n * len b.
Proof.
  induction n as [|n IH]; [done|]. change (mjoin (replicate (S n) b)) with (b ++ mjoin (replicate n b)).
  rewrite len_app, IH. lia.
Qed.

(** [examples/streaming_file] from the first line to the last. With 40 random bytes and files that
    deliver what was written to them, in pieces of any size, the program ends normally and prints
    exactly three lines: 1100000 bytes become 1100353, which decrypt to the original. Its fourth
    line, "truncation detected", never comes: the hundred bytes it drops lie inside the last
    chunk, and that cut is [ErrInvalidCiphertext], not the [ErrTruncated] it asks for. *)
Theorem streaming_file_prints reads w :
  (forall b, rd_bytes (reads b) = b /\ rd_err (reads b) = EOF) -> has_random 40 w ->
  exists w', StreamingFile.main reads w = (Done tt, [
    Printf (fmt "plaintext: %d bytes\n") [VInt 1100000];
    Printf (fmt "ciphertext: %d bytes (%.1fx larger due to per-chunk tags)\n") [VInt 1100353; VRatio 1100353 1100000];
    Printf (fmt "decrypted: %d bytes (matches original)\n") [VInt 1100000]], w').
Proof.
  intros Hreads Hw. unfold StreamingFile.main.
  destruct (ReadRand_Ok 32 w) as (w1 & Hkey & Ha1); [done|by eapply has_random_le; [|exact Hw]|].
  rewrite (ignore_Ok _ _ _ _ _ _ Hkey).
  pose proof (len_next_random 32 w ltac:(done) ltac:(by eapply has_random_le; [|exact Hw])) as Hk.
  set (key := next_random 32 w) in *.
  pose proof (len_repeat (Z.to_nat 25000) (fmt "the quick brown fox jumps over the lazy dog\n")) as Hlen.
  set (plaintext := mjoin (replicate (Z.to_nat 25000) _)) in *. clearbody plaintext.
  rewrite Z2Nat.id in Hlen by done. change (len plaintext = 1100000) in Hlen. rewrite Hlen, print_bind.
  destruct (Hreads plaintext) as [Hb He].
  destruct (sealed_opens key (reads plaintext) DefaultStreamChunkSize w1 Hk) as (out & w2 & Hseal & _ & Hout & Hopen);
    [done|by eapply (has_random_after 32 8); [..|exact Ha1|exact Hw]|done|].
  rewrite Hb, Hlen in Hout. change (len out = 1100353) in Hout. exists w2.
  rewrite (must_Ok _ _ _ out w2) by (by rewrite Hseal). rewrite Hout, print_bind.
  destruct (Hreads out) as [Hbo Heo]. destruct (Hopen (reads out) [] ltac:(by rewrite Hbo, app_nil_r)) as (r2 & Hrun & _).
  rewrite Hb in Hrun. rewrite Hrun. cbv beta iota. rewrite (expr_Ok _ _ _ tt eq_refl).
  cbn [wr_out buffer]. rewrite bool_decide_eq_true_2 by done. rewrite ret_bind, Hlen, print_bind.
  set (cut := take (Z.to_nat (1100353 - 100)) out).
  assert (Hcut : slice out 0 (1100353 - 100) = Ok cut) by (rewrite slice_Ok, drop_0 by lia; by rewrite Z.sub_0_r).
  rewrite (expr_Ok _ _ _ _ Hcut).
  destruct (cut_last_chunk key (reads plaintext) DefaultStreamChunkSize w1 out w2 100
    {| rd_data := [cut]; rd_err := EOF |} Hk) as [Hinv Htr]; [done|by eapply (has_random_after 32 8); [..|exact Ha1|exact Hw]|done|done| | |done|].
  { rewrite Hb, Hlen. split; [done|]. vm_compute. discriminate. }
  { unfold rd_bytes. cbn [rd_data mjoin list_join]. rewrite Hout. apply app_nil_r. }
  destruct (OpenStream key {| rd_data := [cut]; rd_err := EOF |} (buffer [])) as [[u|e|m] rest]; try discriminate.
  cbn [fst fails_with] in Htr. by rewrite Htr.
Qed.

Lemma streaming_file_prints_witness :
  let w := {| w_rand := {| rd_data := [replicate 40 x5a]; rd_err := EOF |}; w_now := 0 |} in
  exists w', StreamingFile.main (fun b => {| rd_data := [b]; rd_err := EOF |}) w = (Done tt, [
    Printf (fmt "plaintext: %d bytes\n") [VInt 1100000];
    Printf (fmt "ciphertext: %d bytes (%.1fx larger due to per-chunk tags)\n") [VInt 1100353; VRatio 1100353 1100000];
    Printf (fmt "decrypted: %d bytes (matches original)\n") [VInt 1100000]], w').
Proof.
  intros w. apply (streaming_file_prints (fun b => {| rd_data := [b]; rd_err := EOF |}) w).
  - intros b. split; [apply app_nil_r|done].
  - unfold has_random. vm_compute. discriminate.
Defined.

(** *** [examples/envelope_encryption] *)

Section envelope.
Import Kms.

(** One round trip of the sealer with [StaticKMS]. *)
Lemma static_Seal_run s id key p aad w :
  keks s !! id = Some key -> len key = 32 -> len p <= 2 ^ 31 -> has_random 56 w ->
  exists text w', Seal (NewEnvelopeSealer (static s) id) p aad w = (Ok text, w') /\ after_random 56 w w' /\
    slice text 0 48 = Ok (take 48 text) /\
    forall w2, Open (NewEnvelopeSealer (static s) id) text aad w2 = (Ok p, w2).
Proof.
  intros Hid Hk Hp Hw.
  destruct (RandomBytes_run 32 w) as (w1 & Hdek & Ha1); [done|by eapply has_random_le; [|exact Hw]|].
  pose proof (len_next_random 32 w ltac:(done) ltac:(by eapply has_random_le; [|exact Hw])) as Hl.
  set (dek := next_random 32 w) in *.
  assert (Hw1 : has_random 24 w1) by (by eapply (has_random_after 32 24); [..|exact Ha1|exact Hw]).
  destruct (Aead.Seal_run key dek [] w1 Hk) as (c & b & w2 & _ & Ha2 & Hb & _ & Hwrap & _);
    [rewrite Hl; vm_compute; congruence|by eapply has_random_le; [|exact Hw1]|].
  assert (Hw2 : has_random 12 w2) by (by eapply (has_random_after 12 12); [..|exact Ha2|exact Hw1]).
  destruct (Aead.Seal_run dek p aad w2 Hl) as (c' & b' & w3 & _ & Ha3 & Hb' & _ & Hinner & _);
    [unfold gcm_max; lia|done|].
  pose proof (Seal_then_Open _ _ _ _ _ _ Hwrap) as Hunwrap. pose proof (Seal_then_Open _ _ _ _ _ _ Hinner) as Hopen.
  set (raw1 := VersionAEADv1 :: next_random 12 w1 ++ b) in *. set (raw2 := VersionAEADv1 :: next_random 12 w2 ++ b') in *.
  set (wrapped := EncodeToString RawURLEncoding raw1) in *.
  assert (Hn1 : len raw1 = 61).
  { unfold raw1. rewrite len_cons, len_app, len_next_random, Hb, Hl by (done || by eapply has_random_le; [|exact Hw1]). done. }
  assert (Hn2 : len raw2 = 29 + len p).
  { unfold raw2. rewrite len_cons, len_app, len_next_random, Hb' by done. lia. }
  assert (Hwl : len wrapped = 82) by (unfold wrapped; by rewrite len_Encode, Hn1).
  pose proof (len_nonneg p).
  exists (EncodeToString RawURLEncoding (envelope wrapped raw2)), w3. split; [|split; [|split]].
  - unfold Seal, result. rewrite seal_dek_run. cbn [kms keyID NewEnvelopeSealer static GenerateDataKey].
    unfold static_GenerateDataKey. rewrite (M_lift_bind _ key) by (unfold lookup; by rewrite Hid).
    rewrite (M_bind_Ok _ _ _ _ _ Hdek), (M_bind_Ok _ _ _ _ _ Hwrap). cbv beta iota.
    unfold mret, M_ret. rewrite seal_under_run, Hinner. by rewrite Decode_Encode by apply _.
  - change 56 with (32 + (12 + 12)). eapply after_random_trans; [done..| |eapply after_random_trans]; done.
  - apply slice_Ok; [lia|]. rewrite len_Encode, len_envelope, Hwl, Hn2. Z.to_euclidean_division_equations; lia.
  - intros w4. rewrite Open_run.
    assert (Hparse : parse_envelope (EncodeToString RawURLEncoding (envelope wrapped raw2)) = Ok (wrapped, raw2)).
    { apply parse_envelope_Ok. rewrite Decode_Encode by apply _. split; [done|]. lia. }
    rewrite Hparse. cbn [kms keyID NewEnvelopeSealer static Decrypt]. unfold static_Decrypt.
    rewrite (M_lift_bind _ key) by (unfold lookup; by rewrite Hid). unfold lift. by rewrite Hunwrap, Hopen.
Qed.

(** [examples/envelope_encryption] from the first line to the last. With 168 random bytes it ends
    normally; every one of its three seals takes 56 of them (a data key, its wrapping and the inner
    nonce), the ciphertext is at least 48 characters long, opens to the plaintext, and the
    comparison of the last two is printed as it falls. *)
Theorem envelope_encryption_prints w :
  has_random 168 w ->
  exists (ct a b : bytes) w', after_random 168 w w' /\ EnvelopeEncryption.main w = (Done tt, [
    Printf (fmt "envelope ciphertext: %s...\n") [VText (take 48 ct)];
    Printf (fmt "decrypted: %s\n") [VText (lit "PCI-regulated card metadata")];
    Printf (fmt "\ntwo seals of same plaintext are distinct: %v\n") [VBool (negb (bool_decide (a = b)))];
    Printf (fmt "\nthe interface is what crypt provides; KMS-specific\nadapter packages plug in by implementing crypt.KMS.\n") []], w').
Proof.
  intros Hw. unfold EnvelopeEncryption.main. set (kek := replicate 32 xa1). set (p := lit "PCI-regulated card metadata").
  set (s := {| keks := <[lit "kek-prod-2026" := kek]> (keks NewStaticKMS) |}).
  assert (Hadd : AddKey NewStaticKMS (lit "kek-prod-2026") kek = (Ok tt, s)) by reflexivity.
  rewrite Hadd. cbv beta iota. rewrite (expr_Ok _ _ _ tt eq_refl).
  assert (Hid : keks s !! lit "kek-prod-2026" = Some kek) by (unfold s; cbn [keks]; by rewrite lookup_insert_eq).
  destruct (static_Seal_run s _ kek p (lit "table:transactions") w Hid) as (ct & w1 & Hct & Ha1 & Hhead & Hopen);
    [done|vm_compute; congruence|by eapply has_random_le; [|exact Hw]|].
  assert (Hw1 : has_random 112 w1) by (by eapply (has_random_after 56 112); [..|exact Ha1|exact Hw]).
  destruct (static_Seal_run s _ kek p [] w1 Hid) as (a & w2 & Hsa & Ha2 & _);
    [done|vm_compute; congruence|by eapply has_random_le; [|exact Hw1]|].
  destruct (static_Seal_run s _ kek p [] w2 Hid) as (b & w3 & Hsb & Ha3 & _);
    [done|vm_compute; congruence|by eapply (has_random_after 56 56); [..|exact Ha2|exact Hw1]|].
  exists ct, a, b, w3. split.
  { change 168 with (56 + (56 + 56)). eapply after_random_trans; [done..| |eapply after_random_trans]; done. }
  rewrite (must_Ok _ _ _ _ _ Hct), (expr_Ok _ _ _ _ Hhead), print_bind, (must_Ok _ _ _ _ _ (Hopen w1)), print_bind.
  by rewrite (ignore_Ok _ _ _ _ _ _ Hsa), (ignore_Ok _ _ _ _ _ _ Hsb), print_bind.
Qed.
End envelope.

Lemma envelope_encryption_prints_witness :
  (EnvelopeEncryption.main {| w_rand := {| rd_data := [replicate 168 x5a]; rd_err := EOF |}; w_now := 0 |}).1.1 = Done tt.
Proof.
  destruct (envelope_encryption_prints {| w_rand := {| rd_data := [replicate 168 x5a]; rd_err := EOF |}; w_now := 0 |})
    as (ct & a & b & w' & _ & ->); [vm_compute; discriminate|reflexivity].
Defined.

(** *** [examples/asymmetric_encrypt] *)

Section asymmetric.
Context (X25519 : bytes -> bytes -> outcome bytes) (Basepoint : bytes) (New : bytes -> outcome AEAD).
Context (NewKey : bytes -> bytes) (sign : bytes -> bytes -> outcome bytes) (verify : bytes -> bytes -> bytes -> outcome bool).
Context `{!X25519Ok X25519 Basepoint} `{!ChaChaOk New} `{!Ed25519Ok NewKey sign verify}.

(** With 76 random bytes the recipient of a signed message gets the message and its sender. *)
Lemma signed_message_run p pub priv w0 w1 w :
  GenerateKeyPair X25519 Basepoint w0 = (Ok (pub, priv), w1) -> len p <= 2 ^ 20 -> has_random 76 w ->
  exists w', after_random 76 w w' /\
    AsymmetricEncrypt.signed_message X25519 Basepoint New NewKey sign verify pub priv p w = (Done tt, [
      Printf (fmt "\nsigned + encrypted message:\n  authenticated sender: %v\n  message: %s\n") [VBool true; VText p]], w').
Proof.
  intros Hg Hp Hw.
  destruct (GenerateEd25519_run NewKey sign verify w p) as (spub & spriv & w2 & Hed & Ha2 & _ & _ & sig & Hsig & Hls & Hver);
    [by eapply has_random_le; [|exact Hw]|]. change Ed25519SignatureSize with 64 in Hls.
  assert (Hw2 : has_random 44 w2) by (by apply (has_random_after 32 44 w)).
  destruct (sealed_box_opens X25519 Basepoint New w0 pub priv w1 (sig ++ p) w2 Hg) as (ct & w3 & Hct & Ha3 & Hopen);
    [rewrite len_app, Hls; unfold chacha_max; lia|done|].
  exists w3. split; [by apply (after_random_trans 32 44 w w2)|]. unfold AsymmetricEncrypt.signed_message.
  rewrite (ignore_Ok _ _ _ _ _ _ Hed). cbv beta iota.
  rewrite (ignore_Ok _ _ _ _ sig w2) by (unfold lift; by rewrite Hsig). cbv zeta.
  rewrite (ignore_Ok _ _ _ _ _ _ Hct), (ignore_Ok _ _ _ _ (sig ++ p) w3) by (unfold lift; by rewrite Hopen).
  rewrite (expr_Ok _ _ _ sig) by (apply (slice_app [] sig p); by rewrite ?Hls).
  rewrite (expr_Ok _ _ _ p) by (apply slice_from_app; by rewrite Hls).
  by rewrite (ignore_Ok _ _ _ _ true w3) by (unfold lift; by rewrite Hver).
Qed.

(** A text of a short plaintext is short. *)
Lemma sealed_text_short pub p w ct w' :
  SealAsymmetric X25519 Basepoint New pub p w = (Ok ct, w') -> len ct <= 4 * (len p + 61).
Proof.
  intros Hct. pose proof (len_nonneg p). apply SealAsymmetric_inv in Hct as (A & a & sh & c & n & body & _ & HA & _ & _ & Hn & _ & _ & _ & Hl & ->); [|done..].
  destruct (x_len _ _ _ HA) as (_ & _ & HlA). unfold sealed_box. rewrite len_Encode, len_cons, !len_app, HlA, Hn, Hl.
  Z.to_euclidean_division_equations. lia.
Qed.
End asymmetric.

(** [examples/asymmetric_encrypt], the composition of sealed boxes and signatures. With 184 random
    bytes it ends normally: the recipient reads the message, and the message that was signed, then
    sealed, comes out of the box with a signature that verifies under the sender's key. The line
    about the wrong recipient appears exactly when that attempt is [ErrTampered]. *)
Theorem asymmetric_encrypt_prints X25519 Basepoint New NewKey sign verify
    `{!X25519Ok X25519 Basepoint} `{!ChaChaOk New} `{!Ed25519Ok NewKey sign verify} w :
  has_random 184 w ->
  exists pub priv other ct w', after_random 184 w w' /\
    OpenAsymmetric X25519 New priv ct = Ok (lit "only the recipient can read this") /\
    AsymmetricEncrypt.main X25519 Basepoint New NewKey sign verify w = (Done tt, [
      Printf (fmt "recipient public key (publish):  %s\n") [VText (Std.EncodeToString pub)];
      Printf (fmt "recipient private key (keep):    %s\n\n") [VText (take 24 (Std.EncodeToString priv) ++ lit "...")];
      Printf (fmt "ciphertext (anyone can produce, only recipient can open):\n  %s\n\n") [VText ct];
      Printf (fmt "decrypted by recipient: %s\n") [VText (lit "only the recipient can read this")]] ++
      match OpenAsymmetric X25519 New other ct with
      | Err e => if errors_Is e ErrTampered
                 then [Printf (fmt "\nwrong recipient: %v (correctly rejected)\n") [VErr e]] else []
      | _ => []
      end ++
      [Printf (fmt "\nsigned + encrypted message:\n  authenticated sender: %v\n  message: %s\n")
         [VBool true; VText (lit "only the recipient can read this")]], w').
Proof.
  intros Hw. unfold AsymmetricEncrypt.main. set (p := lit "only the recipient can read this").
  destruct (GenerateKeyPair_run X25519 Basepoint w) as (pub & w1 & Hg & HB & Ha1); [by eapply has_random_le; [|exact Hw]|].
  set (priv := next_random 32 w) in *.
  assert (Hw1 : has_random 152 w1) by (by eapply (has_random_after 32 152); [..|exact Ha1|exact Hw]).
  destruct (sealed_box_opens X25519 Basepoint New w pub priv w1 p w1 Hg) as (ct & w2 & Hct & Ha2 & Hopen);
    [vm_compute; congruence|by eapply has_random_le; [|exact Hw1]|].
  assert (Hw2 : has_random 108 w2) by (by eapply (has_random_after 44 108); [..|exact Ha2|exact Hw1]).
  destruct (GenerateKeyPair_run X25519 Basepoint w2) as (opub & w3 & Hg2 & _ & Ha3); [by eapply has_random_le; [|exact Hw2]|].
  set (other := next_random 32 w2) in *.
  destruct (signed_message_run X25519 Basepoint New NewKey sign verify p pub priv w w1 w3 Hg) as (w4 & Ha4 & Hlast);
    [by vm_compute|by eapply (has_random_after 32 76); [..|exact Ha3|exact Hw2]|].
  exists pub, priv, other, ct, w4. split; [|split; [exact Hopen|]].
  { apply (after_random_trans 32 152 w w1), (after_random_trans 44 108 w1 w2), (after_random_trans 32 76 w2 w3); done. }
  assert (Hsafe : panics (OpenAsymmetric X25519 New other ct) = false).
  { apply (OpenAsymmetric_no_panic X25519 Basepoint New). apply sealed_text_short in Hct; [|done..].
    change (len p) with 32 in Hct. unfold chacha_max. lia. }
  rewrite (must_Ok _ _ _ _ _ Hg). cbv beta iota.
  rewrite print_bind, (expr_Ok _ _ _ (take 24 (Std.EncodeToString priv))), print_bind.
  2: { apply Std.front. by destruct (GenerateKeyPair_inv X25519 Basepoint _ _ _ _ Hg) as [-> _]. }
  rewrite (must_Ok _ _ _ _ _ Hct), print_bind, (must_Ok _ _ _ p w2) by (unfold lift; by rewrite Hopen).
  rewrite print_bind, (ignore_Ok _ _ _ _ _ _ Hg2). cbv beta iota.
  destruct (OpenAsymmetric X25519 New other ct) as [q|e|m] eqn:Hother; [..|done].
  - rewrite (call_Ok _ _ _ q w3) by done. by rewrite ret_bind, Hlast.
  - rewrite (call_Err _ _ _ e w3) by done.
    destruct (errors_Is e ErrTampered); [by rewrite print_bind, Hlast|by rewrite ret_bind, Hlast].
Qed.

Lemma asymmetric_encrypt_prints_witness :
  (AsymmetricEncrypt.main xor_X25519 xor_base mac_New toy_key toy_sign toy_verify
    {| w_rand := {| rd_data := [replicate 184 x5a]; rd_err := EOF |}; w_now := 0 |}).1.1 = Done tt.
Proof.
  destruct (asymmetric_encrypt_prints xor_X25519 xor_base mac_New toy_key toy_sign toy_verify
    {| w_rand := {| rd_data := [replicate 184 x5a]; rd_err := EOF |}; w_now := 0 |})
    as (pub & priv & other & ct & w' & _ & _ & ->); [vm_compute; discriminate|reflexivity].
Defined.

(** *** [examples/cross_lang_go] *)

(** With 12 random bytes the program prints the text for the other language and reads it back. *)
Theorem cross_lang_prints w :
  has_random 12 w ->
  exists ct w', after_random 12 w w' /\ CrossLangGo.main w = (Done tt, [
    Printf (fmt "=== Go encrypt ===\n") [];
    Printf (fmt "key (hex): %s\n") [VText CrossLangGo.sharedKeyHex];
    Printf (fmt "aad      : %s\n") [VText (lit "crypt-demo-v1")];
    Printf (fmt "plaintext: %s\n") [VText (lit "Hello from Go! This message will decrypt in Node.")];
    Printf (fmt "ciphertext (paste into TS decrypt.ts):\n%s\n") [VText ct];
    Printf (fmt "\nGo round-trip plaintext: %s\n") [VText (lit "Hello from Go! This message will decrypt in Node.")]], w').
Proof.
  intros Hw. unfold CrossLangGo.main.
  destruct (Hex.DecodeString CrossLangGo.sharedKeyHex) as [key| |] eqn:Hkey; [|vm_compute in Hkey; discriminate..].
  assert (Hk : len key = 32) by (vm_compute in Hkey; injection Hkey as <-; reflexivity).
  set (p := lit "Hello from Go! This message will decrypt in Node.").
  destruct (Aead.Seal_run key p (lit "crypt-demo-v1") w Hk) as (c & b & w' & _ & Ha & _ & _ & Hs & _);
    [vm_compute; congruence|done|].
  pose proof (Seal_then_Open _ _ _ _ _ _ Hs) as Ho. eexists _, w'. split; [exact Ha|].
  rewrite (must_Ok _ _ _ key w) by done. rewrite (must_Ok _ _ _ _ _ Hs). rewrite !print_bind.
  by rewrite (must_Ok _ _ _ p w') by (unfold lift; by rewrite Ho).
Qed.

Lemma cross_lang_prints_witness : (CrossLangGo.main demo_world).1.1 = Done tt.
Proof. destruct (cross_lang_prints demo_world) as (ct & w' & _ & ->); [vm_compute; discriminate|reflexivity]. Defined.
