(* ===== verification/TokenPrograms.v ===== *)
(** * Example programs on sealed payloads: what their [main] functions print

    [examples/session_token], [examples/magic_link], [examples/csrf_token], [examples/time_locked_token],
    [examples/seal_with_aad] and [examples/encrypted_file], from the first line to the last. Time passes
    between the calls: [elapsed i] is how much before the i-th check. What these programs
    show of additional data is decided for their key and lengths by [Binding]. *)

From Stdlib Require Import Strings.String.
From S2P Require Import Prelude Errors Binary Base64 GoIO Console Cipher Ghash Format Aead Binding GoText Utf8 Json.
From S2P Require Import Codec TimeLock Sessions Services.

(** The key of these programs. *)
Definition appKey : bytes := lit "01234567890123456789012345678901".

(** ** Sessions *)

Module SessionMain.
Import SessionToken.

Definition main (elapsed : nat -> Z) : program unit :=
  sealer ← expr (Sealer.NewSealer appKey);
  tok ← must (IssueSession sealer (lit "usr_42") [lit "read"; lit "write"]);
  _ ← print (fmt "session token (%d chars):\n  %s\n\n") [VInt (len tok); VText tok];
  _ ← pass (elapsed 0%nat);
  s ← must (OpenSession sealer tok);
  _ ← print (fmt "opened session: user=%s scopes=%v expires=%v\n")
        [VText (UserID s); VTexts (Scopes s); VTime (ExpiresAt s)];
  front ← expr (slice tok 0 (len tok - 3));
  let bad := front ++ lit "XYZ" in
  _ ← pass (elapsed 1%nat);
  print_error (fmt "tampered: %v\n") (OpenSession sealer bad).

End SessionMain.

(** ** Links *)

Module LinkMain.
Import MagicLink.

Definition main (elapsed : nat -> Z) : program unit :=
  let key := appKey in
  sealer ← expr (Sealer.NewSealer key);
  token ← must (issueLink sealer (lit "usr_42") purposePasswordReset resetTokenTTL);
  let url := lit "https://app.example.com/reset?t=" ++ token in
  _ ← print (fmt "emailed link:\n  %s\n\n") [VText url];
  _ ← pass (elapsed 0%nat);
  uid ← must (verifyLink sealer token purposePasswordReset);
  _ ← print (fmt "link valid for user: %s\n") [VText uid];
  _ ← pass (elapsed 1%nat);
  _ ← print_error (fmt "cross-purpose replay: %v\n") (verifyLink sealer token purposeEmailVerify);
  expired ← ignore [] (issueLink sealer (lit "usr_99") purposePasswordReset (- Hour));
  _ ← pass (elapsed 2%nat);
  print_error (fmt "expired token: %v\n") (verifyLink sealer expired purposePasswordReset).

End LinkMain.

(** ** Form tokens *)

Module CsrfMain.
Import CsrfToken.

(** [if err := f(); err != nil { print err } else { print ok }] *)
Definition main (elapsed : nat -> Z) : program unit :=
  sealer ← deref (Sealer.NewSealer appKey);
  let sessionID := lit "sess_abc123" in
  tok ← must (IssueCSRF sealer sessionID);
  _ ← print (fmt "CSRF token: %s\n\n") [VText tok];
  _ ← pass (elapsed 0%nat);
  r ← call (VerifyCSRF sealer tok sessionID);
  _ ← match r with
      | inr err => print (fmt "genuine submit: %v\n") [VErr err]
      | inl _ => print (fmt "genuine submit: ok\n") []
      end;
  _ ← pass (elapsed 1%nat);
  _ ← print_error (fmt "foreign session: %v\n") (VerifyCSRF sealer tok (lit "sess_attacker"));
  front ← expr (slice tok 0 (len tok - 2));
  _ ← pass (elapsed 2%nat);
  print_error (fmt "tampered token: %v\n") (VerifyCSRF sealer (front ++ lit "XX") sessionID).

End CsrfMain.

(** ** Expiring tokens *)

Module TimeLockedMain.
Import TimeLockedToken.

Definition purposePasswordReset : bytes := lit "pwreset-v1".
Definition purposeEmailVerify : bytes := lit "email-verify-v1".
Definition resetTokenTTL : Z := Hour.

Definition main (elapsed : nat -> Z) : program unit :=
  let key := appKey in
  tok ← must (IssueToken key (lit "user_id=usr_42") resetTokenTTL purposePasswordReset);
  let url := lit "https://app.example.com/reset?t=" ++ tok in
  _ ← print (fmt "emailed link:\n  %s\n\n") [VText url];
  _ ← pass (elapsed 0%nat);
  payload ← must (VerifyToken key tok purposePasswordReset);
  _ ← print (fmt "token valid, payload: %s\n") [VText payload];
  _ ← pass (elapsed 1%nat);
  _ ← print_error (fmt "\ncross-purpose replay: %v (rejected)\n") (VerifyToken key tok purposeEmailVerify);
  field ← must (packExpiryBytes (- Hour));
  let expiredPayload := field ++ lit "stale" in
  expired ← ignore [] (Seal key expiredPayload purposePasswordReset);
  _ ← pass (elapsed 2%nat);
  r ← call (VerifyToken key expired purposePasswordReset);
  match r with
  | inr err => if errors_Is err ErrExpired then print (fmt "\nexpired token: %v (rejected)\n") [VErr err] else mret tt
  | inl _ => mret tt
  end.

End TimeLockedMain.

(** ** Tokens bound to a user *)

Module SealWithAADMain.
Import SealWithAAD.

(** ' stands for the double quote. *)
Definition main : program unit :=
  let serverKey := appKey in
  r ← call (issueSession serverKey (lit "alice") (lit_q "{'role':'admin'}"));
  token ← match r with inl t => mret t | inr _ => fun w => (Crash "err", [], w) end;
  _ ← print (fmt "token issued for alice: %s\n\n") [VText token];
  r ← call (lift (openSession serverKey (lit "alice") token));
  _ ← print (fmt "open as alice: pt=%q err=%v\n")
        (match r with inl pt => [VText pt; VNil] | inr err => [VText []; VErr err] end);
  r ← call (lift (openSession serverKey (lit "bob") token));
  let err := match r with inl _ => VNil | inr err => VErr err end in
  _ ← print (fmt "open as bob:   err=%v\n") [err];
  print (fmt "is tampered:   %v\n") [VBool (match r with inl _ => false | inr err => errors_Is err ErrTampered end)].

End SealWithAADMain.

(** ** Sealed files *)

Module EncryptedFileMain.
Import EncryptedFile.

(** The directory is made and removed outside the model; [d] is the disk without the file. *)
Definition main (tmp : bytes) (d : disk) : program unit :=
  sealer ← deref (Sealer.NewSealer appKey);
  let plain := lit "This is the contents of a sensitive document." ++ [x0a] ++
               lit "Anyone with the encryption key can decrypt; everyone else sees ciphertext." in
  let encPath := tmp ++ lit "/report.enc" in
  let aad := lit "file:report-2026-05" in
  d ← (fun w => let '(o, d', w') := writeEncrypted sealer encPath plain aad d w in
                match o with
                | Ok _ => (Done d', [], w')
                | Err e => (Fatal e, [], w')
                | Panic p => (Crash p, [], w')
                end);
  info ← deref (ReadFile encPath d);
  _ ← print (fmt "wrote %s (%d bytes ciphertext, %d bytes plaintext)\n")
        [VText encPath; VInt (len info); VInt (len plain)];
  got ← must (lift (readEncrypted sealer encPath aad d));
  _ ← print (fmt "\ndecrypted contents:\n%s\n") [VText got];
  print_error (fmt "\nAAD mismatch: %v\n") (lift (readEncrypted sealer encPath (lit "file:wrong-name") d)).

End EncryptedFileMain.

(** ** Lemmas *)

Lemma appKey_sealer : exists sl, Sealer.NewSealer appKey = Ok sl.
Proof. destruct (proj2 (Sealer_equivalent appKey) eq_refl) as (sl & Hsl & _). by exists sl. Qed.

(** A sealed text is the encoding of 29 bytes more than its plaintext. *)
Lemma sealed_text key p aad w tok w' :
  Seal key p aad w = (Ok tok, w') -> exists raw, tok = EncodeToString RawURLEncoding raw /\ len raw = 29 + len p.
Proof.
  intros (_ & c & n & body & Hc & Hn & Hp & _ & Hs & ->)%sealWithNonce_inv. eexists. split; [reflexivity|].
  pose proof (gcm_of_key_ok _ _ Hc) as Hok. destruct (seal_open n p aad Hn Hp) as (body' & Hl & Hs' & _).
  specialize (Hs []). rewrite Hs' in Hs. injection Hs as <-. rewrite len_cons, len_app, Hn, Hl. lia.
Qed.

(** The last characters of a text replaced. *)
Definition replace_tail (tok tail : bytes) : bytes := take (length tok - length tail) tok ++ tail.

(** Whether the decoder notices. *)
Definition same_bytes (a b : bytes) : bool := bool_decide (DecodeString RawURLEncoding a = DecodeString RawURLEncoding b).

Lemma cut_tail key p aad w tok w' tail k :
  Seal key p aad w = (Ok tok, w') -> k = len tail -> k <= 18 -> Forall (alphabet RawURLEncoding) tail ->
  slice tok 0 (len tok - k) = Ok (take (length tok - length tail) tok) /\
  if same_bytes (replace_tail tok tail) tok then Open key (replace_tail tok tail) aad = Ok p
  else exists e, Open key (replace_tail tok tail) aad = Err e.
Proof.
  intros Hs -> H18 Ha. pose proof (Seal_then_Open _ _ _ _ _ _ Hs) as Ho.
  destruct (sealed_text _ _ _ _ _ _ Hs) as (raw & Htok & Hl). pose proof (len_nonneg p).
  assert (Hlt : 38 <= len tok) by (rewrite Htok, len_Encode, Hl; apply Z.div_le_lower_bound; lia).
  unfold replace_tail. set (m := (length tok - length tail)%nat). split.
  - rewrite slice_Ok, drop_0 by (unfold len in *; lia). f_equal. f_equal. unfold m, len. lia.
  - assert (Hraw : DecodeString RawURLEncoding tok = Ok raw) by (rewrite Htok; apply Decode_Encode, _).
    pose proof (Open_other_tail key raw (take m tok) (drop m tok) tail aad p) as Ht.
    rewrite take_drop in Ht. unfold same_bytes. rewrite Hraw. unfold len in *.
    apply Ht; [done|done|rewrite length_drop; unfold m; lia..|done].
Qed.

Lemma alphabet_lit tail :
  forallb (fun c => match dec_char RawURLEncoding c with Some _ => true | None => false end) tail = true ->
  Forall (alphabet RawURLEncoding) tail.
Proof.
  rewrite forallb_forall, Forall_forall. intros H c Hc%list_elem_of_In%H. unfold alphabet. by destruct (dec_char _ c).
Qed.

(** *** [examples/session_token] *)

Lemma session_fits i e :
  len (Marshal {| SessionToken.UserID := lit "usr_42"; SessionToken.Scopes := [lit "read"; lit "write"];
                  SessionToken.IssuedAt := i; SessionToken.ExpiresAt := e |}) <= gcm_max.
Proof.
  assert (Hm : Marshal {| SessionToken.UserID := lit "usr_42"; SessionToken.Scopes := [lit "read"; lit "write"];
                  SessionToken.IssuedAt := i; SessionToken.ExpiresAt := e |} =
    lit_q "{'u':'usr_42','s':['read','write'],'i':" ++ FormatInt i ++ lit_q ",'e':" ++ FormatInt e ++ lit "}").
  { unfold Marshal, struct_json. cbn [to_fields SessionToken.Session_struct SessionToken.UserID SessionToken.Scopes
      SessionToken.IssuedAt SessionToken.ExpiresAt length].
    rewrite !filter_cons_True by done. cbn [filter list_filter map name val field_json encode join].
    repeat (rewrite <- !app_assoc; cbn [app]). reflexivity. }
  rewrite Hm. pose proof (length_FormatInt i). pose proof (length_FormatInt e). unfold len. rewrite !length_app.
  change (length (lit_q "{'u':'usr_42','s':['read','write'],'i':")) with 39%nat.
  change (length (lit_q ",'e':")) with 5%nat. change (length (lit "}")) with 1%nat. unfold gcm_max. lia.
Qed.

(** A clock whose seconds are far from the limits of [int64]. *)
Definition sane (t : Z) : Prop := - 2 ^ 62 <= Unix t < 2 ^ 62.

Lemma sane_int64 t d : sane t -> - 2 ^ 62 <= d <= 2 ^ 62 -> in_int64 (Unix t + d).
Proof. unfold sane, in_int64. lia. Qed.

Lemma Unix_mono s t : s <= t -> Unix s <= Unix t.
Proof. intros H. by apply Z.div_le_mono. Qed.

Lemma sane_between a b c : a <= b -> b <= c -> sane a -> sane c -> sane b.
Proof. unfold sane. intros Hab%Unix_mono Hbc%Unix_mono. lia. Qed.

(** A check sees a text through what it opens to. *)
Lemma OpenSession_ext sl t1 t2 w :
  Sealer.Open sl t1 SessionToken.sessionAAD = Sealer.Open sl t2 SessionToken.sessionAAD ->
  SessionToken.OpenSession sl t1 w = SessionToken.OpenSession sl t2 w.
Proof. intros H. unfold SessionToken.OpenSession. by rewrite H. Qed.

Lemma OpenSession_invalid sl tok e w :
  Sealer.Open sl tok SessionToken.sessionAAD = Err e ->
  SessionToken.OpenSession sl tok w = (Err (ErrorString "invalid session"), w).
Proof. intros H. unfold SessionToken.OpenSession. by rewrite H. Qed.

(** The verdict on a session at an age of zero or more. *)
Lemma session_verdict_age u sc t0 t :
  - 2 ^ 62 <= t0 -> t0 <= t < 2 ^ 62 ->
  let s := {| SessionToken.UserID := u; SessionToken.Scopes := sc; SessionToken.IssuedAt := t0;
              SessionToken.ExpiresAt := t0 + 86400 |} in
  session_verdict s t = if 86400 <=? t - t0 then Err (ErrorString "session expired") else Ok s.
Proof.
  intros H0 Ht s. unfold session_verdict. cbn [SessionToken.ExpiresAt SessionToken.IssuedAt s].
  rewrite i64_id by (unfold in_int64; lia).
  destruct (Z.leb_spec (t0 + 86400) t), (Z.leb_spec 86400 (t - t0)); try lia; [done|].
  by rewrite (proj2 (Z.ltb_ge _ _)) by lia.
Qed.

(** [examples/session_token], whatever time passes before its two checks. With 12 random bytes it prints the
    token; [log.Fatal] with "session expired" ends it if a day has passed before the first check, and otherwise
    it prints the session as it was issued. Replacing the last three characters by XYZ is then reported as
    "invalid session", unless the text happens to stand for the same bytes: then nothing is printed, or
    "session expired" if the day is over by now. *)
Theorem session_token_prints elapsed w :
  has_random 12 w -> (forall i, 0 <= elapsed i) -> sane (w_now w) -> sane (w_now w + elapsed 0%nat + elapsed 1%nat) ->
  let t0 := Unix (w_now w) in
  let age0 := Unix (w_now w + elapsed 0%nat) - t0 in
  let age1 := Unix (w_now w + elapsed 0%nat + elapsed 1%nat) - t0 in
  exists tok w', SessionMain.main elapsed w =
    let shown := [Printf (fmt "session token (%d chars):\n  %s\n\n") [VInt (len tok); VText tok]] in
    if 86400 <=? age0 then (Fatal (ErrorString "session expired"), shown, w')
    else (Done tt, shown ++
      [Printf (fmt "opened session: user=%s scopes=%v expires=%v\n")
         [VText (lit "usr_42"); VTexts [lit "read"; lit "write"]; VTime (t0 + 86400)]] ++
      (if same_bytes (replace_tail tok (lit "XYZ")) tok
       then if 86400 <=? age1 then [Printf (fmt "tampered: %v\n") [VErr (ErrorString "session expired")]] else []
       else [Printf (fmt "tampered: %v\n") [VErr (ErrorString "invalid session")]]), w').
Proof.
  intros Hw Hel H0 H1 t0 age0 age1. pose proof (Hel 0%nat). pose proof (Hel 1%nat). destruct appKey_sealer as [sl Hsl].
  destruct (IssueSession_run appKey sl Hsl (lit "usr_42") [lit "read"; lit "write"] w (session_fits _ _) Hw)
    as (tok & w1 & pt & Hi & (_ & _ & Hnow) & Hs).
  assert (Hr : forall w2, w_now w <= w_now w2 -> sane (w_now w2) -> SessionToken.OpenSession sl tok w2 =
    (if 86400 <=? Unix (w_now w2) - t0 then Err (ErrorString "session expired")
     else Ok {| SessionToken.UserID := lit "usr_42"; SessionToken.Scopes := [lit "read"; lit "write"];
                SessionToken.IssuedAt := t0; SessionToken.ExpiresAt := t0 + 86400 |}, w2)).
  { intros w2 Hle [Hs1 Hs2]. apply Unix_mono in Hle. destruct H0 as [H0 H0'].
    rewrite (IssueSession_opens appKey sl Hsl _ _ w _ _ w2 ltac:(unfold in_int64; lia) ltac:(unfold in_int64; lia) Hi).
    change (map ToValid _) with [lit "read"; lit "write"]. change (ToValid _) with (lit "usr_42").
    by rewrite session_verdict_age by lia. }
  destruct (NewSealer_inv _ _ Hsl) as (HS & HO & _). rewrite HS in Hs.
  destruct (cut_tail appKey pt _ _ _ _ (lit "XYZ") 3 Hs eq_refl ltac:(done) ltac:(by apply alphabet_lit)) as [Hcut Hbad].
  exists tok. unfold SessionMain.main. rewrite (expr_Ok _ _ _ _ Hsl), (must_Ok _ _ _ _ _ Hi).
  set (w2 := later (elapsed 0%nat) w1). set (w3 := later (elapsed 1%nat) w2).
  assert (Hn2 : w_now w2 = w_now w + elapsed 0%nat) by (cbn; lia).
  assert (Hn3 : w_now w3 = w_now w + elapsed 0%nat + elapsed 1%nat) by (cbn; lia).
  rewrite print_bind, pass_bind. fold w2. unfold age0. rewrite <- Hn2.
  assert (Hs2 : sane (w_now w2)) by (rewrite Hn2; eapply sane_between; [| |exact H0|exact H1]; lia).
  pose proof (Hr w2 ltac:(lia) Hs2) as Hr2. fold t0. case_bool.
  { exists w2. by rewrite (must_Err _ _ _ _ _ Hr2). }
  exists w3. rewrite (must_Ok _ _ _ _ _ Hr2), print_bind. cbn [SessionToken.UserID SessionToken.Scopes SessionToken.ExpiresAt].
  rewrite (expr_Ok _ _ _ _ Hcut). cbv zeta. rewrite pass_bind. fold w3. fold (replace_tail tok (lit "XYZ")).
  pose proof (Hr w3 ltac:(lia) ltac:(by rewrite Hn3)) as Hr3. unfold age1. rewrite <- Hn3.
  destruct (same_bytes _ _).
  - rewrite <- (OpenSession_ext sl (replace_tail tok (lit "XYZ"))) in Hr3 by (rewrite !HO, Hbad; symmetry; by apply Seal_then_Open in Hs).
    rewrite (print_error_last _ _ _ _ _ Hr3) by (by case_bool). by case_bool.
  - destruct Hbad as [e Hbad]. rewrite <- HO in Hbad.
    by rewrite (print_error_last _ _ _ _ _ (OpenSession_invalid sl _ e w3 Hbad)).
Qed.

Lemma session_token_prints_witness :
  (SessionMain.main (fun _ => 86399 * Second) demo_world).1.1 = Done tt /\
  (SessionMain.main (fun _ => Hour * 24) demo_world).1.1 = Fatal (ErrorString "session expired").
Proof.
  split.
  - destruct (session_token_prints (fun _ => 86399 * Second) demo_world) as (tok & w' & ->);
      [vm_compute; congruence|intros i; vm_compute; congruence|split; vm_compute; congruence..|reflexivity].
  - destruct (session_token_prints (fun _ => Hour * 24) demo_world) as (tok & w' & ->);
      [vm_compute; congruence|intros i; vm_compute; congruence|split; vm_compute; congruence..|reflexivity].
Defined.

(** *** [examples/magic_link] *)

Lemma link_Marshal u e :
  u = lit "usr_42" \/ u = lit "usr_99" ->
  exists n, length (Marshal {| MagicLink.UserID := u; MagicLink.ExpiresAt := e |}) = n /\ (19 <= n < 41)%nat.
Proof.
  intros Hu. assert (Hm : exists f, length f = 18%nat /\
    Marshal {| MagicLink.UserID := u; MagicLink.ExpiresAt := e |} = f ++ FormatInt e ++ lit "}").
  { unfold Marshal, struct_json. cbn [to_fields MagicLink.linkPayload_struct MagicLink.UserID MagicLink.ExpiresAt].
    rewrite !filter_cons_True by done. cbn [filter list_filter map name val field_json encode join].
    destruct Hu as [-> | ->]; [exists (lit_q "{'u':'usr_42','e':")|exists (lit_q "{'u':'usr_99','e':")];
      (split; [reflexivity|]); repeat (rewrite <- !app_assoc; cbn [app]); reflexivity. }
  destruct Hm as (f & Hf & ->). eexists. split; [reflexivity|]. rewrite !length_app, Hf. change (length (lit "}")) with 1%nat.
  pose proof (length_FormatInt e). lia.
Qed.

Lemma seq_check (f : nat -> bool) a k : forallb f (seq a k) = true -> forall n, (a <= n < a + k)%nat -> f n = true.
Proof. rewrite forallb_forall. intros H n Hn. apply H, in_seq. lia. Qed.

(** Every link of these two users is bound to its purpose under the program's key. *)
Lemma purposes_apart :
  forallb (fun n => negb (aad_gap MagicLink.purposePasswordReset MagicLink.purposeEmailVerify n (key_hash appKey) =? 0))
    (seq 19 22) = true.
Proof. vm_compute. reflexivity. Qed.

Lemma issueLink_run key sl u purpose ttl w :
  Sealer.NewSealer key = Ok sl -> u = lit "usr_42" \/ u = lit "usr_99" -> has_random 12 w ->
  exists tok w', MagicLink.issueLink sl u purpose ttl w = (Ok tok, w') /\ after_random 12 w w' /\
    Seal key (Marshal {| MagicLink.UserID := u; MagicLink.ExpiresAt := Unix (w_now w + ttl) |}) purpose w = (Ok tok, w').
Proof.
  intros Hsl Hu Hw. destruct (NewSealer_inv _ _ Hsl) as (HS & _).
  destruct (Sealer_Seal_ok key sl (Marshal {| MagicLink.UserID := u; MagicLink.ExpiresAt := Unix (w_now w + ttl) |}) purpose w Hsl)
    as (tok & w' & Hs & Ha); [|done|].
  { destruct (link_Marshal u (Unix (w_now w + ttl)) Hu) as (n & Hn & ?). unfold len, gcm_max. rewrite Hn. lia. }
  exists tok, w'. split; [exact Hs|]. split; [done|]. by rewrite <- HS.
Qed.

(** [examples/magic_link], whatever time passes. With 24 random bytes it prints the link; if the hour is over
    before the first check, [log.Fatal] ends it with "token expired". Otherwise it prints the user, always prints
    that the link is an "invalid token" for the other purpose, which for this key and these payloads is a
    computation, and always prints that the link issued with a lifetime of minus one hour is a "token expired". *)
Theorem magic_link_prints elapsed w :
  has_random 24 w -> (forall i, 0 <= elapsed i) -> sane (w_now w) ->
  sane (w_now w + elapsed 0%nat + elapsed 1%nat + elapsed 2%nat) ->
  exists token w', LinkMain.main elapsed w =
    let shown := [Printf (fmt "emailed link:\n  %s\n\n") [VText (lit "https://app.example.com/reset?t=" ++ token)]] in
    if Unix (w_now w) + 3600 <=? Unix (w_now w + elapsed 0%nat) then (Fatal (Errorf "token expired"), shown, w')
    else (Done tt, shown ++
      [Printf (fmt "link valid for user: %s\n") [VText (lit "usr_42")];
       Printf (fmt "cross-purpose replay: %v\n") [VErr (Errorf "invalid token")];
       Printf (fmt "expired token: %v\n") [VErr (Errorf "token expired")]], w').
Proof.
  intros Hw Hel H0 H3. pose proof (Hel 0%nat). pose proof (Hel 1%nat). pose proof (Hel 2%nat).
  destruct appKey_sealer as [sl Hsl]. destruct (NewSealer_inv _ _ Hsl) as (_ & HO & _).
  destruct (issueLink_run appKey sl (lit "usr_42") MagicLink.purposePasswordReset MagicLink.resetTokenTTL w Hsl)
    as (tok & w1 & Hi & Ha & Hs); [by left|by eapply has_random_le; [|exact Hw]|].
  assert (Hnow : w_now w1 = w_now w) by apply Ha.
  exists tok. unfold LinkMain.main. cbv zeta. rewrite (expr_Ok _ _ _ _ Hsl), (must_Ok _ _ _ _ _ Hi), print_bind, pass_bind.
  set (w2 := later (elapsed 0%nat) w1). set (w3 := later (elapsed 1%nat) w2).
  assert (Hn2 : w_now w2 = w_now w + elapsed 0%nat) by (cbn; lia). rewrite <- Hn2.
  pose proof (verifyLink_issued appKey sl Hsl tok _ _ _ _ _ w2 Hi) as Hv.
  change MagicLink.resetTokenTTL with (3600 * Second) in Hv. rewrite Unix_add in Hv.
  specialize (Hv ltac:(unfold sane, in_int64 in *; lia)). case_bool.
  { exists w2. by rewrite (must_Err _ _ _ _ _ Hv). }
  rewrite (must_Ok _ _ _ _ _ Hv), print_bind, pass_bind. fold w3.
  assert (Hx : MagicLink.verifyLink sl tok MagicLink.purposeEmailVerify w3 = (Err (Errorf "invalid token"), w3)).
  { eapply verifyLink_invalid. rewrite HO. apply (Open_apart _ _ _ _ _ (Seal_then_Open _ _ _ _ _ _ Hs)).
    destruct (link_Marshal (lit "usr_42") (Unix (w_now w + MagicLink.resetTokenTTL)) ltac:(by left)) as (n & -> & Hn).
    pose proof (seq_check _ _ _ purposes_apart n ltac:(lia)) as Hg. cbv beta in Hg.
    intros Heq. by rewrite Heq in Hg. }
  rewrite (print_error_bind _ _ _ _ _ _ Hx) by done.
  destruct (issueLink_run appKey sl (lit "usr_99") MagicLink.purposePasswordReset (- Hour) w3 Hsl)
    as (tok2 & w4 & Hi2 & Ha2 & _); [by right|by apply (has_random_after 12 12 w w1)|].
  rewrite (ignore_Ok _ _ _ _ _ _ Hi2), pass_bind. set (w5 := later (elapsed 2%nat) w4).
  assert (Hn4 : w_now w4 = w_now w3) by apply Ha2.
  pose proof (verifyLink_issued appKey sl Hsl tok2 _ _ _ _ _ w5 Hi2) as Hv2.
  change (- Hour) with (-3600 * Second) in Hv2. rewrite Unix_add in Hv2.
  assert (Hs3 : sane (w_now w3)) by (eapply sane_between; [| |exact H0|exact H3]; cbn; lia).
  specialize (Hv2 ltac:(unfold sane, in_int64 in *; lia)).
  rewrite (proj2 (Z.leb_le _ _)) in Hv2.
  2: { assert (Hle : Unix (w_now w3) <= Unix (w_now w5)) by (apply Unix_mono; change (w_now w5) with (w_now w4 + elapsed 2%nat); lia). lia. }
  exists w5. by rewrite (print_error_last _ _ _ _ _ Hv2).
Qed.

Lemma magic_link_prints_witness :
  (LinkMain.main (fun _ => 1799 * Second) demo_world).1.1 = Done tt /\
  (LinkMain.main (fun _ => Hour) demo_world).1.1 = Fatal (Errorf "token expired").
Proof.
  split.
  - destruct (magic_link_prints (fun _ => 1799 * Second) demo_world) as (tok & w' & ->);
      [vm_compute; congruence|intros i; vm_compute; congruence|split; vm_compute; congruence..|reflexivity].
  - destruct (magic_link_prints (fun _ => Hour) demo_world) as (tok & w' & ->);
      [vm_compute; congruence|intros i; vm_compute; congruence|split; vm_compute; congruence..|reflexivity].
Defined.

(** *** [examples/csrf_token] *)

Lemma csrf_fits i : len (Marshal {| CsrfToken.SessionID := lit "sess_abc123"; CsrfToken.IssuedAt := i |}) <= gcm_max.
Proof.
  assert (Hm : Marshal {| CsrfToken.SessionID := lit "sess_abc123"; CsrfToken.IssuedAt := i |} =
    lit_q "{'s':'sess_abc123','i':" ++ FormatInt i ++ lit "}").
  { unfold Marshal, struct_json. cbn [to_fields CsrfToken.csrfPayload_struct CsrfToken.SessionID CsrfToken.IssuedAt].
    rewrite !filter_cons_True by done. cbn [filter list_filter map name val field_json encode join].
    repeat (rewrite <- !app_assoc; cbn [app]). reflexivity. }
  rewrite Hm. pose proof (length_FormatInt i). unfold len. rewrite !length_app.
  change (length (lit_q _)) with 23%nat. change (length (lit "}")) with 1%nat. unfold gcm_max. lia.
Qed.

Lemma VerifyCSRF_ext sl t1 t2 expected w :
  Sealer.Open sl t1 (lit "csrf-v1") = Sealer.Open sl t2 (lit "csrf-v1") ->
  CsrfToken.VerifyCSRF sl t1 expected w = CsrfToken.VerifyCSRF sl t2 expected w.
Proof. intros H. unfold CsrfToken.VerifyCSRF. by rewrite H. Qed.

(** The error printed for a text [t'] made from the form token [t]. *)
Lemma tampered_csrf_line format sl t t' p expected w r :
  Sealer.Open sl t (lit "csrf-v1") = Ok p ->
  (if same_bytes t' t then Sealer.Open sl t' (lit "csrf-v1") = Ok p
   else exists e, Sealer.Open sl t' (lit "csrf-v1") = Err e) ->
  CsrfToken.VerifyCSRF sl t expected w = (r, w) -> panics r = false ->
  print_error format (CsrfToken.VerifyCSRF sl t' expected) w =
    (Done tt, if same_bytes t' t then match r with Err e => [Printf format [VErr e]] | _ => [] end
     else [Printf format [VErr (Errorf "invalid csrf token")]], w).
Proof.
  intros Ho Ht Hr Hp. destruct (same_bytes t' t).
  - rewrite <- (VerifyCSRF_ext sl t') in Hr by congruence. by rewrite (print_error_last _ _ _ _ _ Hr).
  - destruct Ht as [e He]. by rewrite (print_error_last _ _ _ _ _ (VerifyCSRF_invalid sl _ _ e w He)).
Qed.

(** [examples/csrf_token], whatever time passes. With 12 random bytes the program prints the token; the genuine
    session is accepted for 900 whole seconds and then told that the token has expired; the other session is always
    told that the token is not its own. Replacing the last two characters by XX is reported as an invalid
    token, unless the text stands for the same bytes: then it is accepted, or reported as expired. *)
Theorem csrf_token_prints elapsed w :
  has_random 12 w -> (forall i, 0 <= elapsed i) -> sane (w_now w) ->
  sane (w_now w + elapsed 0%nat + elapsed 1%nat + elapsed 2%nat) ->
  let age0 := Unix (w_now w + elapsed 0%nat) - Unix (w_now w) in
  let age2 := Unix (w_now w + elapsed 0%nat + elapsed 1%nat + elapsed 2%nat) - Unix (w_now w) in
  exists tok w', CsrfMain.main elapsed w = (Done tt, [
    Printf (fmt "CSRF token: %s\n\n") [VText tok];
    (if 900 <? age0 then Printf (fmt "genuine submit: %v\n") [VErr (Errorf "csrf token expired")]
     else Printf (fmt "genuine submit: ok\n") []);
    Printf (fmt "foreign session: %v\n") [VErr (Errorf "csrf token does not belong to this session")]] ++
    (if same_bytes (replace_tail tok (lit "XX")) tok
     then if 900 <? age2 then [Printf (fmt "tampered token: %v\n") [VErr (Errorf "csrf token expired")]] else []
     else [Printf (fmt "tampered token: %v\n") [VErr (Errorf "invalid csrf token")]]), w').
Proof.
  intros Hw Hel H0 H3 age0 age2. pose proof (Hel 0%nat). pose proof (Hel 1%nat). pose proof (Hel 2%nat).
  destruct appKey_sealer as [sl Hsl]. destruct (NewSealer_inv _ _ Hsl) as (HS & HO & _).
  destruct (Sealer_Seal_ok appKey sl _ (lit "csrf-v1") w Hsl (csrf_fits (Unix (w_now w))) Hw) as (tok & w1 & Hi & Ha).
  assert (Hnow : w_now w1 = w_now w) by apply Ha.
  change (CsrfToken.IssueCSRF sl (lit "sess_abc123") w = (Ok tok, w1)) in Hi.
  assert (Hr : forall w2 expected, w_now w <= w_now w2 -> sane (w_now w2) -> CsrfToken.VerifyCSRF sl tok expected w2 =
    (if bool_decide (expected = lit "sess_abc123") then
       if 900 <? Unix (w_now w2) - Unix (w_now w) then Err (Errorf "csrf token expired") else Ok tt
     else Err (Errorf "csrf token does not belong to this session"), w2)).
  { intros w2 expected Hle Hs. apply Unix_mono in Hle. unfold sane in *.
    rewrite (VerifyCSRF_issued appKey sl Hsl _ _ _ _ w2 expected Hi) by (unfold in_int64; lia). done. }
  exists tok. unfold CsrfMain.main. cbv zeta. rewrite (deref_Ok _ _ _ _ Hsl), (must_Ok _ _ _ _ _ Hi), print_bind, pass_bind.
  change (CsrfToken.IssueCSRF sl (lit "sess_abc123") w) with
    (Sealer.Seal sl (Marshal {| CsrfToken.SessionID := lit "sess_abc123"; CsrfToken.IssuedAt := Unix (w_now w) |}) (lit "csrf-v1") w) in Hi.
  rewrite HS in Hi.
  destruct (cut_tail appKey _ _ _ _ _ (lit "XX") 2 Hi eq_refl ltac:(done) ltac:(by apply alphabet_lit)) as [Hcut Hbad].
  set (w2 := later (elapsed 0%nat) w1). set (w3 := later (elapsed 1%nat) w2). set (w4 := later (elapsed 2%nat) w3).
  assert (Hn2 : w_now w2 = w_now w + elapsed 0%nat) by (cbn; lia).
  assert (Hn3 : w_now w3 = w_now w + elapsed 0%nat + elapsed 1%nat) by (cbn; lia).
  assert (Hn4 : w_now w4 = w_now w + elapsed 0%nat + elapsed 1%nat + elapsed 2%nat) by (cbn; lia).
  assert (Hs2 : sane (w_now w2)) by (eapply sane_between; [| |exact H0|exact H3]; lia).
  assert (Hs3 : sane (w_now w3)) by (eapply sane_between; [| |exact H0|exact H3]; lia).
  pose proof (Hr w2 (lit "sess_abc123") ltac:(lia) Hs2) as Hr2. rewrite bool_decide_eq_true_2 in Hr2 by done.
  pose proof (Hr w3 (lit "sess_attacker") ltac:(lia) Hs3) as Hr3. rewrite bool_decide_eq_false_2 in Hr3 by done.
  pose proof (Hr w4 (lit "sess_abc123") ltac:(lia) ltac:(by rewrite Hn4)) as Hr4. rewrite bool_decide_eq_true_2 in Hr4 by done.
  unfold age0, age2. rewrite <- Hn4, <- Hn2. exists w4.
  rewrite <- !HO in Hbad. assert (Ho : Sealer.Open sl tok (lit "csrf-v1") = Ok _) by (rewrite HO; exact (Seal_then_Open _ _ _ _ _ _ Hi)).
  pose proof (tampered_csrf_line (fmt "tampered token: %v\n") sl tok _ _ _ w4 _ Ho Hbad Hr4 ltac:(by case_bool)) as Hlast.
  destruct (900 <? Unix (w_now w2) - Unix (w_now w)).
  - rewrite (call_Err _ _ _ _ _ Hr2), print_bind, pass_bind, (print_error_bind _ _ _ _ _ _ Hr3), (expr_Ok _ _ _ _ Hcut), pass_bind by done.
    fold w3. fold w4. fold (replace_tail tok (lit "XX")). rewrite Hlast. by repeat case_bool.
  - rewrite (call_Ok _ _ _ _ _ Hr2), print_bind, pass_bind, (print_error_bind _ _ _ _ _ _ Hr3), (expr_Ok _ _ _ _ Hcut), pass_bind by done.
    fold w3. fold w4. fold (replace_tail tok (lit "XX")). rewrite Hlast. by repeat case_bool.
Qed.

Lemma csrf_token_prints_witness : (CsrfMain.main (fun _ => 400 * Second) demo_world).1.1 = Done tt.
Proof.
  destruct (csrf_token_prints (fun _ => 400 * Second) demo_world) as (tok & w' & ->);
    [vm_compute; congruence|intros i; vm_compute; congruence|split; vm_compute; congruence..|reflexivity].
Defined.

(** *** [examples/time_locked_token] *)

Lemma VerifyToken_Err key tok aad e w : Open key tok aad = Err e -> VerifyToken key tok aad w = (Err e, w).
Proof. intros H. unfold VerifyToken, mbind, M_bind, lift. by rewrite H. Qed.

Lemma reset_and_verify_apart :
  aad_gap TimeLockedMain.purposePasswordReset TimeLockedMain.purposeEmailVerify 22 (key_hash appKey) <> 0.
Proof. vm_compute. discriminate. Qed.

(** [examples/time_locked_token], whatever time passes. With 24 random bytes it prints the link; if the hour is over
    before the first check, [log.Fatal] ends it with [ErrExpired]. Otherwise it prints the payload, always prints
    that the token is tampered with for the other purpose, a computation for this key and length, and always
    prints that the hand-made token of an hour ago is expired. *)
Theorem time_locked_token_prints elapsed w :
  has_random 24 w -> (forall i, 0 <= elapsed i) -> sane (w_now w) ->
  sane (w_now w + elapsed 0%nat + elapsed 1%nat + elapsed 2%nat) ->
  exists tok w', TimeLockedMain.main elapsed w =
    let shown := [Printf (fmt "emailed link:\n  %s\n\n") [VText (lit "https://app.example.com/reset?t=" ++ tok)]] in
    if Unix (w_now w) + 3600 <=? Unix (w_now w + elapsed 0%nat) then (Fatal ErrExpired, shown, w')
    else (Done tt, shown ++
      [Printf (fmt "token valid, payload: %s\n") [VText (lit "user_id=usr_42")];
       Printf (fmt "\ncross-purpose replay: %v (rejected)\n") [VErr (Wrapf "%w: %v" ErrTampered)];
       Printf (fmt "\nexpired token: %v (rejected)\n") [VErr ErrExpired]], w').
Proof.
  intros Hw Hel H0 H3. pose proof (Hel 0%nat). pose proof (Hel 1%nat). pose proof (Hel 2%nat).
  set (reset := TimeLockedMain.purposePasswordReset). set (field := fun w off => PutUint64 (u64 (Unix (w_now w + off)))).
  assert (Hf : forall w off, length (field w off) = 8%nat) by (intros; apply length_PutUint64).
  destruct (Seal_run appKey (field w Hour ++ lit "user_id=usr_42") reset w) as (c & b & w1 & _ & Ha & _ & _ & Hs & _);
    [done|unfold len; by rewrite length_app, Hf|by eapply has_random_le; [|exact Hw]|].
  set (tok := EncodeToString _ _) in Hs. pose proof (Seal_then_Open _ _ _ _ _ _ Hs) as Ho.
  assert (Hi : IssueToken appKey (lit "user_id=usr_42") TimeLockedMain.resetTokenTTL reset w = (Ok tok, w1)) by exact Hs.
  assert (Hnow : w_now w1 = w_now w) by apply Ha. exists tok. unfold TimeLockedMain.main. cbv zeta. fold reset.
  rewrite (must_Ok _ _ _ _ _ Hi), print_bind, pass_bind.
  set (w2 := later (elapsed 0%nat) w1). assert (Hn2 : w_now w2 = w_now w + elapsed 0%nat) by (cbn; lia). rewrite <- Hn2.
  pose proof (Issue_Verify _ _ _ _ _ _ _ w2 Hi) as Hv. change TimeLockedMain.resetTokenTTL with (3600 * Second) in Hv.
  rewrite Unix_add in Hv. specialize (Hv ltac:(unfold sane, in_int64 in *; lia)). case_bool.
  { exists w2. by rewrite (must_Err _ _ _ _ _ Hv). }
  rewrite (must_Ok _ _ _ _ _ Hv), print_bind, pass_bind. set (w3 := later (elapsed 1%nat) w2).
  assert (Hx : Open appKey tok TimeLockedMain.purposeEmailVerify = Err (Wrapf "%w: %v" ErrTampered)).
  { apply (Open_apart _ _ _ _ _ Ho). rewrite length_app, Hf. exact reset_and_verify_apart. }
  rewrite (print_error_bind _ _ _ _ _ _ (VerifyToken_Err _ _ _ _ w3 Hx)) by done.
  rewrite (must_Ok _ _ _ _ _ (packExpiryBytes_run (- Hour) w3)).
  assert (Hw1 : has_random 12 w1) by (by apply (has_random_after 12 12 w w1)).
  destruct (Seal_run appKey (field w3 (- Hour) ++ lit "stale") reset w3) as (c' & b' & w4 & _ & Ha' & _ & _ & Hs' & _);
    [done|unfold len; by rewrite length_app, Hf|exact Hw1|].
  set (stale := EncodeToString _ _) in Hs'. rewrite (ignore_Ok _ _ _ _ _ _ Hs'), pass_bind. set (w5 := later (elapsed 2%nat) w4).
  assert (Hs3 : sane (w_now w3)) by (eapply sane_between; [| |exact H0|exact H3]; cbn; lia).
  assert (Hn4 : w_now w4 = w_now w3) by apply Ha'.
  pose proof (packed_Verify appKey (lit "stale") (- Hour) reset w3 _ _ _ w5 Hs') as Hv2.
  change (- Hour) with (-3600 * Second) in Hv2. rewrite Unix_add in Hv2. specialize (Hv2 ltac:(unfold sane, in_int64 in *; lia)).
  rewrite (proj2 (Z.leb_le _ _)) in Hv2.
  2: { assert (Hle : Unix (w_now w3) <= Unix (w_now w5)); [|lia]. apply Unix_mono. change (w_now w5) with (w_now w4 + elapsed 2%nat). lia. }
  exists w5. by rewrite (call_Err _ _ _ _ _ Hv2).
Qed.

Lemma time_locked_token_prints_witness :
  (TimeLockedMain.main (fun _ => 1799 * Second) demo_world).1.1 = Done tt /\
  (TimeLockedMain.main (fun _ => Hour) demo_world).1.1 = Fatal ErrExpired.
Proof.
  split.
  - destruct (time_locked_token_prints (fun _ => 1799 * Second) demo_world) as (tok & w' & ->);
      [vm_compute; congruence|intros i; vm_compute; congruence|split; vm_compute; congruence..|reflexivity].
  - destruct (time_locked_token_prints (fun _ => Hour) demo_world) as (tok & w' & ->);
      [vm_compute; congruence|intros i; vm_compute; congruence|split; vm_compute; congruence..|reflexivity].
Defined.

(** *** [examples/seal_with_aad] *)

Lemma alice_and_bob_apart : aad_gap (lit "user:alice") (lit "user:bob") 16 (key_hash appKey) <> 0.
Proof. vm_compute. discriminate. Qed.

(** [examples/seal_with_aad]. With 12 random bytes the token opens as alice to the payload, and opening it as bob is
    always [ErrTampered], whatever the nonce: for this key and length that is a computation. *)
Theorem seal_with_aad_prints w :
  has_random 12 w ->
  exists token w', after_random 12 w w' /\ SealWithAADMain.main w = (Done tt, [
    Printf (fmt "token issued for alice: %s\n\n") [VText token];
    Printf (fmt "open as alice: pt=%q err=%v\n") [VText (lit_q "{'role':'admin'}"); VNil];
    Printf (fmt "open as bob:   err=%v\n") [VErr (Wrapf "%w: %v" ErrTampered)];
    Printf (fmt "is tampered:   %v\n") [VBool true]], w').
Proof.
  intros Hw. destruct (Seal_run appKey (lit_q "{'role':'admin'}") (lit "user:alice") w) as (c & b & w1 & _ & Ha & _ & _ & Hs & _);
    [done|by vm_compute|done|].
  set (tok := EncodeToString _ _) in Hs. pose proof (Seal_then_Open _ _ _ _ _ _ Hs) as Ho.
  pose proof (Open_apart _ _ _ _ _ Ho alice_and_bob_apart) as Hx.
  exists tok, w1. split; [exact Ha|]. unfold SealWithAADMain.main. cbv zeta.
  rewrite (call_Ok _ _ _ tok w1) by exact Hs. rewrite ret_bind, print_bind.
  rewrite (call_Ok _ _ _ (lit_q "{'role':'admin'}") w1) by (unfold lift; f_equal; exact Ho). rewrite print_bind.
  rewrite (call_Err _ _ _ (Wrapf "%w: %v" ErrTampered) w1) by (unfold lift; f_equal; exact Hx). by rewrite print_bind.
Qed.

Lemma seal_with_aad_prints_witness : (SealWithAADMain.main demo_world).1.1 = Done tt.
Proof. destruct (seal_with_aad_prints demo_world) as (tok & w' & _ & ->); [by vm_compute|reflexivity]. Defined.

(** *** [examples/encrypted_file] *)

Definition report : bytes := lit "This is the contents of a sensitive document." ++ [x0a] ++
  lit "Anyone with the encryption key can decrypt; everyone else sees ciphertext.".

Lemma file_names_apart : aad_gap (lit "file:report-2026-05") (lit "file:wrong-name") (length report) (key_hash appKey) <> 0.
Proof. vm_compute. discriminate. Qed.

(** [examples/encrypted_file], however the write goes. With 12 random bytes: when [os.WriteFile] succeeds, the program
    prints the size of the file, 199 characters for the 120 bytes, the contents, and that the other
    name is always refused; when it fails, [log.Fatal] ends the program with that error before anything is printed. *)
Theorem encrypted_file_prints tmp d w :
  has_random 12 w ->
  exists w', after_random 12 w w' /\ EncryptedFileMain.main tmp d w =
    match EncryptedFile.plan d with
    | Some (_, e) :: _ => (Fatal e, [], w')
    | _ => (Done tt, [
        Printf (fmt "wrote %s (%d bytes ciphertext, %d bytes plaintext)\n")
          [VText (tmp ++ lit "/report.enc"); VInt 199; VInt 120];
        Printf (fmt "\ndecrypted contents:\n%s\n") [VText report];
        Printf (fmt "\nAAD mismatch: %v\n") [VErr (Wrapf "%w: %v" ErrTampered)]], w')
    end.
Proof.
  intros Hw. destruct appKey_sealer as [sl Hsl]. destruct (NewSealer_inv _ _ Hsl) as (HS & HO & _).
  destruct (Sealer_Seal_ok appKey sl report (lit "file:report-2026-05") w Hsl ltac:(by vm_compute) Hw) as (ct & w1 & Hs & Ha).
  pose proof Hs as Hs'. rewrite HS in Hs'. pose proof (Seal_then_Open _ _ _ _ _ _ Hs') as Ho.
  destruct (sealed_text _ _ _ _ _ _ Hs') as (raw & Hct & Hl). change (len report) with 120 in Hl.
  assert (Hlen : len ct = 199) by (by rewrite Hct, len_Encode, Hl).
  pose proof (Open_apart _ _ _ _ _ Ho file_names_apart) as Hx.
  exists w1. split; [exact Ha|]. unfold EncryptedFileMain.main. cbv zeta. fold report.
  rewrite (deref_Ok _ _ _ _ Hsl). set (path := tmp ++ _). change (len report) with 120.
  assert (Hrest : forall d', EncryptedFile.files d' !! path = Some ct ->
    (info ← deref (EncryptedFile.ReadFile path d');
     _ ← print (fmt "wrote %s (%d bytes ciphertext, %d bytes plaintext)\n") [VText path; VInt (len info); VInt 120];
     got ← must (lift (EncryptedFile.readEncrypted sl path (lit "file:report-2026-05") d'));
     _ ← print (fmt "\ndecrypted contents:\n%s\n") [VText got];
     print_error (fmt "\nAAD mismatch: %v\n") (lift (EncryptedFile.readEncrypted sl path (lit "file:wrong-name") d'))) w1 =
    (Done tt, [Printf (fmt "wrote %s (%d bytes ciphertext, %d bytes plaintext)\n") [VText path; VInt 199; VInt 120];
       Printf (fmt "\ndecrypted contents:\n%s\n") [VText report];
       Printf (fmt "\nAAD mismatch: %v\n") [VErr (Wrapf "%w: %v" ErrTampered)]], w1)).
  { intros d' Hd. assert (Hrd : EncryptedFile.ReadFile path d' = Ok ct) by (unfold EncryptedFile.ReadFile; by rewrite Hd).
    rewrite (deref_Ok _ _ _ _ Hrd), print_bind, Hlen.
    rewrite (must_Ok _ _ _ report w1) by (unfold lift, EncryptedFile.readEncrypted; rewrite Hrd; cbn [mbind outcome_bind]; by rewrite HO, Ho).
    rewrite print_bind, (print_error_last _ _ _ (Err (Wrapf "%w: %v" ErrTampered)) w1); [done| |done].
    unfold lift, EncryptedFile.readEncrypted. rewrite Hrd. cbn [mbind outcome_bind]. by rewrite HO, Hx. }
  unfold mbind at 1, program_bind at 1, EncryptedFile.writeEncrypted. rewrite Hs. unfold EncryptedFile.WriteFile.
  destruct (EncryptedFile.plan d) as [|[[[k|] e]|] pl]; [|done..|]; cbv beta iota; (rewrite Hrest; [done|]); cbn [EncryptedFile.files];
    by rewrite lookup_insert_eq.
Qed.

Lemma encrypted_file_prints_witness :
  (EncryptedFileMain.main (lit "/tmp/x") {| EncryptedFile.files := ∅; EncryptedFile.plan := [] |} demo_world).1.1 = Done tt.
Proof.
  destruct (encrypted_file_prints (lit "/tmp/x") {| EncryptedFile.files := ∅; EncryptedFile.plan := [] |} demo_world)
    as (w' & _ & ->); [by vm_compute|reflexivity].
Defined.
