(* ===== verification/Goroutines.v ===== *)
(** * A sealer shared by goroutines: [examples/sealer/main.go]

    [main] seals two texts and then starts three goroutines that each seal a text, open it and
    print the result. The goroutines are a step relation in which each library call and each
    [Printf] is one step of one goroutine, in any order; the random source is shared. *)

From Stdlib Require Import Strings.String.
From S2P Require Import Prelude Errors GoIO Console Cipher Format Aead GoText Services.
Import SealerService.

(** ** The goroutines *)

(** Where a goroutine stands: before [Encrypt], with its text, with what [Decrypt] returned,
    after its [Printf], or after the send on [done]. *)
Inductive stage := Start | Sealed (ct : bytes) | Opened (pt : bytes) | Printed | Sent.

(** The goroutines by their [i], the lines printed and the environment. *)
Record config := { stages : list stage; output : list line; env : world }.

(** [fmt.Sprintf("from goroutine %d", i)] *)
Definition message (i : nat) : bytes := lit "from goroutine " ++ Itoa (Z.of_nat i).
Definition result_line (i : nat) (pt : bytes) : line :=
  Printf (fmt "goroutine %d -> %s\n") [VInt (Z.of_nat i); VText pt].

(** [x, _ := f()] for a call that does not panic. *)
Definition value_or_zero (o : outcome bytes) : bytes := match o with Ok b => b | _ => [] end.

Inductive step (svc : Service) : config -> config -> Prop :=
  | step_encrypt c i o w' :
      stages c !! i = Some Start -> Encrypt svc (message i) (env c) = (o, w') -> panics o = false ->
      step svc c {| stages := <[i := Sealed (value_or_zero o)]> (stages c); output := output c; env := w' |}
  | step_decrypt c i ct :
      stages c !! i = Some (Sealed ct) -> panics (Decrypt svc ct) = false ->
      step svc c {| stages := <[i := Opened (value_or_zero (Decrypt svc ct))]> (stages c);
                    output := output c; env := env c |}
  | step_print c i pt :
      stages c !! i = Some (Opened pt) ->
      step svc c {| stages := <[i := Printed]> (stages c); output := output c ++ [result_line i pt]; env := env c |}
  | step_send c i :
      stages c !! i = Some Printed ->
      step svc c {| stages := <[i := Sent]> (stages c); output := output c; env := env c |}.

(** [main] has received three values when every goroutine has sent. *)
Definition finished (c : config) : Prop := Forall (eq Sent) (stages c).

(** The goroutines of [for i := range n], before their first step. *)
Definition spawn (n : nat) (w : world) : config := {| stages := replicate n Start; output := []; env := w |}.

(** ** The program up to the goroutines *)

Definition main : program Service :=
  let appKey := lit "01234567890123456789012345678901" in
  sealer ← expr (Sealer.NewSealer appKey);
  let svc := NewService sealer in
  ct ← ignore [] (Encrypt svc (lit "first"));
  _ ← print (fmt "encrypted first: %s\n") [VText ct];
  pt ← ignore [] (lift (Decrypt svc ct));
  _ ← print (fmt "decrypted:       %s\n") [VText pt];
  ct ← ignore [] (Encrypt svc (lit "second"));
  _ ← print (fmt "encrypted second: %s\n") [VText ct];
  mret svc.

(** ** Invariant *)

(** The random bytes the goroutines that have not started still need. *)
Definition cost (s : stage) : nat := match s with Start => 12 | _ => 0 end.
Definition needed (l : list stage) : Z := Z.of_nat (sum_list_with cost l).

(** What is left of the work, in steps. *)
Definition todo (s : stage) : nat :=
  match s with Start => 4 | Sealed _ => 3 | Opened _ => 2 | Printed => 1 | Sent => 0 end.
Definition work (c : config) : nat := sum_list_with todo (stages c).

(** A goroutine's line, once it is printed. *)
Definition printed (i : nat) (s : stage) : list line :=
  match s with Printed | Sent => [result_line i (message i)] | _ => [] end.

(** What a goroutine holds. *)
Definition stage_ok (svc : Service) (i : nat) (s : stage) : Prop :=
  match s with
  | Sealed ct => Decrypt svc ct = Ok (message i)
  | Opened pt => pt = message i
  | _ => True
  end.

Record good (svc : Service) (c : config) : Prop := {
  good_random : has_random (needed (stages c)) (env c);
  good_stage i s : stages c !! i = Some s -> stage_ok svc i s;
  good_output : output c ≡ₚ mjoin (imap printed (stages c))
}.

(** ** Lemmas *)

Section insert.
Context (l : list stage) (i : nat) (s s' : stage) (Hi : l !! i = Some s).

Lemma needed_insert : cost s' = 0%nat -> needed l = Z.of_nat (cost s) + needed (<[i := s']> l).
Proof. unfold needed. pose proof (sum_insert l i s s' Hi cost). lia. Qed.

Lemma random_insert w : cost s = 0%nat -> cost s' = 0%nat -> has_random (needed l) w -> has_random (needed (<[i := s']> l)) w.
Proof. intros Hs Hs'. by rewrite needed_insert, Hs by done. Qed.

Lemma imap_printed_insert :
  mjoin (imap printed (<[i := s']> l)) ++ printed i s ≡ₚ mjoin (imap printed l) ++ printed i s'.
Proof.
  destruct (insert_split l i s s' Hi) as (a & b & <- & -> & ->). rewrite !imap_app, !join_app. cbn [imap].
  change (mjoin (?x :: ?y)) with (x ++ mjoin y). rewrite Nat.add_0_r. solve_Permutation.
Qed.
End insert.

Section run.
Context (key : bytes) (svc : Service) (Hkey : Sealer.NewSealer key = Ok (sealer svc)).

Lemma Encrypt_Decrypt p w :
  len p <= gcm_max -> has_random 12 w ->
  exists ct w', Encrypt svc p w = (Ok ct, w') /\ after_random 12 w w' /\ Decrypt svc ct = Ok p.
Proof.
  intros Hp Hw. destruct (Sealer_Seal_ok key _ p [] w Hkey Hp Hw) as (ct & w' & Hs & Ha). exists ct, w'.
  destruct (NewSealer_inv _ _ Hkey) as (Hse & Hop & _). split; [done|]. split; [done|].
  unfold Decrypt. rewrite Hop. rewrite Hse in Hs. by eapply Seal_then_Open.
Qed.

Lemma len_message i : len (message i) <= gcm_max.
Proof.
  unfold message. pose proof (length_FormatInt (Z.of_nat i)) as Hf. unfold FormatInt in Hf.
  rewrite (proj2 (Z.ltb_ge _ _)) in Hf by lia.
  unfold len. rewrite length_app. change (length (lit "from goroutine ")) with 15%nat. unfold gcm_max. lia.
Qed.

Lemma sum_replicate f n (s : stage) : sum_list_with f (replicate n s) = (n * f s)%nat.
Proof. induction n as [|n IH]; cbn [replicate sum_list_with]; lia. Qed.

(** Some goroutine still has work to do, or all have sent. *)
Lemma todo_cases l : (exists i s, l !! i = Some s /\ s <> Sent) \/ l = replicate (length l) Sent.
Proof.
  induction l as [|s l [(i & t & Hi & Ht)|IH]]; [by right| |].
  - left. by exists (S i), t.
  - destruct (decide (todo s = 0%nat)) as [Hs|Hs].
    + right. destruct s; try done. cbn [length replicate]. by f_equal.
    + left. exists 0%nat, s. split; [done|]. by intros ->.
Qed.

Lemma needed_nonneg l : 0 <= needed l.
Proof. unfold needed. lia. Qed.

(** *** The invariant *)

Lemma good_spawn n w : has_random (12 * Z.of_nat n) w -> good svc (spawn n w).
Proof.
  intros Hw. split; cbn [spawn stages output env].
  - unfold needed. rewrite sum_replicate. cbn [cost]. by rewrite Nat2Z.inj_mul, Z.mul_comm.
  - intros i s Hi. apply lookup_replicate_1 in Hi as [-> _]. done.
  - assert (Hn : forall f, mjoin (imap (fun i s => printed (f i) s) (replicate n Start)) = []).
    { induction n as [|n IH]; intros f; [done|]. cbn [replicate imap]. apply IH.
      eapply has_random_le; [|exact Hw]. lia. }
    by rewrite (Hn id : mjoin (imap printed (replicate n Start)) = []).
Qed.

(** One goroutine moves from [s] to [s']. *)
Lemma good_insert c i s s' out w' :
  good svc c -> stages c !! i = Some s -> stage_ok svc i s' ->
  out ++ printed i s ≡ₚ output c ++ printed i s' ->
  has_random (needed (<[i := s']> (stages c))) w' ->
  good svc {| stages := <[i := s']> (stages c); output := out; env := w' |}.
Proof.
  intros [Hr Hst Ho] Hi Hs' Hout Hw'. split; cbn [stages output env].
  - done.
  - intros j t [(-> & -> & _)|[_ Hj]]%list_lookup_insert_Some; [done|by apply Hst].
  - apply (Permutation_app_inv_r (printed i s)). by rewrite (imap_printed_insert _ _ _ s' Hi), Hout, Ho.
Qed.

(** Every step keeps the invariant. *)
Lemma good_step c c' : good svc c -> step svc c c' -> good svc c'.
Proof.
  intros Hg Hs. pose proof (good_random _ _ Hg) as Hr. pose proof (good_stage _ _ Hg) as Hst.
  destruct Hs as [c i o w' Hi He Hp|c i ct Hi Hp|c i pt Hi|c i Hi]; specialize (Hst _ _ Hi); cbn [stage_ok] in Hst.
  - rewrite (needed_insert _ _ _ (Sealed (value_or_zero o)) Hi eq_refl) in Hr. cbn [cost] in Hr.
    pose proof (needed_nonneg (<[i := Sealed (value_or_zero o)]> (stages c))).
    destruct (Encrypt_Decrypt (message i) (env c)) as (ct & w2 & He2 & Ha & Hd);
      [apply len_message|eapply has_random_le; [|exact Hr]; cbn [cost]; lia|].
    rewrite He2 in He. injection He as <- <-. eapply good_insert; [done..|].
    eapply (has_random_after 12); [..|exact Ha|]; [done|apply needed_nonneg|].
    exact Hr.
  - eapply good_insert; [done..| |done|by eapply random_insert]. by rewrite Hst.
  - eapply good_insert; [done..| |by eapply random_insert]. by rewrite Hst, app_nil_r.
  - eapply good_insert; [done..|by eapply random_insert].
Qed.

(** A step is one unit of work. *)
Lemma work_step c c' : step svc c c' -> work c = S (work c') /\ length (stages c') = length (stages c).
Proof.
  intros Hs. unfold work.
  destruct Hs as [c i o w' Hi He Hp|c i ct Hi Hp|c i pt Hi|c i Hi]; cbn [stages]; (split; [|apply length_insert]);
    match goal with |- context [<[i := ?s]> _] => pose proof (sum_insert _ _ _ s Hi todo) end; cbn [todo] in *; lia.
Qed.

(** No goroutine waits for another. *)
Lemma step_exists c i s : good svc c -> stages c !! i = Some s -> s <> Sent -> exists c', step svc c c'.
Proof.
  intros Hg Hi Hs. pose proof (good_stage _ _ Hg _ _ Hi) as Hst. pose proof (good_random _ _ Hg) as Hr.
  destruct s as [|ct|pt| |]; cbn [stage_ok] in Hst; try done.
  - rewrite (needed_insert _ _ _ Sent Hi) in Hr by done. cbn [cost] in Hr. pose proof (needed_nonneg (<[i := Sent]> (stages c))).
    destruct (Encrypt_Decrypt (message i) (env c)) as (ct & w2 & He2 & _);
      [apply len_message|eapply has_random_le; [|exact Hr]; lia|].
    eexists. by eapply step_encrypt.
  - eexists. eapply step_decrypt; [done|]. by rewrite Hst.
  - eexists. by eapply step_print.
  - eexists. by eapply step_send.
Qed.

Lemma run_invariant k c c' :
  nsteps (step svc) k c c' -> good svc c ->
  good svc c' /\ (k + work c' = work c)%nat /\ length (stages c') = length (stages c).
Proof.
  induction 1 as [c|k c c1 c' Hs _ IH]; intros Hg; [done|].
  destruct (IH (good_step _ _ Hg Hs)) as (? & ? & ?), (work_step _ _ Hs). split; [done|]. split; [lia|congruence].
Qed.
End run.

Lemma printed_all n : mjoin (imap printed (replicate n Sent)) = (fun i => result_line i (message i)) <$> seq 0 n.
Proof.
  assert (Hn : forall f, mjoin (imap (fun i s => printed (f i) s) (replicate n Sent)) =
                         (fun i => result_line (f i) (message (f i))) <$> seq 0 n).
  { induction n as [|n IH]; intros f; [done|]. cbn [replicate imap seq]. rewrite fmap_cons, <- seq_shift.
    apply (f_equal (cons _)). etrans; [exact (IH (f ∘ S))|]. by rewrite <- list_fmap_compose. }
  exact (Hn id).
Qed.

(** ** Property *)

(** C25: [examples/sealer] with its three goroutines, for every way they interleave over one random source.
    With 60 random bytes [main] prints the two texts and the plaintext it opened; from there no
    order of steps can get stuck or panic before all three goroutines have sent on [done],
    every order takes exactly twelve steps, and what the goroutines have printed by then is each
    one's own text, in some order. *)
Theorem goroutines_share_sealer w :
  has_random 60 w ->
  exists svc ct1 ct2 w',
    main w = (Done svc, [Printf (fmt "encrypted first: %s\n") [VText ct1];
                         Printf (fmt "decrypted:       %s\n") [VText (lit "first")];
                         Printf (fmt "encrypted second: %s\n") [VText ct2]], w') /\
    forall k c, nsteps (step svc) k (spawn 3 w') c ->
      (k <= 12)%nat /\
      (~ finished c -> (k < 12)%nat /\ exists c', step svc c c') /\
      (finished c -> k = 12%nat /\
        output c ≡ₚ [result_line 0 (message 0); result_line 1 (message 1); result_line 2 (message 2)]).
Proof.
  intros Hw. set (key := lit "01234567890123456789012345678901").
  destruct (proj2 (Sealer_equivalent key) eq_refl) as (sl & Hsl & _).
  destruct (Encrypt_Decrypt key (NewService sl) Hsl (lit "first") w) as (ct1 & w1 & He1 & Ha1 & Hd1);
    [by vm_compute|by eapply has_random_le; [|exact Hw]|].
  assert (Hw1 : has_random 48 w1) by (eapply (has_random_after 12); [done|done|exact Ha1|exact Hw]).
  destruct (Encrypt_Decrypt key (NewService sl) Hsl (lit "second") w1) as (ct2 & w2 & He2 & Ha2 & _);
    [by vm_compute|by eapply has_random_le; [|exact Hw1]|].
  assert (Hw2 : has_random 36 w2) by (eapply (has_random_after 12); [done|done|exact Ha2|exact Hw1]).
  exists (NewService sl), ct1, ct2, w2. split.
  - unfold main. rewrite (expr_Ok _ _ _ _ Hsl), (ignore_Ok _ _ _ _ _ _ He1), print_bind.
    rewrite (ignore_Ok _ _ _ _ (lit "first") w1) by (unfold lift; by rewrite Hd1).
    by rewrite print_bind, (ignore_Ok _ _ _ _ _ _ He2), print_bind.
  - intros k c Hk. destruct (run_invariant key (NewService sl) Hsl k _ _ Hk) as (Hg & Hwork & Hlen);
      [by apply good_spawn|]. change (work (spawn 3 w2)) with 12%nat in Hwork. change (length (stages c) = 3%nat) in Hlen.
    split; [lia|]. destruct (todo_cases (stages c)) as [(i & s & Hi & Hs)|Hall].
    + split; [intros _|].
      * destruct (step_exists key (NewService sl) Hsl c i s Hg Hi Hs) as [c' Hc'].
        destruct (work_step _ _ _ Hc'). split; [lia|eauto].
      * intros Hf. by pose proof (Forall_lookup_1 _ _ _ _ Hf Hi).
    + rewrite Hlen in Hall. split; [intros []; unfold finished; rewrite Hall; by repeat constructor|].
      intros _. split; [unfold work in Hwork; rewrite Hall in Hwork; cbn in Hwork; lia|].
      rewrite (good_output _ _ Hg), Hall. by rewrite printed_all.
Qed.

Lemma goroutines_share_sealer_witness :
  exists svc ct1 ct2 w', main demo_world = (Done svc, [Printf (fmt "encrypted first: %s\n") [VText ct1];
                         Printf (fmt "decrypted:       %s\n") [VText (lit "first")];
                         Printf (fmt "encrypted second: %s\n") [VText ct2]], w') /\
    exists c', step svc (spawn 3 w') c'.
Proof.
  destruct (goroutines_share_sealer demo_world) as (svc & ct1 & ct2 & w' & Hm & Hr); [vm_compute; discriminate|].
  exists svc, ct1, ct2, w'. split; [exact Hm|]. destruct (Hr 0%nat _ (nsteps_O _ _)) as (_ & Hp & _).
  apply Hp. intros Hf. inversion Hf. discriminate.
Defined.
