(* ===== verification/Accounts.v ===== *)
(** * Logging in: [examples/bcrypt_migration/main.go] and [examples/hash_password/main.go]

    The first program moves a user from bcrypt to argon2id at the next login, the second keeps
    a table of users by address. *)

From Stdlib Require Import Strings.String.
From S2P Require Import Prelude Errors GoIO Password Bcrypt GoText.

(** A user row; both programs declare the same type. *)
Record fakeUser := { Email : bytes; PasswordHash : bytes }.

(** ** Login with migration *)

Module BcryptMigration.

Section ops.
Context (IDKey : bytes -> bytes -> Z -> Z -> Z -> Z -> outcome bytes).
Context (CompareHashAndPassword : bytes -> bytes -> option error).

(** The user is passed by pointer, so the call returns it with the result. *)
Definition loginAndRehash (u : fakeUser) (plaintext : bytes) :
    world -> outcome unit * fakeUser * world := fun w =>
  if HasPrefix (PasswordHash u) (lit "$2") then
    match VerifyPasswordBcrypt CompareHashAndPassword plaintext (PasswordHash u) with
    | Panic p => (Panic p, u, w)
    | Err err => (Err err, u, w)
    | Ok ok =>
        if negb ok then (Err (Errorf "invalid credentials"), u, w)
        else
          match HashPassword IDKey plaintext w with
          | (Panic p, w') => (Panic p, u, w')
          | (Err err, w') => (Err err, u, w')
          | (Ok newHash, w') => (Ok tt, {| Email := Email u; PasswordHash := newHash |}, w')
          end
    end
  else if HasPrefix (PasswordHash u) (lit "$argon2") then
    match VerifyPassword IDKey plaintext (PasswordHash u) with
    | Panic p => (Panic p, u, w)
    | Err err => (Err err, u, w)
    | Ok ok => if negb ok then (Err (Errorf "invalid credentials"), u, w) else (Ok tt, u, w)
    end
  else (Err (Errorf "unknown password hash format"), u, w).
End ops.
End BcryptMigration.

(** ** Registration and login *)

Module Registry.

Abbreviation users := (gmap bytes fakeUser).

Section ops.
Context (IDKey : bytes -> bytes -> Z -> Z -> Z -> Z -> outcome bytes).

Definition register (email password : bytes) (us : users) : world -> outcome unit * users * world := fun w =>
  match us !! email with
  | Some _ => (Err (ErrorString "email already registered"), us, w)
  | None =>
      match HashPassword IDKey password w with
      | (Panic p, w') => (Panic p, us, w')
      | (Err err, w') => (Err (Wrapf "hash: %w" err), us, w')
      | (Ok hash, w') => (Ok tt, <[email := {| Email := email; PasswordHash := hash |}]> us, w')
      end
  end.

Definition login (email password : bytes) (us : users) : outcome unit :=
  match us !! email with
  | None => Err (ErrorString "invalid credentials")
  | Some u =>
      ok ← map_err (Wrapf "verify: %w") (VerifyPassword IDKey password (PasswordHash u));
      if negb ok then Err (ErrorString "invalid credentials") else Ok tt
  end.

(** The table after any number of registrations. *)
Inductive later : users -> users -> Prop :=
  | later_refl us : later us us
  | later_register us us1 email password w o us2 w' :
      later us us1 -> register email password us1 w = (o, us2, w') -> later us us2.

(** *** Lemmas *)

(** A registration adds at most one user and never touches the others. *)
Lemma register_keeps email password us w o us' w' e u :
  register email password us w = (o, us', w') -> us !! e = Some u -> us' !! e = Some u.
Proof.
  unfold register. intros H Hu. destruct (us !! email) eqn:He; [congruence|].
  destruct (HashPassword IDKey password w) as [[h|err|p] w1]; [|congruence..].
  injection H as _ <- _. rewrite lookup_insert_ne; [done|]. congruence.
Qed.

Lemma later_keeps us us' e u : later us us' -> us !! e = Some u -> us' !! e = Some u.
Proof. induction 1; eauto using register_keeps. Qed.
End ops.
End Registry.

Import BcryptMigration Registry.

(** ** Properties *)

(** A login never changes the user unless it succeeds on a bcrypt hash, and then it stores an
    argon2id hash of the same password under the same address. After any successful login the
    stored hash is an argon2 one, the same password logs in again at any later time, and that
    login changes neither the user nor the random source. *)
Theorem login_migrates IDKey Compare `{!ArgonOk IDKey} u pw w :
  let '(o, u', w') := loginAndRehash IDKey Compare u pw w in
  Email u' = Email u /\
  match o with
  | Ok _ =>
      (HasPrefix (PasswordHash u) (lit "$2") = true /\ Compare (PasswordHash u) pw = None \/ u' = u) /\
      HasPrefix (PasswordHash u') (lit "$argon2") = true /\
      (forall w2, loginAndRehash IDKey Compare u' pw w2 = (Ok tt, u', w2))
  | _ => u' = u
  end.
Proof.
  assert (Hagain : forall v w2, HasPrefix (PasswordHash v) (lit "$argon2") = true ->
    VerifyPassword IDKey pw (PasswordHash v) = Ok true ->
    loginAndRehash IDKey Compare v pw w2 = (Ok tt, v, w2)).
  { intros v w2 Hp Hv. unfold loginAndRehash. rewrite Hp, Hv.
    apply HasPrefix_spec in Hp as [r ->]. reflexivity. }
  unfold loginAndRehash. destruct (HasPrefix (PasswordHash u) (lit "$2")) eqn:H2.
  - pose proof (VerifyPasswordBcrypt_cases Compare pw (PasswordHash u)) as Hc.
    destruct (VerifyPasswordBcrypt Compare pw (PasswordHash u)) as [[]|e|p] eqn:Hv; [|done..].
    cbn [negb]. destruct (HashPassword IDKey pw w) as [[h|e|p] w1] eqn:Hh; [|done..].
    split; [done|]. apply HashPassword_Ok in Hh as (_ & Hp & Hok); [|done]. cbn [PasswordHash].
    apply (HasPrefix_app _ (lit "$argon2") (lit "id$")) in Hp.
    split; [|split; [done|]].
    + left. split; [done|]. destruct (Compare (PasswordHash u) pw) as [e|]; [|done].
      by destruct (errors_Is e ErrMismatchedHashAndPassword).
    + intros w2. exact (Hagain {| Email := Email u; PasswordHash := h |} w2 Hp Hok).
  - destruct (HasPrefix (PasswordHash u) (lit "$argon2")) eqn:Ha; [|done].
    destruct (VerifyPassword IDKey pw (PasswordHash u)) as [[]|e|p] eqn:Hv; [|done..].
    cbn [negb]. split; [done|]. split; [by right|]. split; [done|]. intros w2. exact (Hagain u w2 Ha Hv).
Qed.

Definition demo_user : fakeUser := {| Email := lit "a@b.c"; PasswordHash := lit "$2a$" ++ lit "hunter2" |}.

Lemma login_migrates_witness :
  exists u' w', loginAndRehash demo_IDKey plain_Compare demo_user (lit "hunter2") demo_world = (Ok tt, u', w') /\
    HasPrefix (PasswordHash u') (lit "$argon2") = true.
Proof.
  pose proof (login_migrates demo_IDKey plain_Compare demo_user (lit "hunter2") demo_world) as H.
  destruct (loginAndRehash demo_IDKey plain_Compare demo_user (lit "hunter2") demo_world) as [[o u'] w'] eqn:E.
  destruct o as [[]|e|p]; [exists u', w'; split; [reflexivity|apply H]|vm_compute in E; discriminate..].
Defined.

(** A registered user can log in. Registering a new address succeeds whenever 16 random bytes are
    there, registering a known one is refused and leaves the table alone; in every table reached
    by more registrations, of whatever addresses, the registered password logs in, and another
    one does exactly when it derives the same key from the stored salt. *)
Theorem register_then_login IDKey `{!ArgonOk IDKey} email pw us w :
  us !! email = None -> has_random 16 w ->
  exists us1 w1, register IDKey email pw us w = (Ok tt, us1, w1) /\ after_random 16 w w1 /\
  forall us2, later IDKey us1 us2 ->
    login IDKey email pw us2 = Ok tt /\
    (forall q, login IDKey email q us2 = Ok tt <->
       IDKey q (next_random 16 w) argonTimeCost argonMemoryKiB argonParallel argonKeyLen =
       IDKey pw (next_random 16 w) argonTimeCost argonMemoryKiB argonParallel argonKeyLen) /\
    (forall pw' w2, exists e, register IDKey email pw' us2 w2 = (Err e, us2, w2)).
Proof.
  intros Hn Hr. destruct (HashPassword_spec IDKey pw w Hr) as (s & w1 & H & Ha & _ & Hv & Hd).
  set (u := {| Email := email; PasswordHash := s |}). exists (<[email := u]> us), w1.
  split; [unfold register; by rewrite Hn, H|]. split; [done|]. intros us2 Hl.
  assert (Hu : us2 !! email = Some u) by (eapply later_keeps; [exact Hl|by rewrite lookup_insert_eq]).
  split; [unfold login; rewrite Hu; cbn [PasswordHash u]; by rewrite Hv|]. split.
  - intros q. destruct (Hd q) as (b & Hb & Hiff). unfold login. rewrite Hu. cbn [PasswordHash u].
    rewrite Hb. cbn [map_err mbind outcome_bind]. rewrite <- Hiff. by destruct b.
  - intros pw' w2. unfold register. rewrite Hu. eauto.
Qed.

Lemma register_then_login_witness :
  exists us1 w1, register demo_IDKey (lit "a@b.c") (lit "hunter2") ∅ demo_world = (Ok tt, us1, w1) /\
    login demo_IDKey (lit "a@b.c") (lit "hunter2") us1 = Ok tt.
Proof.
  destruct (register_then_login demo_IDKey (lit "a@b.c") (lit "hunter2") ∅ demo_world)
    as (us1 & w1 & H & _ & Hl); [reflexivity|vm_compute; discriminate|].
  exists us1, w1. split; [exact H|]. exact (proj1 (Hl us1 (later_refl _ us1))).
Defined.
