(* ===== verification/Webhook.v ===== *)
(** * Timestamped webhook signatures: [examples/webhook_with_timestamp/main.go]

    The signed text is [<unix seconds>.<body>]; the receiver checks the MAC and that the
    timestamp is close to its own clock. *)

From Stdlib Require Import Strings.String.
From S2P Require Import Prelude Errors Hex GoIO Sha256 Sign TimeLock Password GoText.

(** ** Operations *)

Definition SignWebhook (secret body : bytes) (now : Z) : bytes :=
  let ts := FormatInt (Unix now) in
  let signed := ts ++ lit "." in
  let signed := signed ++ body in
  let mac := Sign secret signed in
  lit "t=" ++ ts ++ lit ",v1=" ++ Hex.EncodeToString mac.

(** One turn of the loop over the header's parts. *)
Definition header_part (acc : bytes * bytes) (p : bytes) : bytes * bytes :=
  let '(ts, v1) := acc in
  if HasPrefix p (lit "t=") then (TrimPrefix p (lit "t="), v1)
  else if HasPrefix p (lit "v1=") then (ts, TrimPrefix p (lit "v1="))
  else (ts, v1).

Definition VerifyWebhook (secret body header : bytes) (now tolerance : Z) : outcome unit :=
  let parts := Split x2c header in
  if negb (len parts =? 2) then Err (ErrorString "malformed signature header")
  else
    let '(ts, v1) := fold_left header_part parts ([], []) in
    if bool_decide (ts = []) || bool_decide (v1 = []) then
      Err (ErrorString "malformed signature header")
    else
      match ParseInt ts with
      | None => Err (ErrorString "malformed timestamp")
      | Some tsInt =>
          let delta := i64 (Unix now - tsInt) in
          let delta := if delta <? 0 then i64 (- delta) else delta in
          if tolerance <? i64 (delta * Second) then
            Err (ErrorString "timestamp outside tolerance — possible replay")
          else
            mac ← map_err (fun _ => ErrorString "malformed mac") (Hex.DecodeString v1);
            let signed := ts ++ lit "." in
            let signed := signed ++ body in
            if negb (Sign.Verify secret signed mac) then Err (ErrorString "signature mismatch")
            else Ok tt
      end.

(** The freshness test alone. *)
Definition fresh (tsInt now tolerance : Z) : bool :=
  let delta := i64 (Unix now - tsInt) in
  negb (tolerance <? i64 ((if delta <? 0 then i64 (- delta) else delta) * Second)).

(** ** Lemmas *)

(** *** The header *)

Lemma hex_no_comma src : x2c ∉ Hex.EncodeToString src.
Proof. intros Hin%list_elem_of_In%Hex.Encode_lower. done. Qed.

Lemma header_part_cases ts v1 p :
  (exists r, p = lit "t=" ++ r /\ header_part (ts, v1) p = (r, v1)) \/
  (exists r, p = lit "v1=" ++ r /\ header_part (ts, v1) p = (ts, r)) \/
  header_part (ts, v1) p = (ts, v1).
Proof.
  unfold header_part. destruct (HasPrefix p (lit "t=")) eqn:Ht.
  { left. apply HasPrefix_spec in Ht as [r ->]. exists r. by rewrite TrimPrefix_app. }
  destruct (HasPrefix p (lit "v1=")) eqn:Hv; [|by right; right].
  right; left. apply HasPrefix_spec in Hv as [r ->]. exists r. by rewrite TrimPrefix_app.
Qed.

Lemma header_part_t ts v1 r : header_part (ts, v1) (lit "t=" ++ r) = (r, v1).
Proof.
  unfold header_part. rewrite (proj2 (HasPrefix_spec (lit "t=" ++ r) (lit "t="))) by eauto.
  by rewrite TrimPrefix_app.
Qed.

Lemma header_part_v1 ts v1 r : header_part (ts, v1) (lit "v1=" ++ r) = (ts, r).
Proof.
  unfold header_part. change (HasPrefix (lit "v1=" ++ r) (lit "t=")) with false. cbv beta iota.
  rewrite (proj2 (HasPrefix_spec (lit "v1=" ++ r) (lit "v1="))) by eauto. by rewrite TrimPrefix_app.
Qed.

(** Both fields are set exactly by one part each. *)
Lemma header_fields p1 p2 ts v1 :
  ts <> [] -> v1 <> [] ->
  fold_left header_part [p1; p2] ([], []) = (ts, v1) <->
  (p1 = lit "t=" ++ ts /\ p2 = lit "v1=" ++ v1) \/ (p1 = lit "v1=" ++ v1 /\ p2 = lit "t=" ++ ts).
Proof.
  intros Ht Hv. cbn [fold_left]. split.
  - destruct (header_part_cases [] [] p1) as [(r & -> & ->)|[(r & -> & ->)| ->]];
      match goal with |- header_part (?a, ?b) p2 = _ -> _ =>
        destruct (header_part_cases a b p2) as [(r2 & -> & ->)|[(r2 & -> & ->)| ->]] end;
      intros [= <- <-]; done || auto.
  - intros [[-> ->]|[-> ->]].
    + by rewrite header_part_t, header_part_v1.
    + by rewrite header_part_v1, header_part_t.
Qed.

Lemma no_comma_t ts : x2c ∉ ts <-> x2c ∉ lit "t=" ++ ts.
Proof. cbn. rewrite !not_elem_of_cons. naive_solver. Qed.
Lemma no_comma_v1 v1 : x2c ∉ v1 <-> x2c ∉ lit "v1=" ++ v1.
Proof. cbn. rewrite !not_elem_of_cons. naive_solver. Qed.

(** A header with both fields. *)
Definition is_header (header ts v1 : bytes) : Prop :=
  x2c ∉ ts /\ x2c ∉ v1 /\
  (header = lit "t=" ++ ts ++ lit ",v1=" ++ v1 \/ header = lit "v1=" ++ v1 ++ lit ",t=" ++ ts).

Lemma is_header_Split header ts v1 :
  ts <> [] -> v1 <> [] ->
  is_header header ts v1 <-> exists p1 p2, Split x2c header = [p1; p2] /\
    fold_left header_part [p1; p2] ([], []) = (ts, v1).
Proof.
  intros Ht Hv. unfold is_header. split.
  - intros (H1 & H2 & [-> | ->]).
    + exists (lit "t=" ++ ts), (lit "v1=" ++ v1). rewrite header_fields, Split_two, <- no_comma_t, <- no_comma_v1; [|done..].
      split; [|by left]. split; [reflexivity|done].
    + exists (lit "v1=" ++ v1), (lit "t=" ++ ts). rewrite header_fields, Split_two, <- no_comma_t, <- no_comma_v1; [|done..].
      split; [|by right]. split; [reflexivity|done].
  - intros (p1 & p2 & (-> & H1 & H2)%Split_two & [[-> ->]|[-> ->]]%header_fields); [..|done|done];
      rewrite <- no_comma_t, <- no_comma_v1 in *; (split; [done|]); (split; [done|]); [left|right]; reflexivity.
Qed.

(** What the call does with a well-formed header. *)
Lemma VerifyWebhook_header secret body header ts v1 now tolerance :
  ts <> [] -> v1 <> [] -> is_header header ts v1 ->
  VerifyWebhook secret body header now tolerance =
    match ParseInt ts with
    | None => Err (ErrorString "malformed timestamp")
    | Some t =>
        if negb (fresh t now tolerance) then Err (ErrorString "timestamp outside tolerance — possible replay")
        else match Hex.DecodeString v1 with
             | Ok mac => if negb (Sign.Verify secret (ts ++ lit "." ++ body) mac)
                         then Err (ErrorString "signature mismatch") else Ok tt
             | _ => Err (ErrorString "malformed mac")
             end
    end.
Proof.
  intros Ht Hv (p1 & p2 & Hs & Hf)%is_header_Split; [|done..]. unfold VerifyWebhook. rewrite Hs.
  change (len [p1; p2] =? 2) with true. cbn [negb]. rewrite Hf, !bool_decide_eq_false_2 by done.
  cbn [orb]. unfold fresh. destruct (ParseInt ts) as [t|]; [|done]. cbv zeta. rewrite negb_involutive.
  case_bool; [done|]. pose proof (Hex.hex_no_panic v1) as Hp.
  destruct (Hex.DecodeString v1) as [mac|e|m]; [|done..]. by rewrite <- app_assoc.
Qed.

(** Near clocks: no wrap-around in the test. *)
Lemma fresh_near t now tolerance :
  Z.abs (Unix now - t) <= 9223372036 ->
  fresh t now tolerance = (Z.abs (Unix now - t) * Second <=? tolerance).
Proof.
  intros Hd. unfold fresh, Second.
  assert (Hi : forall z, - 2 ^ 63 <= z < 2 ^ 63 -> i64 z = z)
    by (intros z Hz; unfold i64; rewrite Z.mod_small; lia).
  rewrite (Hi (Unix now - t)) by lia. destruct (Z.ltb_spec (Unix now - t) 0) as [H|H].
  - rewrite (Hi (- _)), Hi by lia. rewrite Z.abs_neq by lia. lia.
  - rewrite Hi by lia. rewrite Z.abs_eq by lia. lia.
Qed.

Lemma Sign_not_nil secret data : Hex.EncodeToString (Sign secret data) <> [].
Proof.
  intros H. pose proof (Hex.hex_length (Sign secret data)) as Hl. rewrite len_Sign, H in Hl. discriminate.
Qed.

Lemma SignWebhook_header secret body now :
  in_int64 (Unix now) ->
  is_header (SignWebhook secret body now) (FormatInt (Unix now))
    (Hex.EncodeToString (Sign secret (FormatInt (Unix now) ++ lit "." ++ body))).
Proof.
  intros Hn. split; [by apply FormatInt_no_comma|]. split; [apply hex_no_comma|]. left.
  unfold SignWebhook. by rewrite <- app_assoc.
Qed.

(** ** Properties *)

(** [VerifyWebhook] accepts a header exactly when it has one timestamp field and one MAC field, in
    either order, the timestamp is a decimal [int64] that passes the freshness test, and the MAC
    is the hexadecimal form of the signature of this timestamp and this body. *)
Theorem VerifyWebhook_exact secret body header now tolerance :
  VerifyWebhook secret body header now tolerance = Ok tt <->
  exists ts v1 t, is_header header ts v1 /\ ParseInt ts = Some t /\ fresh t now tolerance = true /\
    Hex.DecodeString v1 = Ok (Sign secret (ts ++ lit "." ++ body)).
Proof.
  split.
  - intros H. assert (Hh : exists ts v1, ts <> [] /\ v1 <> [] /\ is_header header ts v1).
    { unfold VerifyWebhook in H. destruct (Split x2c header) as [|p1 [|p2 [|p3 ps]]] eqn:Hs; [discriminate..| |].
      2: { rewrite (proj2 (Z.eqb_neq _ _)) in H; [discriminate|]. rewrite !len_cons. pose proof (len_nonneg ps). lia. }
      change (len [p1; p2] =? 2) with true in H. cbn [negb] in H.
      destruct (fold_left header_part [p1; p2] ([], [])) as [ts v1] eqn:Hf. exists ts, v1.
      destruct (decide (ts = [])) as [->|Ht]; [discriminate|].
      destruct (decide (v1 = [])) as [->|Hv]; [by rewrite orb_true_r in H|].
      split; [done|]. split; [done|]. apply is_header_Split; eauto. }
    destruct Hh as (ts & v1 & Ht & Hv & Hh). rewrite (VerifyWebhook_header _ _ _ ts v1) in H by done.
    destruct (ParseInt ts) as [t|] eqn:Hp; [|discriminate].
    destruct (fresh t now tolerance) eqn:Hfr; [|discriminate]. cbn [negb] in H.
    destruct (Hex.DecodeString v1) as [mac|e|m] eqn:Hd; [|discriminate..].
    rewrite Verify_spec in H. case_bool_decide as Hm; [|discriminate]. subst mac.
    exists ts, v1, t. done.
  - intros (ts & v1 & t & Hh & Hp & Hfr & Hd). rewrite (VerifyWebhook_header _ _ _ ts v1); [|..|done].
    + by rewrite Hp, Hfr, Hd, Verify_spec, bool_decide_eq_true_2.
    + by intros ->.
    + intros ->. apply (f_equal (fun o => match o with Ok x => len x | _ => 0 end)) in Hd.
      by rewrite len_Sign in Hd.
Qed.

(** A signed webhook verifies within the tolerance and not outside: when the two clocks are less than
    292 years apart, the call on a [SignWebhook] header succeeds exactly when their distance is at
    most the tolerance. *)
Theorem Webhook_window secret body sent now tolerance :
  in_int64 (Unix sent) -> Z.abs (Unix now - Unix sent) <= 9223372036 ->
  VerifyWebhook secret body (SignWebhook secret body sent) now tolerance =
    if Z.abs (Unix now - Unix sent) * Second <=? tolerance then Ok tt
    else Err (ErrorString "timestamp outside tolerance — possible replay").
Proof.
  intros Hs Hd. rewrite (VerifyWebhook_header _ _ _ (FormatInt (Unix sent))
    (Hex.EncodeToString (Sign secret (FormatInt (Unix sent) ++ lit "." ++ body))));
    [|by apply FormatInt_no_comma|apply Sign_not_nil|by apply SignWebhook_header].
  rewrite Parse_Format, fresh_near, Hex.hex_roundtrip by done. rewrite Verify_spec, bool_decide_eq_true_2 by done.
  by destruct (_ <=? tolerance).
Qed.

Lemma Webhook_window_witness :
  VerifyWebhook (lit "k") (lit "{}") (SignWebhook (lit "k") (lit "{}") (1700000000 * 10 ^ 9))
    (1700000300 * 10 ^ 9) (300 * 10 ^ 9) = Ok tt.
Proof. apply (Webhook_window (lit "k") (lit "{}")); [split|]; vm_compute; congruence. Defined.

(** The freshness test wraps around: a timestamp between 9223372037 and 18446744073 seconds (292 to 584
    years) away from the receiver's clock passes it for every tolerance, so a header signed there
    is accepted. *)
Theorem Webhook_window_wraps secret body sent now tolerance :
  in_int64 (Unix sent) -> 9223372037 <= Z.abs (Unix now - Unix sent) <= 18446744073 -> 0 <= tolerance ->
  VerifyWebhook secret body (SignWebhook secret body sent) now tolerance = Ok tt.
Proof.
  intros Hs Hd Ht. rewrite (VerifyWebhook_header _ _ _ (FormatInt (Unix sent))
    (Hex.EncodeToString (Sign secret (FormatInt (Unix sent) ++ lit "." ++ body))));
    [|by apply FormatInt_no_comma|apply Sign_not_nil|by apply SignWebhook_header].
  rewrite Parse_Format, Hex.hex_roundtrip by done.
  assert (fresh (Unix sent) now tolerance = true) as ->.
  { unfold fresh, Second. set (d := Unix now - Unix sent) in *.
    assert (Hi : forall z, - 2 ^ 63 <= z < 2 ^ 63 -> i64 z = z)
      by (intros z Hz; unfold i64; rewrite Z.mod_small; lia).
    assert (Hw : forall z, 9223372037 <= z <= 18446744073 -> i64 (z * 10 ^ 9) = z * 10 ^ 9 - 2 ^ 64).
    { intros z Hz. unfold i64. replace (z * 10 ^ 9 + 2 ^ 63) with (z * 10 ^ 9 - 2 ^ 63 + 1 * 2 ^ 64) by lia.
      rewrite Z.mod_add, Z.mod_small by lia. lia. }
    rewrite (Hi d) by lia. destruct (Z.ltb_spec d 0) as [H|H]; [rewrite (Hi (- d)) by lia|];
      rewrite Hw by lia; apply negb_true_iff, Z.ltb_ge; lia. }
  cbn [negb]. by rewrite Verify_spec, bool_decide_eq_true_2.
Qed.

Lemma Webhook_window_wraps_witness :
  VerifyWebhook (lit "k") (lit "{}") (SignWebhook (lit "k") (lit "{}") (1700000000 * 10 ^ 9))
    (10923372037 * 10 ^ 9) 0 = Ok tt.
Proof. apply (Webhook_window_wraps (lit "k") (lit "{}")); [split|split|]; vm_compute; congruence. Defined.
