(* ===== verification/AuditLog.v ===== *)
(** * The hash-chained audit log: [examples/audit_log_chain/main.go]

    Each entry carries an HMAC over the previous entry's HMAC and its own payload. *)

From S2P Require Import Prelude Errors GoIO Sha256 Sign Password GoText.

(** ** Time formatting

    [t.UTC().Format(time.RFC3339Nano)] of a time in nanoseconds since the Unix epoch. *)

(** Year, month and day of a day number (day 0 is 1970-01-01). *)
Definition civil_from_days (days : Z) : Z * Z * Z :=
  let z := days + 719468 in
  let era := z / 146097 in
  let doe := z - era * 146097 in
  let yoe := (doe - doe / 1460 + doe / 36524 - doe / 146096) / 365 in
  let doy := doe - (365 * yoe + yoe / 4 - yoe / 100) in
  let mp := (5 * doy + 2) / 153 in
  let d := doy - (153 * mp + 2) / 5 + 1 in
  let m := if mp <? 10 then mp + 3 else mp - 9 in
  (yoe + era * 400 + (if m <=? 2 then 1 else 0), m, d).

(** A non-negative number with at least [width] digits. *)
Definition pad_left (width : nat) (n : Z) : bytes :=
  let s := Itoa n in replicate (width - length s) x30 ++ s.

Definition trim_zeros (s : bytes) : bytes :=
  let fix go (s : bytes) := match s with b :: s' => if bool_decide (b = x30) then go s' else s | [] => [] end in
  reverse (go (reverse s)).

Definition RFC3339Nano (t : Z) : bytes :=
  let sec := t / 10 ^ 9 in
  let nsec := t mod 10 ^ 9 in
  let '(y, m, d) := civil_from_days (sec / 86400) in
  let s := sec mod 86400 in
  pad_left 4 y ++ lit "-" ++ pad_left 2 m ++ lit "-" ++ pad_left 2 d ++ lit "T" ++
  pad_left 2 (s / 3600) ++ lit ":" ++ pad_left 2 (s / 60 mod 60) ++ lit ":" ++ pad_left 2 (s mod 60) ++
  (if nsec =? 0 then [] else lit "." ++ trim_zeros (pad_left 9 nsec)) ++ lit "Z".

Example format_time : RFC3339Nano (1700000000 * 10 ^ 9 + 120) = lit "2023-11-14T22:13:20.00000012Z".
Proof. vm_compute. reflexivity. Qed.

(** ** State and operations *)

Record AuditEntry := {
  Timestamp : Z; Actor : bytes; Action : bytes; Resource : bytes; MAC : bytes
}.

Definition payload (e : AuditEntry) : bytes :=
  RFC3339Nano (Timestamp e) ++ lit "|" ++ Actor e ++ lit "|" ++ Action e ++ lit "|" ++ Resource e.

Record AuditLog := { secret : bytes; entries : list AuditEntry }.

Definition NewAuditLog (secret : bytes) : AuditLog := {| secret := secret; entries := [] |}.

Definition Append (l : AuditLog) (actor action resource : bytes) : M AuditLog :=
  let prev := match last (entries l) with Some e => MAC e | None => [] end in
  now ← time_Now;
  let e := {| Timestamp := now; Actor := actor; Action := action; Resource := resource; MAC := [] |} in
  let signed := prev ++ payload e in
  let e := {| Timestamp := now; Actor := actor; Action := action; Resource := resource;
              MAC := Sign (secret l) signed |} in
  mret {| secret := secret l; entries := entries l ++ [e] |}.

(** The loop of [Verify], from entry [i]. *)
Fixpoint verify_from (secret prev : bytes) (i : Z) (es : list AuditEntry) : Z :=
  match es with
  | [] => -1
  | e :: es' =>
      let signed := prev ++ payload e in
      if negb (Sign.Verify secret signed (MAC e)) then i
      else verify_from secret (MAC e) (i + 1) es'
  end.

Definition Verify (l : AuditLog) : Z := verify_from (secret l) [] 0 (entries l).

(** The log after a call at time [t]. *)
Definition appended (l : AuditLog) (t : Z) (actor action resource : bytes) : AuditLog :=
  let e := {| Timestamp := t; Actor := actor; Action := action; Resource := resource; MAC := [] |} in
  {| secret := secret l;
     entries := entries l ++ [{| Timestamp := t; Actor := actor; Action := action; Resource := resource;
       MAC := Sign (secret l) (match last (entries l) with Some e => MAC e | None => [] end ++ payload e) |}] |}.

(** ** The contract *)

(** Every entry's MAC is the signature of the one before it and its payload. *)
Fixpoint chained (secret prev : bytes) (es : list AuditEntry) : Prop :=
  match es with
  | [] => True
  | e :: es' => MAC e = Sign secret (prev ++ payload e) /\ chained secret (MAC e) es'
  end.

(** The MAC the next entry is chained to. *)
Definition tip (prev : bytes) (es : list AuditEntry) : bytes :=
  match last es with Some e => MAC e | None => prev end.

(** A log built by [NewAuditLog] and [Append] calls. *)
Inductive written : AuditLog -> Prop :=
  | written_new s : written (NewAuditLog s)
  | written_append l actor action resource w l' w' :
      written l -> Append l actor action resource w = (Ok l', w') -> written l'.

(** ** Lemmas *)

Lemma tip_cons prev e es : tip prev (e :: es) = tip (MAC e) es.
Proof.
  unfold tip. destruct es as [|e' es]; [done|]. rewrite last_cons_cons.
  destruct (last (e' :: es)) eqn:E; [done|]. by apply last_None in E.
Qed.

Lemma chained_app s prev es1 es2 :
  chained s prev (es1 ++ es2) <-> chained s prev es1 /\ chained s (tip prev es1) es2.
Proof.
  revert prev; induction es1 as [|e es1 IH]; intros prev; cbn [app chained].
  - change (tip prev []) with prev. tauto.
  - rewrite IH, tip_cons. tauto.
Qed.

Lemma Append_run l actor action resource w :
  Append l actor action resource w = (Ok (appended l (w_now w) actor action resource), w).
Proof. done. Qed.

(** The loop stops at the first entry that breaks the chain. *)
Lemma verify_from_spec s prev i es :
  0 <= i ->
  (verify_from s prev i es = -1 /\ chained s prev es) \/
  (exists es1 e es2, es = es1 ++ e :: es2 /\ verify_from s prev i es = i + len es1 /\
     chained s prev es1 /\ MAC e <> Sign s (tip prev es1 ++ payload e)).
Proof.
  revert prev i; induction es as [|e es IH]; intros prev i Hi; cbn [verify_from chained]; [by left|].
  rewrite Verify_spec. case_bool_decide as Hm; cbn [negb].
  - destruct (IH (MAC e) (i + 1) ltac:(lia)) as [[-> Hc]|(es1 & e' & es2 & -> & -> & Hc & Hne)];
      [by left|right].
    exists (e :: es1), e', es2. rewrite tip_cons, len_cons. repeat split; [lia|done..].
  - right. exists [], e, es. repeat split; [|done]. rewrite len_nil. lia.
Qed.

Lemma Verify_chained l : Verify l = -1 <-> chained (secret l) [] (entries l).
Proof.
  unfold Verify. destruct (verify_from_spec (secret l) [] 0 (entries l)) as
    [[-> Hc]|(es1 & e & es2 & He & -> & Hc & Hne)]; [done|done|].
  split; [pose proof (len_nonneg es1); lia|].
  rewrite He, chained_app. by intros (_ & Hm & _).
Qed.

Lemma written_chained l : written l -> chained (secret l) [] (entries l).
Proof.
  induction 1 as [s|l actor action resource w l' w' _ IH H]; [done|].
  rewrite Append_run in H. injection H as <- _. cbn [secret entries appended].
  rewrite chained_app. split; [done|]. cbn [chained MAC]. split; [|exact I].
  unfold payload, tip. cbn [Timestamp Actor Action Resource]. reflexivity.
Qed.

(** ** Properties *)

(** [AuditLog.Verify] returns -1 exactly on chains: every log written by [Append] calls
    verifies, and otherwise the index returned is that of the first entry whose MAC is not the
    signature of the entry before it and its own payload. *)
Theorem AuditLog_Verify_exact l :
  (Verify l = -1 <-> chained (secret l) [] (entries l)) /\
  (written l -> Verify l = -1) /\
  (Verify l <> -1 -> exists es1 e es2, entries l = es1 ++ e :: es2 /\ Verify l = len es1 /\
     chained (secret l) [] es1 /\ MAC e <> Sign (secret l) (tip [] es1 ++ payload e)).
Proof.
  split; [apply Verify_chained|]. split; [intros H; by apply Verify_chained, written_chained|].
  intros Hv. destruct (verify_from_spec (secret l) [] 0 (entries l)) as
    [[Hm _]|(es1 & e & es2 & He & Hi & Hc & Hne)]; [done|done|].
  exists es1, e, es2. unfold Verify. rewrite Hi. done.
Qed.

(** A log of two entries. *)
Definition at_time (t : Z) : world := {| w_rand := w_rand demo_world; w_now := t |}.
Definition demo_log1 : AuditLog :=
  appended (NewAuditLog (lit "k")) (w_now (at_time 5)) (lit "usr|1") (lit "login") (lit "/auth").
Definition demo_log : AuditLog :=
  appended demo_log1 (w_now (at_time 7)) (lit "usr|1") (lit "view") (lit "/billing").

Lemma demo_log_written : written demo_log.
Proof.
  assert (H1 : written demo_log1)
    by exact (written_append _ _ _ _ _ _ _ (written_new (lit "k")) (Append_run _ _ _ _ (at_time 5))).
  exact (written_append _ _ _ _ _ _ _ H1 (Append_run _ _ _ _ (at_time 7))).
Qed.

Lemma AuditLog_Verify_exact_witness : Verify demo_log = -1.
Proof. exact (proj1 (proj2 (AuditLog_Verify_exact demo_log)) demo_log_written). Defined.

(** What the chain does not protect. Dropping any number of entries from the end leaves a log that
    verifies, and so does moving a piece of a field across a separator: an entry of actor
    [a|b] and action [c] has the MAC of one of actor [a] and action [b|c]. *)
Theorem AuditLog_undetected l :
  Verify l = -1 ->
  (forall n, Verify {| secret := secret l; entries := take n (entries l) |} = -1) /\
  (forall es1 e es2 a b, entries l = es1 ++ e :: es2 -> Actor e = a ++ lit "|" ++ b ->
     let e' := {| Timestamp := Timestamp e; Actor := a; Action := b ++ lit "|" ++ Action e;
                  Resource := Resource e; MAC := MAC e |} in
     Verify {| secret := secret l; entries := es1 ++ e' :: es2 |} = -1).
Proof.
  rewrite !Verify_chained. intros Hc. split.
  - intros n. apply Verify_chained. cbn [secret entries].
    rewrite <- (take_drop n (entries l)), chained_app in Hc. by destruct Hc.
  - intros es1 e es2 a b He Ha e'. apply Verify_chained. cbn [secret entries].
    rewrite He in Hc. apply chained_app in Hc as (H1 & Hm & H2). apply chained_app.
    split; [done|]. cbn [chained]. split; [|done]. cbn [MAC e']. rewrite Hm. do 2 f_equal.
    unfold payload. cbn [Timestamp Actor Action Resource e']. rewrite Ha. by rewrite <- !app_assoc.
Qed.

Lemma AuditLog_undetected_witness :
  Verify {| secret := secret demo_log; entries := take 1 (entries demo_log) |} = -1.
Proof.
  refine (proj1 (AuditLog_undetected demo_log _) 1%nat).
  exact (proj2 (Verify_chained demo_log) (written_chained demo_log demo_log_written)).
Defined.
