(* ===== verification/Recipes.v ===== *)
(** * Key rotation, data migration and tenant keys

    The logic of [examples/key_rotation/main.go], [examples/migrate_cbc_to_gcm/main.go] and
    [examples/tenant_keys/main.go] over the library. *)

From Stdlib Require Import Strings.String.
From S2P Require Import Prelude Errors Base64 GoIO Cipher Format Aead Cbc Auto Hkdf.

(** ** [MultiKeyReader] *)

Record MultiKeyReader := { keys : list bytes }.

Definition NewMultiKeyReader (active : bytes) (retired : list bytes) : MultiKeyReader :=
  {| keys := [active] ++ retired |}.

(** The loop over the keys, with [lastErr]. *)
Fixpoint open_any (ks : list bytes) (lastErr : option error) (ciphertext aad : bytes) : outcome bytes :=
  match ks with
  | [] =>
      match lastErr with
      | None => Err (ErrorString "no keys configured")
      | Some e => Err e
      end
  | k :: ks' =>
      match Aead.Open k ciphertext aad with
      | Ok pt => Ok pt
      | Err err => open_any ks' (Some err) ciphertext aad
      | Panic p => Panic p
      end
  end.

Definition MultiKeyReader_Open (m : MultiKeyReader) (ciphertext aad : bytes) : outcome bytes :=
  open_any (keys m) None ciphertext aad.

(** ** The migration script

    The table is a map from row ids to texts; [range] visits each id once, in an order the
    caller of the model gives. *)

Record migration := { rows : gmap bytes bytes; migrated : Z; skipped : Z; errored : Z }.

Definition migrate_row (key : bytes) (m : migration) (id : bytes) : M migration := fun w =>
  match rows m !! id with
  | None => (Ok m, w)
  | Some oldCt =>
      let count_error :=
        {| rows := rows m; migrated := migrated m; skipped := skipped m; errored := errored m + 1 |} in
      match OpenAuto key oldCt [] with
      | Panic p => (Panic p, w)
      | Err _ => (Ok count_error, w)
      | Ok plain =>
          match Aead.Seal key plain [] w with
          | (Panic p, w') => (Panic p, w')
          | (Err _, w') => (Ok count_error, w')
          | (Ok newCt, w') =>
              if bool_decide (oldCt = newCt) then
                (Ok {| rows := rows m; migrated := migrated m; skipped := skipped m + 1;
                       errored := errored m |}, w')
              else
                (Ok {| rows := <[id := newCt]> (rows m); migrated := migrated m + 1;
                       skipped := skipped m; errored := errored m |}, w')
          end
      end
  end.

Fixpoint migrate (key : bytes) (m : migration) (order : list bytes) : M migration :=
  match order with
  | [] => mret m
  | id :: order' => m' ← migrate_row key m id; migrate key m' order'
  end.

Definition truncate (s : bytes) (n : Z) : outcome bytes :=
  if len s <=? n then Ok s else slice s 0 n.

(** ** [deriveTenantKey] *)

Definition deriveTenantKey (New : bytes -> bytes -> bytes -> reader) (rootKey tenantID : bytes) :
    outcome bytes :=
  let h := New rootKey [] (lit "tenant:" ++ tenantID) in
  match ReadFull (Z.to_nat AEADKeySize) h with
  | (out, None, _) => Ok out
  | (_, Some err, _) => Err err
  end.

(** ** Lemmas *)

Lemma open_any_spec ks lastErr text aad :
  match open_any ks lastErr text aad with
  | Ok p => exists ks1 k ks2, ks = ks1 ++ k :: ks2 /\ Aead.Open k text aad = Ok p /\
      Forall (fun k' => is_ok (Aead.Open k' text aad) = false) ks1
  | Err e => Forall (fun k => is_ok (Aead.Open k text aad) = false) ks /\
      match last ks with
      | Some k => Aead.Open k text aad = Err e
      | None => match lastErr with Some e' => e = e' | None => e = ErrorString "no keys configured" end
      end
  | Panic _ => False
  end.
Proof.
  revert lastErr; induction ks as [|k ks IH]; intros lastErr; cbn [open_any].
  - destruct lastErr; (split; [constructor|done]).
  - pose proof (Open_no_panic k text aad) as Hp.
    destruct (Aead.Open k text aad) as [p|e|m] eqn:Ho; [|specialize (IH (Some e))|done].
    + exists [], k, ks. done.
    + destruct (open_any ks (Some e) text aad) as [p|e'|m]; [| |done].
      * destruct IH as (ks1 & k' & ks2 & -> & Hk & Hf). exists (k :: ks1), k', ks2.
        split; [done|]. split; [done|]. constructor; [by rewrite Ho|done].
      * destruct IH as [Hf Hl]. split; [constructor; [by rewrite Ho|done]|].
        destruct ks as [|k2 ks]; [by rewrite Hl|]. rewrite last_cons_cons.
        destruct (last (k2 :: ks)) eqn:E; [done|]. by apply last_None in E.
Qed.

(** The plaintext a reader of both formats sees. *)
Definition plaintext_of (key : bytes) (db : gmap bytes bytes) (id : bytes) : option bytes :=
  ct ← db !! id; match OpenAuto key ct [] with Ok p => Some p | _ => None end.

(** A row after migration: still the old text, or an AEAD text of the same plaintext. *)
Definition row_kept (key : bytes) (old new : option bytes) : Prop :=
  new = old \/
  exists ct ct' p, old = Some ct /\ new = Some ct' /\ OpenAuto key ct [] = Ok p /\ Aead.Open key ct' [] = Ok p.

Definition total (m : migration) : Z := migrated m + skipped m + errored m.

(** What one row does to the table and the counters. *)
Definition row_done (key : bytes) (m : migration) (id : bytes) (m' : migration) : Prop :=
  (forall i, i <> id -> rows m' !! i = rows m !! i) /\
  row_kept key (rows m !! id) (rows m' !! id) /\
  (is_Some (rows m !! id) -> total m' = total m + 1) /\
  errored m <= errored m' /\
  (errored m' = errored m ->
   forall ct, rows m' !! id = Some ct -> exists p, Aead.Open key ct [] = Ok p).

Lemma count_error_done key m id :
  row_done key m id
    {| rows := rows m; migrated := migrated m; skipped := skipped m; errored := errored m + 1 |}.
Proof.
  unfold row_done, total. cbn [rows migrated skipped errored].
  split; [done|]. split; [by left|]. split; [lia|]. split; [lia|]. intros H. lia.
Qed.

Lemma migrate_row_spec key m id w m' w' :
  migrate_row key m id w = (Ok m', w') -> row_done key m id m'.
Proof.
  unfold migrate_row. destruct (rows m !! id) as [ct|] eqn:Hid.
  2: { intros [= <- _]. unfold row_done. rewrite Hid.
       split; [done|]. split; [by left|]. split; [by intros []|]. split; [lia|done]. }
  destruct (OpenAuto key ct []) as [p|e|s] eqn:Ho; [|intros [= <- _]; apply count_error_done|done].
  destruct (Aead.Seal key p [] w) as [[ct'|e|s] w1] eqn:Hs;
    [|intros [= <- _]; apply count_error_done|done].
  apply Seal_then_Open in Hs. unfold row_done, total. rewrite Hid.
  case_bool_decide as E; intros [= <- _]; cbn [rows migrated skipped errored].
  - subst ct'. split; [done|]. split; [by left|]. split; [lia|]. split; [lia|].
    intros _ c Hc. rewrite Hid in Hc. injection Hc as <-. eauto.
  - rewrite lookup_insert_eq. split; [intros i Hi; by rewrite lookup_insert_ne|].
    split; [right; by exists ct, ct', p|]. split; [lia|]. split; [lia|].
    intros _ c [= <-]. eauto.
Qed.

(** The call on a row never stops the script when the table holds no text above GCM's limit. *)
Lemma migrate_row_total key m id w :
  (forall ct, rows m !! id = Some ct -> len ct <= gcm_max) ->
  exists m' w', migrate_row key m id w = (Ok m', w').
Proof.
  intros Hsmall. unfold migrate_row. destruct (rows m !! id) as [ct|] eqn:Hid; [|eauto].
  destruct (OpenAuto_result key ct []) as [(p & Ho & _)|Ho]; rewrite Ho; [|eauto].
  apply OpenAuto_length in Ho. specialize (Hsmall ct eq_refl).
  pose proof (Seal_no_panic key p [] w ltac:(lia)) as Hq.
  destruct (Aead.Seal key p [] w) as [[ct'|e|s] w1]; [|eauto|done]. case_bool_decide; eauto.
Qed.

(** The loop, row by row. *)
Lemma migrate_spec key order m w :
  NoDup order -> (forall id, id ∈ order -> is_Some (rows m !! id)) ->
  (forall id ct, id ∈ order -> rows m !! id = Some ct -> len ct <= gcm_max) ->
  exists r w', migrate key m order w = (Ok r, w') /\
  (forall id, id ∉ order -> rows r !! id = rows m !! id) /\
  (forall id, row_kept key (rows m !! id) (rows r !! id)) /\
  total r = total m + len order /\ errored m <= errored r /\
  (errored r = errored m -> forall id ct, id ∈ order -> rows r !! id = Some ct ->
     exists p, Aead.Open key ct [] = Ok p).
Proof.
  intros Hnd. revert m w; induction Hnd as [|id order Hid _ IH]; intros m w Hin Hsmall.
  { exists m, w. split; [done|]. split; [done|]. split; [by left|].
    split; [rewrite len_nil; lia|]. split; [lia|]. intros _ i ct H. by apply not_elem_of_nil in H. }
  cbn [migrate]. destruct (migrate_row_total key m id w) as (m' & w1 & Hrun).
  { intros ct. apply Hsmall. by left. }
  rewrite (M_bind_Ok _ _ _ _ _ Hrun).
  apply migrate_row_spec in Hrun as (Hother & Hkept & Htot & Hle & Hopen).
  destruct (IH m' w1) as (r & w' & -> & Hout & H1 & H2 & H3 & H4).
  { intros i Hi. rewrite Hother; [apply Hin; by right|]. by intros ->. }
  { intros i ct Hi Hct. apply (Hsmall i); [by right|]. rewrite <- Hother; [done|]. by intros ->. }
  exists r, w'. split; [done|]. split.
  { intros i Hi. apply not_elem_of_cons in Hi as [Hne Hi]. by rewrite Hout, Hother. }
  split; [|split; [|split; [lia|]]].
  - intros i. destruct (decide (i = id)) as [->|Hne]; [by rewrite Hout|].
    specialize (H1 i). by rewrite Hother in H1.
  - rewrite H2, Htot, len_cons; [lia|]. apply Hin. by left.
  - intros He i ct [-> |Hi]%elem_of_cons Hct; [|apply (H4 ltac:(lia) i ct Hi Hct)].
    rewrite Hout in Hct by done. apply (Hopen ltac:(lia) ct Hct).
Qed.

(** ** Properties *)

(** [MultiKeyReader.Open] returns the plaintext under the first key of the ring that opens the text;
    it fails exactly when no key opens it, with the error of the last one, or with "no keys
    configured" for an empty reader; it never panics. *)
Theorem MultiKeyReader_first_key m text aad :
  match MultiKeyReader_Open m text aad with
  | Ok p => exists ks1 k ks2, keys m = ks1 ++ k :: ks2 /\ Aead.Open k text aad = Ok p /\
      Forall (fun k' => is_ok (Aead.Open k' text aad) = false) ks1
  | Err e => Forall (fun k => is_ok (Aead.Open k text aad) = false) (keys m) /\
      match last (keys m) with
      | Some k => Aead.Open k text aad = Err e
      | None => e = ErrorString "no keys configured"
      end
  | Panic _ => False
  end.
Proof. exact (open_any_spec (keys m) None text aad). Qed.

(** C40: the migration loses no data and reaches the end. On a table whose texts are within GCM's
    limit of 64 GiB, for every order that visits each row once, every row of the final table is the old text
    or an AEAD text of the same plaintext, the three counters add up to the number of rows, and
    when no row was counted as an error every row opens with [Open] alone. *)
Theorem migrate_keeps_data key db order w :
  NoDup order -> (forall id, id ∈ order <-> is_Some (db !! id)) ->
  (forall id ct, db !! id = Some ct -> len ct <= gcm_max) ->
  exists r w',
    migrate key {| rows := db; migrated := 0; skipped := 0; errored := 0 |} order w = (Ok r, w') /\
    (forall id, row_kept key (db !! id) (rows r !! id)) /\
    total r = len order /\
    (errored r = 0 -> forall id ct, rows r !! id = Some ct -> exists p, Aead.Open key ct [] = Ok p).
Proof.
  intros Hnd Hdom Hsmall.
  destruct (migrate_spec key order {| rows := db; migrated := 0; skipped := 0; errored := 0 |} w)
    as (r & w' & Hrun & Hout & H1 & H2 & _ & H4);
    [done|intros id Hid; by apply Hdom|eauto|]. exists r, w'.
  split; [done|]. split; [done|]. split; [done|]. intros He id ct Hct.
  destruct (decide (id ∈ order)) as [Hi|Hi]; [exact (H4 He id ct Hi Hct)|].
  rewrite (Hout id Hi) in Hct. destruct Hi. apply Hdom. eauto.
Qed.

Definition demo_db : gmap bytes bytes := {[ lit "row_0" := demo_cbc_row ]}.

Lemma migrate_keeps_data_witness :
  exists r w', migrate demo_key {| rows := demo_db; migrated := 0; skipped := 0; errored := 0 |}
    [lit "row_0"] demo_world = (Ok r, w') /\ total r = 1.
Proof.
  destruct (migrate_keeps_data demo_key demo_db [lit "row_0"] demo_world) as (r & w' & H & _ & Ht & _).
  - constructor; [apply not_elem_of_nil|constructor].
  - intros id. unfold demo_db. rewrite elem_of_cons, lookup_singleton_is_Some. split.
    + intros [-> |H%not_elem_of_nil]; done.
    + intros ->. by left.
  - intros id ct Hct. unfold demo_db in Hct. apply lookup_singleton_Some in Hct as [<- <-]. vm_compute. discriminate.
  - exists r, w'. split; [exact H|exact Ht].
Defined.

(** [deriveTenantKey], written out by hand, is [DeriveKey] with an empty salt and the tenant info,
    for every non-empty root key. *)
Theorem deriveTenantKey_is_DeriveKey New `{!HkdfOk New} rootKey tenantID :
  rootKey <> [] ->
  deriveTenantKey New rootKey tenantID = DeriveKey New rootKey [] (lit "tenant:" ++ tenantID) AEADKeySize.
Proof.
  intros Hk. rewrite (DeriveKey_run New) by done. unfold deriveTenantKey.
  destruct (ReadFull_spec (Z.to_nat AEADKeySize) (New rootKey [] (lit "tenant:" ++ tenantID))) as (r' & _ & ->).
  pose proof (hkdf_output rootKey [] (lit "tenant:" ++ tenantID)) as Ho. unfold len in Ho.
  rewrite (proj2 (Nat.leb_le _ _)); [done|]. change hkdf_limit with 8160 in Ho. change AEADKeySize with 32. lia.
Qed.

Lemma deriveTenantKey_is_DeriveKey_witness :
  deriveTenantKey demo_hkdf (lit "root") (lit "acme") =
  DeriveKey demo_hkdf (lit "root") [] (lit "tenant:" ++ lit "acme") AEADKeySize.
Proof. apply deriveTenantKey_is_DeriveKey; [apply _|discriminate]. Defined.
