(* ===== verification/KeyPrograms.v ===== *)
(** * Example programs on keys and signatures: what their [main] functions print

    [examples/random_token], [examples/hkdf_derive_key], [examples/tenant_keys], [examples/key_rotation],
    [examples/chacha20_aead] and [examples/ed25519_sign], from the first line to the last. *)

From Stdlib Require Import Strings.String.
From S2P Require Import Prelude Errors Base64 Hex GoIO Console Cipher Format Random Aead ChaCha Hkdf Ed25519 Json Recipes.

(** ** Random tokens *)

Module RandomTokenMain.

Definition main : program unit :=
  apiKey ← must (RandomToken 32);
  _ ← print (fmt "API key:        %s  (%d chars)\n") [VText apiKey; VInt (len apiKey)];
  magicToken ← ignore [] (RandomToken 16);
  _ ← print (fmt "magic token:    %s  (%d chars)\n") [VText magicToken; VInt (len magicToken)];
  csrf ← ignore [] (RandomToken 24);
  _ ← print (fmt "CSRF token:     %s  (%d chars)\n") [VText csrf; VInt (len csrf)];
  logID ← ignore [] (RandomHex 8);
  _ ← print (fmt "log id:         %s  (%d chars)\n") [VText logID; VInt (len logID)];
  keyBytes ← ignore [] (RandomBytes AEADKeySize);
  head ← expr (slice keyBytes 0 8);
  print (fmt "AEAD key bytes: %d bytes (hex: %x)\n") [VInt (len keyBytes); VText head].

End RandomTokenMain.

(** ** Derived keys *)

Module HkdfMain.
Section main.
Context (New : bytes -> bytes -> bytes -> reader).

Definition root : bytes := lit "root-application-key-32-bytes!!!".

Definition show_tenant (tenant : bytes) : program unit :=
  k ← must (lift (DeriveKey New root [] (lit "tenant:" ++ tenant) AEADKeySize));
  head ← expr (slice k 0 8);
  _ ← print (fmt "tenant %-7s key prefix (8 bytes): %x...\n") [VText tenant; VText head];
  ct ← ignore [] (Aead.Seal k (lit "tenant data") []);
  pt ← ignore [] (lift (Aead.Open k ct []));
  print (fmt "  round-trip: %s\n") [VText pt].

(** [k, _ := DeriveKey(...); fmt.Printf(format, k[:8])], twice: both keys are derived before the first line. *)
Definition show_two (salt1 info1 salt2 info2 format1 format2 : bytes) : program unit :=
  k1 ← ignore [] (lift (DeriveKey New root salt1 info1 AEADKeySize));
  k2 ← ignore [] (lift (DeriveKey New root salt2 info2 AEADKeySize));
  head1 ← expr (slice k1 0 8);
  _ ← print format1 [VText head1];
  head2 ← expr (slice k2 0 8);
  print format2 [VText head2].

Definition main : program unit :=
  _ ← each [lit "acme"; lit "globex"; lit "initech"] show_tenant;
  _ ← show_two [] (lit "aead-v1") [] (lit "mac-v1")
        (fmt "\nAEAD-purpose key prefix: %x...\n") (fmt "MAC-purpose key prefix:  %x...\n");
  show_two (lit "env:prod") (lit "aead-v1") (lit "env:dev") (lit "aead-v1")
    (fmt "\nprod aead key prefix: %x...\n") (fmt "dev  aead key prefix: %x... (independent of prod)\n").
End main.
End HkdfMain.

(** ** Tenant keys *)

Module TenantKeysMain.
Section main.
Context (New : bytes -> bytes -> bytes -> reader).

Definition rootKey : bytes := lit "root-application-key-32-bytes!!!".
Definition tenants : list bytes := [lit "acme"; lit "globex"; lit "initech"].
Definition plaintext : bytes := lit "tenant-private-data".

(** An entry of a map, the zero value when it is missing. *)
Definition get (m : gmap bytes bytes) (k : bytes) : bytes := default [] (m !! k).

Fixpoint derive_all (ts : list bytes) (keys : gmap bytes bytes) : program (gmap bytes bytes) :=
  match ts with
  | [] => mret keys
  | t :: ts' =>
      k ← must (lift (deriveTenantKey New rootKey t));
      head ← expr (slice k 0 8);
      _ ← print (fmt "derived key for tenant %q (first 8 bytes): %x...\n") [VText t; VText head];
      derive_all ts' (<[t := k]> keys)
  end.

Fixpoint seal_all (keys : gmap bytes bytes) (ts : list bytes) (enc : gmap bytes bytes) : program (gmap bytes bytes) :=
  match ts with
  | [] => mret enc
  | t :: ts' => ct ← must (Aead.Seal (get keys t) plaintext []); seal_all keys ts' (<[t := ct]> enc)
  end.

Definition main : program unit :=
  keys ← derive_all tenants ∅;
  enc ← seal_all keys tenants ∅;
  _ ← each tenants (fun t =>
        pt ← must (lift (Aead.Open (get keys t) (get enc t) []));
        print (fmt "tenant %q decrypted: %s\n") [VText t; VText pt]);
  print_error (fmt "\ncross-tenant decrypt blocked: %v\n") (lift (Aead.Open (get keys (lit "acme")) (get enc (lit "globex")) [])).
End main.
End TenantKeysMain.

(** ** Reading with retired keys *)

Module KeyRotationMain.

(** [order] says how [range] visits the map of the two texts. *)
Definition main (order : list (bytes * bytes) -> list (bytes * bytes)) : program unit :=
  let keyV1 := replicate 32 x01 in
  let keyV2 := replicate 32 x02 in
  oldCT ← ignore [] (Aead.Seal keyV1 (lit "encrypted with old key") []);
  newCT ← ignore [] (Aead.Seal keyV2 (lit "encrypted with new key") []);
  let reader := NewMultiKeyReader keyV2 [keyV1] in
  _ ← each (order [(lit "old data", oldCT); (lit "new data", newCT)]) (fun '(label, ct) =>
        pt ← must (lift (MultiKeyReader_Open reader ct []));
        print (fmt "%s: %s\n") [VText label; VText pt]);
  freshCT ← ignore [] (Aead.Seal keyV2 (lit "just written") []);
  pt ← ignore [] (lift (MultiKeyReader_Open reader freshCT []));
  print (fmt "fresh write: %s\n") [VText pt].

End KeyRotationMain.

(** ** ChaCha20-Poly1305 *)

Module ChaCha20Main.
Section main.
Context (New : bytes -> outcome AEAD).

Definition main : program unit :=
  key ← must (ReadRand AEADKeySize);
  ct ← must (SealChaCha20 New key (lit "hello via chacha20") (lit "ctx"));
  _ ← print (fmt "ciphertext (v2): %s\n") [VText ct];
  pt ← must (lift (OpenChaCha20 New key ct (lit "ctx")));
  _ ← print (fmt "decrypted: %s\n") [VText pt];
  r ← call (lift (Aead.Open key ct (lit "ctx")));
  _ ← match r with
      | inr err => if errors_Is err ErrUnsupportedVersion
                   then print (fmt "\nAES Open on v2: %v (correctly rejected)\n") [VErr err] else mret tt
      | inl _ => mret tt
      end;
  front ← expr (slice ct 0 (len ct - 2));
  print_error (fmt "tamper detected: %v\n") (lift (OpenChaCha20 New key (front ++ lit "XX") (lit "ctx"))).
End main.
End ChaCha20Main.

(** ** Ed25519 *)

Module Ed25519Main.
Section main.
Context (NewKeyFromSeed : bytes -> bytes) (sign : bytes -> bytes -> outcome bytes).
Context (verify : bytes -> bytes -> bytes -> outcome bool).

Definition body : bytes := lit_q "{'event':'order.created','id':'ord_42'}".
Definition tampered : bytes := lit_q "{'event':'order.created','id':'ord_99'}".

Definition main : program unit :=
  '(pub, priv) ← must (GenerateEd25519 NewKeyFromSeed);
  _ ← print (fmt "public key  (publish freely): %s\n") [VText (Std.EncodeToString pub)];
  head ← expr (slice (Std.EncodeToString priv) 0 24);
  _ ← print (fmt "private key (keep secret):    %s\n\n") [VText (head ++ lit "...")];
  sig ← must (lift (SignEd25519 sign priv body));
  _ ← print (fmt "--- outgoing webhook ---\n") [];
  _ ← print (fmt "X-Signature-Algorithm: ed25519\n") [];
  _ ← print (fmt "X-Signature: %s\n") [VText (Std.EncodeToString sig)];
  _ ← print (fmt "Body: %s\n\n") [VText body];
  ok ← must (lift (VerifyEd25519 verify pub body sig));
  _ ← print (fmt "verified: %v\n") [VBool ok];
  ok ← ignore false (lift (VerifyEd25519 verify pub tampered sig));
  _ ← print (fmt "verify tampered body: %v\n") [VBool ok];
  '(otherPub, _) ← ignore ([], []) (GenerateEd25519 NewKeyFromSeed);
  ok ← ignore false (lift (VerifyEd25519 verify otherPub body sig));
  print (fmt "verify wrong public key: %v\n") [VBool ok].
End main.
End Ed25519Main.

(** ** Lemmas *)

Lemma print_error_lift {A} format (o : outcome A) w :
  panics o = false ->
  print_error format (lift o) w = (Done tt, match o with Err e => [Printf format [VErr e]] | _ => [] end, w).
Proof. by apply print_error_last. Qed.

(** Bytes [a] to [a + n] of the random source. *)
Definition random_part (w : world) (a n : Z) : bytes := take (Z.to_nat n) (drop (Z.to_nat a) (rd_bytes (w_rand w))).

Lemma next_random_part w w' a n : after_random a w w' -> next_random n w' = random_part w a n.
Proof. intros (Ha & _). unfold next_random, random_part. by rewrite Ha. Qed.

(** A short read takes what is left. *)
Lemma RandomBytes_short n w :
  0 < n -> ~ has_random n w -> exists e w', RandomBytes n w = (Err e, w') /\ rd_bytes (w_rand w') = [].
Proof.
  intros Hn Hw. unfold RandomBytes. rewrite (proj2 (Z.leb_gt _ _)) by lia. unfold has_random, len in Hw. unfold map_errM, ReadRand.
  destruct (ReadFull_spec (Z.to_nat n) (w_rand w)) as (r' & [Hr _] & ->). rewrite (proj2 (Nat.leb_gt _ _)) by lia.
  unfold rd_bytes at 2 in Hr. cbn [rd_data mjoin list_join] in Hr. rewrite app_nil_r, drop_ge in Hr by lia.
  destruct (bool_decide _ && _); eexists _, _; (split; [reflexivity|exact Hr]).
Qed.

Lemma no_random n w : 0 < n -> rd_bytes (w_rand w) = [] -> ~ has_random n w.
Proof. unfold has_random. intros Hn ->. change (len []) with 0. lia. Qed.

(** *** [examples/random_token] *)

(** An ignored read leaves less than what was missing. *)
Lemma ignore_random {A} (zero : A) (g : bytes -> A) n m w :
  0 < n -> 0 < m -> ~ has_random (n + m) w ->
  exists a w', ignore zero (b ← RandomBytes n; mret (g b)) w = (Done a, [], w') /\ ~ has_random m w'.
Proof.
  intros Hn Hm Hw. destruct (Z_le_dec n (len (rd_bytes (w_rand w)))) as [Hr|Hr].
  - destruct (RandomBytes_run n w Hn Hr) as (w' & Hb & Ha & _). exists (g (next_random n w)), w'.
    unfold ignore, mbind at 1, program_bind, call. rewrite (M_bind_Ok _ _ _ _ _ Hb). split; [done|].
    unfold has_random, len in *. rewrite Ha, length_drop. lia.
  - destruct (RandomBytes_short n w Hn Hr) as (e & w' & Hb & Hnil). exists zero, w'.
    unfold ignore, mbind at 1, program_bind, call. rewrite (M_bind_Err _ _ _ _ _ Hb). split; [done|by apply no_random].
Qed.

(** A token and a hex string of [n] random bytes. *)
Lemma token_run n w :
  0 < n -> has_random n w -> exists w', after_random n w w' /\
    RandomToken n w = (Ok (EncodeToString RawURLEncoding (next_random n w)), w') /\
    RandomHex n w = (Ok (Hex.EncodeToString (next_random n w)), w').
Proof.
  intros Hn Hw. destruct (RandomBytes_run n w Hn Hw) as (w' & Hr & Ha). exists w'. split; [done|].
  unfold RandomToken, RandomHex. by rewrite !(M_bind_Ok _ _ _ _ _ Hr).
Qed.

(** Enough randomness: five consecutive parts of it. *)
Lemma random_token_run w :
  has_random 112 w -> exists w', after_random 112 w w' /\ RandomTokenMain.main w = (Done tt, [
    Printf (fmt "API key:        %s  (%d chars)\n") [VText (EncodeToString RawURLEncoding (random_part w 0 32)); VInt 43];
    Printf (fmt "magic token:    %s  (%d chars)\n") [VText (EncodeToString RawURLEncoding (random_part w 32 16)); VInt 22];
    Printf (fmt "CSRF token:     %s  (%d chars)\n") [VText (EncodeToString RawURLEncoding (random_part w 48 24)); VInt 32];
    Printf (fmt "log id:         %s  (%d chars)\n") [VText (Hex.EncodeToString (random_part w 72 8)); VInt 16];
    Printf (fmt "AEAD key bytes: %d bytes (hex: %x)\n") [VInt 32; VText (random_part w 80 8)]], w').
Proof.
  intros Hw. unfold RandomTokenMain.main.
  destruct (token_run 32 w) as (w1 & Ha1 & Hr1 & _); [done|by eapply has_random_le; [|exact Hw]|].
  assert (Hw1 : has_random 80 w1) by (by apply (has_random_after 32 80 w)).
  destruct (token_run 16 w1) as (w2 & Ha2 & Hr2 & _); [done|by eapply has_random_le; [|exact Hw1]|].
  assert (Hw2 : has_random 64 w2) by (by apply (has_random_after 16 64 w1)).
  destruct (token_run 24 w2) as (w3 & Ha3 & Hr3 & _); [done|by eapply has_random_le; [|exact Hw2]|].
  assert (Hw3 : has_random 40 w3) by (by apply (has_random_after 24 40 w2)).
  destruct (token_run 8 w3) as (w4 & Ha4 & _ & Hr4); [done|by eapply has_random_le; [|exact Hw3]|].
  assert (Hw4 : has_random 32 w4) by (by apply (has_random_after 8 32 w3)).
  destruct (RandomBytes_run 32 w4) as (w5 & Hr5 & Ha5); [done..|].
  pose proof (after_random_trans 32 16 _ _ _ ltac:(done) ltac:(done) Ha1 Ha2) as Hb2.
  pose proof (after_random_trans 48 24 _ _ _ ltac:(done) ltac:(done) Hb2 Ha3) as Hb3.
  pose proof (after_random_trans 72 8 _ _ _ ltac:(done) ltac:(done) Hb3 Ha4) as Hb4.
  pose proof (after_random_trans 80 32 _ _ _ ltac:(done) ltac:(done) Hb4 Ha5) as Hb5.
  exists w5. split; [exact Hb5|].
  assert (Hl : len (next_random 32 w4) = 32) by (by apply len_next_random).
  assert (Hcut : slice (next_random 32 w4) 0 8 = Ok (random_part w 80 8)).
  { rewrite slice_Ok, drop_0 by lia. rewrite (next_random_part _ _ 80 32 Hb4). unfold random_part. by rewrite take_take. }
  rewrite (must_Ok _ _ _ _ _ Hr1), print_bind, (ignore_Ok _ _ _ _ _ _ Hr2), print_bind, (ignore_Ok _ _ _ _ _ _ Hr3), print_bind,
    (ignore_Ok _ _ _ _ _ _ Hr4), print_bind, (ignore_Ok _ _ _ _ _ _ Hr5), (expr_Ok _ _ _ _ Hcut).
  rewrite !len_Encode, Hex.hex_length, !len_next_random by (done || by eapply has_random_le; [|eassumption]).
  unfold print.
  rewrite (next_random_part _ _ 32 16 Ha1), (next_random_part _ _ 48 24 Hb2), (next_random_part _ _ 72 8 Hb3). reflexivity.
Qed.

(** [examples/random_token] for every supply of randomness. With 112 bytes the five values are the encodings of five
    consecutive parts of the random source, of 43, 22, 32, 16 and 32 characters or bytes, so no byte is used twice.
    With fewer than 32 bytes [log.Fatal] ends it before it prints anything. In between an ignored error
    leaves the last slice empty, and cutting it to 8 bytes panics. *)
Theorem random_token_prints w :
  (has_random 112 w -> exists w', after_random 112 w w' /\ RandomTokenMain.main w = (Done tt, [
    Printf (fmt "API key:        %s  (%d chars)\n") [VText (EncodeToString RawURLEncoding (random_part w 0 32)); VInt 43];
    Printf (fmt "magic token:    %s  (%d chars)\n") [VText (EncodeToString RawURLEncoding (random_part w 32 16)); VInt 22];
    Printf (fmt "CSRF token:     %s  (%d chars)\n") [VText (EncodeToString RawURLEncoding (random_part w 48 24)); VInt 32];
    Printf (fmt "log id:         %s  (%d chars)\n") [VText (Hex.EncodeToString (random_part w 72 8)); VInt 16];
    Printf (fmt "AEAD key bytes: %d bytes (hex: %x)\n") [VInt 32; VText (random_part w 80 8)]], w')) /\
  (~ has_random 32 w -> exists e w', RandomTokenMain.main w = (Fatal e, [], w')) /\
  (has_random 32 w -> ~ has_random 112 w -> exists msg, (RandomTokenMain.main w).1.1 = Crash msg).
Proof.
  split; [|split].
  - apply random_token_run.
  - intros Hw. destruct (RandomBytes_short 32 w) as (e & w' & Hr & _); [done..|]. exists e, w'.
    unfold RandomTokenMain.main. rewrite (must_Err _ _ _ e w'); [done|]. unfold RandomToken. by apply M_bind_Err.
  - intros H32 H112. unfold RandomTokenMain.main. destruct (token_run 32 w) as (w1 & (Ha1 & _) & Hr1 & _); [done..|].
    rewrite (must_Ok _ _ _ _ _ Hr1), print_bind.
    assert (Hw1 : ~ has_random 80 w1) by (unfold has_random, len in *; rewrite Ha1, length_drop; lia).
    destruct (ignore_random [] (EncodeToString RawURLEncoding) 16 64 w1) as (a2 & w2 & H2 & Hw2); [done..|].
    destruct (ignore_random [] (EncodeToString RawURLEncoding) 24 40 w2) as (a3 & w3 & H3 & Hw3); [done..|].
    destruct (ignore_random [] Hex.EncodeToString 8 32 w3) as (a4 & w4 & H4 & Hw4); [done..|].
    destruct (RandomBytes_short 32 w4) as (e & w5 & H5 & _); [done..|].
    fold (RandomToken 16) in H2. fold (RandomToken 24) in H3. fold (RandomHex 8) in H4.
    rewrite (program_bind_Done _ _ _ _ _ _ H2), print_bind, (program_bind_Done _ _ _ _ _ _ H3), print_bind,
      (program_bind_Done _ _ _ _ _ _ H4), print_bind.
    change AEADKeySize with 32. rewrite (program_bind_Done (ignore [] (RandomBytes 32)) _ w4 [] [] w5) by
      (unfold ignore, mbind, program_bind, call; by rewrite H5).
    eexists. reflexivity.
Qed.

Lemma random_token_prints_witness :
  (RandomTokenMain.main {| w_rand := {| rd_data := [replicate 112 x5a]; rd_err := EOF |}; w_now := 0 |}).1.1 = Done tt /\
  exists msg, (RandomTokenMain.main demo_world).1.1 = Crash msg.
Proof.
  split.
  - destruct (random_token_prints {| w_rand := {| rd_data := [replicate 112 x5a]; rd_err := EOF |}; w_now := 0 |}) as (H & _).
    destruct H as (w' & _ & ->); [by vm_compute|reflexivity].
  - destruct (random_token_prints demo_world) as (_ & _ & H). apply H; by vm_compute.
Defined.

(** *** [examples/hkdf_derive_key] *)

Section hkdf.
Context (New : bytes -> bytes -> bytes -> reader) `{!HkdfOk New}.

(** The 32-byte key of a salt and an info. *)
Definition derived (root salt info : bytes) : bytes := take 32 (rd_bytes (New root salt info)).

Lemma len_derived root salt info : len (derived root salt info) = 32.
Proof. pose proof (hkdf_output root salt info) as H. unfold derived, len in *. rewrite length_take. unfold hkdf_limit in H. lia. Qed.

Lemma DeriveKey_32 root salt info : root <> [] -> DeriveKey New root salt info AEADKeySize = Ok (derived root salt info).
Proof. intros Hr. by rewrite (DeriveKey_run New) by done. Qed.

Lemma derived_front root salt info : slice (derived root salt info) 0 8 = Ok (take 8 (derived root salt info)).
Proof. by rewrite slice_Ok, drop_0 by (rewrite ?len_derived; lia). Qed.

Lemma show_tenant_run t w :
  has_random 12 w -> exists w', after_random 12 w w' /\ HkdfMain.show_tenant New t w = (Done tt, [
    Printf (fmt "tenant %-7s key prefix (8 bytes): %x...\n") [VText t; VText (take 8 (derived HkdfMain.root [] (lit "tenant:" ++ t)))];
    Printf (fmt "  round-trip: %s\n") [VText (lit "tenant data")]], w').
Proof.
  intros Hw. unfold HkdfMain.show_tenant. set (k := derived HkdfMain.root [] (lit "tenant:" ++ t)).
  destruct (Seal_Open_run k (lit "tenant data") [] w) as (ct & w1 & Hs & Ha & Ho); [apply len_derived|by vm_compute|done|].
  exists w1. split; [done|]. rewrite (must_Ok _ _ _ k w) by (unfold lift; by rewrite DeriveKey_32).
  rewrite (expr_Ok _ _ _ (take 8 k)) by apply derived_front. rewrite print_bind, (ignore_Ok _ _ _ _ _ _ Hs).
  by rewrite (ignore_Ok _ _ _ _ (lit "tenant data") w1) by (unfold lift; by rewrite Ho).
Qed.

Lemma show_two_run s1 i1 s2 i2 f1 f2 w :
  HkdfMain.show_two New s1 i1 s2 i2 f1 f2 w = (Done tt, [
    Printf f1 [VText (take 8 (derived HkdfMain.root s1 i1))]; Printf f2 [VText (take 8 (derived HkdfMain.root s2 i2))]], w).
Proof.
  unfold HkdfMain.show_two. rewrite (ignore_Ok _ _ _ _ (derived HkdfMain.root s1 i1) w), (ignore_Ok _ _ _ _ (derived HkdfMain.root s2 i2) w) by (unfold lift; by rewrite DeriveKey_32).
  rewrite (expr_Ok _ _ _ _ (derived_front _ _ _)), print_bind. by rewrite (expr_Ok _ _ _ _ (derived_front _ _ _)).
Qed.

(** [examples/hkdf_derive_key] over any HKDF. With 36 random bytes each tenant's key seals and opens its data, and the
    prefixes printed are those of the HKDF outputs for the seven combinations of salt and info. *)
Theorem hkdf_derive_key_prints w :
  has_random 36 w ->
  let front salt info := VText (take 8 (derived HkdfMain.root salt info)) in
  let tenant t := [Printf (fmt "tenant %-7s key prefix (8 bytes): %x...\n") [VText t; front [] (lit "tenant:" ++ t)];
                   Printf (fmt "  round-trip: %s\n") [VText (lit "tenant data")]] in
  exists w', after_random 36 w w' /\ HkdfMain.main New w = (Done tt,
    tenant (lit "acme") ++ tenant (lit "globex") ++ tenant (lit "initech") ++
    [Printf (fmt "\nAEAD-purpose key prefix: %x...\n") [front [] (lit "aead-v1")];
     Printf (fmt "MAC-purpose key prefix:  %x...\n") [front [] (lit "mac-v1")];
     Printf (fmt "\nprod aead key prefix: %x...\n") [front (lit "env:prod") (lit "aead-v1")];
     Printf (fmt "dev  aead key prefix: %x... (independent of prod)\n") [front (lit "env:dev") (lit "aead-v1")]], w').
Proof.
  intros Hw front tenant.
  destruct (show_tenant_run (lit "acme") w) as (w1 & Ha1 & H1); [by eapply has_random_le; [|exact Hw]|].
  assert (Hw1 : has_random 24 w1) by (by apply (has_random_after 12 24 w)).
  destruct (show_tenant_run (lit "globex") w1) as (w2 & Ha2 & H2); [by eapply has_random_le; [|exact Hw1]|].
  destruct (show_tenant_run (lit "initech") w2) as (w3 & Ha3 & H3); [by apply (has_random_after 12 12 w1)|].
  exists w3. split; [by apply (after_random_trans 12 24 w w1), (after_random_trans 12 12 w1 w2)|].
  unfold HkdfMain.main. cbn [each].
  assert (Heach : (_ ← HkdfMain.show_tenant New (lit "acme"); _ ← HkdfMain.show_tenant New (lit "globex");
                   _ ← HkdfMain.show_tenant New (lit "initech"); mret tt) w =
    (Done tt, tenant (lit "acme") ++ tenant (lit "globex") ++ tenant (lit "initech"), w3)).
  { rewrite (program_bind_Done _ _ _ _ _ _ H1), (program_bind_Done _ _ _ _ _ _ H2), (program_bind_Done _ _ _ _ _ _ H3). reflexivity. }
  rewrite (program_bind_Done _ _ _ _ _ _ Heach), (program_bind_Done _ _ _ _ _ _ (show_two_run _ _ _ _ _ _ _)), show_two_run.
  by rewrite <- !app_assoc.
Qed.
End hkdf.

Lemma hkdf_derive_key_prints_witness : (HkdfMain.main demo_hkdf demo_world).1.1 = Done tt.
Proof. destruct (hkdf_derive_key_prints demo_hkdf demo_world) as (w' & _ & ->); [by vm_compute|reflexivity]. Defined.

(** *** [examples/tenant_keys] *)

Section tenants.
Context (New : bytes -> bytes -> bytes -> reader) `{!HkdfOk New}.

Definition tenant_key (t : bytes) : bytes := derived New TenantKeysMain.rootKey [] (lit "tenant:" ++ t).

Lemma deriveTenantKey_run t : deriveTenantKey New TenantKeysMain.rootKey t = Ok (tenant_key t).
Proof.
  pose proof (DeriveKey_32 New TenantKeysMain.rootKey [] (lit "tenant:" ++ t) ltac:(done)) as H.
  unfold DeriveKey in H. change (AEADKeySize <=? 0) with false in H. change (len TenantKeysMain.rootKey =? 0) with false in H.
  cbv iota zeta in H. unfold deriveTenantKey. destruct (ReadFull _ _) as [[out [e|]] r]; [done|]. exact H.
Qed.

Definition key_line (t : bytes) : line :=
  Printf (fmt "derived key for tenant %q (first 8 bytes): %x...\n") [VText t; VText (take 8 (tenant_key t))].
Definition data_line (t : bytes) : line :=
  Printf (fmt "tenant %q decrypted: %s\n") [VText t; VText TenantKeysMain.plaintext].

Lemma derive_all_run ts keys w :
  TenantKeysMain.derive_all New ts keys w =
    (Done (foldl (fun m t => <[t := tenant_key t]> m) keys ts), map key_line ts, w).
Proof.
  revert keys. induction ts as [|t ts IH]; intros keys; [done|]. cbn [TenantKeysMain.derive_all foldl map].
  rewrite (must_Ok _ _ _ (tenant_key t) w) by (unfold lift; by rewrite deriveTenantKey_run).
  rewrite (expr_Ok _ _ _ (take 8 (tenant_key t))) by (by apply derived_front). rewrite print_bind, IH. reflexivity.
Qed.

(** The texts sealed so far open under their tenants' keys. *)
Lemma seal_all_run keys ts enc w :
  (forall t, t ∈ ts -> keys !! t = Some (tenant_key t)) -> has_random (12 * len ts) w ->
  exists enc' w', TenantKeysMain.seal_all keys ts enc w = (Done enc', [], w') /\ after_random (12 * len ts) w w' /\
    (forall t, t ∈ ts -> Aead.Open (tenant_key t) (TenantKeysMain.get enc' t) [] = Ok TenantKeysMain.plaintext) /\
    (forall t, t ∉ ts -> enc' !! t = enc !! t).
Proof.
  revert enc w. induction ts as [|t ts IH]; intros enc w Hk Hw.
  { exists enc, w. split; [done|]. split; [by split; [rewrite drop_0|]|]. split; [|done]. by intros t Ht%elem_of_nil. }
  cbn [TenantKeysMain.seal_all]. pose proof (len_nonneg ts). rewrite len_cons in *.
  assert (Hget : TenantKeysMain.get keys t = tenant_key t) by (unfold TenantKeysMain.get; by rewrite Hk by left).
  destruct (Seal_Open_run (tenant_key t) TenantKeysMain.plaintext [] w) as (ct & w1 & Hs & Ha & Ho);
    [apply len_derived, _|by vm_compute|eapply has_random_le; [|exact Hw]; lia|].
  destruct (IH (<[t := ct]> enc) w1) as (enc' & w' & Hr & Ha' & Ho' & Hn).
  { intros u Hu. apply Hk. by right. }
  { eapply (has_random_after 12); [..|exact Ha|]; [done|lia|]. by replace (12 + 12 * len ts) with (12 * (len ts + 1)) by lia. }
  exists enc', w'. split; [by rewrite Hget, (must_Ok _ _ _ _ _ Hs)|]. split.
  { replace (12 * (len ts + 1)) with (12 + 12 * len ts) by lia. eapply after_random_trans; [done|lia|exact Ha|exact Ha']. }
  split.
  - intros u [->|Hu]%elem_of_cons; [|by apply Ho'].
    destruct (decide (t ∈ ts)) as [Hin|Hin]; [by apply Ho'|]. unfold TenantKeysMain.get. by rewrite Hn, lookup_insert_eq.
  - intros u [Hne Hu]%not_elem_of_cons. by rewrite Hn, lookup_insert_ne.
Qed.

(** [examples/tenant_keys] over any HKDF. With 36 random bytes every tenant's key opens what was sealed for the
    tenant; the last line appears exactly when acme's key does not open globex's text, which is an [Err]. *)
Theorem tenant_keys_prints w :
  has_random 36 w ->
  exists ct w', after_random 36 w w' /\ Aead.Open (tenant_key (lit "globex")) ct [] = Ok TenantKeysMain.plaintext /\
    TenantKeysMain.main New w = (Done tt,
      map key_line TenantKeysMain.tenants ++ map data_line TenantKeysMain.tenants ++
      match Aead.Open (tenant_key (lit "acme")) ct [] with
      | Err e => [Printf (fmt "\ncross-tenant decrypt blocked: %v\n") [VErr e]]
      | _ => []
      end, w').
Proof.
  intros Hw. unfold TenantKeysMain.main. rewrite (program_bind_Done _ _ _ _ _ _ (derive_all_run _ _ _)).
  set (keys := foldl _ _ _).
  assert (Hk : forall t, t ∈ TenantKeysMain.tenants -> keys !! t = Some (tenant_key t)).
  { intros t Ht. unfold TenantKeysMain.tenants in Ht. rewrite !elem_of_cons, elem_of_nil in Ht.
    destruct Ht as [->|[->|[->|[]]]]; reflexivity. }
  assert (Hget : forall t, t ∈ TenantKeysMain.tenants -> TenantKeysMain.get keys t = tenant_key t).
  { intros t Ht. unfold TenantKeysMain.get. by rewrite Hk. }
  destruct (seal_all_run keys TenantKeysMain.tenants ∅ w Hk Hw) as (enc & w' & Hs & Ha & Ho & _).
  exists (TenantKeysMain.get enc (lit "globex")), w'. split; [exact Ha|]. split; [apply Ho; by right; left|].
  rewrite (program_bind_Done _ _ _ _ _ _ Hs).
  assert (Heach : forall ts v, (forall t, t ∈ ts -> t ∈ TenantKeysMain.tenants) ->
    each ts (fun t => pt ← must (lift (Aead.Open (TenantKeysMain.get keys t) (TenantKeysMain.get enc t) []));
      print (fmt "tenant %q decrypted: %s\n") [VText t; VText pt]) v = (Done tt, map data_line ts, v)).
  { induction ts as [|t ts IH]; intros v Hts; [done|]. cbn [each map].
    assert (Ht : t ∈ TenantKeysMain.tenants) by (apply Hts; by left).
    rewrite (program_bind_Done _ _ _ tt [data_line t] v).
    - rewrite IH; [done|]. intros u Hu. apply Hts. by right.
    - by rewrite (must_Ok _ _ _ TenantKeysMain.plaintext v) by (unfold lift; by rewrite Hget, Ho). }
  rewrite (program_bind_Done _ _ _ _ _ _ (Heach _ w' (fun t H => H))).
  rewrite (Hget (lit "acme")) by by left.
  by rewrite print_error_lift by apply Open_no_panic.
Qed.
End tenants.

Lemma tenant_keys_prints_witness : (TenantKeysMain.main demo_hkdf demo_world).1.1 = Done tt.
Proof. destruct (tenant_keys_prints demo_hkdf demo_world) as (ct & w' & _ & _ & ->); [by vm_compute|reflexivity]. Defined.

(** *** [examples/key_rotation] *)

(** [examples/key_rotation], for every order of the map. With 36 random bytes the program reads back what was sealed
    under the active key, before and after the rotation, and what was sealed under the retired key, unless
    that text also opens under the active key, which is tried first: then it prints that. *)
Theorem key_rotation_prints order w :
  has_random 36 w -> (forall l, order l ≡ₚ l) ->
  let keyV1 := replicate 32 x01 in
  let keyV2 := replicate 32 x02 in
  exists old new w', after_random 36 w w' /\ Aead.Open keyV1 old [] = Ok (lit "encrypted with old key") /\
    KeyRotationMain.main order w = (Done tt,
      map (fun '(label, ct) => Printf (fmt "%s: %s\n") [VText label; VText
             (if bool_decide (label = lit "new data") then lit "encrypted with new key"
              else match Aead.Open keyV2 old [] with Ok pt => pt | _ => lit "encrypted with old key" end)])
          (order [(lit "old data", old); (lit "new data", new)]) ++
      [Printf (fmt "fresh write: %s\n") [VText (lit "just written")]], w').
Proof.
  intros Hw Hord keyV1 keyV2. unfold KeyRotationMain.main. cbv zeta. fold keyV1 keyV2.
  destruct (Seal_Open_run keyV1 (lit "encrypted with old key") [] w) as (old & w1 & Hs1 & Ha1 & Ho1);
    [done|by vm_compute|by eapply has_random_le; [|exact Hw]|].
  assert (Hw1 : has_random 24 w1) by (by apply (has_random_after 12 24 w)).
  destruct (Seal_Open_run keyV2 (lit "encrypted with new key") [] w1) as (new & w2 & Hs2 & Ha2 & Ho2);
    [done|by vm_compute|by eapply has_random_le; [|exact Hw1]|].
  destruct (Seal_Open_run keyV2 (lit "just written") [] w2) as (fresh & w3 & Hs3 & Ha3 & Ho3);
    [done|by vm_compute|by apply (has_random_after 12 12 w1)|].
  exists old, new, w3. split; [by apply (after_random_trans 12 24 w w1), (after_random_trans 12 12 w1 w2)|]. split; [done|].
  rewrite (ignore_Ok _ _ _ _ _ _ Hs1), (ignore_Ok _ _ _ _ _ _ Hs2).
  assert (Hread : forall p, p ∈ [(lit "old data", old); (lit "new data", new)] ->
    MultiKeyReader_Open (NewMultiKeyReader keyV2 [keyV1]) p.2 [] =
      Ok (if bool_decide (p.1 = lit "new data") then lit "encrypted with new key"
          else match Aead.Open keyV2 old [] with Ok pt => pt | _ => lit "encrypted with old key" end)).
  { intros p Hp. unfold MultiKeyReader_Open, NewMultiKeyReader. cbn [keys app open_any].
    rewrite !elem_of_cons, elem_of_nil in Hp. destruct Hp as [->|[->|[]]]; cbn [fst snd].
    - rewrite bool_decide_eq_false_2 by done. pose proof (Open_no_panic keyV2 old []) as Hnp. rewrite Ho1.
      by destruct (Aead.Open keyV2 old []).
    - by rewrite Ho2, bool_decide_eq_true_2. }
  set (read_line := fun '(label, ct) => Printf _ _).
  assert (Hperm := Hord [(lit "old data", old); (lit "new data", new)]).
  assert (Heach : forall l, (forall p, p ∈ l -> p ∈ [(lit "old data", old); (lit "new data", new)]) ->
    each l (fun '(label, ct) => pt ← must (lift (MultiKeyReader_Open (NewMultiKeyReader keyV2 [keyV1]) ct []));
      print (fmt "%s: %s\n") [VText label; VText pt]) w2 =
    (Done tt, map read_line l, w2)).
  { induction l as [|[label ct] l IH]; intros Hl; [done|]. cbn [each map].
    rewrite (program_bind_Done _ _ _ tt [read_line (label, ct)] w2);
      [rewrite IH; [reflexivity|intros p Hp; apply Hl; by right]|].
    pose proof (Hread (label, ct) (Hl _ ltac:(by left))) as Hr. cbn [fst snd] in Hr. cbv beta iota.
    erewrite (must_Ok (lift _)) by (unfold lift; rewrite Hr; reflexivity). unfold print. reflexivity. }
  rewrite (program_bind_Done _ _ _ _ _ _ (Heach (order _) (fun p Hp => proj1 (elem_of_Permutation_proper p _ _ Hperm) Hp))).
  rewrite (ignore_Ok _ _ _ _ _ _ Hs3), (ignore_Ok _ _ _ _ (lit "just written") w3); [reflexivity|].
  unfold lift, MultiKeyReader_Open, NewMultiKeyReader. cbn [keys app open_any]. by rewrite Ho3.
Qed.

Lemma key_rotation_prints_witness : (KeyRotationMain.main (@rev _) demo_world).1.1 = Done tt.
Proof.
  destruct (key_rotation_prints (@rev _) demo_world) as (old & new & w' & _ & _ & ->);
    [by vm_compute|intros l; symmetry; apply Permutation_rev|reflexivity].
Defined.

(** *** [examples/chacha20_aead] *)

(** [examples/chacha20_aead] over any ChaCha20-Poly1305. With 44 random bytes the text opens to the plaintext, [Open]
    always refuses it with [ErrUnsupportedVersion], and the line on tampering appears exactly when opening
    the text with its last two characters replaced by XX fails. *)
Theorem chacha20_aead_prints New `{!ChaChaOk New} w :
  has_random 44 w ->
  exists ct e w', after_random 44 w w' /\ errors_Is e ErrUnsupportedVersion = true /\
    let tampered := take (length ct - 2) ct ++ lit "XX" in
    ChaCha20Main.main New w = (Done tt, [
      Printf (fmt "ciphertext (v2): %s\n") [VText ct];
      Printf (fmt "decrypted: %s\n") [VText (lit "hello via chacha20")];
      Printf (fmt "\nAES Open on v2: %v (correctly rejected)\n") [VErr e]] ++
      match OpenChaCha20 New (next_random 32 w) tampered (lit "ctx") with
      | Err e => [Printf (fmt "tamper detected: %v\n") [VErr e]]
      | _ => []
      end, w').
Proof.
  intros Hw. destruct (ReadRand_Ok 32 w) as (w1 & Hk & Ha1); [done|by eapply has_random_le; [|exact Hw]|].
  set (key := next_random 32 w) in *. assert (Hl : len key = 32) by (apply len_next_random; [done|by eapply has_random_le; [|exact Hw]]).
  assert (Hw1 : has_random 12 w1) by (by apply (has_random_after 32 12 w)).
  destruct (SealChaCha20_run New key (lit "hello via chacha20") (lit "ctx") w1 Hl ltac:(by vm_compute) Hw1)
    as (ct & w2 & Hs & Ha2 & Hlen & Ho & He).
  change (4 * (len (lit "hello via chacha20") + 30)) with 192 in Hlen.
  exists ct, (Wrapf "%w: 0x%02x" ErrUnsupportedVersion), w2. split; [by apply (after_random_trans 32 12 w w1)|]. split; [|cbv zeta]; [reflexivity|].
  unfold ChaCha20Main.main. rewrite (must_Ok _ _ _ _ _ Hk), (must_Ok _ _ _ _ _ Hs), print_bind.
  rewrite (must_Ok _ _ _ (lit "hello via chacha20") w2) by (unfold lift; by rewrite Ho).
  rewrite print_bind, (call_Err _ _ _ (Wrapf "%w: 0x%02x" ErrUnsupportedVersion) w2) by (unfold lift; by rewrite He).
  change (errors_Is _ _) with true. cbn iota. rewrite print_bind.
  rewrite (expr_Ok _ _ _ (take (length ct - 2) ct)).
  2: { rewrite slice_Ok, drop_0 by lia. f_equal. f_equal. unfold len. lia. }
  rewrite print_error_lift; [reflexivity|]. apply (OpenChaCha20_no_panic New). rewrite len_app. unfold len in *.
  rewrite length_take. change (length (lit "XX")) with 2%nat. unfold chacha_max. lia.
Qed.

Lemma chacha20_aead_prints_witness :
  (ChaCha20Main.main mac_New {| w_rand := {| rd_data := [replicate 44 x5a]; rd_err := EOF |}; w_now := 0 |}).1.1 = Done tt.
Proof.
  destruct (chacha20_aead_prints mac_New {| w_rand := {| rd_data := [replicate 44 x5a]; rd_err := EOF |}; w_now := 0 |})
    as (ct & e & w' & _ & _ & ->); [by vm_compute|reflexivity].
Defined.

(** *** [examples/ed25519_sign] *)

(** [examples/ed25519_sign] over any Ed25519. With 64 random bytes it prints the public key in full, 24 characters of
    the private one, a signature that verifies, and the verdicts of [verify] on the other message and on
    another key. *)
Theorem ed25519_sign_prints NewKey sign verify `{!Ed25519Ok NewKey sign verify} w :
  has_random 64 w ->
  exists pub priv sig otherPub b1 b2 w', after_random 64 w w' /\ len pub = 32 /\ len priv = 64 /\ len otherPub = 32 /\
    sign priv Ed25519Main.body = Ok sig /\ verify pub Ed25519Main.tampered sig = Ok b1 /\ verify otherPub Ed25519Main.body sig = Ok b2 /\
    Ed25519Main.main NewKey sign verify w = (Done tt, [
      Printf (fmt "public key  (publish freely): %s\n") [VText (Std.EncodeToString pub)];
      Printf (fmt "private key (keep secret):    %s\n\n") [VText (take 24 (Std.EncodeToString priv) ++ lit "...")];
      Printf (fmt "--- outgoing webhook ---\n") [];
      Printf (fmt "X-Signature-Algorithm: ed25519\n") [];
      Printf (fmt "X-Signature: %s\n") [VText (Std.EncodeToString sig)];
      Printf (fmt "Body: %s\n\n") [VText Ed25519Main.body];
      Printf (fmt "verified: %v\n") [VBool true];
      Printf (fmt "verify tampered body: %v\n") [VBool b1];
      Printf (fmt "verify wrong public key: %v\n") [VBool b2]], w').
Proof.
  intros Hw.
  destruct (GenerateEd25519_run NewKey sign verify w Ed25519Main.body) as (pub & priv & w1 & Hg1 & Ha1 & Hp1 & Hl1 & sig & Hs & Hls & Hv);
    [by eapply has_random_le; [|exact Hw]|].
  destruct (GenerateEd25519_run NewKey sign verify w1 Ed25519Main.body) as (other & priv2 & w2 & Hg2 & Ha2 & Hp2 & _);
    [by apply (has_random_after 32 32 w)|].
  assert (Hver : forall p d b, len p = 32 -> verify p d sig = Ok b -> VerifyEd25519 verify p d sig = Ok b).
  { intros p d b Hp Hb. unfold VerifyEd25519, Ed25519PublicKeySize, Ed25519SignatureSize. by rewrite Hp, Hls. }
  destruct (ed_verify pub Ed25519Main.tampered sig Hp1) as (b1 & Hb1).
  destruct (ed_verify other Ed25519Main.body sig Hp2) as (b2 & Hb2).
  exists pub, priv, sig, other, b1, b2, w2. split; [by apply (after_random_trans 32 32 w w1)|]. do 3 (split; [done|]).
  split; [|do 2 (split; [done|])]. { revert Hs. unfold SignEd25519. by rewrite Hl1. }
  unfold Ed25519Main.main. rewrite (must_Ok _ _ _ _ _ Hg1), print_bind.
  rewrite (expr_Ok _ _ _ (take 24 (Std.EncodeToString priv))) by (apply Std.front; by rewrite Hl1).
  rewrite print_bind, (must_Ok _ _ _ sig w1) by (unfold lift; by rewrite Hs). rewrite !print_bind.
  rewrite (must_Ok _ _ _ true w1) by (unfold lift; by rewrite Hv). rewrite print_bind.
  rewrite (ignore_Ok _ _ _ _ b1 w1) by (unfold lift; by rewrite (Hver _ _ b1)). rewrite print_bind, (ignore_Ok _ _ _ _ _ _ Hg2).
  by rewrite (ignore_Ok _ _ _ _ b2 w2) by (unfold lift; by rewrite (Hver _ _ b2)).
Qed.

Lemma ed25519_sign_prints_witness :
  (Ed25519Main.main toy_key toy_sign toy_verify {| w_rand := {| rd_data := [replicate 64 x5a]; rd_err := EOF |}; w_now := 0 |}).1.1 = Done tt.
Proof.
  destruct (ed25519_sign_prints toy_key toy_sign toy_verify {| w_rand := {| rd_data := [replicate 64 x5a]; rd_err := EOF |}; w_now := 0 |})
    as (pub & priv & sig & other & b1 & b2 & w' & _ & _ & _ & _ & _ & _ & _ & ->); [by vm_compute|reflexivity].
Defined.
