(* ===== verification/RecordPrograms.v ===== *)
(** * Example programs on stored records: what their [main] functions print

    [examples/webhook_with_timestamp], [examples/audit_log_chain], [examples/migrate_cbc_to_gcm],
    [examples/bcrypt_migration] and [examples/hash_password], from the first line to the last. *)

From Stdlib Require Import Strings.String.
From S2P Require Import Prelude Errors Base64 Hex GoIO Console Cipher Format Aead Cbc Auto Sign GoText Json TimeLock Sessions.
From S2P Require Import Password Bcrypt.
From S2P Require Accounts Webhook AuditLog Recipes.

(** ** Timestamped webhooks *)

Module WebhookMain.
Import Webhook.

Definition secret : bytes := lit "partner-webhook-secret".
Definition body : bytes := lit_q "{'event':'order.created','id':'ord_42'}".
Definition tampered : bytes := lit_q "{'event':'order.created','id':'ord_99'}".

Definition main : program unit :=
  now ← must time_Now;
  let header := SignWebhook secret body now in
  _ ← print (fmt "--- outgoing ---\nX-Signature: %s\nBody: %s\n\n") [VText header; VText body];
  r ← call (lift (VerifyWebhook secret body header (now + Second) (5 * Minute)));
  _ ← match r with
      | inr err => print (fmt "verify within window: %v\n") [VErr err]
      | inl _ => print (fmt "verify within window: ok\n") []
      end;
  _ ← print_error (fmt "replay 10m later: %v\n") (lift (VerifyWebhook secret body header (now + 10 * Minute) (5 * Minute)));
  _ ← print_error (fmt "wrong secret: %v\n") (lift (VerifyWebhook (lit "wrong") body header now (5 * Minute)));
  print_error (fmt "tampered body: %v\n") (lift (VerifyWebhook secret tampered header now (5 * Minute))).

End WebhookMain.

(** ** The audit log *)

Module AuditMain.
Import AuditLog.

Definition entry_line (i : Z) (e : AuditEntry) : program unit :=
  mac ← expr (slice (MAC e) 0 8);
  print (fmt "  [%d] %s %s %s %s  mac=%s\n")
    [VInt i; VTime (Unix (Timestamp e)); VText (Actor e); VText (Action e); VText (Resource e); VText (Hex.EncodeToString mac)].

Fixpoint entry_lines (i : Z) (es : list AuditEntry) : program unit :=
  match es with [] => mret tt | e :: es' => _ ← entry_line i e; entry_lines (i + 1) es' end.

(** [logger.entries[i].Action = action] *)
Definition set_Action (l : AuditLog) (i : nat) (action : bytes) : outcome AuditLog :=
  match entries l !! i with
  | Some e => Ok {| AuditLog.secret := AuditLog.secret l; entries := <[i := {| Timestamp := Timestamp e; Actor := Actor e;
                      Action := action; Resource := Resource e; MAC := MAC e |}]> (entries l) |}
  | None => Panic "index out of range"
  end.

(** [elapsed i] is the time between two entries. *)
Definition main (elapsed : nat -> Z) : program unit :=
  let secret := lit "audit-log-secret-32-bytes-please" in
  let logger := NewAuditLog secret in
  logger ← must (Append logger (lit "usr_42") (lit "login") (lit "/auth"));
  _ ← pass (elapsed 0%nat);
  logger ← must (Append logger (lit "usr_42") (lit "view") (lit "/billing"));
  _ ← pass (elapsed 1%nat);
  logger ← must (Append logger (lit "usr_admin") (lit "delete") (lit "/users/usr_99"));
  let bad := Verify logger in
  if negb (bad =? -1) then fatal (Errorf "chain broken at entry %d")
  else
    _ ← print (fmt "chain valid (3 entries)\n") [];
    _ ← entry_lines 0 (entries logger);
    _ ← print (fmt "\n--- attacker rewrites entry 1 ---\n") [];
    logger ← expr (set_Action logger 1 (lit "purchase"));
    let bad := Verify logger in
    if negb (bad =? -1) then print (fmt "chain broken at entry %d (as expected)\n") [VInt bad]
    else print (fmt "chain still valid — should not happen\n") [].

End AuditMain.

(** ** The migration script *)

Module MigrationMain.
Import Recipes.

Definition key : bytes := lit "01234567890123456789012345678901".
Definition plaintexts : list bytes := [lit "sk_live_aaaa1111"; lit "sk_live_bbbb2222"; lit "sk_live_cccc3333"].

Fixpoint setup (i : Z) (pts : list bytes) (db : gmap bytes bytes) : program (gmap bytes bytes) :=
  match pts with
  | [] => mret db
  | plaintext :: pts' => ct ← must (EncryptCBC key plaintext); setup (i + 1) pts' (<[lit "row_" ++ Itoa i := ct]> db)
  end.

Definition print_row : bytes * bytes -> program unit := fun '(id, ct) =>
  head ← expr (truncate ct 32);
  print (fmt "  %s = %s...\n") [VText id; VText head].

(** One turn of the migration loop, on the value the row has at this time. *)
Definition migrate_id (m : migration) (id : bytes) : program migration :=
  match rows m !! id with
  | None => mret m
  | Some oldCt =>
      let count_error := {| rows := rows m; migrated := migrated m; skipped := skipped m; errored := errored m + 1 |} in
      r ← call (lift (OpenAuto key oldCt []));
      match r with
      | inr err => _ ← print (fmt "  %s: decrypt error: %v\n") [VText id; VErr err]; mret count_error
      | inl plain =>
          r ← call (Aead.Seal key plain []);
          match r with
          | inr err => _ ← print (fmt "  %s: re-encrypt error: %v\n") [VText id; VErr err]; mret count_error
          | inl newCt =>
              if bool_decide (oldCt = newCt) then
                mret {| rows := rows m; migrated := migrated m; skipped := skipped m + 1; errored := errored m |}
              else
                mret {| rows := <[id := newCt]> (rows m); migrated := migrated m + 1; skipped := skipped m; errored := errored m |}
          end
      end
  end.

Fixpoint migrate_ids (m : migration) (ids : list bytes) : program migration :=
  match ids with [] => mret m | id :: ids' => m' ← migrate_id m id; migrate_ids m' ids' end.

Definition check_row : bytes * bytes -> program unit := fun '(id, ct) =>
  r ← call (lift (Aead.Open key ct []));
  match r with
  | inr err => print (fmt "  %s: %v\n") [VText id; VErr err]
  | inl pt => print (fmt "  %s = %s\n") [VText id; VText pt]
  end.

(** [order i] says how the i-th [range] visits the table. *)
Definition main (order : nat -> list (bytes * bytes) -> list (bytes * bytes)) : program unit :=
  db ← setup 0 plaintexts ∅;
  aeadCt ← ignore [] (Aead.Seal key (lit "sk_live_dddd4444") []);
  let db := <[lit "row_3" := aeadCt]> db in
  _ ← print (fmt "--- before migration ---\n") [];
  _ ← each (order 0%nat (map_to_list db)) print_row;
  m ← migrate_ids {| rows := db; migrated := 0; skipped := 0; errored := 0 |} (map fst (order 1%nat (map_to_list db)));
  _ ← print (fmt "\n--- migration result ---\n") [];
  _ ← print (fmt "migrated: %d\nskipped:  %d\nerrored:  %d\n\n") [VInt (migrated m); VInt (skipped m); VInt (errored m)];
  _ ← print (fmt "--- after migration ---\n") [];
  _ ← each (order 2%nat (map_to_list (rows m))) print_row;
  _ ← print (fmt "\n--- sanity check (all rows decrypt with crypt.Open) ---\n") [];
  each (order 3%nat (map_to_list (rows m))) check_row.

End MigrationMain.

(** ** Moving a user from bcrypt *)

Module BcryptMain.
Import Accounts BcryptMigration.
Section main.
Context (IDKey : bytes -> bytes -> Z -> Z -> Z -> Z -> outcome bytes).
Context (GenerateFromPassword : bytes -> Z -> M bytes) (CompareHashAndPassword : bytes -> bytes -> option error).

(** A call of [loginAndRehash], with the line it prints when it stored a new hash. *)
Definition login_call (u : fakeUser) (plaintext : bytes) : program ((unit + error) * fakeUser) := fun w =>
  match loginAndRehash IDKey CompareHashAndPassword u plaintext w with
  | (Ok _, u', w') =>
      (Done (inl tt, u'), if HasPrefix (PasswordHash u) (lit "$2")
                          then [Printf (fmt "  rehashed %s from bcrypt to argon2id\n") [VText (Email u')]] else [], w')
  | (Err err, u', w') => (Done (inr err, u'), [], w')
  | (Panic p, _, w') => (Crash p, [], w')
  end.

Definition main : program unit :=
  bcryptHash ← must (HashPasswordBcrypt GenerateFromPassword (lit "correct-horse-battery-staple") DefaultBcryptCost);
  let user := {| Email := lit "alice@example.com"; PasswordHash := bcryptHash |} in
  front ← expr (slice (PasswordHash user) 0 7);
  _ ← print (fmt "user before login: hash starts with %s\n\n") [VText front];
  '(r, user) ← login_call user (lit "correct-horse-battery-staple");
  _ ← check r;
  front ← expr (slice (PasswordHash user) 0 18);
  _ ← print (fmt "user after login:  hash starts with %s\n\n") [VText front];
  '(r, user) ← login_call user (lit "correct-horse-battery-staple");
  _ ← check r;
  _ ← print (fmt "subsequent login: argon2id verify ok\n") [];
  '(r, user) ← login_call user (lit "wrong");
  match r with
  | inr err => print (fmt "wrong password: %v\n") [VErr err]
  | inl _ => mret tt
  end.
End main.
End BcryptMain.

(** ** Registering and logging in *)

Module PasswordMain.
Import Accounts Registry.
Section main.
Context (IDKey : bytes -> bytes -> Z -> Z -> Z -> Z -> outcome bytes).

(** A call of [register] with the table it leaves. *)
Definition register_call (email password : bytes) (us : users) : program ((unit + error) * users) := fun w =>
  match register IDKey email password us w with
  | (Ok _, us', w') => (Done (inl tt, us'), [], w')
  | (Err err, us', w') => (Done (inr err, us'), [], w')
  | (Panic p, _, w') => (Crash p, [], w')
  end.

Definition main : program unit :=
  '(r, us) ← register_call (lit "alice@example.com") (lit "correct horse battery staple") ∅;
  match r with
  | inr err => print (fmt "register: %v\n") [VErr err]
  | inl _ =>
      _ ← print (fmt "registered: alice\n") [];
      alice ← deref (match us !! lit "alice@example.com" with Some u => Ok u | None => Err (Errorf "nil") end);
      _ ← print (fmt "stored hash: %s\n\n") [VText (PasswordHash alice)];
      r ← call (lift (login IDKey (lit "alice@example.com") (lit "correct horse battery staple") us));
      _ ← match r with
          | inr err => print (fmt "login: %v\n") [VErr err]
          | inl _ => print (fmt "login (right password): ok\n") []
          end;
      _ ← print_error (fmt "login (wrong password): %v\n") (lift (login IDKey (lit "alice@example.com") (lit "Tr0ub4dor&3") us));
      print_error (fmt "login (unknown email): %v\n") (lift (login IDKey (lit "bob@example.com") (lit "anything") us))
  end.
End main.
End PasswordMain.

(** ** Properties *)

(** *** [examples/webhook_with_timestamp] *)

(** A fresh header of another secret or body: accepted exactly when the signatures agree. *)
Lemma VerifyWebhook_fresh secret secret' body body' now :
  in_int64 (Unix now) ->
  let signed b := FormatInt (Unix now) ++ lit "." ++ b in
  Webhook.VerifyWebhook secret' body' (Webhook.SignWebhook secret body now) now (5 * Minute) =
    if bool_decide (Sign secret (signed body) = Sign secret' (signed body')) then Ok tt
    else Err (ErrorString "signature mismatch").
Proof.
  intros Hn signed. rewrite (Webhook.VerifyWebhook_header _ _ _ (FormatInt (Unix now)) (Hex.EncodeToString (Sign secret (signed body))));
    [|by apply FormatInt_no_comma|apply Webhook.Sign_not_nil|by apply Webhook.SignWebhook_header].
  rewrite Parse_Format, Webhook.fresh_near, Hex.hex_roundtrip by (done || lia). rewrite Verify_spec.
  rewrite Z.sub_diag. change (negb (Z.abs 0 * Second <=? 5 * Minute)) with false. cbn iota. fold (signed body').
  by case_bool_decide.
Qed.

(** [examples/webhook_with_timestamp] at any time. The header verifies a second later and is refused as a replay ten
    minutes later; the lines on the wrong secret and the other body appear exactly when the HMACs differ. *)
Theorem webhook_with_timestamp_prints w :
  in_int64 (Unix (w_now w)) ->
  let now := w_now w in
  let signed b := FormatInt (Unix now) ++ lit "." ++ b in
  let mac := Sign WebhookMain.secret (signed WebhookMain.body) in
  let mismatch := VErr (ErrorString "signature mismatch") in
  WebhookMain.main w = (Done tt,
    [Printf (fmt "--- outgoing ---\nX-Signature: %s\nBody: %s\n\n")
       [VText (lit "t=" ++ FormatInt (Unix now) ++ lit ",v1=" ++ Hex.EncodeToString mac); VText WebhookMain.body];
     Printf (fmt "verify within window: ok\n") [];
     Printf (fmt "replay 10m later: %v\n") [VErr (ErrorString "timestamp outside tolerance — possible replay")]] ++
    (if bool_decide (mac = Sign (lit "wrong") (signed WebhookMain.body)) then [] else [Printf (fmt "wrong secret: %v\n") [mismatch]]) ++
    (if bool_decide (mac = Sign WebhookMain.secret (signed WebhookMain.tampered)) then [] else [Printf (fmt "tampered body: %v\n") [mismatch]]), w).
Proof.
  intros Hn now signed mac mismatch. unfold WebhookMain.main. rewrite (must_Ok _ _ w now w) by done. cbv zeta.
  fold now in Hn. assert (Hlater : forall d, Unix (now + d * Second) - Unix now = d) by (intros d; rewrite Unix_add; lia).
  pose proof (Hlater 1) as H1. pose proof (Hlater 600) as H600. rewrite print_bind, (call_Ok _ _ _ tt w).
  2: { unfold lift. change Second with (1 * Second). by rewrite Webhook.Webhook_window, H1 by (rewrite ?H1; done || lia). }
  rewrite print_bind. change (10 * Minute) with (600 * Second).
  erewrite print_error_bind; [|unfold lift; by rewrite Webhook.Webhook_window, H600 by (rewrite ?H600; done || lia)|done].
  unfold lift. rewrite !VerifyWebhook_fresh by done. fold (signed WebhookMain.body) (signed WebhookMain.tampered) mac.
  erewrite print_error_bind; [|reflexivity|by case_bool_decide].
  rewrite print_error_last with (o := if bool_decide (mac = Sign WebhookMain.secret (signed WebhookMain.tampered)) then Ok tt
    else Err (ErrorString "signature mismatch")) (w' := w); [|done|by case_bool_decide].
  unfold Webhook.SignWebhook. rewrite <- app_assoc. by repeat case_bool_decide.
Qed.

Lemma webhook_with_timestamp_prints_witness : len (WebhookMain.main demo_world).1.2 = 5.
Proof. rewrite webhook_with_timestamp_prints by (split; vm_compute; congruence). vm_compute. reflexivity. Defined.

(** *** [examples/audit_log_chain] *)

Section audit.
Import AuditLog.

#[local] Opaque Sign.

(** The line of an entry whose MAC has the length of a digest. *)
Definition shown (i : Z) (e : AuditEntry) : line :=
  Printf (fmt "  [%d] %s %s %s %s  mac=%s\n")
    [VInt i; VTime (Unix (Timestamp e)); VText (Actor e); VText (Action e); VText (Resource e); VText (Hex.EncodeToString (take 8 (MAC e)))].

Lemma entry_line_run i e w : len (MAC e) = 32 -> AuditMain.entry_line i e w = (Done tt, [shown i e], w).
Proof. intros H. unfold AuditMain.entry_line. by rewrite (expr_Ok _ _ _ (take 8 (MAC e))) by (by rewrite slice_Ok, drop_0 by lia). Qed.

Lemma entry_lines_run i es w :
  Forall (fun e => len (MAC e) = 32) es ->
  AuditMain.entry_lines i es w = (Done tt, imap (fun k e => shown (i + Z.of_nat k) e) es, w).
Proof.
  intros H. revert i. induction H as [|e es He _ IH]; intros i; [done|]. cbn [AuditMain.entry_lines].
  rewrite (program_bind_Done _ _ _ _ _ _ (entry_line_run i e w He)), IH. rewrite imap_cons, Z.add_0_r. cbn [app].
  do 3 f_equal. apply imap_ext. intros k x _. unfold compose. f_equal. lia.
Qed.

(** A chain of three in which the second entry changes but not its MAC. *)
Lemma Verify_rewritten s e0 e1 e2 e1' :
  chained s [] [e0; e1; e2] -> MAC e1' = MAC e1 ->
  verify_from s [] 0 [e0; e1'; e2] = if bool_decide (MAC e1 = Sign s (MAC e0 ++ payload e1')) then -1 else 1.
Proof.
  cbn [chained verify_from app]. intros (H0 & H1 & H2 & _) He. rewrite !Verify_spec, He.
  rewrite (bool_decide_eq_true_2 _ H0), (bool_decide_eq_true_2 _ H2). cbn [negb]. by case_bool_decide.
Qed.

(** [examples/audit_log_chain], whatever time passes between the entries. The chain verifies and its three entries
    are listed; after the rewrite of an entry's action the program reports the break at that entry, unless
    the HMAC of the rewritten entry is the one it had. *)
Theorem audit_log_prints elapsed w :
  let secret := lit "audit-log-secret-32-bytes-please" in
  let t0 := w_now w in
  let t1 := t0 + elapsed 0%nat in
  let t2 := t1 + elapsed 1%nat in
  let log := appended (appended (appended (NewAuditLog secret) t0 (lit "usr_42") (lit "login") (lit "/auth"))
               t1 (lit "usr_42") (lit "view") (lit "/billing")) t2 (lit "usr_admin") (lit "delete") (lit "/users/usr_99") in
  exists e0 e1 e2, entries log = [e0; e1; e2] /\ Verify log = -1 /\
    let rewritten := {| Timestamp := t1; Actor := lit "usr_42"; Action := lit "purchase"; Resource := lit "/billing"; MAC := MAC e1 |} in
    AuditMain.main elapsed w = (Done tt,
      [Printf (fmt "chain valid (3 entries)\n") []; shown 0 e0; shown 1 e1; shown 2 e2;
       Printf (fmt "\n--- attacker rewrites entry 1 ---\n") [];
       if bool_decide (MAC e1 = Sign secret (MAC e0 ++ payload rewritten))
       then Printf (fmt "chain still valid — should not happen\n") []
       else Printf (fmt "chain broken at entry %d (as expected)\n") [VInt 1]], later (elapsed 1%nat) (later (elapsed 0%nat) w)).
Proof.
  intros secret t0 t1 t2 log.
  assert (Hlog : Verify log = -1).
  { apply Verify_chained, written_chained.
    assert (Hw : forall l t a b c, written l -> written (appended l t a b c)) by
      (intros l t a b c Hl; exact (written_append l a b c (at_time t) _ _ Hl (Append_run l a b c (at_time t)))).
    repeat apply Hw. apply written_new. }
  assert (exists e0 e1 e2, entries log = [e0; e1; e2] /\ Forall (fun e => len (MAC e) = 32) [e0; e1; e2] /\
    e1 = {| Timestamp := t1; Actor := lit "usr_42"; Action := lit "view"; Resource := lit "/billing"; MAC := MAC e1 |})
    as (e0 & e1 & e2 & Hes & Hlen & He1).
  { do 3 eexists. split; [reflexivity|]. split; [|reflexivity]. repeat constructor; apply len_Sign. }
  exists e0, e1, e2. split; [done|]. split; [done|]. intros rewritten. unfold AuditMain.main. cbv zeta.
  rewrite (must_Ok _ _ _ _ _ (Append_run _ _ _ _ w)), pass_bind.
  rewrite (must_Ok _ _ _ _ _ (Append_run _ _ _ _ (later (elapsed 0%nat) w))), pass_bind.
  rewrite (must_Ok _ _ _ _ _ (Append_run _ _ _ _ (later (elapsed 1%nat) (later (elapsed 0%nat) w)))).
  cbn [later w_now]. fold secret t0 t1 t2 log. rewrite Hlog. cbn [Z.eqb Pos.eqb negb]. rewrite print_bind, Hes.
  rewrite (program_bind_Done _ _ _ _ _ _ (entry_lines_run _ _ _ Hlen)), print_bind.
  rewrite (expr_Ok _ _ _ {| AuditLog.secret := secret; entries := [e0; rewritten; e2] |}).
  2: { unfold AuditMain.set_Action. rewrite Hes, He1. reflexivity. }
  apply Verify_chained in Hlog. rewrite Hes in Hlog. change (AuditLog.secret log) with secret in Hlog.
  unfold Verify. cbn [AuditLog.secret entries]. rewrite (Verify_rewritten secret e0 e1 e2 rewritten Hlog eq_refl).
  by case_bool_decide.
Qed.
End audit.

(** *** [examples/migrate_cbc_to_gcm] *)

Section migration.
Import Recipes MigrationMain.

Lemma truncate_Ok ct : truncate ct 32 = Ok (take 32 ct).
Proof.
  unfold truncate. destruct (Z.leb_spec (len ct) 32) as [H|H].
  - rewrite take_ge; [done|]. unfold len in H. lia.
  - by rewrite slice_Ok, drop_0 by lia.
Qed.

Definition row_line : bytes * bytes -> line := fun '(id, ct) => Printf (fmt "  %s = %s...\n") [VText id; VText (take 32 ct)].

Lemma each_run {A} (f : A -> program unit) (g : A -> line) l w :
  (forall a, a ∈ l -> f a w = (Done tt, [g a], w)) -> each l f w = (Done tt, map g l, w).
Proof.
  induction l as [|a l IH]; intros H; [done|]. cbn [each map].
  rewrite (program_bind_Done _ _ _ tt [g a] w) by (apply H; by left). rewrite IH; [done|]. intros b Hb. apply H. by right.
Qed.

Lemma print_rows l w : each l print_row w = (Done tt, map row_line l, w).
Proof. apply each_run. intros [id ct] _. unfold print_row. by rewrite (expr_Ok _ _ _ _ (truncate_Ok ct)). Qed.

(** The loop of [main] is [Recipes.migrate], with the lines of the errors it counts. *)
Lemma migrate_id_agrees m id w :
  panics (migrate_row key m id w).1 = false ->
  exists l m', migrate_row key m id w = (Ok m', (migrate_id m id w).2) /\ migrate_id m id w = (Done m', l, (migrate_id m id w).2) /\
    errored m' = errored m + len l.
Proof.
  unfold migrate_row, migrate_id. destruct (rows m !! id) as [ct|]; [|intros _; exists [], m; by rewrite len_nil, Z.add_0_r].
  cbv zeta. unfold mbind at 1 2, program_bind, call, lift.
  destruct (OpenAuto key ct []) as [p|e|s]; [|intros _; do 2 eexists; done|done].
  unfold mbind, program_bind, call. destruct (Aead.Seal key p [] w) as [[ct'|e|s] w1]; [|intros _; do 2 eexists; done|done].
  intros _. case_bool_decide; exists []; eexists; (split; [reflexivity|]); (split; [reflexivity|]); cbn [errored]; rewrite len_nil; lia.
Qed.

Lemma migrate_ids_agree m ids w :
  panics (migrate key m ids w).1 = false ->
  exists l m' w', migrate key m ids w = (Ok m', w') /\ migrate_ids m ids w = (Done m', l, w') /\ errored m' = errored m + len l.
Proof.
  revert m w. induction ids as [|id ids IH]; intros m w Hp; [exists [], m, w; by rewrite len_nil, Z.add_0_r|].
  cbn [migrate migrate_ids] in *. destruct (migrate_id_agrees m id w) as (l1 & m1 & Hr & Hm & He1).
  { revert Hp. unfold mbind, M_bind. by destruct (migrate_row key m id w) as [[?|?|?] ?]. }
  set (w1 := (migrate_id m id w).2) in *. rewrite (M_bind_Ok _ _ _ _ _ Hr) in Hp |- *.
  destruct (IH m1 w1 Hp) as (l & m2 & w2 & Hr2 & Hm2 & He2). exists (l1 ++ l), m2, w2. split; [done|].
  rewrite (program_bind_Done _ _ _ _ _ _ Hm), Hm2. split; [done|]. rewrite len_app. lia.
Qed.

(** A row that a reader of both formats opens becomes an AEAD text of the same plaintext. *)
Lemma migrate_id_run m id ct p w :
  rows m !! id = Some ct -> OpenAuto key ct [] = Ok p -> len p <= gcm_max -> has_random 12 w ->
  exists ct' m' w', migrate_id m id w = (Done m', [], w') /\ after_random 12 w w' /\
    rows m' = <[id := ct']> (rows m) /\ Aead.Open key ct' [] = Ok p /\
    migrated m' + skipped m' = migrated m + skipped m + 1 /\ errored m' = errored m.
Proof.
  intros Hid Ho Hp Hw. destruct (Seal_Open_run key p [] w) as (ct' & w' & Hs & Ha & Hopen); [done..|].
  exists ct'. unfold migrate_id. rewrite Hid. cbv zeta. rewrite (call_Ok _ _ _ p w) by (unfold lift; by rewrite Ho).
  rewrite (call_Ok _ _ _ _ _ Hs). case_bool_decide as E; eexists _, w'; (split; [reflexivity|]); (split; [done|]);
    cbn [rows migrated skipped errored]; (split; [|split; [done|lia]]); [|done]. subst ct'. by rewrite insert_id.
Qed.

(** Table [db] holds the plaintexts [pts] under the reader [open]. *)
Definition holds (open : bytes -> outcome bytes) (pts db : gmap bytes bytes) : Prop :=
  forall id, match pts !! id, db !! id with
             | Some p, Some ct => open ct = Ok p /\ len p <= gcm_max
             | None, None => True
             | _, _ => False
             end.

Lemma holds_insert open pts db id p ct :
  holds open pts db -> open ct = Ok p -> len p <= gcm_max -> holds open (<[id := p]> pts) (<[id := ct]> db).
Proof.
  intros H Ho Hp i. destruct (decide (i = id)) as [->|Hi]; [by rewrite !lookup_insert_eq|].
  rewrite !lookup_insert_ne by done. apply H.
Qed.

Lemma migrate_ids_run pts m ids w :
  NoDup ids -> (forall id, id ∈ ids -> is_Some (pts !! id)) -> holds (fun ct => OpenAuto key ct []) pts (rows m) ->
  has_random (12 * len ids) w ->
  exists m' w', migrate_ids m ids w = (Done m', [], w') /\ after_random (12 * len ids) w w' /\
    migrated m' + skipped m' = migrated m + skipped m + len ids /\ errored m' = errored m /\
    (forall id, id ∉ ids -> rows m' !! id = rows m !! id) /\
    (forall id, id ∈ ids -> exists p ct, pts !! id = Some p /\ rows m' !! id = Some ct /\ Aead.Open key ct [] = Ok p /\ len p <= gcm_max).
Proof.
  intros Hnd. revert m w. induction Hnd as [|id ids Hid _ IH]; intros m w Hin Hdb Hw.
  { exists m, w. split; [done|]. split; [by split; [rewrite drop_0|]|]. split; [rewrite len_nil; lia|]. split; [done|].
    split; [done|]. by intros id Hid%elem_of_nil. }
  pose proof (len_nonneg ids). rewrite len_cons in *. cbn [migrate_ids].
  pose proof (Hdb id) as Hrow. destruct (Hin id) as [p Hp]; [by left|]. rewrite Hp in Hrow.
  destruct (rows m !! id) as [ct|] eqn:Hct; [|done]. destruct Hrow as [Ho Hl].
  destruct (migrate_id_run m id ct p w Hct Ho Hl) as (ct' & m1 & w1 & Hr & Ha & Hrows & Hopen & Hsum & He);
    [eapply has_random_le; [|exact Hw]; lia|].
  rewrite (program_bind_Done _ _ _ _ _ _ Hr).
  destruct (IH m1 w1) as (m2 & w2 & -> & Ha2 & Hsum2 & He2 & Hout & Hopens).
  { intros i Hi. apply Hin. by right. }
  { rewrite Hrows, <- (insert_id pts id p Hp). apply holds_insert; [done| |done]. by apply OpenAuto_of_Open. }
  { eapply (has_random_after 12); [..|exact Ha|]; [done|lia|]. by replace (12 + 12 * len ids) with (12 * (len ids + 1)) by lia. }
  exists m2, w2. split; [done|]. split.
  { replace (12 * (len ids + 1)) with (12 + 12 * len ids) by lia. eapply after_random_trans; [done|lia|exact Ha|exact Ha2]. }
  split; [lia|]. split; [lia|]. split.
  - intros i [Hne Hi]%not_elem_of_cons. by rewrite Hout, Hrows, lookup_insert_ne.
  - intros i [->|Hi]%elem_of_cons; [|by apply Hopens]. exists p, ct'. split; [done|].
    by rewrite Hout, Hrows, lookup_insert_eq.
Qed.

(** What [setup] stores, by row. *)
Fixpoint setup_rows (i : Z) (pts : list bytes) (db : gmap bytes bytes) : gmap bytes bytes :=
  match pts with [] => db | p :: pts' => setup_rows (i + 1) pts' (<[lit "row_" ++ Itoa i := p]> db) end.

Lemma setup_run i pts plain db w :
  Forall (fun p => len p <= gcm_max) pts -> holds (fun ct => OpenAuto key ct []) plain db -> has_random (16 * len pts) w ->
  exists db' w', setup i pts db w = (Done db', [], w') /\ after_random (16 * len pts) w w' /\
    holds (fun ct => OpenAuto key ct []) (setup_rows i pts plain) db'.
Proof.
  intros Hl. revert i plain db w. induction Hl as [|p pts Hp _ IH]; intros i plain db w Hdb Hw.
  { exists db, w. split; [done|]. by split; [split; [rewrite drop_0|]|]. }
  pose proof (len_nonneg pts). rewrite len_cons in *. cbn [setup setup_rows].
  destruct (EncryptCBC_run key p w) as (ct & w1 & Hs & Ha & _); [done|eapply has_random_le; [|exact Hw]; lia|].
  rewrite (must_Ok _ _ _ _ _ Hs).
  destruct (IH (i + 1) (<[lit "row_" ++ Itoa i := p]> plain) (<[lit "row_" ++ Itoa i := ct]> db) w1) as (db' & w2 & Hr & Ha2 & Hd).
  { apply holds_insert; [done| |done]. by apply (OpenAuto_of_CBC key p w _ w1). }
  { eapply (has_random_after 16); [..|exact Ha|]; [done|lia|]. by replace (16 + 16 * len pts) with (16 * (len pts + 1)) by lia. }
  exists db', w2. split; [done|]. split; [|done].
  replace (16 * (len pts + 1)) with (16 + 16 * len pts) by lia. eapply after_random_trans; [done|lia|exact Ha|exact Ha2].
Qed.

(** The table of the example, by row. *)
Definition secrets : gmap bytes bytes := <[lit "row_3" := lit "sk_live_dddd4444"]> (setup_rows 0 plaintexts ∅).

Lemma holds_dom open pts db : holds open pts db -> dom db = dom pts.
Proof.
  intros H. apply set_eq. intros id. specialize (H id). rewrite !elem_of_dom.
  destruct (pts !! id), (db !! id); try done; split; eauto; by intros [].
Qed.

(** The ids a loop visits. *)
Lemma visited_ids (order : list (bytes * bytes) -> list (bytes * bytes)) (db : gmap bytes bytes) :
  (forall l, order l ≡ₚ l) ->
  NoDup (map fst (order (map_to_list db))) /\ len (map fst (order (map_to_list db))) = Z.of_nat (size (dom db)) /\
  (forall id, id ∈ map fst (order (map_to_list db)) <-> is_Some (db !! id)).
Proof.
  intros Hord. assert (Hp : map fst (order (map_to_list db)) ≡ₚ map fst (map_to_list db)) by (by rewrite Hord).
  split; [rewrite Hp; apply NoDup_fst_map_to_list|]. split.
  - unfold len. rewrite Hp, length_map, length_map_to_list. by rewrite size_dom.
  - intros id. rewrite Hp. rewrite <- elem_of_dom. rewrite <- (elem_of_elements (dom db)).
    rewrite elem_of_elements, elem_of_dom, list_elem_of_fmap. split.
    + intros ([i x] & -> & Hin%elem_of_map_to_list). eauto.
    + intros [x Hx]. exists (id, x). split; [done|]. by apply elem_of_map_to_list.
Qed.

(** [examples/migrate_cbc_to_gcm], for every order in which the four loops visit the map. With 108 random bytes no row
    is counted as an error: the two other counters add up to the four rows, whatever the order, and after
    the migration the check prints the plaintext of every row, read with [Open] alone. *)
Theorem migrate_cbc_to_gcm_prints order w :
  has_random 108 w -> (forall i l, order i l ≡ₚ l) ->
  exists db m w', after_random 108 w w' /\ errored m = 0 /\ migrated m + skipped m = 4 /\
    dom db = dom secrets /\ dom (rows m) = dom secrets /\
    MigrationMain.main order w = (Done tt,
      [Printf (fmt "--- before migration ---\n") []] ++ map row_line (order 0%nat (map_to_list db)) ++
      [Printf (fmt "\n--- migration result ---\n") [];
       Printf (fmt "migrated: %d\nskipped:  %d\nerrored:  %d\n\n") [VInt (migrated m); VInt (skipped m); VInt 0];
       Printf (fmt "--- after migration ---\n") []] ++ map row_line (order 2%nat (map_to_list (rows m))) ++
      [Printf (fmt "\n--- sanity check (all rows decrypt with crypt.Open) ---\n") []] ++
      map (fun '(id, _) => Printf (fmt "  %s = %s\n") [VText id; VText (default [] (secrets !! id))]) (order 3%nat (map_to_list (rows m))), w').
Proof.
  intros Hw Hord.
  destruct (setup_run 0 plaintexts ∅ ∅ w) as (db0 & w1 & Hset & Ha1 & Hdb0);
    [by repeat constructor; vm_compute|done|by eapply has_random_le; [|exact Hw]|].
  assert (Hw1 : has_random 60 w1) by (by apply (has_random_after 48 60 w)).
  destruct (Seal_Open_run key (lit "sk_live_dddd4444") [] w1) as (ct3 & w2 & Hs & Ha2 & Ho3);
    [done|by vm_compute|by eapply has_random_le; [|exact Hw1]|].
  set (db := <[lit "row_3" := ct3]> db0).
  assert (Hdb : holds (fun ct => OpenAuto key ct []) secrets db)
    by (apply holds_insert; [done|by apply OpenAuto_of_Open|by vm_compute]).
  destruct (visited_ids (order 1%nat) db (Hord 1%nat)) as (Hnd & Hlen & Hin).
  rewrite (holds_dom _ _ _ Hdb) in Hlen. change (Z.of_nat (size (dom secrets))) with 4 in Hlen.
  set (ids := map fst (order 1%nat (map_to_list db))) in *.
  destruct (migrate_ids_run secrets {| rows := db; migrated := 0; skipped := 0; errored := 0 |} ids w2)
    as (m & w3 & Hm & Ha3 & Hsum & He & Hout & Hopens); [done| |done|rewrite Hlen; by apply (has_random_after 12 48 w1)|].
  { intros id Hid%Hin. specialize (Hdb id). destruct Hid as [ct Hct]. rewrite Hct in Hdb.
    destruct (secrets !! id); [eauto|done]. }
  cbn [rows migrated skipped errored] in *. rewrite Hlen in *.
  assert (Hfin : holds (fun ct => Aead.Open key ct []) secrets (rows m)).
  { intros id. destruct (decide (id ∈ ids)) as [Hid|Hid].
    - destruct (Hopens id Hid) as (p & ct & -> & -> & H). done.
    - specialize (Hdb id). rewrite (Hout id Hid). rewrite Hin, <- not_eq_None_Some in Hid.
      destruct (db !! id); [by destruct Hid|done]. }
  exists db, m, w3. split.
  { apply (after_random_trans 48 60 w w1); [done..|]. by apply (after_random_trans 12 48 w1 w2). }
  split; [done|]. split; [lia|]. split; [by apply (holds_dom _ _ _ Hdb)|]. split; [by apply (holds_dom _ _ _ Hfin)|].
  unfold MigrationMain.main. rewrite (program_bind_Done _ _ _ _ _ _ Hset), (ignore_Ok _ _ _ _ _ _ Hs). fold db.
  cbv zeta. rewrite print_bind, (program_bind_Done _ _ _ _ _ _ (print_rows _ _)). fold ids.
  rewrite (program_bind_Done _ _ _ _ _ _ Hm), !print_bind, (program_bind_Done _ _ _ _ _ _ (print_rows _ _)), print_bind, He.
  rewrite (each_run _ (fun '(id, _) => Printf (fmt "  %s = %s\n") [VText id; VText (default [] (secrets !! id))])); [done|].
  intros [id ct] Hrow%(elem_of_Permutation_proper _ _ _ (Hord _ _))%elem_of_map_to_list.
  specialize (Hfin id). rewrite Hrow in Hfin. destruct (secrets !! id) as [p|]; [|done]. destruct Hfin as [Hp _].
  unfold check_row. by rewrite (call_Ok _ _ _ p w3) by (unfold lift; by rewrite Hp).
Qed.
End migration.

Definition long_world : world := {| w_rand := {| rd_data := [replicate 128 x5a]; rd_err := EOF |}; w_now := 0 |}.

Lemma migrate_cbc_to_gcm_prints_witness : (MigrationMain.main (fun _ l => l) long_world).1.1 = Done tt.
Proof.
  destruct (migrate_cbc_to_gcm_prints (fun _ l => l) long_world) as (db & m & w' & _ & _ & _ & _ & _ & ->);
    [by vm_compute|done|reflexivity].
Defined.

(** *** [examples/bcrypt_migration] *)

Section login.
Import Accounts.
Context (IDKey : bytes -> bytes -> Z -> Z -> Z -> Z -> outcome bytes) `{!ArgonOk IDKey}.

(** The key [HashPassword] derives with the salt the random source is about to give. *)
Definition derive (w : world) (q : bytes) : outcome bytes :=
  IDKey q (next_random 16 w) argonTimeCost argonMemoryKiB argonParallel argonKeyLen.

Lemma VerifyPassword_of_hash pw w s w' q :
  HashPassword IDKey pw w = (Ok s, w') ->
  VerifyPassword IDKey q s = Ok (bool_decide (derive w q = derive w pw)).
Proof.
  intros H. destruct (HashPassword_Ok IDKey pw w s w' H) as (Hw & _).
  destruct (HashPassword_spec IDKey pw w Hw) as (s' & w1 & H' & _ & _ & _ & Hd).
  rewrite H' in H. injection H as <- _. destruct (Hd q) as (b & -> & Hb). f_equal.
  unfold derive. destruct b; symmetry; [by apply bool_decide_eq_true_2, Hb|].
  apply bool_decide_eq_false_2. by intros E%Hb.
Qed.

(** The result is at least as long as its fixed front. *)
Lemma HashPassword_front pw w s w' :
  HashPassword IDKey pw w = (Ok s, w') -> slice s 0 18 = Ok (lit "$argon2id$v=19$m=6").
Proof.
  unfold HashPassword. intros (salt & w1 & _ & H)%M_bind_Ok_inv. apply M_lift_bind_inv in H as (k & _ & [= <- _]).
  assert (exists r, formatPHC salt k = lit "$argon2id$v=19$m=6" ++ r) as [r ->].
  { exists (lit "5536,t=2,p=1$" ++ EncodeToString RawStdEncoding salt ++ lit "$" ++ EncodeToString RawStdEncoding k). reflexivity. }
  pose proof (len_nonneg r). rewrite slice_Ok by (rewrite ?len_app; change (len (lit _)) with 18; lia).
  by rewrite drop_0, take_app_len.
Qed.

(** [examples/bcrypt_migration] over any bcrypt and argon2id. Once the legacy hash is made and 16 random bytes are
    left, the first login replaces it, the second one succeeds on the new hash, and the last line appears
    exactly when "wrong" derives another key. *)
Theorem bcrypt_migration_prints Generate Compare `{!BcryptOk Generate Compare} w h w1 :
  HashPasswordBcrypt Generate (lit "correct-horse-battery-staple") DefaultBcryptCost w = (Ok h, w1) ->
  HasPrefix h (lit "$2") = true -> 7 <= len h -> has_random 16 w1 ->
  exists w', after_random 16 w1 w' /\ BcryptMain.main IDKey Generate Compare w = (Done tt,
    [Printf (fmt "user before login: hash starts with %s\n\n") [VText (take 7 h)];
     Printf (fmt "  rehashed %s from bcrypt to argon2id\n") [VText (lit "alice@example.com")];
     Printf (fmt "user after login:  hash starts with %s\n\n") [VText (lit "$argon2id$v=19$m=6")];
     Printf (fmt "subsequent login: argon2id verify ok\n") []] ++
    (if bool_decide (derive w1 (lit "wrong") = derive w1 (lit "correct-horse-battery-staple")) then []
     else [Printf (fmt "wrong password: %v\n") [VErr (Errorf "invalid credentials")]]), w').
Proof.
  intros Hh Hp Hl Hw. destruct (HashPassword_spec IDKey (lit "correct-horse-battery-staple") w1 Hw) as (s & w' & Hs & Ha & _).
  destruct (HashPassword_Ok IDKey _ _ _ _ Hs) as (_ & Hpre & _). exists w'. split; [done|].
  destruct (Bcrypt_ok Generate Compare _ _ _ _ _ Hh) as (_ & _ & Hv).
  assert (H2 : HasPrefix s (lit "$2") = false) by (apply HasPrefix_spec in Hpre as [r ->]; reflexivity).
  assert (Ha2 : HasPrefix s (lit "$argon2") = true) by (apply HasPrefix_spec in Hpre as [r ->]; reflexivity).
  set (u := {| Accounts.Email := lit "alice@example.com"; Accounts.PasswordHash := s |}).
  assert (Hlog : forall q, BcryptMain.login_call IDKey Compare u q w' =
    (Done (if bool_decide (derive w1 q = derive w1 (lit "correct-horse-battery-staple")) then inl tt
           else inr (Errorf "invalid credentials"), u), [], w')).
  { intros q. unfold BcryptMain.login_call, BcryptMigration.loginAndRehash. cbn [Accounts.PasswordHash u].
    rewrite H2, Ha2, (VerifyPassword_of_hash _ _ _ _ _ Hs). by case_bool_decide. }
  unfold BcryptMain.main. rewrite (must_Ok _ _ _ _ _ Hh). cbv zeta. cbn [Accounts.PasswordHash].
  rewrite (expr_Ok _ _ _ (take 7 h)) by (by rewrite slice_Ok, drop_0 by lia). rewrite print_bind.
  rewrite (program_bind_Done _ _ _ (inl tt, u) [Printf (fmt "  rehashed %s from bcrypt to argon2id\n") [VText (lit "alice@example.com")]] w').
  2: { unfold BcryptMain.login_call, BcryptMigration.loginAndRehash. cbn [Accounts.PasswordHash]. by rewrite Hp, Hv, Hs. }
  fold u. unfold check. cbv beta iota. rewrite ret_bind, (expr_Ok _ _ _ _ (HashPassword_front _ _ _ _ Hs)), print_bind.
  rewrite (program_bind_Done _ _ _ _ _ _ (Hlog _)), bool_decide_eq_true_2 by done. cbv beta iota.
  rewrite ret_bind, print_bind, (program_bind_Done _ _ _ _ _ _ (Hlog _)). by case_bool_decide.
Qed.
End login.

Lemma bcrypt_migration_prints_witness : (BcryptMain.main demo_IDKey plain_Generate plain_Compare demo_world).1.1 = Done tt.
Proof.
  destruct (bcrypt_migration_prints demo_IDKey plain_Generate plain_Compare demo_world
    (lit "$2a$correct-horse-battery-staple") demo_world) as (w' & _ & ->); [done|done|by vm_compute..|reflexivity].
Defined.

(** *** [examples/hash_password] *)

(** [examples/hash_password] over any argon2id. With 16 random bytes the program stores the hash, logs in with the
    right password, refuses an unknown address and refuses the other password exactly when it derives
    another key; without them it reports the failed registration and prints nothing else. *)
Theorem hash_password_prints IDKey `{!ArgonOk IDKey} w :
  let pw := lit "correct horse battery staple" in
  (has_random 16 w -> exists s w', HashPassword IDKey pw w = (Ok s, w') /\ PasswordMain.main IDKey w = (Done tt,
    [Printf (fmt "registered: alice\n") [];
     Printf (fmt "stored hash: %s\n\n") [VText s];
     Printf (fmt "login (right password): ok\n") []] ++
    (if bool_decide (derive IDKey w (lit "Tr0ub4dor&3") = derive IDKey w pw) then []
     else [Printf (fmt "login (wrong password): %v\n") [VErr (ErrorString "invalid credentials")]]) ++
    [Printf (fmt "login (unknown email): %v\n") [VErr (ErrorString "invalid credentials")]], w')) /\
  (~ has_random 16 w -> exists e w', PasswordMain.main IDKey w = (Done tt, [Printf (fmt "register: %v\n") [VErr e]], w')).
Proof.
  intros pw. unfold PasswordMain.main. split.
  - intros Hw. destruct (HashPassword_spec IDKey pw w Hw) as (s & w' & Hs & _). exists s, w'. split; [done|].
    set (us := {[lit "alice@example.com" := {| Accounts.Email := lit "alice@example.com"; Accounts.PasswordHash := s |}]} : Accounts.Registry.users).
    rewrite (program_bind_Done _ _ _ (inl tt, us) [] w').
    2: { unfold PasswordMain.register_call, Accounts.Registry.register. rewrite lookup_empty. fold pw. by rewrite Hs. }
    assert (Hlog : forall q, Accounts.Registry.login IDKey (lit "alice@example.com") q us =
      if bool_decide (derive IDKey w q = derive IDKey w pw) then Ok tt else Err (ErrorString "invalid credentials")).
    { intros q. unfold Accounts.Registry.login, us. rewrite lookup_singleton_eq. cbn [Accounts.PasswordHash].
      rewrite (VerifyPassword_of_hash _ _ _ _ _ q Hs). cbn [map_err mbind outcome_bind]. by case_bool_decide. }
    cbv beta iota. rewrite print_bind.
    rewrite (deref_Ok _ _ _ {| Accounts.Email := lit "alice@example.com"; Accounts.PasswordHash := s |}) by
      (unfold us; by rewrite lookup_singleton_eq).
    rewrite print_bind. cbn [Accounts.PasswordHash]. rewrite !Hlog. fold pw. rewrite (bool_decide_eq_true_2 (derive IDKey w pw = derive IDKey w pw)) by done.
    rewrite (call_Ok _ _ _ tt w') by done. rewrite print_bind.
    erewrite print_error_bind; [|reflexivity|by case_bool_decide].
    change (Accounts.Registry.login IDKey (lit "bob@example.com") (lit "anything") us) with (Err (ErrorString "invalid credentials") : outcome unit).
    by case_bool_decide.
  - intros Hw. destruct (ReadRand_Err 16 w) as (e & w' & Hr); [done..|]. eexists _, w'.
    erewrite (program_bind_Done _ _ _ (inr _, _) [] w'); [reflexivity|].
    unfold PasswordMain.register_call, Accounts.Registry.register. rewrite lookup_empty. unfold HashPassword.
    change argonSaltLen with 16. erewrite M_bind_Err by (apply map_errM_Err, Hr). reflexivity.
Qed.

Lemma hash_password_prints_witness : (PasswordMain.main demo_IDKey demo_world).1.1 = Done tt.
Proof.
  destruct (proj1 (hash_password_prints demo_IDKey demo_world)) as (s & w' & _ & ->); [by vm_compute|reflexivity].
Defined.
