(* ===== verification/WebPrograms.v ===== *)
(** * Example programs on HTTP: what their [main] functions print

    [examples/api_key_check] and [examples/encrypted_cookie], from the first line to the last: the test
    server is its handler, and every request reaches it. *)

From Stdlib Require Import Strings.String.
From S2P Require Import Http Prelude Errors GoIO Console Cipher Format Aead Json TimeLock Sign Sessions Services.

(** ** An API key *)

Module ApiKeyMain.
Import ApiKeyCheck.

Definition expectedKey : bytes := lit "internal-api-key-from-config".
Definition mux : bytes -> Handler := ServeMux (fun w _ => NotFound w) [(lit "/internal/health", health)].

(** [http.DefaultClient.Do(req)] for a path of the server. *)
Definition Do (path : bytes) (r : request) : response := requireAPIKey expectedKey (mux path) new_response r.

Definition main : program unit :=
  let req := Header_Set new_request (lit "X-API-Key") (lit "internal-api-key-from-config") in
  let resp := Do (lit "/internal/health") req in
  _ ← print (fmt "with correct key:   %d %s") [VInt (status resp); VBody (body resp)];
  let req := Header_Set new_request (lit "X-API-Key") (lit "wrong") in
  let resp := Do (lit "/internal/health") req in
  _ ← print (fmt "with wrong key:     %d %s") [VInt (status resp); VBody (body resp)];
  let resp := Do (lit "/internal/health") new_request in
  print (fmt "with missing key:   %d %s") [VInt (status resp); VBody (body resp)].

End ApiKeyMain.

(** ** A session cookie *)

Module CookieMain.
Import EncryptedCookie.

Definition mux (sealer : Sealer.Sealer) : bytes -> request -> M response :=
  ServeMux (fun _ => mret (NotFound new_response))
    [(lit "/login", fun _ => handle_login sealer); (lit "/me", handle_me sealer)].

(** A [Get] of a client with a jar at the time of the call, and what it keeps of the answer; [d] is how long the
    answer takes. *)
Definition Get (sealer : Sealer.Sealer) (j : jar) (path : bytes) (d : Z) : program (response * jar) :=
  now ← must time_Now;
  resp ← must (mux sealer path {| r_headers := ∅; r_cookies := jar_Cookies j now |});
  _ ← pass d;
  now ← must time_Now;
  mret (resp, jar_SetCookies j (cookies resp) now).

(** [elapsed i] is the time the i-th answer takes, and [idle i] the time before the next request. *)
Definition main (elapsed idle : nat -> Z) : program unit :=
  sealer ← expr (Sealer.NewSealer (lit "01234567890123456789012345678901"));
  '(resp, j) ← Get sealer ∅ (lit "/login") (elapsed 0%nat);
  _ ← print (fmt "GET /login → %d\n") [VInt (status resp)];
  _ ← pass (idle 0%nat);
  '(resp, j) ← Get sealer j (lit "/me") (elapsed 1%nat);
  _ ← print (fmt "GET /me        → %d %s") [VInt (status resp); VBody (body resp)];
  _ ← pass (idle 1%nat);
  '(resp, _) ← Get sealer ∅ (lit "/me") (elapsed 2%nat);
  print (fmt "GET /me (none) → %d %s") [VInt (status resp); VBody (body resp)].

End CookieMain.

(** ** Properties *)

(** [examples/api_key_check]: the health page for the right key, 401 for another key and for none. *)
Theorem api_key_check_prints w :
  ApiKeyMain.main w = (Done tt, [
    Printf (fmt "with correct key:   %d %s") [VInt 200; VBody [Text (fmt "ok\n")]];
    Printf (fmt "with wrong key:     %d %s") [VInt 401; VBody [Text (lit "unauthorized"); Text [x0a]]];
    Printf (fmt "with missing key:   %d %s") [VInt 401; VBody [Text (lit "unauthorized"); Text [x0a]]]], w).
Proof.
  unfold ApiKeyMain.main, ApiKeyMain.Do. cbv zeta. rewrite !(proj1 (requireAPIKey_exact _ _ _ _)).
  rewrite !print_bind. reflexivity.
Qed.

(** *** [examples/encrypted_cookie] *)

Section cookies.
Import EncryptedCookie CookieMain.
Context (sl : Sealer.Sealer) (Hsl : Sealer.NewSealer (lit "01234567890123456789012345678901") = Ok sl).

(** A jar that holds one cookie at most. *)
Lemma one_cookie name v e now :
  jar_Cookies {[name := (v, e)]} now = if alive now e then [(name, v)] else [].
Proof.
  unfold jar_Cookies. rewrite map_to_list_singleton. cbn [List.filter]. by destruct (alive now e).
Qed.

(** A call that ends: what [Get] returns, and when. *)
Lemma Get_run (j : jar) (path : bytes) (d : Z) (w : world) (r : response) (w' : world) (f : response * jar -> program unit) :
  mux sl path {| r_headers := ∅; r_cookies := jar_Cookies j (w_now w) |} w = (Ok r, w') ->
  (Get sl j path d ≫= f) w = f (r, jar_SetCookies j (cookies r) (w_now w' + d)) (later d w').
Proof.
  intros Hm. assert (Hg : Get sl j path d w = (Done (r, jar_SetCookies j (cookies r) (w_now w' + d)), [], later d w')).
  { unfold Get. rewrite (must_Ok _ _ w (w_now w) w) by done. rewrite (must_Ok _ _ _ _ _ Hm), pass_bind.
    by rewrite (must_Ok _ _ _ (w_now w' + d) (later d w')) by done. }
  rewrite (program_bind_Done _ _ _ _ _ _ Hg). by destruct (f _ _) as [[? ?] ?].
Qed.

Lemma me_without_cookie w : mux sl (lit "/me") {| r_headers := ∅; r_cookies := jar_Cookies ∅ (w_now w) |} w =
  (Ok {| status := 401; cookies := []; body := [ErrorText (Errorf "no session"); Text [x0a]] |}, w).
Proof. reflexivity. Qed.

End cookies.

(** [examples/encrypted_cookie], whatever time the answers and the pauses take, between the years 1601 and 9999. With
    12 random bytes the login answers 200, and [/me] greets the user exactly when the jar still sends the
    cookie, that is before the second an hour after the login; the cookie expires in the jar no later than the
    session in it, so "session expired" is never printed. Without randomness the login answers 500. The request
    without a jar is always refused with "no session". *)
Theorem encrypted_cookie_prints elapsed idle w :
  let t := w_now w in
  let now := t + elapsed 0%nat + idle 0%nat in
  (forall i, 0 <= elapsed i /\ 0 <= idle i) -> -11644473600 <= Unix t -> Unix t + 3600 < 253402300800 ->
  let no_session := [VInt 401; VBody [ErrorText (Errorf "no session"); Text [x0a]]] in
  let code := if decide (12 <= len (rd_bytes (w_rand w))) then 200 else 500 in
  exists w', CookieMain.main elapsed idle w = (Done tt, [
    Printf (fmt "GET /login → %d\n") [VInt code];
    Printf (fmt "GET /me        → %d %s")
      (if (code =? 200) && (now <? (Unix t + 3600) * Second)
       then [VInt 200; VBody [Text (fmt "you are usr_42\n")]] else no_session);
    Printf (fmt "GET /me (none) → %d %s") no_session], w').
Proof.
  intros t now Htime Hlo Hhi no_session code.
  destruct (proj2 (Sealer_equivalent (lit "01234567890123456789012345678901")) eq_refl) as (sl & Hsl & _).
  destruct (cookie_session _ sl Hsl w) as (Hok & Hfail & _); [split; fold t; lia|].
  unfold CookieMain.main. rewrite (expr_Ok _ _ _ _ Hsl). unfold code. case_decide as Hw.
  - destruct (Hok Hw) as (r & w1 & c & Hr & Ht1 & Hst & Hc & Hn & He & _ & Hme). rewrite (Get_run sl _ _ _ w r w1) by exact Hr.
    rewrite print_bind, pass_bind, Hst, Hc.
    set (w2 := later (idle 0%nat) (later (elapsed 0%nat) w1)).
    assert (Hnow : w_now w2 = now) by (unfold w2, now; cbn [later w_now]; lia).
    assert (Hj : jar_Cookies (jar_SetCookies ∅ [c] (w_now w1 + elapsed 0%nat)) now =
      if now <? (Unix t + 3600) * Second then r_cookies (sent_back r) else []).
    { cbn [jar_SetCookies foldl]. rewrite He, Hn. fold t.
      assert (wire_Expires (t + Hour) = Some ((Unix t + 3600) * Second)) as ->.
      { unfold wire_Expires. change (10 ^ 9) with Second. fold (Unix (t + Hour)). change Hour with (3600 * Second).
        rewrite Unix_add. by rewrite (proj2 (Z.leb_le _ _)), (proj2 (Z.ltb_lt _ _)) by lia. }
      unfold alive. pose proof (Htime 0%nat). rewrite Ht1. fold t.
      destruct (Z.ltb_spec (t + elapsed 0%nat) ((Unix t + 3600) * Second)) as [H1|H1].
      - rewrite insert_empty, one_cookie. unfold sent_back. rewrite Hc. cbn [map r_cookies]. rewrite Hn. done.
      - rewrite delete_empty, (proj2 (Z.ltb_ge _ _)) by (unfold now; lia). reflexivity. }
    assert (Hmux : CookieMain.mux sl (lit "/me") {| r_headers := ∅; r_cookies := jar_Cookies (jar_SetCookies ∅ [c] (w_now w1 + elapsed 0%nat)) (w_now w2) |} w2 =
      (Ok (if now <? (Unix t + 3600) * Second
           then {| status := 200; cookies := []; body := [Text (fmt "you are usr_42\n")] |}
           else {| status := 401; cookies := []; body := [ErrorText (Errorf "no session"); Text [x0a]] |}), w2)).
    { rewrite Hnow, Hj. destruct (Z.ltb_spec now ((Unix t + 3600) * Second)) as [H2|H2]; [|apply me_without_cookie].
      change (CookieMain.mux sl (lit "/me") {| r_headers := ∅; r_cookies := r_cookies (sent_back r) |}) with (EncryptedCookie.handle_me sl (sent_back r)).
      rewrite Hme, Hnow. fold t. rewrite (proj2 (Z.leb_gt _ _)); [reflexivity|].
      change (Unix now) with (now / Second). apply Z.div_lt_upper_bound; [done|lia]. }
    eexists. rewrite (Get_run _ _ _ _ _ _ _ _ Hmux), print_bind, pass_bind, (Get_run sl ∅ (lit "/me") _ _ _ _ _ (me_without_cookie sl _)).
    destruct (now <? (Unix t + 3600) * Second); reflexivity.
  - destruct (Hfail Hw) as (r & w1 & Hr & Hst & Hc). rewrite (Get_run sl _ _ _ w r w1) by exact Hr.
    rewrite print_bind, pass_bind, Hst, Hc. change (jar_SetCookies ∅ [] _) with (∅ : jar). eexists.
    rewrite (Get_run sl ∅ (lit "/me") _ _ _ _ _ (me_without_cookie sl _)), print_bind, pass_bind, (Get_run sl ∅ (lit "/me") _ _ _ _ _ (me_without_cookie sl _)).
    reflexivity.
Qed.

Lemma encrypted_cookie_prints_witness :
  (CookieMain.main (fun _ => 0) (fun _ => Hour) demo_world).1.1 = Done tt.
Proof.
  destruct (encrypted_cookie_prints (fun _ => 0) (fun _ => Hour) demo_world) as (w' & ->);
    [done|vm_compute; congruence|by vm_compute|reflexivity].
Defined.
